(* ===== verification/_CoqProject ===== *)
-Q . S2P
Prelude.v
Header.v
Seastar.v
Letter.v
Connection.v
RecvContext.v
Wire.v
Moves.v
Streams.v
Codec.v
Filters.v
Router.v
Server.v
ServerInv.v
ServerUnits.v
ServerClose.v
ServerWrites.v
ServerWire.v
ServerServe.v
Client.v
ClientInv.v
ClientLife.v
ClientWrites.v
ClientWire.v
ClientProps.v
ClientSerial.v
ClientServe.v
ClientRefine.v
System.v
SystemSafety.v
SystemLive.v
SystemTyped.v
Reconnect.v
TypedContext.v
Printer.v
Schema.v
GoGen.v
PythonGen.v
CppGen.v
Codegen.v
RequestIds.v
Logging.v
Doubles.v
Text.v
Histogram.v
Random.v
LoadGen.v
LoadRun.v
Report.v
Benches.v
ServerAdmin.v
ServerMeasure.v
ClientMeasure.v
Apps.v
TestClients.v
