(* ===== verification/Prelude.v ===== *)
(** * smf: a verification development of the smf RPC system

    smf is an RPC system in C++ on the futures of Seastar, with a compiler, smfc,
    that turns FlatBuffers schemas into services and clients.  A message is an
    envelope: a header of 16 bytes (compression, flags, session, size, checksum,
    request id or status) and a body.  The server reads envelopes from each
    connection, limits the memory of what it reads with a semaphore, runs
    filters (compression among them), finds the handler by the request id and
    writes the reply under the session of the request.  The client numbers its
    requests with 16-bit sessions, keeps a promise per session, and resolves it
    when the response arrives.  smfc reads a schema and prints, from templates,
    the code that agrees on these request ids.

    ** The files

    Foundations.
    - Prelude: machine integers with their wrap-around, outcomes of fallible
      code ([Ready], [Failed], [Undefined] for undefined behaviour), the macros
      that throw, shared lemmas and tactics.
    - Seastar: the interface of what is used of Seastar (streams, gates,
      semaphores), with a model of it.

    The wire, under src/src/core and src/src/include/smf.
    - Header: rpc_header_utils.h and the header struct.
    - Letter: rpc_letter, rpc_envelope, rpc_typed_envelope.h, native_type_utils.h.
    - Connection: rpc_connection.h, rpc_connection_limits.h.
    - RecvContext: rpc_recv_context.cc, parsing and all checks.
    - Wire: sending and receiving put together (C5 to C8): round trip, soundness
      of what is accepted, truncated frames.
    - Moves: moved letters and envelopes.
    - Streams: the bytes of a stream as a sequence of envelopes, however they
      are cut into pieces.
    - TypedContext: rpc_recv_typed_context.h, fbs_typed_buf.h (C32).
    - Codec, Filters: compression.cc, rpc_filter.h, lz4_filter.cc,
      zstd_filter.cc (C15, C16, C31), over interfaces for lz4 and zstd.

    The server.
    - Router: rpc_handle_router.cc, rpc_service.h and the code that
      cpp_generator.cc prints for a service (C17).
    - Server: rpc_server.cc and rpc_server_connection.h as a state machine.  An
      event is one continuation run by the reactor; [exec] runs one, and the
      theorems hold for every sequence of events.
    - ServerInv (C21), ServerUnits (C10, C22 and C23, the memory semaphore and
      how it loses units), ServerClose (C20, C24), ServerWrites (C11, replies
      are not interleaved), ServerWire (what a connection has read and written,
      as envelopes), ServerServe (a request is served).
    - ServerAdmin: rpc_server_args.h, start, the HTTP server, the metrics and
      the order of stop; [managed] is a core with these around it (C19).
    - ServerMeasure: the latency histogram of the server, with a clock.

    The client.
    - Client: rpc_client.cc as a state machine, with its promises, readers and
      abandoned reads.
    - ClientInv, ClientLife, ClientProps (C12, C13, C25, C26, C28, C29): each
      promise is resolved once and with its own response; what happens when a
      connection is replaced, with credentials and with memory units, and who
      keeps a connection object alive.
    - ClientWrites, ClientWire: what a connection has written and read, as
      envelopes.
    - ClientSerial (C14): a client that is used for one call at a time.
    - ClientServe: a request is sent, a response delivered.
    - ClientRefine (C9, C27): every execution of the client is one of an abstract
      table of calls; what happens to a call when sessions wrap.
    - ClientMeasure: the rest of rpc_client.h, its latency histogram and its
      move constructor.
    - Reconnect: reconnect_client.h, the backoff and the retry loop (C30).

    Connection objects of the client are never removed from [connections]: a
    write that goes on after [connect] replaced its connection goes on in the
    model, where the source uses an object that was destroyed; [dangling_write]
    of ClientProps says when.

    Client and server together.
    - System: a client and a server joined by the two byte streams of one
      connection, which deliver what is written in pieces of any size.
    - SystemSafety (C1): a completed call has failed or has the result of its
      own envelope.  It uses what ServerWire and ClientWire say of the two ends
      and what Streams says of the bytes between them.
    - SystemLive (C2): a call completes; it composes ServerServe and
      ClientServe.
    - SystemTyped (C3, C4): the call of a generated client method to a generated
      service, with compression, from the table of the argument to the table of
      the result.

    The compiler, under src/src/smfc.
    - Printer: smf_printer.h, substitution of placeholders and indentation; the
      loop is one pass over the template, and when it stops (C33, C34).
    - Schema: smf_method.h, smf_service.h, crc.h, generator.h.
    - GoGen, PythonGen, CppGen: the three generators with their templates.
    - Codegen: codegen.cc and main.cc; the generators return (C35) and success
      means that every file is there with its text (C36).
    - RequestIds: what the C++, Go and Python code print as request id is one
      number (C18), the one Router dispatches on.

    Logging, printing and measuring.
    - Logging: log.h and macros.h, every macro with what it evaluates, what it
      prints and what it throws (C40).
    - Doubles: the arithmetic of double that printing needs, as rationals
      rounded to 53 bits.
    - Text: human_bytes.h, rpc_header_ostream.h, time_utils.h and the
      stream operators of headers, limits and routers.
    - Histogram: histogram.cc, unique_histogram_adder.h (C39).
    - Random: random.cc.
    - LoadGen: load_generator.h, load_channel.h, load_generator_args.h (C37).
    - LoadRun: the load generator with a client behind every channel, for any
      generator of requests and any callback that makes its calls one after the
      other (C38).
    - Report: what a benchmark prints, load_generator_duration.h and
      histogram_seastar_utils.cc.

    The programs.
    - Apps: the services, callbacks and checks of the demo applications and of
      the integration tests, on top of all of the above.
    - TestClients: the clients of the integration tests, and which answers they
      accept.
    - Benches: the unit tests and micro-benchmarks.

    ** Conventions

    A field, function or method has the name of the source; a constructor is
    [<class>_make] and a default-constructed value [<class>0].  Code that is not
    in the repository is a class whose fields are its operations and whose laws
    are what is documented of them: Xxhash, the accessors of the generated
    header (GeneratedHeader), Zstd, Lz4, Seastar, FlatBuffers tables and their
    builder (FlatTable, FlatRoot), HdrHistogram (Hdr), the random generator
    (Rng), boost and the FlatBuffers parser (Libraries, Frontend), the file
    system (FileSystem, and SeastarFile for the files of Seastar), the logger
    of Seastar (SeastarLog), the formatting library fmt (Fmt), the tables generated
    for the demo schema (DemoSchema), a builder that is reused (FlatReuse).  Each
    has an instance, which the witnesses use.  Build is debug or release: DLOG_THROW_IF and assertions are
    compiled in the first only.

    ** Bounds and fuel

    The loop of smf_printer::print that substitutes need not end, so
    [subst_loop] follows it for a number of passes.  C34 states when it ends;
    [min_fuel] (ten passes) is enough for every template of the generators,
    which have fewer placeholders, and C35 shows that more gives the same text.
    [print_loop] has the length of its string plus one as fuel, one round per
    line.  [parse_requests] of Wire takes the number of requests to parse.  The
    state machines have no bound: executions are sequences of any length.

    ** Not modelled

    The bodies of app.run in the programs beyond the parts in Apps and
    TestClients: parsing of the command line by boost, the start of the reactor,
    and the order in which a program starts and stops its services on all cores
    are those of Seastar.  The baselines of the micro-benchmarks that measure a
    library alone (XXH32, malloc), the harness of Google Test and Benchmark, the
    HTTP server of histgen.cc, and the Python scripts that format and run tests.
    The integration test rpc_bad_msg_t only assigns a field of a generated table.
    The clock is a parameter: a time is what an event says it is.  One core is
    modelled; seastar::distributed only copies it. *)

From Stdlib Require Import ZArith Lia.
From stdpp Require Import base gmap list numbers strings.
From coqutil Require Import Byte.

Open Scope Z_scope.

(** ** Scope and notations of the development *)

Declare Scope smf_scope.
Delimit Scope smf_scope with smf.

(** ** Machine integers

    A [w]-bit unsigned value is a [Z] in [0 .. 2^w - 1]; conversions of the
    source (implicit or by [static_cast]) are written with [wrap_u], and
    conversions to a signed type, which is two's complement, with [wrap_s]. *)
Definition wrap_u (w z : Z) : Z := z mod 2 ^ w.
Definition wrap_s (w z : Z) : Z := (z + 2 ^ (w - 1)) mod 2 ^ w - 2 ^ (w - 1).

Abbreviation u8 := (wrap_u 8).
Abbreviation u16 := (wrap_u 16).
Abbreviation u32 := (wrap_u 32).
Abbreviation u64 := (wrap_u 64).
Abbreviation s8 := (wrap_s 8).
Abbreviation s32 := (wrap_s 32).
Abbreviation s64 := (wrap_s 64).

(** [fits_u w z]: [z] is a value of the unsigned [w]-bit type. *)
Definition fits_u (w z : Z) : Prop := 0 <= z < 2 ^ w.
Definition fits_s (w z : Z) : Prop := - 2 ^ (w - 1) <= z < 2 ^ (w - 1).

#[global] Instance fits_u_dec w z : Decision (fits_u w z) := _.
#[global] Instance fits_s_dec w z : Decision (fits_s w z) := _.

#[global] Instance byte_eq_dec : EqDecision byte := Byte.byte_eq_dec.

(** [size_t] length of a buffer. *)
Definition blen {A} (l : list A) : Z := Z.of_nat (length l).

(** Sum of a quantity over the entries of a map. *)
Definition msum {A} (f : A -> Z) (m : gmap Z A) : Z := map_fold (fun _ a acc => f a + acc) 0 m.

(** ** Outcomes of code that may throw

    [Ready a] is a ready [seastar::future] (or a plain return), [Failed e] a
    thrown exception or an exceptional future, and [Undefined] marks an
    execution that C++ leaves undefined (an out-of-range read). *)
Inductive exn :=
| runtime_error (what : string)
| invalid_connection_state
| remote_connection_error
| timed_out_error
| gate_closed_exception
| user_exception (what : string).

Inductive outcome (A : Type) :=
| Ready (a : A)
| Failed (e : exn)
| Undefined.
Arguments Ready {A} a.
Arguments Failed {A} e.
Arguments Undefined {A}.

#[global] Instance exn_eq_dec : EqDecision exn.
Proof. solve_decision. Defined.

#[global] Instance outcome_ret : MRet outcome := @Ready.
#[global] Instance outcome_bind : MBind outcome := fun A B k m =>
  match m with
  | Ready a => k a
  | Failed e => Failed e
  | Undefined => Undefined
  end.

(** The value of a ready future. *)
Definition ready {A} (o : outcome A) : option A := match o with Ready a => Some a | _ => None end.

(** [LOG_THROW_IF(cond, msg)]. *)
Definition LOG_THROW_IF (cond : bool) (msg : string) : outcome unit :=
  if cond then Failed (runtime_error msg) else Ready tt.

(** The build configuration: [NDEBUG] turns every [DLOG_THROW_IF] into a
    no-op and removes [assert]. *)
Class Build := { NDEBUG : bool }.
Definition release_build : Build := {| NDEBUG := true |}.
Definition debug_build : Build := {| NDEBUG := false |}.

Definition DLOG_THROW_IF `{Build} (cond : bool) (msg : string) : outcome unit :=
  if NDEBUG then Ready tt else LOG_THROW_IF cond msg.

(** ** Tactics *)

(** Case analysis on the innermost [match] or [if] of the goal or of the
    hypotheses, keeping the equation. *)
Ltac case_goal :=
  match goal with
  | |- context [match ?x with _ => _ end] =>
      lazymatch x with
      | context [match _ with _ => _ end] => fail
      | _ => destruct x eqn:?
      end
  end.

Ltac case_hyp H :=
  match type of H with
  | context [match ?x with _ => _ end] =>
      lazymatch x with
      | context [match _ with _ => _ end] => fail
      | _ => destruct x eqn:?
      end
  end.

(** Boolean comparisons of the code to propositions, everywhere. *)
Ltac bool_to_prop :=
  repeat match goal with
  | H : (_ =? _)%Z = true |- _ => apply Z.eqb_eq in H
  | H : (_ =? _)%Z = false |- _ => apply Z.eqb_neq in H
  | H : (_ <? _)%Z = true |- _ => apply Z.ltb_lt in H
  | H : (_ <? _)%Z = false |- _ => apply Z.ltb_ge in H
  | H : (_ <=? _)%Z = true |- _ => apply Z.leb_le in H
  | H : (_ <=? _)%Z = false |- _ => apply Z.leb_gt in H
  | H : negb _ = true |- _ => apply negb_true_iff in H
  | H : negb _ = false |- _ => apply negb_false_iff in H
  | H : _ && _ = true |- _ => apply andb_true_iff in H as [? ?]
  | H : _ || _ = false |- _ => apply orb_false_iff in H as [? ?]
  end.

Create HintDb smf.
Create Rewrite HintDb smf.

(** ** Lemmas on machine integers *)

Lemma wrap_u_small w z : fits_u w z -> wrap_u w z = z.
Proof. unfold fits_u, wrap_u. intros. apply Z.mod_small. lia. Qed.

Lemma wrap_u_fits w z : 0 <= w -> fits_u w (wrap_u w z).
Proof. intros. apply Z.mod_pos_bound. apply Z.pow_pos_nonneg; lia. Qed.

Lemma wrap_s_small w z : 0 < w -> fits_s w z -> wrap_s w z = z.
Proof.
  unfold fits_s, wrap_s. intros Hw Hz.
  assert (2 ^ w = 2 * 2 ^ (w - 1)) as E.
  { rewrite <- Z.pow_succ_r by lia. f_equal. lia. }
  rewrite Z.mod_small; lia.
Qed.

Lemma wrap_s_fits w z : 0 < w -> fits_s w (wrap_s w z).
Proof.
  unfold fits_s, wrap_s. intros Hw.
  assert (2 ^ w = 2 * 2 ^ (w - 1)) as E.
  { rewrite <- Z.pow_succ_r by lia. f_equal. lia. }
  pose proof (Z.mod_pos_bound (z + 2 ^ (w - 1)) (2 ^ w)).
  pose proof (Z.pow_pos_nonneg 2 (w - 1)). lia.
Qed.

(** A signed value survives the conversion to unsigned and back. *)
Lemma wrap_s_wrap_u w z : 0 < w -> fits_s w z -> wrap_s w (wrap_u w z) = z.
Proof.
  intros Hw Hz. rewrite <- (wrap_s_small w z) at 2 by done.
  unfold wrap_s, wrap_u. by rewrite Zplus_mod_idemp_l.
Qed.

(** Wrapping an operand of an addition does not change the wrapped sum. *)
Lemma wrap_s_add_l w a b : wrap_s w (wrap_s w a + b) = wrap_s w (a + b).
Proof.
  unfold wrap_s. set (m := 2 ^ w). set (k := 2 ^ (w - 1)).
  replace ((a + k) mod m - k + b + k) with ((a + k) mod m + b) by lia.
  rewrite Zplus_mod_idemp_l. do 2 f_equal. lia.
Qed.

Lemma wrap_s_add_u w a b : wrap_s w (a + wrap_u w b) = wrap_s w (a + b).
Proof.
  unfold wrap_s, wrap_u. set (m := 2 ^ w). set (k := 2 ^ (w - 1)).
  replace (a + b mod m + k) with ((a + k) + b mod m) by lia.
  rewrite Zplus_mod_idemp_r. do 2 f_equal. lia.
Qed.

(** A [uint32_t] read as an [int32_t]. *)
Lemma s32_u32 n : fits_u 32 n -> n < 2 ^ 31 /\ s32 n = n \/ 2 ^ 31 <= n /\ s32 n = n - 2 ^ 32.
Proof.
  unfold fits_u. intros R. destruct (Z_lt_le_dec n (2 ^ 31)) as [L|L].
  - left. split; [done|]. apply wrap_s_small; unfold fits_s; lia.
  - right. split; [done|]. unfold wrap_s. change (32 - 1) with 31.
    rewrite <- (Z.mod_unique (n + 2 ^ 31) (2 ^ 32) 1 (n + 2 ^ 31 - 2 ^ 32)); lia.
Qed.

Lemma wrap_u_add_l w a b : wrap_u w (wrap_u w a + b) = wrap_u w (a + b).
Proof. unfold wrap_u. apply Zplus_mod_idemp_l. Qed.

Lemma wrap_u_idemp w z : wrap_u w (wrap_u w z) = wrap_u w z.
Proof. unfold wrap_u. by rewrite Zmod_mod. Qed.

(** ** Lemmas on lists and outcomes *)

Lemma blen_nonneg {A} (l : list A) : 0 <= blen l.
Proof. unfold blen. lia. Qed.

Lemma blen_app {A} (l k : list A) : blen (l ++ k) = blen l + blen k.
Proof. unfold blen. rewrite length_app. lia. Qed.

Lemma blen_nil_iff {A} (l : list A) : blen l = 0 <-> l = [].
Proof. unfold blen. destruct l; simpl; split; intros; try done; lia. Qed.

Lemma take_blen {A} (l : list A) : take (Z.to_nat (blen l)) l = l.
Proof. unfold blen. rewrite Nat2Z.id. apply take_ge. lia. Qed.

Lemma outcome_bind_Ready {A B} (m : outcome A) (k : A -> outcome B) b :
  m ≫= k = Ready b <-> exists a, m = Ready a /\ k a = Ready b.
Proof. destruct m; simpl; split; try (by eauto); by intros (? & [= ->] & ?). Qed.

Lemma LOG_THROW_IF_Ready c msg u : LOG_THROW_IF c msg = Ready u <-> c = false.
Proof. by destruct c, u. Qed.

Lemma LOG_THROW_IF_Failed c msg e :
  LOG_THROW_IF c msg = Failed e <-> c = true /\ e = runtime_error msg.
Proof. destruct c; simpl; split; [intros [= <-]|intros [? ->]|..|intros [? ?]]; done. Qed.

(** ** Sums over maps *)

Section msum.
Context {A : Type} (f : A -> Z).
Implicit Types m : gmap Z A.

Lemma msum_empty : msum f ∅ = 0.
Proof. apply map_fold_empty. Qed.

Lemma msum_insert m i x : m !! i = None -> msum f (<[i := x]> m) = f x + msum f m.
Proof. intros N. unfold msum. rewrite map_fold_insert_L; [done|intros; lia|done]. Qed.

Lemma msum_delete m i x : m !! i = Some x -> msum f (delete i m) = msum f m - f x.
Proof.
  intros E. rewrite <- (insert_delete_id m i x) at 2 by done.
  rewrite msum_insert by apply lookup_delete_eq. lia.
Qed.

Lemma msum_update m i x y : m !! i = Some x -> msum f (<[i := y]> m) = msum f m - f x + f y.
Proof.
  intros E. rewrite <- insert_delete_eq, msum_insert by apply lookup_delete_eq.
  rewrite (msum_delete _ _ x) by done. lia.
Qed.

Lemma msum_alter m i x g : m !! i = Some x -> msum f (alter g i m) = msum f m - f x + f (g x).
Proof.
  intros E. rewrite <- (msum_update m i x (g x) E). f_equal. apply map_eq. intros j.
  rewrite lookup_alter, lookup_insert. case_decide; [by subst; rewrite E|done].
Qed.

Lemma msum_nonneg m : map_Forall (fun _ a => 0 <= f a) m -> 0 <= msum f m.
Proof.
  induction m as [|i x m N IH] using map_ind; intros F; [by rewrite msum_empty|].
  apply map_Forall_insert in F as [? F]; [|done]. rewrite msum_insert by done.
  apply IH in F. lia.
Qed.

Lemma msum_le (g : A -> Z) m : map_Forall (fun _ a => f a <= g a) m -> msum f m <= msum g m.
Proof.
  induction m as [|i x m N IH] using map_ind; intros F; [unfold msum; by rewrite !map_fold_empty|].
  apply map_Forall_insert in F as [? F]; [|done]. specialize (IH F). unfold msum in *.
  rewrite !map_fold_insert_L by (done || intros; lia). lia.
Qed.

Lemma msum_zero m : msum (fun _ => 0) m = 0.
Proof.
  unfold msum. induction m as [|i x m N IH] using map_ind; [by rewrite map_fold_empty|].
  rewrite map_fold_insert_L by (done || intros; lia). lia.
Qed.

(** An entry is at most the sum of non-negative entries. *)
Lemma msum_ge m i x :
  map_Forall (fun _ a => 0 <= f a) m -> m !! i = Some x -> f x <= msum f m.
Proof.
  intros F E. pose proof (msum_delete m i x E).
  assert (0 <= msum f (delete i m)); [|lia].
  apply msum_nonneg. by apply map_Forall_delete.
Qed.

Lemma msum_ge2 m i j x y :
  map_Forall (fun _ a => 0 <= f a) m -> m !! i = Some x -> m !! j = Some y -> i <> j ->
  f x + f y <= msum f m.
Proof.
  intros F E E' N. pose proof (msum_delete m i x E).
  assert (f y <= msum f (delete i m)); [|lia].
  apply (msum_ge _ j); [by apply map_Forall_delete|by rewrite lookup_delete_ne].
Qed.
End msum.

#[export] Hint Resolve wrap_u_fits wrap_s_fits blen_nonneg : smf.
#[export] Hint Rewrite @blen_app @take_blen : smf.

(** An equation between closed terms, checked by the virtual machine without
    normalising the types of its sides. *)
Ltac vm_refl := lazymatch goal with |- _ = ?y => vm_cast_no_check (eq_refl y) end.

(** Decides a closed goal about the definitions by evaluating it. *)
Ltac vm_decide := vm_compute; repeat split; first [reflexivity | discriminate | congruence | done].
