(* ===== verification/Header.v ===== *)
(** * The wire header and the payload checksum

    [rpc::header] of src/src/core/rpc.fbs (a FlatBuffers struct: 16 bytes,
    little endian, in the declared order) and src/src/include/smf/rpc_header_utils.h.
    The C++ class is generated from the schema by [flatc]; what the sources use
    of it is its layout, its accessors and its mutators. *)

From Stdlib Require Import ZArith Lia.
From stdpp Require Import base list numbers strings.
From coqutil Require Import Byte Word.LittleEndianList.
From S2P Require Import Prelude.

(** [enum compression_flags : byte]. *)
Inductive compression_flags :=
| compression_flags_none
| compression_flags_disabled
| compression_flags_zstd
| compression_flags_lz4.

#[global] Instance compression_flags_eq_dec : EqDecision compression_flags.
Proof. solve_decision. Defined.

Definition flag_value (f : compression_flags) : Z :=
  match f with
  | compression_flags_none => 0
  | compression_flags_disabled => 1
  | compression_flags_zstd => 2
  | compression_flags_lz4 => 3
  end.

Definition compression_flags_MAX : Z := flag_value compression_flags_lz4.

(** [enum header_bit_flags : ubyte (bit_flags)]: the first flag is bit 0. *)
Definition header_bit_flags_has_payload_headers : Z := 1.

(** [struct header], the stored fields: an [int8_t], a [uint8_t], a
    [uint16_t] and three [uint32_t]. *)
Record header := mk_header {
  compression_ : Z;
  bitflags : Z;
  session : Z;
  hsize : Z;
  checksum : Z;
  meta : Z
}.

#[global] Instance header_eq_dec : EqDecision header.
Proof. solve_decision. Defined.

(** [rpc::header()]. *)
Definition header0 : header := mk_header 0 0 0 0 0 0.

(** A header holds values of its field types. *)
Definition header_wf (h : header) : Prop :=
  fits_s 8 (compression_ h) /\ fits_u 8 (bitflags h) /\ fits_u 16 (session h) /\
  fits_u 32 (hsize h) /\ fits_u 32 (checksum h) /\ fits_u 32 (meta h).

#[global] Instance header_wf_dec h : Decision (header_wf h) := _.

(** The generated accessor [compression()] converts the stored [int8_t] to
    the enumeration; which integer a negative byte converts to depends on the
    underlying type [flatc] gives the enumeration, so the conversion is a
    parameter: on the non-negative bytes it is the identity. *)
Class GeneratedHeader := {
  compression_value : Z -> Z;
  compression_value_id c : 0 <= c < 128 -> compression_value c = c
}.

Definition int8_enum : GeneratedHeader :=
  {| compression_value := fun c => c; compression_value_id := fun _ _ => eq_refl |}.

Definition compression `{GeneratedHeader} (h : header) : Z := compression_value (compression_ h).

Definition mutate_compression (f : compression_flags) (h : header) : header :=
  mk_header (flag_value f) (bitflags h) (session h) (hsize h) (checksum h) (meta h).
Definition mutate_session (s : Z) (h : header) : header :=
  mk_header (compression_ h) (bitflags h) (u16 s) (hsize h) (checksum h) (meta h).
Definition mutate_size (n : Z) (h : header) : header :=
  mk_header (compression_ h) (bitflags h) (session h) (u32 n) (checksum h) (meta h).
Definition mutate_checksum (x : Z) (h : header) : header :=
  mk_header (compression_ h) (bitflags h) (session h) (hsize h) (u32 x) (meta h).
Definition mutate_meta (m : Z) (h : header) : header :=
  mk_header (compression_ h) (bitflags h) (session h) (hsize h) (checksum h) (u32 m).

(** [sizeof(rpc::header)]. *)
Definition kHeaderSize : Z := 16.

(** The memory image of a header, what [memcpy(dst, &hdr, sizeof(hdr))] copies. *)
Definition header_to_bytes (h : header) : list byte :=
  le_split 1 (compression_ h) ++ le_split 1 (bitflags h) ++ le_split 2 (session h) ++
  le_split 4 (hsize h) ++ le_split 4 (checksum h) ++ le_split 4 (meta h).

(** Field of [n] bytes at offset [off]. *)
Definition field (off n : nat) (bs : list byte) : Z := le_combine (take n (drop off bs)).

(** The header a 16-byte buffer holds, what [memcpy(&hdr, src, sizeof(hdr))] reads. *)
Definition header_of_bytes (bs : list byte) : header :=
  mk_header (s8 (field 0 1 bs)) (field 1 1 bs) (field 2 2 bs)
            (field 4 4 bs) (field 8 4 bs) (field 12 4 bs).

(** ** rpc_header_utils.h *)

(** [XXH64(ptr, len, seed)] of the xxhash library hashes [len] bytes. *)
Class Xxhash := { XXH64 : list byte -> Z -> Z }.

Definition rpc_checksum_payload `{Xxhash} (payload : list byte) (size : Z) : Z :=
  Z.land (2 ^ 32 - 1) (XXH64 (take (Z.to_nat size) payload) 0).

(** [size] is a [uint32_t]: the callers' [size_t] is converted on the call. *)
Definition checksum_rpc `{Xxhash} (hdr : header) (payload : list byte) (size : Z) : header :=
  mutate_size (u32 size) (mutate_checksum (rpc_checksum_payload payload (u32 size)) hdr).

(** ** Lemmas *)

Lemma flag_value_range f : 0 <= flag_value f <= compression_flags_MAX.
Proof. destruct f; unfold compression_flags_MAX; simpl; lia. Qed.

Lemma flag_value_inj f g : flag_value f = flag_value g -> f = g.
Proof. by destruct f, g. Qed.

Lemma compression_mutate `{GeneratedHeader} f h :
  compression (mutate_compression f h) = flag_value f.
Proof.
  unfold compression. simpl. apply compression_value_id. destruct f; simpl; lia.
Qed.

Lemma compression_flag `{GeneratedHeader} f h :
  compression_ h = flag_value f -> compression h = flag_value f.
Proof.
  unfold compression. intros ->. apply compression_value_id. destruct f; simpl; lia.
Qed.

Lemma checksum_fits `{Xxhash} p n : fits_u 32 (rpc_checksum_payload p n).
Proof.
  unfold rpc_checksum_payload. rewrite Z.land_comm.
  change (2 ^ 32 - 1) with (Z.ones 32). rewrite Z.land_ones by lia.
  apply wrap_u_fits. lia.
Qed.

Lemma field_app off k n (p r : list byte) :
  length p = off -> field (off + k) n (p ++ r) = field k n r.
Proof.
  intros <-. unfold field. rewrite <- drop_drop. by rewrite drop_app_length.
Qed.

Lemma field_le_split n z (r : list byte) :
  field 0 n (le_split n z ++ r) = z mod 2 ^ (Z.of_nat n * 8).
Proof.
  unfold field. rewrite drop_0, take_app_length' by by rewrite length_le_split.
  apply le_combine_split.
Qed.

Lemma field_bound off n bs :
  length (take n (drop off bs)) = n -> fits_u (8 * Z.of_nat n) (field off n bs).
Proof.
  unfold field, fits_u. intros E.
  pose proof (le_combine_bound (take n (drop off bs))) as B. by rewrite E in B.
Qed.

Lemma header_to_bytes_length h : length (header_to_bytes h) = 16%nat.
Proof. unfold header_to_bytes. by rewrite !length_app, !length_le_split. Qed.

Lemma header_to_bytes_blen h : blen (header_to_bytes h) = kHeaderSize.
Proof. unfold blen. by rewrite header_to_bytes_length. Qed.

(** What a reader finds at each offset of an image followed by [r]. *)
Lemma header_of_to_bytes h r :
  header_wf h -> header_of_bytes (header_to_bytes h ++ r) = h.
Proof.
  intros (Hc & Hb & Hs & Hz & Hk & Hm). unfold header_of_bytes, header_to_bytes.
  rewrite <- !app_assoc.
  assert (forall n z, length (le_split n z) = n) as L by apply length_le_split.
  rewrite field_le_split.
  rewrite (field_app 1 0 1), field_le_split by apply L.
  rewrite (field_app 1 1 2), (field_app 1 0 2), field_le_split by apply L.
  rewrite (field_app 1 3 4), (field_app 1 2 4), (field_app 2 0 4), field_le_split by apply L.
  rewrite (field_app 1 7 4), (field_app 1 6 4), (field_app 2 4 4), (field_app 4 0 4),
    field_le_split by apply L.
  rewrite (field_app 1 11 4), (field_app 1 10 4), (field_app 2 8 4), (field_app 4 4 4),
    (field_app 4 0 4), field_le_split by apply L.
  change (Z.of_nat 1 * 8) with 8. change (Z.of_nat 2 * 8) with 16.
  change (Z.of_nat 4 * 8) with 32. pose proof (wrap_s_wrap_u 8 (compression_ h)) as E. unfold wrap_u in E.
  unfold fits_u in *. rewrite E, !Z.mod_small by (try lia; done). by destruct h.
Qed.

Lemma header_of_bytes_wf bs : length bs = 16%nat -> header_wf (header_of_bytes bs).
Proof.
  intros L. unfold header_wf, header_of_bytes; simpl.
  assert (forall off n, (off + n <= 16)%nat -> length (take n (drop off bs)) = n) as T.
  { intros. rewrite length_take, length_drop. lia. }
  split; [apply wrap_s_fits; lia|].
  split; [apply (field_bound 1 1), T; lia|].
  split; [apply (field_bound 2 2), T; lia|].
  split; [apply (field_bound 4 4), T; lia|].
  split; [apply (field_bound 8 4)|apply (field_bound 12 4)]; apply T; lia.
Qed.

(** Mutators keep the fields in their types. *)
Ltac solve_header_wf :=
  intros (? & ? & ? & ? & ? & ?); unfold header_wf; simpl; split_and!;
  first [done | apply wrap_u_fits; lia].

Lemma mutate_compression_wf f h : header_wf h -> header_wf (mutate_compression f h).
Proof.
  intros (? & ? & ? & ? & ? & ?). unfold header_wf. simpl. split_and!; try done.
  destruct f; unfold fits_s; simpl; lia.
Qed.

Lemma mutate_meta_wf m h : header_wf h -> header_wf (mutate_meta m h).
Proof. solve_header_wf. Qed.

Lemma mutate_session_wf m h : header_wf h -> header_wf (mutate_session m h).
Proof. solve_header_wf. Qed.

Lemma checksum_rpc_wf `{Xxhash} h p n : header_wf h -> header_wf (checksum_rpc h p n).
Proof. solve_header_wf. Qed.

Lemma checksum_rpc_checksum `{Xxhash} h p n :
  checksum (checksum_rpc h p n) = rpc_checksum_payload p (u32 n).
Proof. simpl. apply wrap_u_small, checksum_fits. Qed.

Lemma checksum_rpc_size `{Xxhash} h p n : hsize (checksum_rpc h p n) = u32 n.
Proof. simpl. apply wrap_u_idemp. Qed.

#[export] Hint Resolve header_to_bytes_length header_of_bytes_wf checksum_rpc_wf
  checksum_fits mutate_compression_wf mutate_meta_wf mutate_session_wf : smf.
