(* ===== verification/Seastar.v ===== *)
(** * The seastar primitives the sources call

    smf is written against seastar (streams, semaphores, gates), whose code is
    not part of the repository.  The class [Seastar] names the operations the
    sources use with the documented behaviour they rely on; every component is
    modelled over an arbitrary instance.  [seastar_model] is a concrete
    instance, on which witnesses evaluate. *)

From Stdlib Require Import ZArith Lia.
From stdpp Require Import base list numbers strings.
From coqutil Require Import Byte.
From S2P Require Import Prelude.

Class Seastar := {
  (** [input_stream<char>]: [pending] are the bytes the peer sent that were not
      read yet, [finished] that it sends no more, [eof] what [eof()] returns. *)
  istream : Type;
  pending : istream -> list byte;
  finished : istream -> bool;
  eof : istream -> bool;
  (** [read_exactly(n)] once its future resolves; [None]: it does not resolve
      before more bytes or the end of the stream arrive. *)
  read_exactly : istream -> Z -> option (list byte * istream);
  read_exactly_full s n : 0 <= n <= blen (pending s) ->
    exists s', read_exactly s n = Some (take (Z.to_nat n) (pending s), s') /\
      pending s' = drop (Z.to_nat n) (pending s) /\
      finished s' = finished s /\ eof s' = eof s;
  read_exactly_short s n : blen (pending s) < n -> finished s = true ->
    exists s', read_exactly s n = Some (pending s, s') /\
      pending s' = [] /\ finished s' = true /\ eof s' = true;
  read_exactly_block s n : blen (pending s) < n -> finished s = false ->
    read_exactly s n = None;
  (** [connected_socket::shutdown_input]: reads find the end of the stream,
      after at most what was buffered; [eof()] changes only when a read finds it. *)
  shutdown_input : istream -> istream;
  shutdown_input_spec s : finished (shutdown_input s) = true /\ eof (shutdown_input s) = eof s;
  shutdown_input_pending s : pending (shutdown_input s) `prefix_of` pending s;
  (** [output_stream<char>]: [written] are the bytes handed to the stream, in
      order; a broken connection makes the futures fail. *)
  ostream : Type;
  written : ostream -> list byte;
  owrite : ostream -> list byte -> outcome ostream;
  oflush : ostream -> outcome ostream;
  owrite_written o b o' : owrite o b = Ready o' -> written o' = written o ++ b;
  oflush_written o o' : oflush o = Ready o' -> written o' = written o;
  (** [connected_socket::shutdown_output]: nothing is taken back; what is written
      afterwards may fail. *)
  shutdown_output : ostream -> ostream;
  shutdown_output_written o : written (shutdown_output o) = written o;
  (** [semaphore]: a signed 64-bit counter of units.  [sem_wait s n] is the
      state after [wait(n)] is granted; [None]: not enough units, the fiber
      waits.  [sem_signal] takes a [size_t]. *)
  semaphore : Type;
  sem_make : Z -> semaphore;
  sem_count : semaphore -> Z;
  sem_wait : semaphore -> Z -> option semaphore;
  sem_signal : semaphore -> Z -> semaphore;
  sem_make_count n : fits_s 64 n -> sem_count (sem_make n) = n;
  sem_wait_granted s n s' : sem_wait s n = Some s' ->
    n <= sem_count s /\ sem_count s' = sem_count s - n;
  sem_wait_refused s n : sem_wait s n = None <-> sem_count s < n;
  sem_signal_count s n : sem_count (sem_signal s n) = s64 (sem_count s + n);
  (** [gate]: [enter] throws once the gate is closed; [close] resolves when
      every fiber that entered has left. *)
  gate : Type;
  gate_new : gate;
  gate_count : gate -> Z;
  gate_is_closed : gate -> bool;
  gate_enter : gate -> outcome gate;
  gate_leave : gate -> gate;
  gate_close : gate -> gate;
  gate_new_spec : gate_count gate_new = 0 /\ gate_is_closed gate_new = false;
  gate_enter_open g : gate_is_closed g = false ->
    exists g', gate_enter g = Ready g' /\ gate_count g' = gate_count g + 1 /\
      gate_is_closed g' = false;
  gate_enter_closed g : gate_is_closed g = true ->
    gate_enter g = Failed gate_closed_exception;
  gate_leave_spec g : gate_count (gate_leave g) = gate_count g - 1 /\
    gate_is_closed (gate_leave g) = gate_is_closed g;
  gate_close_spec g : gate_count (gate_close g) = gate_count g /\
    gate_is_closed (gate_close g) = true
}.

(** ** A concrete instance *)

Record stream_state := mk_stream { st_bytes : list byte; st_finished : bool; st_eof : bool }.

Definition stream_read (s : stream_state) (n : Z) : option (list byte * stream_state) :=
  if (n <=? blen (st_bytes s)) && (0 <=? n) then
    Some (take (Z.to_nat n) (st_bytes s),
          mk_stream (drop (Z.to_nat n) (st_bytes s)) (st_finished s) (st_eof s))
  else if st_finished s then Some (st_bytes s, mk_stream [] true true)
  else None.

Definition count_wait (c n : Z) : option Z := if n <=? c then Some (c - n) else None.

Definition gate_enter_model (g : Z * bool) : outcome (Z * bool) :=
  if g.2 then Failed gate_closed_exception else Ready (g.1 + 1, false).

Lemma stream_read_full s n : 0 <= n <= blen (st_bytes s) ->
  exists s', stream_read s n = Some (take (Z.to_nat n) (st_bytes s), s') /\
    st_bytes s' = drop (Z.to_nat n) (st_bytes s) /\
    st_finished s' = st_finished s /\ st_eof s' = st_eof s.
Proof.
  intros [Hn Hl]. unfold stream_read.
  rewrite (proj2 (Z.leb_le _ _) Hl), (proj2 (Z.leb_le _ _) Hn). eauto.
Qed.

Lemma stream_read_short s n : blen (st_bytes s) < n -> st_finished s = true ->
  exists s', stream_read s n = Some (st_bytes s, s') /\
    st_bytes s' = [] /\ st_finished s' = true /\ st_eof s' = true.
Proof. intros Hl F. unfold stream_read. rewrite (proj2 (Z.leb_gt _ _) Hl), F. eauto. Qed.

Lemma stream_read_block s n : blen (st_bytes s) < n -> st_finished s = false ->
  stream_read s n = None.
Proof. intros Hl F. unfold stream_read. by rewrite (proj2 (Z.leb_gt _ _) Hl), F. Qed.

Lemma count_wait_granted s n s' : count_wait s n = Some s' -> n <= s /\ s' = s - n.
Proof. unfold count_wait. destruct (Z.leb_spec n s); naive_solver. Qed.

Lemma count_wait_refused s n : count_wait s n = None <-> s < n.
Proof. unfold count_wait. destruct (Z.leb_spec n s); split; intros; try done; lia. Qed.

Lemma gate_enter_model_open g : g.2 = false ->
  exists g', gate_enter_model g = Ready g' /\ g'.1 = g.1 + 1 /\ g'.2 = false.
Proof. destruct g as [c cl]. simpl. intros ->. unfold gate_enter_model. simpl. eauto. Qed.

Lemma gate_enter_model_closed g : g.2 = true -> gate_enter_model g = Failed gate_closed_exception.
Proof. destruct g as [c cl]. simpl. by intros ->. Qed.

Lemma ready_app (o b o' : list byte) : Ready (o ++ b) = Ready o' -> o' = o ++ b.
Proof. congruence. Qed.

Lemma ready_id (o o' : list byte) : Ready o = Ready o' -> o' = o.
Proof. congruence. Qed.

Definition seastar_model : Seastar := {|
  istream := stream_state;
  pending := st_bytes;
  finished := st_finished;
  eof := st_eof;
  read_exactly := stream_read;
  read_exactly_full := stream_read_full;
  read_exactly_short := stream_read_short;
  read_exactly_block := stream_read_block;
  shutdown_input := fun s => mk_stream (st_bytes s) true (st_eof s);
  shutdown_input_spec := fun _ => conj eq_refl eq_refl;
  shutdown_input_pending := fun s => reflexivity (st_bytes s);
  ostream := list byte;
  written := fun o => o;
  owrite := fun o b => Ready (o ++ b);
  oflush := fun o => Ready o;
  owrite_written := ready_app;
  oflush_written := ready_id;
  shutdown_output := fun o => o;
  shutdown_output_written := fun _ => eq_refl;
  semaphore := Z;
  sem_make := fun n => n;
  sem_count := fun c => c;
  sem_wait := count_wait;
  sem_signal := fun c n => s64 (c + n);
  sem_make_count := fun _ _ => eq_refl;
  sem_wait_granted := count_wait_granted;
  sem_wait_refused := count_wait_refused;
  sem_signal_count := fun _ _ => eq_refl;
  gate := (Z * bool)%type;
  gate_new := (0, false);
  gate_count := fst;
  gate_is_closed := snd;
  gate_enter := gate_enter_model;
  gate_leave := fun g => (g.1 - 1, g.2);
  gate_close := fun g => (g.1, true);
  gate_new_spec := conj eq_refl eq_refl;
  gate_enter_open := gate_enter_model_open;
  gate_enter_closed := gate_enter_model_closed;
  gate_leave_spec := fun _ => conj eq_refl eq_refl;
  gate_close_spec := fun _ => conj eq_refl eq_refl
|}.

(** ** Lemmas *)

Section seastar_lemmas.
Context `{Seastar}.

(** Reading exactly the first part of what is pending. *)
Lemma read_exactly_app s b r :
  pending s = b ++ r ->
  exists s', read_exactly s (blen b) = Some (b, s') /\ pending s' = r /\
    finished s' = finished s /\ eof s' = eof s.
Proof.
  intros P. destruct (read_exactly_full s (blen b)) as (s' & R & P' & F & E).
  { rewrite P, blen_app. pose proof (blen_nonneg b). pose proof (blen_nonneg r). lia. }
  exists s'. unfold blen in *. rewrite P, Nat2Z.id in *.
  rewrite take_app_length in R. rewrite drop_app_length in P'. done.
Qed.

(** A resolved read returns a prefix of the pending bytes, of the length asked
    for unless the stream ended. *)
Lemma read_exactly_inv s n b s' :
  0 <= n -> read_exactly s n = Some (b, s') ->
  pending s = b ++ pending s' /\ (blen b = n \/ blen b < n /\ eof s' = true).
Proof.
  intros Hn R. destruct (Z_le_gt_dec n (blen (pending s))) as [L|L].
  - destruct (read_exactly_full s n) as (s1 & R1 & P & _); [lia|].
    rewrite R1 in R. simplify_eq. rewrite P, take_drop. split; [done|left].
    unfold blen in *. rewrite length_take. lia.
  - destruct (finished s) eqn:F.
    + destruct (read_exactly_short s n) as (s1 & R1 & P & _ & E); [lia|done|].
      rewrite R1 in R. simplify_eq. rewrite P, app_nil_r. split; [done|right; lia || (split; [lia|done])].
    + rewrite read_exactly_block in R by (lia || done). done.
Qed.

(** Only a short read makes [eof()] true. *)
Lemma read_exactly_eof s n b s' :
  0 <= n -> read_exactly s n = Some (b, s') -> blen b < n \/ blen b = n /\ eof s' = eof s.
Proof.
  intros Hn R. destruct (read_exactly_inv s n b s' Hn R) as [P [L|[L _]]]; [|by left].
  right. split; [done|]. destruct (read_exactly_full s n) as (s1 & R1 & _ & _ & E).
  { rewrite P, blen_app, L. pose proof (blen_nonneg (pending s')). lia. }
  rewrite R1 in R. by simplify_eq.
Qed.

(** Units taken by a granted [wait] come back with [signal]. *)
Lemma sem_wait_signal s n s' :
  sem_wait s n = Some s' -> fits_s 64 (sem_count s) ->
  sem_count (sem_signal s' n) = sem_count s.
Proof.
  intros W F. apply sem_wait_granted in W as [_ E].
  rewrite sem_signal_count, E. replace (sem_count s - n + n) with (sem_count s) by lia.
  apply wrap_s_small; [lia|done].
Qed.
End seastar_lemmas.
