(* ===== verification/Letter.v ===== *)
(** * Letters and envelopes

    src/src/core/rpc_letter.cc, src/src/core/rpc_envelope.cc and the headers
    rpc_letter.h, rpc_envelope.h, rpc_typed_envelope.h, native_type_utils.h and
    futurize_utils.h of src/src/include/smf: the outgoing messages, how a typed
    message becomes bytes, and how an envelope is written to a stream. *)

From Stdlib Require Import ZArith Lia.
From stdpp Require Import base gmap list numbers strings.
From coqutil Require Import Byte.
From S2P Require Import Prelude Header Seastar.

(** [struct rpc_letter]. *)
Record rpc_letter := mk_letter {
  lheader : header;
  dynamic_headers : gmap string string;
  body : list byte
}.

(** [rpc_letter::rpc_letter()]. *)
Definition rpc_letter0 : rpc_letter := mk_letter header0 ∅ [].

(** [rpc_letter::size], the size including the header, and [rpc_letter::empty]. *)
Definition rpc_letter_size (l : rpc_letter) : Z := kHeaderSize + blen (body l).
Definition rpc_letter_empty (l : rpc_letter) : bool := blen (body l) =? 0.

(** [rpc_letter::share]: the header and the dynamic headers are copied, the
    body is a second handle on the same bytes. *)
Definition rpc_letter_share (l : rpc_letter) : rpc_letter :=
  mk_letter (lheader l) (dynamic_headers l) (body l).

(** [struct rpc_envelope]. *)
Record rpc_envelope := mk_envelope { letter : rpc_letter }.

Definition rpc_envelope0 : rpc_envelope := mk_envelope rpc_letter0.

Definition map_header (f : header -> header) (e : rpc_envelope) : rpc_envelope :=
  mk_envelope (mk_letter (f (lheader (letter e))) (dynamic_headers (letter e)) (body (letter e))).
Definition with_body (b : list byte) (e : rpc_envelope) : rpc_envelope :=
  mk_envelope (mk_letter (lheader (letter e)) (dynamic_headers (letter e)) b).

Definition set_request_id (request_id : Z) (e : rpc_envelope) : rpc_envelope :=
  map_header (mutate_meta request_id) e.
Definition set_status (status : Z) (e : rpc_envelope) : rpc_envelope :=
  map_header (mutate_meta status) e.
Definition rpc_envelope_size (e : rpc_envelope) : Z := rpc_letter_size (letter e).
Definition rpc_envelope_share (e : rpc_envelope) : rpc_envelope :=
  mk_envelope (rpc_letter_share (letter e)).

Section envelope.
Context `{Build}.

(** [rpc_envelope::add_dynamic_header]: a null
    pointer is [None].  [emplace] keeps an entry that is already there; building
    a string from a null pointer is undefined. *)
Definition add_dynamic_header (key value : option string) (e : rpc_envelope) : outcome rpc_envelope :=
  DLOG_THROW_IF (bool_decide (is_Some key)) "Cannot add header with empty key" ;;
  DLOG_THROW_IF (bool_decide (is_Some value)) "Cannot add header with empty value" ;;
  match key, value with
  | Some k, Some v =>
      let l := letter e in
      let hs := match dynamic_headers l !! k with
                | Some _ => dynamic_headers l
                | None => <[k := v]> (dynamic_headers l)
                end in
      Ready (mk_envelope (mk_letter (lheader l) hs (body l)))
  | _, _ => Undefined
  end.

Context `{Seastar}.

(** The checks of [rpc_envelope::send]: they throw out of the call itself, before
    there is a future. *)
Definition send_checks (e : rpc_envelope) : outcome unit :=
  DLOG_THROW_IF (hsize (lheader (letter e)) =? 0) "Invalid header size" ;;
  DLOG_THROW_IF (checksum (lheader (letter e)) =? 0) "Invalid header checksum".

(** [rpc_envelope::send]: the header image, then the body, then a flush. *)
Definition send_header (out : ostream) (e : rpc_envelope) : outcome ostream :=
  send_checks e ;;
  owrite out (header_to_bytes (lheader (letter e))).

Definition rpc_envelope_send (out : ostream) (e : rpc_envelope) : outcome ostream :=
  out ← send_header out e;
  out ← owrite out (body (letter e));
  oflush out.

(** Several envelopes sent one after the other. *)
Fixpoint send_all (out : ostream) (es : list rpc_envelope) : outcome ostream :=
  match es with
  | [] => Ready out
  | e :: es => out ← rpc_envelope_send out e; send_all out es
  end.
End envelope.

(** ** Typed envelopes *)

(** A FlatBuffers root type: its native (object API) representation, the
    default-constructed native object, and the builder: [Pack] writes an object
    and gives the offset of its root, [Finish] makes an offset the root of the
    buffer, [Release] hands out the bytes. *)
Class FlatTable := {
  native_type : Type;
  native_default : native_type;
  FlatBufferBuilder : Type;
  FlatBufferBuilder0 : FlatBufferBuilder;
  Pack : FlatBufferBuilder -> native_type -> Z * FlatBufferBuilder;
  Finish : FlatBufferBuilder -> Z -> FlatBufferBuilder;
  Release : FlatBufferBuilder -> list byte
}.

(** [native_table_as_buffer<RootType>(t)]. *)
Definition native_table_as_buffer `{FlatTable} (t : native_type) : list byte :=
  let bdr := FlatBufferBuilder0 in
  let '(root, bdr) := Pack bdr t in
  let bdr := Finish bdr root in
  Release bdr.

(** [rpc_typed_envelope<RootType>]; [data] is a [unique_ptr]. *)
Record rpc_typed_envelope `{FlatTable} := mk_typed {
  envelope : rpc_envelope;
  data : option native_type
}.

Section typed.
Context `{FlatTable, Xxhash}.

Definition rpc_typed_envelope0 : rpc_typed_envelope :=
  mk_typed _ rpc_envelope0 (Some native_default).

(** [serialize_data]: packs the data into the body, stamps size and checksum,
    drops the data and hands out the envelope.  Dereferencing the dropped data
    (a second call) is undefined. *)
Definition serialize_data (t : rpc_typed_envelope) : outcome (rpc_envelope * rpc_typed_envelope) :=
  match data t with
  | None => Undefined
  | Some d =>
      let b := native_table_as_buffer d in
      let e := map_header (fun h => checksum_rpc h b (blen b)) (with_body b (envelope t)) in
      Ready (e, mk_typed _ e None)
  end.

(** [futurize_status_for_type<T>(status)]. *)
Definition futurize_status_for_type (status : Z) : outcome rpc_typed_envelope :=
  Ready (mk_typed _ (set_status status (envelope rpc_typed_envelope0)) (data rpc_typed_envelope0)).
End typed.

(** ** What the receiver needs of an envelope

    [framed e]: the header describes the body, and the checks of the receiver
    (src/src/core/rpc_recv_context.cc) pass. *)
Definition max_flatbuffers_size : Z := 2 ^ 31 - 1.

Record framed `{Xxhash} (e : rpc_envelope) : Prop := mk_framed {
  framed_wf : header_wf (lheader (letter e));
  framed_size : hsize (lheader (letter e)) = blen (body (letter e));
  framed_range : 0 < blen (body (letter e)) <= max_flatbuffers_size;
  framed_checksum : checksum (lheader (letter e)) =
    rpc_checksum_payload (body (letter e)) (blen (body (letter e)));
  framed_checksum_pos : checksum (lheader (letter e)) <> 0;
  framed_meta : meta (lheader (letter e)) <> 0;
  framed_bitflags : Z.land (bitflags (lheader (letter e))) header_bit_flags_has_payload_headers = 0;
  framed_compression : exists f, compression_ (lheader (letter e)) = flag_value f
}.

(** ** Lemmas *)

Section send_lemmas.
Context `{Build, Seastar}.

(** The peer takes every byte. *)
Definition healthy : Prop :=
  (forall o b, exists o', owrite o b = Ready o') /\ (forall o, exists o', oflush o = Ready o').

(** The envelope passes the checks of [send]. *)
Definition sendable (e : rpc_envelope) : Prop :=
  hsize (lheader (letter e)) <> 0 /\ checksum (lheader (letter e)) <> 0.

Lemma send_checks_sendable e : sendable e -> send_checks e = Ready tt.
Proof.
  intros [Sz Ck]. unfold send_checks, DLOG_THROW_IF.
  rewrite (proj2 (Z.eqb_neq _ _) Sz), (proj2 (Z.eqb_neq _ _) Ck). by destruct NDEBUG.
Qed.

Lemma send_header_sendable o e :
  sendable e -> send_header o e = owrite o (header_to_bytes (lheader (letter e))).
Proof. intros S. unfold send_header. by rewrite send_checks_sendable. Qed.

Lemma send_header_written out e out' :
  send_header out e = Ready out' ->
  written out' = written out ++ header_to_bytes (lheader (letter e)).
Proof.
  unfold send_header. intros S.
  apply outcome_bind_Ready in S as (_ & _ & S).
  by apply owrite_written.
Qed.

(** A completed send wrote exactly one frame. *)
Lemma rpc_envelope_send_written out e out' :
  rpc_envelope_send out e = Ready out' ->
  written out' = written out ++ header_to_bytes (lheader (letter e)) ++ body (letter e).
Proof.
  unfold rpc_envelope_send. intros S.
  apply outcome_bind_Ready in S as (o1 & W1 & S).
  apply outcome_bind_Ready in S as (o2 & W2 & S).
  apply send_header_written in W1. apply owrite_written in W2. apply oflush_written in S.
  by rewrite S, W2, W1, <- app_assoc.
Qed.

Lemma send_all_written out es out' :
  send_all out es = Ready out' ->
  written out' = written out ++
    concat (map (fun e => header_to_bytes (lheader (letter e)) ++ body (letter e)) es).
Proof.
  revert out. induction es as [|e es IH]; simpl; intros out S.
  - simplify_eq. by rewrite app_nil_r.
  - apply outcome_bind_Ready in S as (o1 & W & S).
    rewrite (IH _ S), (rpc_envelope_send_written _ _ _ W). by rewrite <- !app_assoc.
Qed.
End send_lemmas.
