(* ===== verification/Connection.v ===== *)
(** * Connections and their limits

    src/src/include/smf/rpc_connection.h and rpc_connection_limits.h: the state
    of one TCP connection (its streams, the error history, the enabled flag and
    the counter of active header parsers) and the memory budget shared by the
    connections of a core. *)

From Stdlib Require Import ZArith Lia.
From stdpp Require Import base list numbers strings.
From S2P Require Import Prelude Seastar.

(** [seastar::socket_address]: address and port. *)
Record socket_address := mk_addr { addr_ip : Z; addr_port : Z }.

#[global] Instance socket_address_eq_dec : EqDecision socket_address.
Proof. solve_decision. Defined.

(** [class rpc_connection]. *)
Record rpc_connection `{Seastar} := mk_connection {
  remote_address : socket_address;
  c_istream : istream;
  c_ostream : ostream;
  istream_active_parser : Z;
  error_ : option string;
  enabled_ : bool
}.

(** [struct rpc_connection_limits]; the duration is in milliseconds. *)
Record rpc_connection_limits `{Seastar} := mk_limits {
  max_memory : Z;
  max_body_parsing_duration : Z;
  resources_available : semaphore
}.

Section connection.
Context `{Seastar}.

(** The constructor: a fresh connection over an accepted or connected socket. *)
Definition rpc_connection_make (addr : socket_address) (i : istream) (o : ostream) : rpc_connection :=
  mk_connection _ addr i o 0 None true.

(** Field updates. *)
Definition with_istream (i : istream) (c : rpc_connection) : rpc_connection :=
  mk_connection _ (remote_address c) i (c_ostream c) (istream_active_parser c) (error_ c) (enabled_ c).
Definition with_ostream (o : ostream) (c : rpc_connection) : rpc_connection :=
  mk_connection _ (remote_address c) (c_istream c) o (istream_active_parser c) (error_ c) (enabled_ c).
Definition with_parsers (n : Z) (c : rpc_connection) : rpc_connection :=
  mk_connection _ (remote_address c) (c_istream c) (c_ostream c) n (error_ c) (enabled_ c).

Definition disable (c : rpc_connection) : rpc_connection :=
  mk_connection _ (remote_address c) (c_istream c) (c_ostream c) (istream_active_parser c)
    (error_ c) false.
(** [socket.shutdown_input] and [socket.shutdown_output], called one after the
    other wherever a connection is given up. *)
Definition shutdown (c : rpc_connection) : rpc_connection :=
  with_ostream (shutdown_output (c_ostream c)) (with_istream (shutdown_input (c_istream c)) c).
Definition is_enabled (c : rpc_connection) : bool := enabled_ c.
Definition has_error (c : rpc_connection) : bool := bool_decide (is_Some (error_ c)).
Definition is_valid (c : rpc_connection) : bool :=
  enabled_ c && negb (has_error c) && negb (eof (c_istream c)).

(** [set_error] keeps the history of errors. *)
Definition set_error (e : string) (c : rpc_connection) : rpc_connection :=
  mk_connection _ (remote_address c) (c_istream c) (c_ostream c) (istream_active_parser c)
    (Some match error_ c with
          | None => e
          | Some old => String.append (String.append old " :: ") e
          end)
    (enabled_ c).
Definition get_error (c : rpc_connection) : string := default EmptyString (error_ c).

(** [rpc_connection_limits(max_mem_per_core, body_timeout_duration)]. *)
Definition rpc_connection_limits_make (max_mem_per_core body_timeout : Z) : rpc_connection_limits :=
  mk_limits _ max_mem_per_core body_timeout (sem_make max_mem_per_core).

(** ** Lemmas *)

Lemma has_error_set_error e c : has_error (set_error e c) = true.
Proof. done. Qed.

Lemma set_error_invalid e c : is_valid (set_error e c) = false.
Proof. unfold is_valid. rewrite has_error_set_error. by rewrite andb_false_r. Qed.

Lemma disable_invalid c : is_valid (disable c) = false.
Proof. done. Qed.

Lemma is_valid_spec c :
  is_valid c = true <-> enabled_ c = true /\ error_ c = None /\ eof (c_istream c) = false.
Proof.
  unfold is_valid, has_error. rewrite !andb_true_iff, !negb_true_iff, bool_decide_eq_false.
  rewrite <- eq_None_not_Some. tauto.
Qed.
End connection.

#[export] Hint Rewrite @has_error_set_error @set_error_invalid @disable_invalid : smf.
