(* ===== verification/RecvContext.v ===== *)
(** * Receiving: parsing the header and the payload of a request

    src/src/core/rpc_recv_context.cc and rpc_recv_context.h.  [parse_header]
    and [parse_payload] suspend on [read_exactly]; each is given as the part
    before the read, the part after it ([..._resume]), and their composition on
    the bytes that are pending ([None]: the read has not resolved). *)

From Stdlib Require Import ZArith Lia.
From stdpp Require Import base list numbers strings.
From coqutil Require Import Byte.
From S2P Require Import Prelude Header Seastar Letter Connection.

(** [struct rpc_recv_context], less the pointer to the shared limits. *)
Record rpc_recv_context := mk_ctx {
  ctx_address : socket_address;
  ctx_header : header;
  payload : list byte
}.

Definition request_id (c : rpc_recv_context) : Z := meta (ctx_header c).
Definition status (c : rpc_recv_context) : Z := meta (ctx_header c).
Definition ctx_session (c : rpc_recv_context) : Z := session (ctx_header c).

Section recv.
Context `{Build, GeneratedHeader, Xxhash, Seastar}.

(** The constructor; its [assert] is compiled out under [NDEBUG]. *)
Definition rpc_recv_context_make (addr : socket_address) (hdr : header) (b : list byte) :
    outcome rpc_recv_context :=
  if negb NDEBUG && negb (hsize hdr =? blen b) then Undefined
  else Ready (mk_ctx addr hdr b).

(** The checks on a complete header. *)
Definition check_header (hdr : header) : option header :=
  if hsize hdr =? 0 then None
  else if compression_flags_MAX <? compression hdr then None
  else if checksum hdr <=? 0 then None
  else if meta hdr <=? 0 then None
  else if compression hdr =? flag_value compression_flags_disabled
  then Some (mutate_compression compression_flags_none hdr)
  else Some hdr.

(** The continuation of the header read, [finally] included. *)
Definition parse_header_resume (buf : list byte) (i : istream) (conn : rpc_connection) :
    option header * rpc_connection :=
  let conn := with_parsers (u32 (istream_active_parser conn - 1)) (with_istream i conn) in
  (if negb (kHeaderSize =? blen buf) then None else check_header (header_of_bytes buf), conn).

Definition parse_header_begin (conn : rpc_connection) : outcome rpc_connection :=
  DLOG_THROW_IF (negb (istream_active_parser conn =? 0))
    "without this line you can have interleaved reads on the buffer" ;;
  Ready (with_parsers (u32 (istream_active_parser conn + 1)) conn).

Definition parse_header (conn : rpc_connection) :
    option (outcome (option header * rpc_connection)) :=
  match parse_header_begin conn with
  | Ready conn1 =>
      match read_exactly (c_istream conn1) kHeaderSize with
      | Some (buf, i) => Some (Ready (parse_header_resume buf i conn1))
      | None => None
      end
  | Failed e => Some (Failed e)
  | Undefined => Some Undefined
  end.

(** The checks on the bytes read for a payload. *)
Definition check_payload (addr : socket_address) (hdr : header) (b : list byte) :
    outcome (option rpc_recv_context) :=
  if negb (hsize hdr =? blen b) then Ready None
  else if max_flatbuffers_size <? hsize hdr then Ready None
  else if negb (Z.land (bitflags hdr) header_bit_flags_has_payload_headers =? 0) then Ready None
  else if negb (rpc_checksum_payload b (u32 (blen b)) =? checksum hdr) then Ready None
  else ctx ← rpc_recv_context_make addr hdr b; Ready (Some ctx).

Definition parse_payload_resume (hdr : header) (b : list byte) (i : istream) (conn : rpc_connection) :
    outcome (option rpc_recv_context * rpc_connection) :=
  r ← check_payload (remote_address conn) hdr b; Ready (r, with_istream i conn).

Definition parse_payload (conn : rpc_connection) (hdr : header) :
    option (outcome (option rpc_recv_context * rpc_connection)) :=
  match read_exactly (c_istream conn) (hsize hdr) with
  | Some (b, i) => Some (parse_payload_resume hdr b i conn)
  | None => None
  end.

(** One request: the payload is parsed right after the header. *)
Definition parse_request (conn : rpc_connection) :
    option (outcome (option rpc_recv_context * rpc_connection)) :=
  match parse_header conn with
  | Some (Ready (Some hdr, conn)) => parse_payload conn hdr
  | Some (Ready (None, conn)) => Some (Ready (None, conn))
  | Some (Failed e) => Some (Failed e)
  | Some Undefined => Some Undefined
  | None => None
  end.

(** [n] requests in a row, stopping at the first that does not parse. *)
Fixpoint parse_requests (n : nat) (conn : rpc_connection) : option (list rpc_recv_context * rpc_connection) :=
  match n with
  | O => Some ([], conn)
  | S n =>
      match parse_request conn with
      | Some (Ready (Some ctx, conn)) =>
          match parse_requests n conn with
          | Some (ctxs, conn) => Some (ctx :: ctxs, conn)
          | None => None
          end
      | _ => None
      end
  end.

(** The header the receiver works with: [disabled] is read as [none]. *)
Definition received_header (h : header) : header :=
  if compression_ h =? flag_value compression_flags_disabled
  then mutate_compression compression_flags_none h else h.

(** ** Lemmas *)

(** The header checks accept exactly the headers with a body, a checksum, a
    request id and a compression that is in range. *)
Lemma check_header_Some hdr hdr' :
  header_wf hdr ->
  check_header hdr = Some hdr' <->
  hsize hdr <> 0 /\ compression hdr <= compression_flags_MAX /\ checksum hdr <> 0 /\
  meta hdr <> 0 /\
  hdr' = (if compression hdr =? flag_value compression_flags_disabled
          then mutate_compression compression_flags_none hdr else hdr).
Proof.
  intros (_ & _ & _ & _ & Hk & Hm). unfold fits_u, check_header in *.
  repeat case_goal; bool_to_prop; split; try (intros [= <-]); try intros (?&?&?&?&?);
    try done; try lia; split_and?; try done; try lia.
  all: by subst.
Qed.

(** The fields of an accepted header, after the normalisation. *)
Lemma check_header_fields hdr hdr' :
  header_wf hdr -> check_header hdr = Some hdr' ->
  hsize hdr' <> 0 /\ checksum hdr' <> 0 /\ meta hdr' <> 0 /\
  compression hdr' <= compression_flags_MAX /\
  compression hdr' <> flag_value compression_flags_disabled.
Proof.
  intros W C. apply check_header_Some in C as (S1 & S2 & S3 & S4 & ->); [|done].
  case_goal; bool_to_prop; [rewrite !compression_mutate|]; simpl;
    unfold compression_flags_MAX in *; simpl in *; split_and!; try done; lia.
Qed.

Lemma check_header_framed h f :
  header_wf h -> compression_ h = flag_value f ->
  hsize h <> 0 -> checksum h <> 0 -> meta h <> 0 ->
  check_header h = Some (received_header h).
Proof.
  intros W C S K M. apply check_header_Some; [done|].
  pose proof (flag_value_range f). unfold received_header.
  rewrite (compression_flag f) by done. rewrite C. split_and!; try done; lia.
Qed.

Lemma received_header_frame h :
  hsize (received_header h) = hsize h /\ bitflags (received_header h) = bitflags h /\
  checksum (received_header h) = checksum h /\ meta (received_header h) = meta h /\
  session (received_header h) = session h.
Proof. unfold received_header. by case_goal. Qed.

(** The payload checks accept exactly a body of the announced size, within
    the FlatBuffers limit, without payload headers and with the checksum. *)
Lemma check_payload_Some addr hdr b ctx :
  check_payload addr hdr b = Ready (Some ctx) <->
  hsize hdr = blen b /\ blen b <= max_flatbuffers_size /\
  Z.land (bitflags hdr) header_bit_flags_has_payload_headers = 0 /\
  rpc_checksum_payload b (u32 (blen b)) = checksum hdr /\
  ctx = mk_ctx addr hdr b.
Proof.
  unfold check_payload, rpc_recv_context_make.
  repeat case_goal; simpl; bool_to_prop; split; try (intros [= <-]); try intros (?&?&?&?&?);
    try done; try lia; split_and?; try done; try lia; try congruence.
  all: destruct NDEBUG; simpl in *; bool_to_prop; try done; try congruence; try lia.
Qed.

(** The [assert] of the constructor never fires after the checks. *)
Lemma check_payload_total addr hdr b : exists r, check_payload addr hdr b = Ready r.
Proof.
  unfold check_payload, rpc_recv_context_make. repeat case_goal; simpl; eauto.
  bool_to_prop. congruence.
Qed.
End recv.
