(* ===== verification/Wire.v ===== *)
(** * The wire protocol: what is sent is what is received

    Senders ([rpc_envelope::send], [rpc_typed_envelope::serialize_data]) and the
    receiver ([rpc_recv_context::parse_header], [parse_payload]) put together. *)

From Stdlib Require Import ZArith Lia.
From stdpp Require Import base gmap list numbers strings.
From coqutil Require Import Byte Word.LittleEndianList.
From S2P Require Import Prelude Header Seastar Letter Connection RecvContext.

(** The bytes of one frame. *)
Definition frame (e : rpc_envelope) : list byte :=
  header_to_bytes (lheader (letter e)) ++ body (letter e).

(** The context the receiver builds for an envelope. *)
Definition received (addr : socket_address) (e : rpc_envelope) : rpc_recv_context :=
  mk_ctx addr (received_header (lheader (letter e))) (body (letter e)).

Section wire.
Context `{Build, GeneratedHeader, Xxhash, Seastar}.

(** A connection on which no header is being parsed. *)
Definition quiescent (conn : rpc_connection) : Prop := istream_active_parser conn = 0.

Lemma quiescent_with_istream i conn : quiescent conn -> quiescent (with_istream i conn).
Proof. done. Qed.

(** [parse_header] on a quiescent connection restores the counter. *)
Lemma parse_header_quiescent conn buf i :
  quiescent conn -> read_exactly (c_istream conn) kHeaderSize = Some (buf, i) ->
  parse_header conn =
    Some (Ready (if negb (kHeaderSize =? blen buf) then None
                 else check_header (header_of_bytes buf), with_istream i conn)).
Proof.
  unfold quiescent. intros Q R. unfold parse_header, parse_header_begin.
  rewrite Q. assert (forall m, DLOG_THROW_IF (negb (0 =? 0)) m = Ready tt) as ->.
  { intros. unfold DLOG_THROW_IF. by destruct NDEBUG. }
  simpl. rewrite R. unfold parse_header_resume, with_parsers, with_istream. simpl.
  by rewrite Q.
Qed.

(** A complete frame with any body of the announced size. *)
Lemma parse_request_frame conn h f b r :
  quiescent conn -> header_wf h -> compression_ h = flag_value f ->
  hsize h <> 0 -> checksum h <> 0 -> meta h <> 0 -> hsize h = blen b ->
  pending (c_istream conn) = header_to_bytes h ++ b ++ r ->
  exists i, pending i = r /\ finished i = finished (c_istream conn) /\
    eof i = eof (c_istream conn) /\
    parse_request conn =
      Some (c ← check_payload (remote_address conn) (received_header h) b;
            Ready (c, with_istream i conn)).
Proof.
  intros Q W C S K M L P.
  destruct (read_exactly_app _ _ _ P) as (i1 & R1 & P1 & F1 & E1).
  rewrite header_to_bytes_blen in R1.
  destruct (read_exactly_app _ _ _ P1) as (i2 & R2 & P2 & F2 & E2).
  exists i2. rewrite P2, F2, E2. split_and!; try done.
  unfold parse_request. rewrite (parse_header_quiescent _ _ _ Q R1).
  rewrite header_to_bytes_blen. simpl.
  rewrite <- (app_nil_r (header_to_bytes h)), header_of_to_bytes by done.
  rewrite (check_header_framed h f) by done.
  unfold parse_payload. rewrite (proj1 (received_header_frame h)), L. simpl.
  rewrite R2. done.
Qed.

(** The payload checks accept the body of a framed envelope. *)
Lemma check_payload_framed addr e :
  framed e -> check_payload addr (received_header (lheader (letter e))) (body (letter e)) =
    Ready (Some (received addr e)).
Proof.
  intros [W S R K Kp M B [f C]]. apply check_payload_Some.
  destruct (received_header_frame (lheader (letter e))) as (Rs & Rb & Rk & _ & _).
  rewrite Rs, Rb, Rk, S. unfold max_flatbuffers_size in *.
  rewrite wrap_u_small by (unfold fits_u; lia). split_and!; try done; lia.
Qed.

(** A framed envelope followed by anything is received as it was sent. *)
Lemma parse_request_framed conn e r :
  quiescent conn -> framed e -> pending (c_istream conn) = frame e ++ r ->
  exists i, pending i = r /\ finished i = finished (c_istream conn) /\
    eof i = eof (c_istream conn) /\
    parse_request conn =
      Some (Ready (Some (received (remote_address conn) e), with_istream i conn)).
Proof.
  intros Q F P. pose proof F as [W S R K Kp M B [f C]]. unfold frame in P. rewrite <- app_assoc in P.
  destruct (parse_request_frame conn _ f (body (letter e)) r Q W C) as (i & ? & ? & ? & E); try done; try lia.
  exists i. split_and!; try done. by rewrite E, check_payload_framed.
Qed.

Lemma parse_requests_framed es conn r :
  quiescent conn -> Forall framed es ->
  pending (c_istream conn) = concat (map frame es) ++ r ->
  exists i, pending i = r /\
    parse_requests (length es) conn =
      Some (map (received (remote_address conn)) es, with_istream i conn).
Proof.
  intros Q F. revert conn Q. induction F as [|e es Fe Fs IH]; simpl; intros conn Q P.
  - exists (c_istream conn). split; [done|]. by destruct conn.
  - rewrite <- app_assoc in P.
    destruct (parse_request_framed _ _ _ Q Fe P) as (i1 & P1 & _ & _ & E).
    destruct (IH (with_istream i1 conn)) as (i2 & P2 & E2); [done|done|].
    exists i2. split; [done|]. rewrite E, E2. done.
Qed.

(** C5: framing is lossless.  Whatever sequence of framed envelopes is written
    with [rpc_envelope::send], a receiver whose input starts with the bytes the
    sends added parses exactly these envelopes, in order: the same headers
    (with compression [disabled] read as [none]) and the same payloads; and it
    leaves exactly what followed them, ready for the next request. *)
Theorem wire_roundtrip out es out' conn rest :
  Forall framed es -> send_all out es = Ready out' -> quiescent conn ->
  pending (c_istream conn) = drop (length (written out)) (written out') ++ rest ->
  exists i, pending i = rest /\
    parse_requests (length es) conn =
      Some (map (received (remote_address conn)) es, with_istream i conn).
Proof.
  intros F S Q P. apply send_all_written in S. rewrite S, drop_app_length in P.
  by apply parse_requests_framed.
Qed.

(** An accepted request, step by step. *)
Lemma parse_request_inv conn ctx conn' :
  quiescent conn -> parse_request conn = Some (Ready (Some ctx, conn')) ->
  exists buf i1, length buf = 16%nat /\ pending (c_istream conn) = buf ++ pending i1 /\
    check_header (header_of_bytes buf) = Some (ctx_header ctx) /\
    pending i1 = payload ctx ++ pending (c_istream conn') /\
    check_payload (remote_address conn) (ctx_header ctx) (payload ctx) = Ready (Some ctx).
Proof.
  intros Q P. unfold parse_request in P.
  destruct (read_exactly (c_istream conn) kHeaderSize) as [[buf i1]|] eqn:R1; cycle 1.
  { unfold parse_header, parse_header_begin in P. unfold quiescent in Q.
    rewrite Q in P. unfold DLOG_THROW_IF in P. simpl in P.
    by destruct NDEBUG; simpl in P; rewrite R1 in P. }
  rewrite (parse_header_quiescent _ _ _ Q R1) in P.
  case_hyp P; [done|]. bool_to_prop.
  destruct (check_header (header_of_bytes buf)) as [hdr|] eqn:CH; [|done].
  apply read_exactly_inv in R1 as [P1 _]; [|unfold kHeaderSize; lia].
  assert (length buf = 16%nat) as L by (unfold blen, kHeaderSize in *; lia).
  unfold parse_payload in P. simpl in P.
  destruct (read_exactly i1 (hsize hdr)) as [[b i2]|] eqn:R2; [|done].
  assert (0 <= hsize hdr).
  { pose proof (header_of_bytes_wf buf L) as W.
    apply check_header_Some in CH as (_ & _ & _ & _ & ->); [|done].
    destruct W as (_ & _ & _ & [? ?] & _). by case_goal. }
  apply read_exactly_inv in R2 as [P2 _]; [|done].
  unfold parse_payload_resume in P. simpl in P.
  destruct (check_payload _ hdr b) as [[c|]| |] eqn:CP; simpl in P; try done.
  injection P as <- <-. pose proof CP as CP'.
  apply check_payload_Some in CP' as (_ & _ & _ & _ & ->).
  exists buf, i1. by split_and!.
Qed.

(** C6: nothing is accepted that does not pass every check.  A request the
    receiver accepts consumed exactly sixteen header bytes and its payload; its
    header announces the payload's size, which is not zero and within the
    FlatBuffers limit; the checksum is the payload's and is not zero; the
    request id is not zero, there are no payload headers, and the compression
    is in range and not [disabled]. *)
Theorem accepted_request_sound conn ctx conn' :
  quiescent conn -> parse_request conn = Some (Ready (Some ctx, conn')) ->
  (exists hb, length hb = 16%nat /\
     pending (c_istream conn) = hb ++ payload ctx ++ pending (c_istream conn')) /\
  hsize (ctx_header ctx) = blen (payload ctx) /\
  0 < blen (payload ctx) <= max_flatbuffers_size /\
  checksum (ctx_header ctx) = rpc_checksum_payload (payload ctx) (blen (payload ctx)) /\
  checksum (ctx_header ctx) <> 0 /\ request_id ctx <> 0 /\
  Z.land (bitflags (ctx_header ctx)) header_bit_flags_has_payload_headers = 0 /\
  compression (ctx_header ctx) <= compression_flags_MAX /\
  compression (ctx_header ctx) <> flag_value compression_flags_disabled /\
  ctx_address ctx = remote_address conn.
Proof.
  intros Q P. apply parse_request_inv in P as (buf & i1 & L & P1 & CH & P2 & CP); [|done].
  apply check_header_fields in CH as (S1 & S2 & S3 & S4 & S5); [|by apply header_of_bytes_wf].
  apply check_payload_Some in CP as (C1 & C2 & C3 & C4 & C5).
  pose proof (blen_nonneg (payload ctx)). unfold max_flatbuffers_size in *.
  rewrite wrap_u_small in C4 by (unfold fits_u; lia).
  assert (ctx_address ctx = remote_address conn) by (by rewrite C5).
  split; [exists buf; by rewrite P1, P2|]. split_and!; try done; lia.
Qed.

(** C7: a body that does not match its checksum is never delivered.  On a
    complete frame whose header passes the header checks, the request is
    accepted exactly when the body has the checksum the header carries (and is
    within the size limit and without payload headers); otherwise the frame is
    consumed and reported as unparsable. *)
Theorem payload_integrity conn h f b rest :
  quiescent conn -> header_wf h -> compression_ h = flag_value f ->
  hsize h = blen b -> b <> [] -> checksum h <> 0 -> meta h <> 0 ->
  pending (c_istream conn) = header_to_bytes h ++ b ++ rest ->
  exists i, pending i = rest /\
    parse_request conn = Some (Ready (
      if decide (rpc_checksum_payload b (blen b) = checksum h /\
                 blen b <= max_flatbuffers_size /\
                 Z.land (bitflags h) header_bit_flags_has_payload_headers = 0)
      then Some (mk_ctx (remote_address conn) (received_header h) b)
      else None, with_istream i conn)).
Proof.
  intros Q W C S B K M P.
  assert (hsize h <> 0) by (rewrite S, blen_nil_iff; done).
  destruct (parse_request_frame conn h f b rest) as (i & Pi & _ & _ & ->); try done.
  exists i. split; [done|]. destruct (received_header_frame h) as (Rs & Rb & Rk & _ & _).
  assert (fits_u 32 (blen b)) as Fb by (rewrite <- S; apply W).
  destruct (check_payload_total (remote_address conn) (received_header h) b) as [r E].
  rewrite E. simpl. do 3 f_equal. destruct r as [ctx|].
  - apply check_payload_Some in E as (E1 & E2 & E3 & E4 & ->).
    rewrite Rb, Rk, wrap_u_small in * by done. rewrite decide_True; done.
  - rewrite decide_False; [done|]. intros (E1 & E2 & E3).
    assert (check_payload (remote_address conn) (received_header h) b =
            Ready (Some (mk_ctx (remote_address conn) (received_header h) b))) as E'.
    { apply check_payload_Some. rewrite Rb, Rk, wrap_u_small by done. split_and!; congruence. }
    congruence.
Qed.

(** The stream ends inside the header. *)
Lemma parse_request_short_header conn :
  quiescent conn -> blen (pending (c_istream conn)) < kHeaderSize ->
  finished (c_istream conn) = true ->
  exists conn', parse_request conn = Some (Ready (None, conn')) /\ is_valid conn' = false.
Proof.
  intros Q L F.
  destruct (read_exactly_short (c_istream conn) kHeaderSize) as (i & Ri & Pi & _ & Ei); [done..|].
  exists (with_istream i conn). unfold parse_request. rewrite (parse_header_quiescent _ _ _ Q Ri).
  assert ((kHeaderSize =? blen (pending (c_istream conn))) = false) as -> by (apply Z.eqb_neq; lia).
  split; [done|]. unfold is_valid. simpl. by rewrite Ei, !andb_false_r.
Qed.

(** The stream ends inside the payload. *)
Lemma parse_request_short_payload conn h f b :
  quiescent conn -> header_wf h -> compression_ h = flag_value f ->
  checksum h <> 0 -> meta h <> 0 -> blen b < hsize h ->
  pending (c_istream conn) = header_to_bytes h ++ b -> finished (c_istream conn) = true ->
  exists conn', parse_request conn = Some (Ready (None, conn')) /\ is_valid conn' = false.
Proof.
  intros Q W C K M L P F. pose proof (blen_nonneg b).
  destruct (read_exactly_app _ _ _ P) as (i & Ri & Pi & Fi & _).
  rewrite header_to_bytes_blen in Ri.
  destruct (read_exactly_short i (hsize h)) as (i2 & Ri2 & _ & _ & Ei); [by rewrite Pi|congruence|].
  exists (with_istream i2 conn).
  unfold parse_request. rewrite (parse_header_quiescent _ _ _ Q Ri).
  rewrite header_to_bytes_blen. simpl.
  rewrite <- (app_nil_r (header_to_bytes _)), header_of_to_bytes, (check_header_framed _ f)
    by (done || lia).
  unfold parse_payload, parse_payload_resume, check_payload. simpl.
  rewrite !(proj1 (received_header_frame _)), Ri2, Pi.
  assert ((hsize h =? blen b) = false) as -> by (apply Z.eqb_neq; lia).
  split; [done|]. unfold is_valid. simpl. by rewrite Ei, !andb_false_r.
Qed.

(** C8: a stream that ends inside a frame is an error.  When the peer closes
    after a proper prefix of a frame, nothing is delivered and the connection
    is no longer valid, so that the session loops of the server and of the
    client stop. *)
Theorem truncated_frame_rejected conn e k :
  quiescent conn -> framed e -> (k < length (frame e))%nat ->
  pending (c_istream conn) = take k (frame e) -> finished (c_istream conn) = true ->
  exists conn', parse_request conn = Some (Ready (None, conn')) /\ is_valid conn' = false.
Proof.
  intros Q [W S R K Kp M B [f C]] L P F. unfold frame in *.
  pose proof (header_to_bytes_length (lheader (letter e))) as Lh. rewrite length_app in L.
  destruct (decide (k < 16)%nat) as [Lk|Lk].
  - apply parse_request_short_header; [done| |done].
    rewrite P, take_app_le by lia. unfold blen, kHeaderSize. rewrite length_take. lia.
  - rewrite take_app_ge in P by lia. eapply parse_request_short_payload; try done.
    rewrite S. unfold blen. rewrite length_take. lia.
Qed.

Context `{FlatTable}.

(** The envelope a generated client method sends for a message: serialized
    data, the request id, and the session the client allocates. *)
Definition typed_request (d : native_type) (rid sess : Z) : outcome rpc_envelope :=
  '(e, _) ← serialize_data (mk_typed _ rpc_envelope0 (Some d));
  Ready (map_header (mutate_session sess) (set_request_id rid e)).

Lemma typed_request_framed d rid sess e :
  typed_request d rid sess = Ready e ->
  0 < blen (native_table_as_buffer d) <= max_flatbuffers_size ->
  rpc_checksum_payload (native_table_as_buffer d) (blen (native_table_as_buffer d)) <> 0 ->
  u32 rid <> 0 -> framed e.
Proof.
  unfold typed_request, serialize_data. simpl. intros [= <-] R K M.
  set (b := native_table_as_buffer d) in *. unfold max_flatbuffers_size in *.
  assert (u32 (blen b) = blen b) as Sb by (apply wrap_u_small; unfold fits_u; lia).
  assert (u32 (rpc_checksum_payload b (blen b)) = rpc_checksum_payload b (blen b)) as Kb
    by apply wrap_u_small, checksum_fits.
  constructor; simpl; rewrite ?Sb, ?Kb; try done.
  - apply mutate_session_wf, mutate_meta_wf, checksum_rpc_wf. vm_compute. intuition discriminate.
  - by exists compression_flags_none.
Qed.

(** A typed message reaches the peer.  The bytes FlatBuffers packed for it
    are the payload of the context the peer parses, and the context carries the
    request id (the xor of the service and method ids) and the session. *)
Theorem typed_request_roundtrip d rid sess e out out' conn rest :
  typed_request d rid sess = Ready e ->
  0 < blen (native_table_as_buffer d) <= max_flatbuffers_size ->
  rpc_checksum_payload (native_table_as_buffer d) (blen (native_table_as_buffer d)) <> 0 ->
  fits_u 32 rid -> rid <> 0 -> fits_u 16 sess ->
  rpc_envelope_send out e = Ready out' -> quiescent conn ->
  pending (c_istream conn) = drop (length (written out)) (written out') ++ rest ->
  exists ctx i, parse_request conn = Some (Ready (Some ctx, with_istream i conn)) /\
    payload ctx = native_table_as_buffer d /\ request_id ctx = rid /\ ctx_session ctx = sess /\
    compression (ctx_header ctx) = flag_value compression_flags_none /\ pending i = rest.
Proof.
  intros T R K Fr Nr Fs Sd Q P. pose proof T as Fe.
  apply typed_request_framed in Fe; [|done|done|by rewrite wrap_u_small].
  apply rpc_envelope_send_written in Sd. rewrite Sd, drop_app_length in P.
  destruct (parse_request_framed conn e rest Q Fe P) as (i & Pi & _ & _ & E).
  exists (received (remote_address conn) e), i. split; [done|].
  unfold typed_request, serialize_data in T. simpl in T. injection T as <-.
  unfold request_id, ctx_session. simpl. rewrite !wrap_u_small by done.
  split_and!; try done. by apply (compression_flag compression_flags_none).
Qed.
End wire.

(** ** Witnesses *)

(** A concrete world: the release build, the enumeration read as an [int8_t],
    and a hash that adds the bytes. *)
Module Demo.
#[export] Instance demo_build : Build := release_build.
#[export] Instance demo_enum : GeneratedHeader := int8_enum.
#[export] Instance demo_hash : Xxhash :=
  {| XXH64 := fun l seed => 1 + foldr (fun b a => byte.unsigned b + a) seed l |}.
#[export] Instance demo_seastar : Seastar := seastar_model.
#[export] Instance demo_table : FlatTable :=
  {| native_type := list byte; native_default := []; FlatBufferBuilder := list byte; FlatBufferBuilder0 := [];
     Pack := fun b d => (blen b, b ++ d); Finish := fun b _ => b; Release := fun b => b |}.
Definition demo_addr : socket_address := mk_addr 2130706433 11225.
Definition demo_envelope (b : list byte) (rid sess : Z) : rpc_envelope :=
  default rpc_envelope0 match typed_request (b : @native_type demo_table) rid sess with Ready e => Some e | _ => None end.
Definition demo_conn (bs : list byte) (fin : bool) : rpc_connection :=
  rpc_connection_make demo_addr (mk_stream bs fin false) ([] : list byte).
End Demo.

Module WireWitness.
Import Demo.

Definition w_es : list rpc_envelope :=
  [demo_envelope [Byte.x01; Byte.x02] 7 1; demo_envelope [Byte.xff] 9 2].

Lemma w_framed b rid sess :
  bool_decide (0 < blen b <= max_flatbuffers_size) = true ->
  bool_decide (rpc_checksum_payload b (blen b) = 0) = false ->
  bool_decide (u32 rid = 0) = false -> framed (demo_envelope b rid sess).
Proof.
  rewrite bool_decide_eq_true, !bool_decide_eq_false. intros.
  by eapply (typed_request_framed (b : @native_type demo_table) rid sess).
Qed.

Lemma wire_roundtrip_witness :
  exists i, pending i = [Byte.x00] /\
    parse_requests 2 (demo_conn (concat (map frame w_es) ++ [Byte.x00]) false) =
      Some (map (received demo_addr) w_es,
            with_istream i (demo_conn (concat (map frame w_es) ++ [Byte.x00]) false)).
Proof.
  apply (wire_roundtrip ([] : @ostream demo_seastar) w_es (concat (map frame w_es))
           (demo_conn (concat (map frame w_es) ++ [Byte.x00]) false) [Byte.x00]).
  - unfold w_es; rewrite !Forall_cons, Forall_nil; split_and!; try done; apply w_framed; vm_compute; reflexivity.
  - vm_refl.
  - reflexivity.
  - vm_refl.
Defined.

Lemma accepted_request_sound_witness :
  exists ctx, payload ctx = [Byte.xff] /\ request_id ctx <> 0.
Proof.
  destruct (accepted_request_sound (demo_conn (frame (demo_envelope [Byte.xff] 9 2)) false)
    (received demo_addr (demo_envelope [Byte.xff] 9 2)) (demo_conn [] false))
    as (_ & _ & _ & _ & _ & Hid & _); [reflexivity|vm_refl|].
  exists (received demo_addr (demo_envelope [Byte.xff] 9 2)). split; [reflexivity|exact Hid].
Defined.

(** The frame of one body with the bytes of another. *)
Lemma payload_integrity_witness :
  exists i, pending i = [] /\
    parse_request (demo_conn (header_to_bytes (lheader (letter (demo_envelope [Byte.xff] 9 2)))
                              ++ [Byte.xfe] ++ []) false) =
    Some (Ready (None, with_istream i
      (demo_conn (header_to_bytes (lheader (letter (demo_envelope [Byte.xff] 9 2)))
                  ++ [Byte.xfe] ++ []) false))).
Proof.
  destruct (payload_integrity
    (demo_conn (header_to_bytes (lheader (letter (demo_envelope [Byte.xff] 9 2))) ++ [Byte.xfe] ++ []) false)
    (lheader (letter (demo_envelope [Byte.xff] 9 2))) compression_flags_none [Byte.xfe] [])
    as (i & Pi & E); [first [reflexivity | vm_decide]..|].
  exists i. split; [exact Pi|]. rewrite E, decide_False; [reflexivity|].
  intros [D _]. revert D. vm_decide.
Defined.

Lemma truncated_frame_rejected_witness :
  exists conn', parse_request (demo_conn (take 16 (frame (demo_envelope [Byte.xff] 9 2))) true) =
    Some (Ready (None, conn')) /\ is_valid conn' = false.
Proof.
  apply (truncated_frame_rejected _ (demo_envelope [Byte.xff] 9 2) 16); try reflexivity.
  - apply w_framed; reflexivity.
  - vm_compute. lia.
Defined.

Lemma typed_request_roundtrip_witness :
  exists ctx i,
    parse_request (demo_conn (frame (demo_envelope [Byte.xff] 9 2) ++ [Byte.x00]) false) =
      Some (Ready (Some ctx, with_istream i
        (demo_conn (frame (demo_envelope [Byte.xff] 9 2) ++ [Byte.x00]) false))) /\
    payload ctx = [Byte.xff] /\ request_id ctx = 9 /\ ctx_session ctx = 2 /\
    compression (ctx_header ctx) = flag_value compression_flags_none /\ pending i = [Byte.x00].
Proof.
  apply (typed_request_roundtrip ([Byte.xff] : @native_type demo_table) 9 2 (demo_envelope [Byte.xff] 9 2)
    ([] : @ostream demo_seastar) (frame (demo_envelope [Byte.xff] 9 2))); try reflexivity; vm_decide.
Defined.
End WireWitness.
