(* ===== verification/Moves.v ===== *)
(** * Moved letters and envelopes

    The move constructors and assignments of src/src/core/rpc_letter.cc and
    src/src/core/rpc_envelope.cc.  A header is copied and a body is moved, so an
    envelope that was moved from still has the size and the checksum of the body
    that it lost. *)

From Stdlib Require Import ZArith Lia.
From stdpp Require Import base gmap list numbers strings.
From coqutil Require Import Byte.
From S2P Require Import Prelude Header Seastar Letter Connection RecvContext Wire.

(** The constructor with its three members. *)
Definition rpc_letter_make (h : header) (hdrs : gmap string string) (buf : list byte) : rpc_letter := mk_letter h hdrs buf.

(** What a letter leaves behind: its header; [left], which the standard does not
    determine, in place of its map; and a buffer that Seastar empties. *)
Definition letter_moved_from (left : gmap string string) (l : rpc_letter) : rpc_letter := mk_letter (lheader l) left [].

(** The move constructor: the new letter and the old one. *)
Definition rpc_letter_move (left : gmap string string) (o : rpc_letter) : rpc_letter * rpc_letter :=
  (mk_letter (lheader o) (dynamic_headers o) (body o), letter_moved_from left o).
(** The move assignment from another letter, which overwrites [l]. *)
Definition rpc_letter_assign (left : gmap string string) (l o : rpc_letter) : rpc_letter * rpc_letter :=
  let l := mk_letter (lheader o) (dynamic_headers l) (body l) in
  let l := mk_letter (lheader l) (dynamic_headers o) (body l) in
  (mk_letter (lheader l) (dynamic_headers l) (body o), letter_moved_from left o).

(** The same for envelopes; [this != &o] is tested. *)
Definition rpc_envelope_make (left : gmap string string) (l : rpc_letter) : rpc_envelope * rpc_letter :=
  let '(l, o) := rpc_letter_move left l in (mk_envelope l, o).
Definition rpc_envelope_move (left : gmap string string) (o : rpc_envelope) : rpc_envelope * rpc_envelope :=
  let '(l, o) := rpc_letter_move left (letter o) in (mk_envelope l, mk_envelope o).
Definition rpc_envelope_assign (left : gmap string string) (same : bool) (e o : rpc_envelope) : rpc_envelope * rpc_envelope :=
  if same then (o, o)
  else let '(l, o) := rpc_letter_assign left (letter e) (letter o) in (mk_envelope l, mk_envelope o).

Section moves.
Context `{Build, GeneratedHeader, Xxhash, Seastar}.

(** Moving and assigning keep the envelope, whatever was in its place. *)
Lemma moves_keep left e o :
  (rpc_envelope_move left o).1 = o /\ (rpc_envelope_assign left false e o).1 = o /\
  (rpc_envelope_assign left false e o).2 = (rpc_envelope_move left o).2 /\ rpc_envelope_assign left true o o = (o, o).
Proof. by destruct o as [[h d b]]. Qed.

(** An envelope that was moved from passes the checks of [send], also in a debug
    build, and its header goes out without a body.  When nothing
    follows, the peer refuses it; when other bytes follow, the peer takes as many
    of them for the payload as the lost body had, and the frames after it are
    read out of step. *)
Theorem moved_envelope_half_frame left e out out' conn :
  framed e -> rpc_envelope_send out (rpc_envelope_move left e).2 = Ready out' -> quiescent conn ->
  written out' = written out ++ header_to_bytes (lheader (letter e)) /\
  (pending (c_istream conn) = header_to_bytes (lheader (letter e)) -> finished (c_istream conn) = true ->
     exists conn', parse_request conn = Some (Ready (None, conn')) /\ is_valid conn' = false) /\
  (forall taken rest, blen taken = blen (body (letter e)) ->
     pending (c_istream conn) = header_to_bytes (lheader (letter e)) ++ taken ++ rest ->
     exists i r, pending i = rest /\ parse_request conn = Some (Ready (r, with_istream i conn))).
Proof.
  intros [W S R K Kp M B [f C]] Sd Q. apply rpc_envelope_send_written in Sd.
  change (lheader (letter (rpc_envelope_move left e).2)) with (lheader (letter e)) in Sd.
  change (body (letter (rpc_envelope_move left e).2)) with (@nil byte) in Sd. rewrite app_nil_r in Sd.
  split_and!; [done| |].
  - intros P F. rewrite <- (app_nil_r (header_to_bytes _)) in P.
    eapply (parse_request_short_payload conn _ f []); try done. rewrite S. apply R.
  - intros taken rest L P. destruct (parse_request_frame conn _ f taken rest Q W C) as (i & Pi & _ & _ & E);
      [lia|done|done|lia|done|].
    destruct (check_payload_total (remote_address conn) (received_header (lheader (letter e))) taken) as [r Er].
    exists i, r. split; [done|]. by rewrite E, Er.
Qed.
End moves.
