(* ===== verification/Streams.v ===== *)
(** * Frames on a byte stream

    What a reader of src/src/core/rpc_recv_context.cc finds on a stream that
    carries frames one after the other, when bytes arrive in pieces and the
    stream may end anywhere.  The lemmas are shared by the two ends of a
    connection: the server reads requests, the client reads responses. *)

From Stdlib Require Import ZArith Lia.
From stdpp Require Import base list numbers strings.
From coqutil Require Import Byte.
From S2P Require Import Prelude Header Seastar Letter Connection RecvContext Wire.

(** The first frame of several. *)
Lemma frames_cons e es :
  concat (map frame (e :: es)) = header_to_bytes (lheader (letter e)) ++ body (letter e) ++ concat (map frame es).
Proof. cbn [map concat]. unfold frame at 1. by rewrite <- app_assoc. Qed.

Section streams.
Context `{Build, GeneratedHeader, Xxhash, Seastar}.

(** The envelopes on the stream. *)
Variable P : rpc_envelope -> Prop.
Hypothesis P_framed : forall e, P e -> framed e.

(** Complete frames of such envelopes. *)
Definition frames_of (bs : list byte) : Prop := exists es, Forall P es /\ bs = concat (map frame es).

(** The rest of a stream whose header [hdr] was read. *)
Definition after_header (hdr : header) (bs : list byte) : Prop :=
  exists e rest, P e /\ hdr = received_header (lheader (letter e)) /\ frames_of rest /\
    bs = body (letter e) ++ rest.

Lemma frames_of_nil : frames_of [].
Proof. by exists []. Qed.

Lemma frames_of_app bs es : frames_of bs -> Forall P es -> frames_of (bs ++ concat (map frame es)).
Proof.
  intros (es0 & F0 & ->) F. exists (es0 ++ es). split; [by apply Forall_app|].
  by rewrite map_app, concat_app.
Qed.

Lemma after_header_app hdr bs es :
  after_header hdr bs -> Forall P es -> after_header hdr (bs ++ concat (map frame es)).
Proof.
  intros (e & rest & Pe & Eh & Fr & ->) F. exists e, (rest ++ concat (map frame es)).
  split_and!; [done|done|by apply frames_of_app|by rewrite app_assoc].
Qed.

(** The size a header announces is the one of the body that follows. *)
Lemma after_header_size hdr bs : after_header hdr bs -> 0 < hsize hdr.
Proof.
  intros (e & rest & Pe & -> & _ & _). destruct (P_framed e Pe) as [_ Sz R _ _ _ _ _].
  destruct (received_header_frame (lheader (letter e))) as (-> & _). lia.
Qed.

(** A complete header is the one of the next frame and passes the checks. *)
Lemma frames_read_header i b i' tail :
  frames_of (pending i ++ tail) -> read_exactly i kHeaderSize = Some (b, i') -> blen b = kHeaderSize ->
  exists hdr, check_header (header_of_bytes b) = Some hdr /\ after_header hdr (pending i' ++ tail).
Proof.
  intros (es & F & E) R L. apply read_exactly_inv in R as [Pi _]; [|by vm_compute].
  rewrite Pi, <- app_assoc in E. destruct es as [|e es].
  { apply app_eq_nil in E as [-> _]. by vm_compute in L. }
  apply Forall_cons in F as [Pe F]. pose proof (P_framed e Pe) as [W Sz Rg Ck Kp Mt Bf [f Cf]].
  rewrite frames_cons in E.
  apply app_inj_1 in E as [-> E].
  2: { rewrite header_to_bytes_length. unfold blen, kHeaderSize in L. lia. }
  exists (received_header (lheader (letter e))). split.
  - rewrite <- (app_nil_r (header_to_bytes _)), header_of_to_bytes by done.
    apply (check_header_framed _ f); try done. lia.
  - exists e, (concat (map frame es)). split_and!; [done|done|by exists es|done].
Qed.

(** A complete payload is the one of the frame, and is accepted. *)
Lemma frames_read_payload addr hdr i b i' tail :
  after_header hdr (pending i ++ tail) -> read_exactly i (hsize hdr) = Some (b, i') -> blen b = hsize hdr ->
  exists e, P e /\ check_payload addr hdr b = Ready (Some (received addr e)) /\ frames_of (pending i' ++ tail).
Proof.
  intros A R L. pose proof (after_header_size _ _ A) as Sp. destruct A as (e & rest & Pe & -> & Fr & E).
  apply read_exactly_inv in R as [Pi _]; [|lia]. rewrite Pi, <- app_assoc in E.
  pose proof (P_framed e Pe) as Fe. pose proof (framed_size e Fe) as Sz.
  rewrite (proj1 (received_header_frame _)) in L. apply app_inj_1 in E as [-> E].
  2: { unfold blen in *. lia. }
  exists e. split_and!; [done|by apply check_payload_framed|by rewrite E].
Qed.
End streams.

(** A read that came up short is refused. *)
Lemma short_payload `{Build, GeneratedHeader, Xxhash, Seastar} addr hdr b :
  blen b <> hsize hdr -> check_payload addr hdr b = Ready None.
Proof. intros N. unfold check_payload. by rewrite (proj2 (Z.eqb_neq _ _)) by congruence. Qed.

Lemma frames_of_mono (P Q : rpc_envelope -> Prop) bs :
  (forall e, P e -> Q e) -> frames_of P bs -> frames_of Q bs.
Proof. intros I (es & F & ->). exists es. split; [by eapply Forall_impl|done]. Qed.

Lemma after_header_mono (P Q : rpc_envelope -> Prop) hdr bs :
  (forall e, P e -> Q e) -> after_header P hdr bs -> after_header Q hdr bs.
Proof.
  intros I (e & rest & Pe & Eh & Fr & ->). exists e, rest.
  split_and!; [by apply I|done|by eapply frames_of_mono|done].
Qed.

(** ** A reader between two reads *)

(** Where a reader is: at the start of a frame (and it will read on, or not),
    behind a header, or gone. *)
Inductive position :=
| at_frame (reads_on : bool)
| behind (hdr : header)
| gone.

Section feeds.
Context `{Build, GeneratedHeader, Xxhash, Seastar}.

(** What is pending, followed by the bytes the reader will get: [rest] when the
    stream is still open. *)
Definition feeds (i : istream) (rest : list byte) (Q : list byte -> Prop) : Prop :=
  exists tail, (finished i = false -> tail = rest) /\ Q (pending i ++ tail).

(** The reader sees only frames of [P]. *)
Definition aligned (P : rpc_envelope -> Prop) (p : position) (i : istream) (rest : list byte) : Prop :=
  match p with
  | at_frame true => feeds i rest (frames_of P)
  | behind hdr => feeds i rest (after_header P hdr)
  | at_frame false | gone => True
  end.

(** The stream is the same, or its end has come nearer. *)
Definition shrinks (i i' : istream) : Prop :=
  pending i' `prefix_of` pending i /\ (finished i' = false -> finished i = false /\ pending i' = pending i).

#[export] Instance shrinks_preorder : PreOrder shrinks.
Proof.
  split; [by intros i; split|]. intros a b c [P1 F1] [P2 F2]. split; [by etransitivity|].
  intros F. destruct (F2 F) as [Fb ->]. by apply F1.
Qed.

Lemma shrinks_shutdown i : shrinks i (shutdown_input i).
Proof. split; [apply shutdown_input_pending|]. by rewrite (proj1 (shutdown_input_spec i)). Qed.

Lemma feeds_shrinks i i' rest Q : shrinks i i' -> feeds i rest Q -> feeds i' rest Q.
Proof.
  intros [[x Px] F] (tail & T & Hq). unfold feeds. destruct (finished i') eqn:Fi.
  - exists (x ++ tail). split; [done|]. by rewrite app_assoc, <- Px.
  - destruct (F eq_refl) as [Fi' Ep]. exists tail. split; [auto|]. by rewrite Ep.
Qed.

Lemma feeds_arrive i i' x rest Q :
  finished i = false -> pending i' = pending i ++ x -> feeds i (x ++ rest) Q -> feeds i' rest Q.
Proof.
  intros F Pi (tail & T & Hq). rewrite (T F) in Hq. exists rest. split; [done|]. by rewrite Pi, <- app_assoc.
Qed.

Lemma feeds_impl i rest (Q Q' : list byte -> Prop) :
  (forall bs, Q bs -> Q' bs) -> feeds i rest Q -> feeds i rest Q'.
Proof. intros I (tail & T & Hq). exists tail. auto. Qed.

Lemma feeds_grow i rest bs (Q : list byte -> Prop) :
  (forall l, Q l -> Q (l ++ bs)) -> feeds i rest Q -> feeds i (rest ++ bs) Q.
Proof.
  intros I (tail & T & Hq). unfold feeds. destruct (finished i) eqn:F; [by exists tail|].
  specialize (T eq_refl). subst tail. exists (rest ++ bs). split; [done|]. rewrite app_assoc. by apply I.
Qed.

Lemma aligned_shrinks P p i i' rest : shrinks i i' -> aligned P p i rest -> aligned P p i' rest.
Proof. intros S. destruct p as [[]|hdr|]; simpl; eauto using feeds_shrinks. Qed.

Lemma aligned_arrive P p i i' x rest :
  finished i = false -> pending i' = pending i ++ x -> aligned P p i (x ++ rest) -> aligned P p i' rest.
Proof. intros F E. destruct p as [[]|hdr|]; simpl; eauto using feeds_arrive. Qed.

Lemma aligned_grow P p i rest es :
  Forall P es -> aligned P p i rest -> aligned P p i (rest ++ concat (map frame es)).
Proof.
  intros F. destruct p as [[]|hdr|]; simpl; [|done| |done]; apply feeds_grow; intros l A.
  - by apply frames_of_app.
  - by apply after_header_app.
Qed.

Lemma aligned_mono (P Q : rpc_envelope -> Prop) p i rest :
  (forall e, P e -> Q e) -> aligned P p i rest -> aligned Q p i rest.
Proof.
  intros I. destruct p as [[]|hdr|]; simpl; try done; apply feeds_impl; intros bs.
  - by apply frames_of_mono.
  - by apply after_header_mono.
Qed.

(** A complete read keeps the stream open. *)
Lemma read_exactly_finished i n b i' :
  0 <= n -> read_exactly i n = Some (b, i') -> blen b = n -> finished i' = finished i.
Proof.
  intros Hn R L. destruct (read_exactly_inv _ _ _ _ Hn R) as [P _].
  destruct (read_exactly_full i n) as (i1 & R1 & _ & F & _).
  { rewrite P, blen_app, L. pose proof (blen_nonneg (pending i')). lia. }
  rewrite R1 in R. by simplify_eq.
Qed.

Section reads.
Variable P : rpc_envelope -> Prop.
Hypothesis P_framed : forall e, P e -> framed e.

Lemma aligned_header i b i' rest :
  aligned P (at_frame true) i rest -> read_exactly i kHeaderSize = Some (b, i') -> blen b = kHeaderSize ->
  exists hdr, check_header (header_of_bytes b) = Some hdr /\ aligned P (behind hdr) i' rest.
Proof.
  intros (tail & T & A) R L. destruct (frames_read_header P P_framed i b i' tail A R L) as (hdr & Ch & A').
  exists hdr. split; [done|]. exists tail. split; [|done].
  by rewrite (read_exactly_finished i kHeaderSize b i').
Qed.

Lemma aligned_payload addr hdr i b i' rest :
  aligned P (behind hdr) i rest -> read_exactly i (hsize hdr) = Some (b, i') -> blen b = hsize hdr ->
  exists e, P e /\ check_payload addr hdr b = Ready (Some (received addr e)) /\
    aligned P (at_frame true) i' rest.
Proof.
  intros (tail & T & A) R L. pose proof (after_header_size P P_framed _ _ A) as Sz.
  destruct (frames_read_payload P P_framed addr hdr i b i' tail A R L) as (e & Pe & Cp & A').
  exists e. split_and!; [done|done|]. exists tail. split; [|done].
  by rewrite (read_exactly_finished i (hsize hdr) b i') by (lia || done).
Qed.
End reads.
End feeds.
