(* ===== verification/Codec.v ===== *)
(** * Compression codecs

    src/src/core/compression.cc and compression.h: [zstd_codec] and
    [lz4_fast_codec] over the zstd and lz4 libraries, which are parameters (the
    classes [Zstd] and [Lz4], with their documented guarantees in [ZstdSpec] and
    [Lz4Spec]).  A C function that fills a destination buffer returns its result
    and the contents of that buffer after the call. *)

From Stdlib Require Import ZArith Lia.
From stdpp Require Import base list numbers strings.
From coqutil Require Import Byte Word.LittleEndianList.
From S2P Require Import Prelude.

Inductive codec_type := codec_lz4 | codec_zstd.
Inductive compression_level := fastest | best.

(** [class codec]: the fields of the base class. *)
Record codec := mk_codec { type_ : codec_type; level_ : compression_level }.

#[global] Instance codec_type_eq_dec : EqDecision codec_type.
Proof. solve_decision. Defined.

(** ** The zstd API *)
Class Zstd := {
  ZSTD_findDecompressedSize : list byte -> Z;
  ZSTD_decompress : Z -> list byte -> Z * list byte;
  ZSTD_compressBound : Z -> Z;
  ZSTD_compress : Z -> list byte -> Z -> Z * list byte;
  ZSTD_isError : Z -> bool
}.
Definition ZSTD_CONTENTSIZE_UNKNOWN : Z := 2 ^ 64 - 1.
Definition ZSTD_CONTENTSIZE_ERROR : Z := 2 ^ 64 - 2.

(** Compressing into [ZSTD_compressBound] bytes succeeds; the frame records the
    size of its content, and decompressing it into that many bytes fills them
    with the source. *)
Class ZstdSpec `{Zstd} : Prop := {
  ZSTD_compress_spec src level :
    let '(c, dst) := ZSTD_compress (ZSTD_compressBound (blen src)) src level in
    ZSTD_isError c = false /\ 0 <= c <= blen dst /\
    ZSTD_findDecompressedSize (take (Z.to_nat c) dst) = blen src /\
    ZSTD_decompress (blen src) (take (Z.to_nat c) dst) = (blen src, src)
}.

(** ** The lz4 API *)
Class Lz4 := {
  LZ4_compressBound : Z -> Z;
  LZ4_compress_default : list byte -> Z -> Z -> Z * list byte;
  LZ4_decompress_safe : list byte -> Z -> Z -> Z * list byte
}.
Definition LZ4_MAX_INPUT_SIZE : Z := 0x7E000000.

(** Compressing up to [LZ4_MAX_INPUT_SIZE] bytes into [LZ4_compressBound] bytes
    succeeds and decompressing the result into a buffer of the original size
    fills it with the source.  A result is negative on malformed input. *)
Class Lz4Spec `{Lz4} : Prop := {
  LZ4_compress_spec src : 0 < blen src <= LZ4_MAX_INPUT_SIZE ->
    let '(c, dst) := LZ4_compress_default src (blen src) (LZ4_compressBound (blen src)) in
    0 < c <= blen dst /\ c <= LZ4_compressBound (blen src) < 2 ^ 31 /\
    LZ4_decompress_safe (take (Z.to_nat c) dst) c (blen src) = (blen src, src)
}.

Section codecs.
Context `{Zstd, Lz4}.

(** [zstd_codec::compress]; the level argument of the call is the constant 3. *)
Definition zstd_compress (data : list byte) : outcome (list byte) :=
  let body_size := ZSTD_compressBound (blen data) in
  let '(zstd_compressed_size, dst) := ZSTD_compress body_size data 3 in
  LOG_THROW_IF (ZSTD_isError zstd_compressed_size) "Error compressing zstd buffer" ;;
  Ready (take (Z.to_nat zstd_compressed_size) dst).

(** [zstd_codec::uncompress]. *)
Definition zstd_uncompress (data : list byte) : outcome (list byte) :=
  let zstd_size := ZSTD_findDecompressedSize data in
  LOG_THROW_IF (zstd_size =? ZSTD_CONTENTSIZE_ERROR) "Cannot decompress. Not compressed by zstd" ;;
  LOG_THROW_IF (zstd_size =? ZSTD_CONTENTSIZE_UNKNOWN) "Cannot decompress. Unknown payload size" ;;
  let '(size_decompressed, new_body) := ZSTD_decompress zstd_size data in
  LOG_THROW_IF (negb (zstd_size =? size_decompressed)) "zstd decompression failed" ;;
  Ready new_body.

(** [lz4_fast_codec::compress]: four little-endian bytes of original size, then
    the lz4 block.  [size] is a [size_t] converted to [int] in the calls. *)
Definition lz4_compress (data : list byte) : outcome (list byte) :=
  let max_dst_size := LZ4_compressBound (s32 (blen data)) in
  let '(compressed_data_size, dst) :=
    LZ4_compress_default data (s32 (blen data)) max_dst_size in
  LOG_THROW_IF (compressed_data_size <? 0) "A negative result from LZ4_compress_default" ;;
  LOG_THROW_IF (compressed_data_size =? 0) "A result of 0 means compression worked" ;;
  Ready (le_split 4 (u32 (blen data)) ++ take (Z.to_nat compressed_data_size) dst).

(** [lz4_fast_codec::uncompress]: the size is read from the first four bytes
    without looking at the length, so fewer than four bytes is an out-of-range
    read. *)
Definition lz4_uncompress (data : list byte) : outcome (list byte) :=
  if blen data <? 4 then Undefined
  else
    let orig := le_combine (take 4 data) in
    let '(decompressed_size, buf) :=
      LZ4_decompress_safe (drop 4 data) (s32 (u64 (blen data - 4))) (s32 orig) in
    LOG_THROW_IF (decompressed_size <? 0) "A negative result from LZ4_decompress_safe" ;;
    LOG_THROW_IF (decompressed_size =? 0) "I'm not sure this function can ever return 0" ;;
    Ready (take (Z.to_nat decompressed_size) buf).

(** [codec::make_unique]: every value of the enumeration has a codec. *)
Definition codec_make_unique (type : codec_type) (level : compression_level) : codec :=
  match type with
  | codec_lz4 => mk_codec codec_lz4 level
  | codec_zstd => mk_codec codec_zstd level
  end.

(** The virtual methods. *)
Definition codec_compress (c : codec) (data : list byte) : outcome (list byte) :=
  match type_ c with
  | codec_lz4 => lz4_compress data
  | codec_zstd => zstd_compress data
  end.
Definition codec_uncompress (c : codec) (data : list byte) : outcome (list byte) :=
  match type_ c with
  | codec_lz4 => lz4_uncompress data
  | codec_zstd => zstd_uncompress data
  end.

(** The inputs a codec compresses: lz4 has an upper limit, and its
    decompressor refuses an empty result. *)
Definition compressible (c : codec) (data : list byte) : Prop :=
  match type_ c with
  | codec_lz4 => 0 < blen data <= LZ4_MAX_INPUT_SIZE
  | codec_zstd => blen data < ZSTD_CONTENTSIZE_ERROR
  end.

(** ** Lemmas *)

Lemma zstd_roundtrip `{!ZstdSpec} data :
  blen data < ZSTD_CONTENTSIZE_ERROR ->
  exists z, zstd_compress data = Ready z /\ zstd_uncompress z = Ready data.
Proof.
  intros L. unfold ZSTD_CONTENTSIZE_ERROR in L. unfold zstd_compress.
  pose proof (ZSTD_compress_spec data 3) as S.
  destruct (ZSTD_compress _ data 3) as [c dst]. destruct S as (Er & _ & Sz & De).
  rewrite Er. simpl. eexists. split; [done|]. unfold zstd_uncompress. rewrite Sz, De.
  pose proof (blen_nonneg data).
  unfold ZSTD_CONTENTSIZE_ERROR, ZSTD_CONTENTSIZE_UNKNOWN.
  destruct (Z.eqb_spec (blen data) (2 ^ 64 - 2)), (Z.eqb_spec (blen data) (2 ^ 64 - 1)); try lia.
  simpl. by rewrite Z.eqb_refl.
Qed.

Lemma lz4_roundtrip `{!Lz4Spec} data :
  0 < blen data <= LZ4_MAX_INPUT_SIZE ->
  exists z, lz4_compress data = Ready z /\ 4 < blen z /\ lz4_uncompress z = Ready data.
Proof.
  intros L. pose proof (LZ4_compress_spec data L) as S. unfold LZ4_MAX_INPUT_SIZE in L.
  assert (s32 (blen data) = blen data) as E by (apply wrap_s_small; unfold fits_s; lia).
  assert (u32 (blen data) = blen data) as Eu by (apply wrap_u_small; unfold fits_u; lia).
  unfold lz4_compress. rewrite E, Eu.
  destruct (LZ4_compress_default _ _ _) as [c dst]. destruct S as (Rc & Rb & De).
  rewrite (proj2 (Z.ltb_ge _ _)), (proj2 (Z.eqb_neq _ _)) by lia. simpl.
  assert (blen (take (Z.to_nat c) dst) = c) as Lc
    by (unfold blen in *; rewrite length_take; lia).
  assert (blen (le_split 4 (blen data)) = 4) as L4 by (unfold blen; by rewrite length_le_split).
  exists (le_split 4 (blen data) ++ take (Z.to_nat c) dst).
  split; [done|]. rewrite blen_app, L4, Lc. split; [lia|].
  unfold lz4_uncompress. rewrite blen_app, L4, Lc.
  rewrite (proj2 (Z.ltb_ge _ _)) by lia.
  rewrite take_app_length', drop_app_length' by (by rewrite length_le_split).
  rewrite le_combine_split, Z.mod_small by (simpl; lia).
  replace (4 + c - 4) with c by lia.
  rewrite (wrap_u_small 64 c), (wrap_s_small 32 c), E by (unfold fits_u, fits_s; lia).
  rewrite De, (proj2 (Z.ltb_ge _ _)), (proj2 (Z.eqb_neq _ _)) by lia. simpl.
  by rewrite take_blen.
Qed.

(** Both codecs undo their compression. *)
Lemma codec_roundtrip_lemma `{!ZstdSpec, !Lz4Spec} c data :
  compressible c data ->
  exists z, codec_compress c data = Ready z /\ codec_uncompress c z = Ready data.
Proof.
  unfold compressible, codec_compress, codec_uncompress. destruct (type_ c); intros L.
  - destruct (lz4_roundtrip data L) as (z & ? & _ & ?). eauto.
  - by apply zstd_roundtrip.
Qed.
End codecs.

(** C15: decompression undoes compression.  For both codecs and every input the
    codec takes (non-empty and at most LZ4_MAX_INPUT_SIZE bytes for lz4),
    [compress] succeeds and [uncompress] of its result returns the input,
    whatever levels the two codec objects were made with. *)
Theorem codec_roundtrip `{ZstdSpec, Lz4Spec} type level level' data :
  compressible (codec_make_unique type level) data ->
  exists z, codec_compress (codec_make_unique type level) data = Ready z /\
            codec_uncompress (codec_make_unique type level') z = Ready data.
Proof.
  intros L. destruct (codec_roundtrip_lemma _ _ L) as (z & ? & ?).
  exists z. split; [done|]. by destruct type.
Qed.

(** The lz4 decompressor reads outside its input exactly when it is given
    fewer than four bytes: the size prefix is read before any length check. *)
Theorem lz4_uncompress_undefined_iff `{Lz4} data :
  lz4_uncompress data = Undefined <-> blen data < 4.
Proof.
  unfold lz4_uncompress, LOG_THROW_IF. destruct (Z.ltb_spec (blen data) 4); [done|].
  destruct (LZ4_decompress_safe _ _ _) as [d buf].
  split; [|lia]. by destruct (d <? 0), (d =? 0).
Qed.

(** ** Witnesses *)
Module CodecDemo.
(** Stored blocks: the codec that does not shrink anything. *)
#[export] Instance stored_zstd : Zstd := {|
  ZSTD_findDecompressedSize := blen;
  ZSTD_decompress := fun _ d => (blen d, d);
  ZSTD_compressBound := fun n => n;
  ZSTD_compress := fun _ d _ => (blen d, d);
  ZSTD_isError := fun _ => false
|}.
#[export] Instance stored_lz4 : Lz4 := {|
  LZ4_compressBound := fun n => n;
  LZ4_compress_default := fun d n _ => (n, d);
  LZ4_decompress_safe := fun d n _ => (n, d)
|}.
#[export] Instance stored_zstd_spec : ZstdSpec.
Proof.
  constructor. intros src l. simpl. rewrite take_blen.
  pose proof (blen_nonneg src). split_and!; done || lia.
Qed.
#[export] Instance stored_lz4_spec : Lz4Spec.
Proof.
  constructor. intros src l. simpl. rewrite take_blen. unfold LZ4_MAX_INPUT_SIZE in *.
  split_and!; done || lia.
Qed.

Lemma codec_roundtrip_witness :
  exists z, codec_compress (codec_make_unique codec_lz4 fastest) [Byte.x41; Byte.x42] = Ready z /\
            codec_uncompress (codec_make_unique codec_lz4 best) z = Ready [Byte.x41; Byte.x42].
Proof. apply (codec_roundtrip codec_lz4 fastest best). vm_decide. Defined.
End CodecDemo.
