(* ===== verification/Filters.v ===== *)
(** * Filters

    src/src/include/smf/rpc_filter.h (filter pipelines) and the lz4 and zstd
    filters of src/src/core/lz4_filter.cc and zstd_filter.cc. *)

From Stdlib Require Import ZArith Lia.
From stdpp Require Import base gmap list numbers strings.
From coqutil Require Import Byte.
From S2P Require Import Prelude Header Seastar Letter Connection RecvContext Codec Wire.

(** [rpc_filter_apply(begin, end, arg)] and its overload on a container. *)
Fixpoint rpc_filter_apply {A} (fs : list (A -> outcome A)) (arg : A) : outcome A :=
  match fs with
  | [] => Ready arg
  | f :: fs => a ← f arg; rpc_filter_apply fs a
  end.

(** The [thread_local] compressors of the two files. *)
Definition lz4_compressor : codec := codec_make_unique codec_lz4 fastest.
Definition zstd_compressor : codec := codec_make_unique codec_zstd fastest.

Section filters.
Context `{GeneratedHeader, Xxhash, Zstd, Lz4}.

Definition lz4_compression_filter (min_compression_size : Z) (e : rpc_envelope) :
    outcome rpc_envelope :=
  if negb (compression (lheader (letter e)) =? flag_value compression_flags_none) then Ready e
  else if blen (body (letter e)) <=? min_compression_size then Ready e
  else
    buf ← codec_compress lz4_compressor (body (letter e));
    let e := with_body buf e in
    let e := map_header (mutate_compression compression_flags_lz4) e in
    Ready (map_header (fun h => checksum_rpc h buf (blen buf)) e).

Definition lz4_decompression_filter (ctx : rpc_recv_context) : outcome rpc_recv_context :=
  if compression (ctx_header ctx) =? flag_value compression_flags_lz4 then
    buf ← codec_uncompress lz4_compressor (payload ctx);
    let hdr := mutate_compression compression_flags_none (ctx_header ctx) in
    Ready (mk_ctx (ctx_address ctx) (checksum_rpc hdr buf (blen buf)) buf)
  else Ready ctx.

Definition zstd_compression_filter (min_compression_size : Z) (e : rpc_envelope) :
    outcome rpc_envelope :=
  if negb (compression (lheader (letter e)) =? flag_value compression_flags_none) then Ready e
  else if blen (body (letter e)) <=? min_compression_size then Ready e
  else
    buf ← codec_compress zstd_compressor (body (letter e));
    let e := with_body buf e in
    let e := map_header (mutate_compression compression_flags_zstd) e in
    Ready (map_header (fun h => checksum_rpc h buf (blen buf)) e).

Definition zstd_decompression_filter (ctx : rpc_recv_context) : outcome rpc_recv_context :=
  if compression (ctx_header ctx) =? flag_value compression_flags_zstd then
    buf ← codec_uncompress zstd_compressor (payload ctx);
    let hdr := mutate_compression compression_flags_none (ctx_header ctx) in
    Ready (mk_ctx (ctx_address ctx) (checksum_rpc hdr buf (blen buf)) buf)
  else Ready ctx.

(** The filters of one codec, for the proofs: codec and flag. *)
Definition flag_of (t : codec_type) : compression_flags :=
  match t with codec_lz4 => compression_flags_lz4 | codec_zstd => compression_flags_zstd end.
Definition compressor_of (t : codec_type) : codec :=
  match t with codec_lz4 => lz4_compressor | codec_zstd => zstd_compressor end.
Definition compression_filter (t : codec_type) : Z -> rpc_envelope -> outcome rpc_envelope :=
  match t with codec_lz4 => lz4_compression_filter | codec_zstd => zstd_compression_filter end.
Definition decompression_filter (t : codec_type) : rpc_recv_context -> outcome rpc_recv_context :=
  match t with codec_lz4 => lz4_decompression_filter | codec_zstd => zstd_decompression_filter end.

(** The envelope with a compressed body. *)
Definition compressed_as (t : codec_type) (buf : list byte) (e : rpc_envelope) : rpc_envelope :=
  map_header (fun h => checksum_rpc h buf (blen buf))
    (map_header (mutate_compression (flag_of t)) (with_body buf e)).

(** The filters that are registered: one per codec that a receiver accepts, and
    one for the codec of a sender with its threshold, if it has one. *)
Definition decompression_filters (ts : list codec_type) : list (rpc_recv_context -> outcome rpc_recv_context) :=
  map decompression_filter ts.
Definition compression_filters (c : option (codec_type * Z)) : list (rpc_envelope -> outcome rpc_envelope) :=
  match c with Some (t, min) => [compression_filter t min] | None => [] end.

(** ** Lemmas *)

Lemma compression_filter_none t min e :
  compression_ (lheader (letter e)) = flag_value compression_flags_none ->
  compression_filter t min e =
    (if blen (body (letter e)) <=? min then Ready e
     else buf ← codec_compress (compressor_of t) (body (letter e));
          Ready (compressed_as t buf e)).
Proof.
  intros C. pose proof (compression_flag _ _ C) as C'.
  destruct t; simpl; unfold lz4_compression_filter, zstd_compression_filter;
    rewrite C'; simpl; by case_goal.
Qed.

Lemma decompression_filter_other t ctx :
  compression (ctx_header ctx) <> flag_value (flag_of t) ->
  decompression_filter t ctx = Ready ctx.
Proof.
  intros N. destruct t; simpl in *;
    unfold lz4_decompression_filter, zstd_decompression_filter; simpl;
    by rewrite (proj2 (Z.eqb_neq _ _) N).
Qed.

Lemma decompression_filter_own t ctx :
  compression (ctx_header ctx) = flag_value (flag_of t) ->
  decompression_filter t ctx =
    (buf ← codec_uncompress (compressor_of t) (payload ctx);
     Ready (mk_ctx (ctx_address ctx)
       (checksum_rpc (mutate_compression compression_flags_none (ctx_header ctx)) buf (blen buf)) buf)).
Proof.
  intros C. destruct t; simpl in *;
    unfold lz4_decompression_filter, zstd_decompression_filter; by rewrite C.
Qed.

(** Stamping a framed header again with its own body changes nothing. *)
Lemma checksum_rpc_framed e :
  framed e -> checksum_rpc (lheader (letter e)) (body (letter e)) (blen (body (letter e))) =
              lheader (letter e).
Proof.
  intros [W S R K _ _ _ _]. unfold checksum_rpc, max_flatbuffers_size in *.
  rewrite (wrap_u_small 32 (blen _)) by (unfold fits_u; lia). rewrite <- K, <- S.
  destruct W as (? & ? & ? & ? & ? & ?).
  unfold mutate_size, mutate_checksum. simpl. rewrite !wrap_u_small by done.
  by destruct (lheader (letter e)).
Qed.

Lemma received_compression e f addr :
  compression_ (lheader (letter e)) = flag_value f -> f <> compression_flags_disabled ->
  received addr e = mk_ctx addr (lheader (letter e)) (body (letter e)) /\
  compression (ctx_header (received addr e)) = flag_value f.
Proof.
  intros C N. unfold received, received_header. rewrite C.
  assert ((flag_value f =? flag_value compression_flags_disabled) = false) as ->
    by (apply Z.eqb_neq; intros E; by apply flag_value_inj in E).
  split; [done|]. by apply compression_flag.
Qed.

(** What the receiver decompresses is what it would have received uncompressed. *)
Lemma compressed_received t buf e addr :
  framed e -> compression_ (lheader (letter e)) = flag_value compression_flags_none ->
  codec_uncompress (compressor_of t) buf = Ready (body (letter e)) ->
  decompression_filter t (received addr (compressed_as t buf e)) = Ready (received addr e).
Proof.
  intros F C U.
  destruct (received_compression (compressed_as t buf e) (flag_of t) addr) as [Er Ec];
    [by destruct t..|].
  rewrite decompression_filter_own by done. rewrite Er. simpl. rewrite U. simpl.
  destruct (received_compression e compression_flags_none addr C) as [-> _]; [done|].
  do 2 f_equal. symmetry. etransitivity; [symmetry; apply (checksum_rpc_framed e F)|].
  unfold checksum_rpc, mutate_size, mutate_checksum, mutate_compression. simpl. by rewrite C.
Qed.
End filters.

(** C31: what a peer reaches with a body flagged as lz4.  Any framed envelope with
    that flag passes every check of the receiver; the decompression filter then
    reads beyond the payload exactly when the body has fewer than four bytes,
    because the size prefix is read before any length check.  When the filter
    returns, the header says that the payload is not compressed and carries its
    size and checksum, and session and request id are unchanged. *)
Theorem lz4_body_from_the_wire `{Build, GeneratedHeader, Xxhash, Seastar, Zstd, Lz4} conn e rest :
  quiescent conn -> framed e -> compression_ (lheader (letter e)) = flag_value compression_flags_lz4 ->
  pending (c_istream conn) = frame e ++ rest ->
  exists ctx i, parse_request conn = Some (Ready (Some ctx, with_istream i conn)) /\
    (lz4_decompression_filter ctx = Undefined <-> blen (body (letter e)) < 4) /\
    (forall ctx', lz4_decompression_filter ctx = Ready ctx' ->
       compression (ctx_header ctx') = flag_value compression_flags_none /\
       hsize (ctx_header ctx') = u32 (blen (payload ctx')) /\
       checksum (ctx_header ctx') = rpc_checksum_payload (payload ctx') (u32 (blen (payload ctx'))) /\
       ctx_session ctx' = ctx_session ctx /\ request_id ctx' = request_id ctx).
Proof.
  intros Q F C P. destruct (parse_request_framed conn e rest Q F P) as (i & _ & _ & _ & E).
  exists (received (remote_address conn) e), i. split; [done|].
  destruct (received_compression e compression_flags_lz4 (remote_address conn) C) as [_ Ce]; [done|].
  pose proof (decompression_filter_own codec_lz4 _ Ce) as D. simpl in D. rewrite D. split.
  - rewrite <- lz4_uncompress_undefined_iff. unfold codec_uncompress, lz4_compressor. simpl.
    by destruct (lz4_uncompress (body (letter e))).
  - intros ctx' R. apply outcome_bind_Ready in R as (buf & _ & R). injection R as <-. simpl.
    unfold request_id, ctx_session. simpl. split_and!; try done.
    + by apply (compression_flag compression_flags_none).
    + apply wrap_u_idemp.
    + apply wrap_u_small, checksum_fits.
Qed.

(** A pipeline of filters is their composition in registration order.
    Running the filters of [fs ++ gs] is running [fs] and then [gs] on its
    result; each filter sees the value its predecessor returned, and an
    exception of a filter is the result of the pipeline. *)
Theorem filter_pipeline {A} (fs gs : list (A -> outcome A)) a :
  rpc_filter_apply (fs ++ gs) a = (rpc_filter_apply fs a ≫= rpc_filter_apply gs).
Proof.
  revert a. induction fs as [|f fs IH]; intros a; simpl; [done|].
  destruct (f a); simpl; [apply IH|done|done].
Qed.

(** The filters of the receiver leave an uncompressed envelope as it is, and
    undo each compression that they have a filter for. *)
Lemma undone_plain `{GeneratedHeader, Xxhash, Zstd, Lz4} ts e addr :
  compression_ (lheader (letter e)) = flag_value compression_flags_none ->
  rpc_filter_apply (decompression_filters ts) (received addr e) = Ready (received addr e).
Proof.
  intros C. destruct (received_compression e compression_flags_none addr C) as [_ Ce]; [done|].
  induction ts as [|t ts IH]; [done|]. cbn [decompression_filters map rpc_filter_apply].
  rewrite decompression_filter_other; [exact IH|]. rewrite Ce. by destruct t.
Qed.

Lemma undone_compressed `{GeneratedHeader, Xxhash, Zstd, Lz4} t ts z e addr :
  t ∈ ts -> framed e -> compression_ (lheader (letter e)) = flag_value compression_flags_none ->
  codec_uncompress (compressor_of t) z = Ready (body (letter e)) ->
  rpc_filter_apply (decompression_filters ts) (received addr (compressed_as t z e)) = Ready (received addr e).
Proof.
  intros I F C U. pose proof (compressed_received t z e addr F C U) as R.
  destruct (received_compression (compressed_as t z e) (flag_of t) addr) as [_ Cz]; [done|by destruct t|].
  induction ts as [|t' ts IH]; [by apply elem_of_nil in I|]. cbn [decompression_filters map rpc_filter_apply].
  destruct (decide (t' = t)) as [->|N].
  - rewrite R. by apply undone_plain.
  - rewrite decompression_filter_other; [|rewrite Cz; by destruct t, t'].
    apply IH. by apply elem_of_cons in I as [<-|I].
Qed.

(** C16: compression is transparent.  For an uncompressed framed envelope, the
    lz4 and zstd compression filters succeed, and the context a peer builds
    from the filtered envelope, run through decompression filters that have
    the one of the codec among them, in whatever order, is
    exactly the context of the envelope without compression: same header, size
    and checksum included, same payload. *)
Theorem compression_transparent `{GeneratedHeader, Xxhash, ZstdSpec, Lz4Spec} t ts min e addr :
  t ∈ ts -> framed e -> compression_ (lheader (letter e)) = flag_value compression_flags_none ->
  compressible (compressor_of t) (body (letter e)) ->
  exists e', compression_filter t min e = Ready e' /\
    rpc_filter_apply (decompression_filters ts) (received addr e') = Ready (received addr e).
Proof.
  intros I F C L. rewrite compression_filter_none by done. case_goal.
  - exists e. split; [done|]. by apply undone_plain.
  - destruct (codec_roundtrip_lemma _ _ L) as (z & -> & U). simpl.
    exists (compressed_as t z e). split; [done|]. by apply undone_compressed.
Qed.

(** ** Witnesses *)
Module FiltersWitness.
Import Demo CodecDemo.

Definition w_lz4 : rpc_envelope :=
  map_header (mutate_compression compression_flags_lz4) (demo_envelope [Byte.xff] 9 2).

Lemma w_lz4_framed : framed w_lz4.
Proof.
  destruct (WireWitness.w_framed [Byte.xff] 9 2) as [W S R K Kp M B _]; [vm_decide..|].
  constructor; try done; by exists compression_flags_lz4.
Qed.

Lemma lz4_body_from_the_wire_witness :
  exists ctx i, parse_request (demo_conn (frame w_lz4) false) =
      Some (Ready (Some ctx, with_istream i (demo_conn (frame w_lz4) false))) /\
    lz4_decompression_filter ctx = Undefined.
Proof.
  destruct (lz4_body_from_the_wire (demo_conn (frame w_lz4) false) w_lz4 []) as (ctx & i & E & U & _).
  - reflexivity.
  - exact w_lz4_framed.
  - reflexivity.
  - symmetry. apply app_nil_r.
  - exists ctx, i. split; [exact E|]. apply U. reflexivity.
Defined.

Lemma compression_transparent_witness :
  exists e', compression_filter codec_zstd 1 (demo_envelope [Byte.x41; Byte.x42] 9 2) = Ready e' /\
    rpc_filter_apply (decompression_filters [codec_lz4; codec_zstd]) (received demo_addr e') =
      Ready (received demo_addr (demo_envelope [Byte.x41; Byte.x42] 9 2)).
Proof.
  apply (compression_transparent codec_zstd [codec_lz4; codec_zstd] 1).
  - right. left.
  - apply WireWitness.w_framed; vm_decide.
  - reflexivity.
  - vm_decide.
Defined.
End FiltersWitness.
