(* ===== verification/Router.v ===== *)
(** * Services and routing

    src/src/core/rpc_handle_router.cc, rpc_handle_router.h, rpc_service.h, and
    the service class that src/src/smfc/cpp_generator.cc generates: its handles
    and its [method_for_request_id] switch. *)

From Stdlib Require Import ZArith Lia.
From stdpp Require Import base list numbers strings.
From coqutil Require Import Byte.
From S2P Require Import Prelude Header Letter Connection RecvContext.

(** [struct rpc_service_method_handle]. *)
Record rpc_service_method_handle := mk_handle {
  apply : rpc_recv_context -> outcome rpc_envelope
}.

(** [struct rpc_service]: the virtual methods. *)
Record rpc_service := mk_service {
  service_name : string;
  service_id : Z;
  method_for_request_id : Z -> option rpc_service_method_handle
}.

(** [rpc_handle_router]: [services_] in registration order. *)
Definition rpc_handle_router := list rpc_service.

Definition register_service (s : rpc_service) (r : rpc_handle_router) : rpc_handle_router :=
  r ++ [s].

Fixpoint get_handle_for_request (r : rpc_handle_router) (rid : Z) : option rpc_service_method_handle :=
  match r with
  | [] => None
  | p :: r =>
      match method_for_request_id p rid with
      | Some x => Some x
      | None => get_handle_for_request r rid
      end
  end.

(** ** Generated services *)

(** A method of a generated service: its id and its raw implementation. *)
Record generated_method := mk_method {
  gm_method_id : Z;
  gm_raw : rpc_recv_context -> outcome rpc_envelope
}.

(** The lambda of a handle: the session of the request is stamped on the reply. *)
Definition generated_apply (m : generated_method) (c : rpc_recv_context) : outcome rpc_envelope :=
  let session_id := ctx_session c in
  e ← gm_raw m c;
  Ready (map_header (mutate_session session_id) e).

(** The raw method of a typed method: run it, then serialize its envelope.
    [input_t(std::move(c))] reads the payload as a FlatBuffers root in place. *)
Definition generated_raw `{FlatTable, Xxhash}
    (method : rpc_recv_context -> outcome rpc_typed_envelope) (c : rpc_recv_context) :
    outcome rpc_envelope :=
  x ← method c; '(e, _) ← serialize_data x; Ready e.

(** The default implementation of a generated method: status 501. *)
Definition generated_default `{FlatTable} (c : rpc_recv_context) : outcome rpc_typed_envelope :=
  Ready (mk_typed _ (set_status 501 rpc_envelope0) (Some native_default)).

(** The generated [switch(idx)]: one case [ServiceID ^ MethodId] per method. *)
Fixpoint generated_switch (sid : Z) (ms : list generated_method) (idx : Z) :
    option rpc_service_method_handle :=
  match ms with
  | [] => None
  | m :: ms =>
      if idx =? Z.lxor sid (gm_method_id m) then Some (mk_handle (generated_apply m))
      else generated_switch sid ms idx
  end.

Definition generated_service (name : string) (sid : Z) (ms : list generated_method) : rpc_service :=
  mk_service name sid (generated_switch sid ms).

(** The request id a generated client method sends. *)
Definition client_request_id (sid mid : Z) : Z := Z.lxor sid mid.

(** ** Lemmas *)

Lemma get_handle_app r1 r2 rid :
  get_handle_for_request (r1 ++ r2) rid =
    match get_handle_for_request r1 rid with
    | Some h => Some h
    | None => get_handle_for_request r2 rid
    end.
Proof. induction r1 as [|p r1 IH]; simpl; [done|]. by case_goal. Qed.

Lemma get_handle_none r rid :
  (forall s, s ∈ r -> method_for_request_id s rid = None) -> get_handle_for_request r rid = None.
Proof.
  induction r as [|s r IH]; intros F; [done|]. simpl. rewrite F by left.
  apply IH. intros s' Hs. apply F. by right.
Qed.

Lemma generated_switch_Some sid ms idx h :
  generated_switch sid ms idx = Some h ->
  exists m, m ∈ ms /\ idx = client_request_id sid (gm_method_id m) /\ h = mk_handle (generated_apply m).
Proof.
  induction ms as [|m ms IH]; simpl; [done|]. case_goal; bool_to_prop.
  - intros [= <-]. exists m. split_and!; [left|done|done].
  - intros E. destruct (IH E) as (m' & ? & ? & ?). exists m'. split_and!; [by right|done|done].
Qed.

Lemma generated_switch_hit sid ms m :
  NoDup (map gm_method_id ms) -> m ∈ ms ->
  generated_switch sid ms (client_request_id sid (gm_method_id m)) = Some (mk_handle (generated_apply m)).
Proof.
  unfold client_request_id. induction ms as [|m' ms IH]; simpl; intros N I; [by apply elem_of_nil in I|].
  apply NoDup_cons in N as [N1 N2]. case_goal; bool_to_prop.
  - assert (gm_method_id m = gm_method_id m') as E.
    { apply (f_equal (Z.lxor sid)) in Heqb. by rewrite <- !Z.lxor_assoc, Z.lxor_nilpotent, !Z.lxor_0_l in Heqb. }
    apply elem_of_cons in I as [->|I]; [done|].
    destruct N1. rewrite <- E. by apply list_elem_of_fmap_2.
  - apply elem_of_cons in I as [->|I]; [done|]. by apply IH.
Qed.

(** C17: dispatch by request id.  In a router of generated services in which no
    two methods have the same request id, the handle found for the id a client
    of service [sid] sends for method [m] is the handle of [m], and its reply
    carries the session of the request. *)
Theorem request_id_dispatch r1 name sid ms r2 m :
  NoDup (map gm_method_id ms) -> m ∈ ms ->
  (forall s, s ∈ r1 -> method_for_request_id s (client_request_id sid (gm_method_id m)) = None) ->
  exists h,
    get_handle_for_request (r1 ++ register_service (generated_service name sid ms) [] ++ r2)
      (client_request_id sid (gm_method_id m)) = Some h /\
    (forall c e, apply h c = Ready e ->
       exists e0, gm_raw m c = Ready e0 /\
         e = map_header (mutate_session (ctx_session c)) e0 /\
         session (lheader (letter e)) = u16 (ctx_session c)).
Proof.
  intros N I F. exists (mk_handle (generated_apply m)). split.
  - rewrite get_handle_app.
    rewrite get_handle_none by done.
    simpl. by rewrite generated_switch_hit.
  - simpl. unfold generated_apply. intros c e E. apply outcome_bind_Ready in E as (e0 & R & E).
    injection E as <-. by exists e0.
Qed.

(** An unknown request id is reported as such.  No handle is found for an
    id that is not the request id of a method of a registered service, and
    registering further services never changes the handle of an id that was
    already routed. *)
Theorem request_id_unrouted (r : list (string * Z * list generated_method)) rid extra :
  let router := map (fun '(n, sid, ms) => generated_service n sid ms) r in
  (forall n sid ms m, (n, sid, ms) ∈ r -> m ∈ ms -> client_request_id sid (gm_method_id m) <> rid) ->
  get_handle_for_request router rid = None /\
  (forall rid' h, get_handle_for_request router rid' = Some h ->
     get_handle_for_request (register_service extra router) rid' = Some h).
Proof.
  intros router F. split.
  - unfold router. clear router. induction r as [|[[n sid] ms] r IH]; simpl; [done|].
    destruct (generated_switch sid ms rid) eqn:E.
    + apply generated_switch_Some in E as (m & I & -> & _).
      by destruct (F n sid ms m (list_elem_of_here _ _) I).
    + apply IH. intros n' s' m' m I J. eapply F; [right; apply I|done].
  - intros rid' h E. unfold register_service. by rewrite get_handle_app, E.
Qed.

(** ** Witnesses *)
Module RouterWitness.
Definition w_method : generated_method := mk_method 5 (fun _ => Ready rpc_envelope0).

Lemma request_id_dispatch_witness :
  exists h, get_handle_for_request
    ([] ++ register_service (generated_service "Storage" 9 [w_method]) [] ++ [])
    (client_request_id 9 5) = Some h /\
    (forall c e, apply h c = Ready e ->
       exists e0, gm_raw w_method c = Ready e0 /\
         e = map_header (mutate_session (ctx_session c)) e0 /\
         session (lheader (letter e)) = u16 (ctx_session c)).
Proof.
  apply (request_id_dispatch [] "Storage" 9 [w_method] [] w_method).
  - apply NoDup_singleton.
  - apply list_elem_of_here.
  - intros s I. by apply elem_of_nil in I.
Defined.

Lemma request_id_unrouted_witness :
  get_handle_for_request (map (fun '(n, sid, ms) => generated_service n sid ms)
    [("Storage", 9, [w_method])]) 1 = None.
Proof.
  apply (request_id_unrouted [("Storage", 9, [w_method])] 1 (generated_service "x" 1 [])).
  intros n sid ms m I J. apply list_elem_of_singleton in I as [= -> -> ->].
  apply list_elem_of_singleton in J as ->. vm_decide.
Defined.
End RouterWitness.
