(* ===== verification/Server.v ===== *)
(** * The RPC server

    src/src/core/rpc_server.cc with rpc_server.h, rpc_server_connection.h,
    rpc_server_stats.h and rpc_server_args.h.

    The server is a state machine.  Every connection has a session fiber
    ([handle_client_connection]: the loop over [handle_one_client_session]) and
    every parsed request a dispatch fiber ([dispatch_rpc], run in the
    background); a fiber is the point of the continuation chain it is suspended
    at.  An event resumes one fiber up to its next suspension, so a sequence of
    events is an interleaving of the fibers of one core.  An execution is
    followed up to its first undefined operation. *)

From Stdlib Require Import ZArith Lia.
From stdpp Require Import base gmap list numbers strings.
From coqutil Require Import Byte.
From S2P Require Import Prelude Header Seastar Letter Connection RecvContext Filters Router.

(** [struct rpc_server_stats]: 64-bit counters. *)
Record rpc_server_stats := mk_stats {
  active_connections : Z;
  total_connections : Z;
  in_bytes : Z;
  out_bytes : Z;
  bad_requests : Z;
  no_route_requests : Z;
  completed_requests : Z;
  too_large_requests : Z
}.
Definition rpc_server_stats0 : rpc_server_stats := mk_stats 0 0 0 0 0 0 0 0.

Definition add_active (n : Z) (s : rpc_server_stats) : rpc_server_stats :=
  mk_stats (u64 (active_connections s + n)) (total_connections s) (in_bytes s) (out_bytes s)
    (bad_requests s) (no_route_requests s) (completed_requests s) (too_large_requests s).
Definition add_total (n : Z) (s : rpc_server_stats) : rpc_server_stats :=
  mk_stats (active_connections s) (u64 (total_connections s + n)) (in_bytes s) (out_bytes s)
    (bad_requests s) (no_route_requests s) (completed_requests s) (too_large_requests s).
Definition add_in_bytes (n : Z) (s : rpc_server_stats) : rpc_server_stats :=
  mk_stats (active_connections s) (total_connections s) (u64 (in_bytes s + n)) (out_bytes s)
    (bad_requests s) (no_route_requests s) (completed_requests s) (too_large_requests s).
Definition add_out_bytes (n : Z) (s : rpc_server_stats) : rpc_server_stats :=
  mk_stats (active_connections s) (total_connections s) (in_bytes s) (u64 (out_bytes s + n))
    (bad_requests s) (no_route_requests s) (completed_requests s) (too_large_requests s).
Definition add_bad (n : Z) (s : rpc_server_stats) : rpc_server_stats :=
  mk_stats (active_connections s) (total_connections s) (in_bytes s) (out_bytes s)
    (u64 (bad_requests s + n)) (no_route_requests s) (completed_requests s) (too_large_requests s).
Definition add_no_route (n : Z) (s : rpc_server_stats) : rpc_server_stats :=
  mk_stats (active_connections s) (total_connections s) (in_bytes s) (out_bytes s)
    (bad_requests s) (u64 (no_route_requests s + n)) (completed_requests s) (too_large_requests s).
Definition add_completed (n : Z) (s : rpc_server_stats) : rpc_server_stats :=
  mk_stats (active_connections s) (total_connections s) (in_bytes s) (out_bytes s)
    (bad_requests s) (no_route_requests s) (u64 (completed_requests s + n)) (too_large_requests s).

(** [class rpc_server_connection]. *)
Record rpc_server_connection `{Seastar} := mk_sconn {
  conn : rpc_connection;
  serialize_writes : semaphore
}.

(** [struct rpc_server_args], the fields the core uses. *)
Record rpc_server_args := mk_args {
  recv_timeout : Z;
  memory_avail_per_core : Z
}.
Definition rpc_server_args0 : rpc_server_args := mk_args 60000 (2 ^ 31).

(** Where a session fiber is suspended. *)
Inductive session_stage :=
| s_loop                    (* at the condition of [do_until] *)
| s_header                  (* in the read of [parse_header] *)
| s_wait (hdr : header)     (* in [resources_available.wait] *)
| s_payload (hdr : header)  (* in the read of [parse_payload] *)
| s_done.                   (* [handle_client_connection] has returned *)

#[global] Instance session_stage_eq_dec : EqDecision session_stage.
Proof. solve_decision. Defined.

(** Where a dispatch fiber is suspended. *)
Inductive dispatch_stage :=
| d_incoming (h : rpc_service_method_handle) (ctx : rpc_recv_context)
| d_apply (h : rpc_service_method_handle) (ctx : rpc_recv_context)
| d_outgoing (e : rpc_envelope)
| d_lock (e : rpc_envelope)     (* waiting for [serialize_writes] *)
| d_header (e : rpc_envelope)   (* in [send], before the header is written *)
| d_body (e : rpc_envelope)     (* in [send], before the body is written *)
| d_send_flush (e : rpc_envelope)
| d_flush                       (* the flush after the reply *)
| d_end (ok : bool).            (* [do_dispatch_rpc] resolved, or failed *)

(** A dispatch fiber: its connection and the [int32_t payload_size]. *)
Record dispatch := mk_dispatch {
  d_conn : Z;
  d_payload_size : Z;
  d_stage : dispatch_stage
}.

(** The registered routes and filters. *)
Record server_config := mk_config {
  routes : rpc_handle_router;
  in_filters : list (rpc_recv_context -> outcome rpc_recv_context);
  out_filters : list (rpc_envelope -> outcome rpc_envelope)
}.

(** [register_service], [register_incoming_filter], [register_outgoing_filter]. *)
Definition server_register_service (s : rpc_service) (c : server_config) : server_config :=
  mk_config (register_service s (routes c)) (in_filters c) (out_filters c).
Definition register_incoming_filter (f : rpc_recv_context -> outcome rpc_recv_context)
    (c : server_config) : server_config :=
  mk_config (routes c) (in_filters c ++ [f]) (out_filters c).
Definition register_outgoing_filter (f : rpc_envelope -> outcome rpc_envelope)
    (c : server_config) : server_config :=
  mk_config (routes c) (in_filters c) (out_filters c ++ [f]).

(** [class rpc_server].  [conns] are the live connection objects, [open_] the
    keys of [open_connections_].  The last five fields are history: envelopes
    written to each connection, connections with a failed write, units acquired
    and never given back, erased and destroyed connections. *)
Record server `{Seastar} := mk_server {
  listening : bool;
  limits_ : rpc_connection_limits;
  stats_ : rpc_server_stats;
  connection_idx_ : Z;
  conns : gmap Z rpc_server_connection;
  open_ : gset Z;
  sessions : gmap Z session_stage;
  dispatches : gmap Z dispatch;
  next_dispatch : Z;
  reply_gate_ : gate;
  sent_ : gmap Z (list rpc_envelope);
  broken_ : gset Z;
  leaked_ : Z;
  erased_ : Z;
  destroyed_ : Z
}.

Section server.
Context `{Build, GeneratedHeader, Xxhash, Seastar}.

Variable cfg : server_config.

Implicit Types sv : server.

(** ** Field updates *)

Definition upd_stats (f : rpc_server_stats -> rpc_server_stats) sv : server :=
  mk_server _ (listening sv) (limits_ sv) (f (stats_ sv)) (connection_idx_ sv) (conns sv) (open_ sv)
    (sessions sv) (dispatches sv) (next_dispatch sv) (reply_gate_ sv) (sent_ sv) (broken_ sv) (leaked_ sv)
    (erased_ sv) (destroyed_ sv).
Definition upd_limits (f : semaphore -> semaphore) sv : server :=
  mk_server _ (listening sv)
    (mk_limits _ (max_memory (limits_ sv)) (max_body_parsing_duration (limits_ sv))
       (f (resources_available (limits_ sv))))
    (stats_ sv) (connection_idx_ sv) (conns sv) (open_ sv)
    (sessions sv) (dispatches sv) (next_dispatch sv) (reply_gate_ sv) (sent_ sv) (broken_ sv) (leaked_ sv)
    (erased_ sv) (destroyed_ sv).
Definition upd_conns (f : gmap Z rpc_server_connection -> gmap Z rpc_server_connection) sv : server :=
  mk_server _ (listening sv) (limits_ sv) (stats_ sv) (connection_idx_ sv) (f (conns sv)) (open_ sv)
    (sessions sv) (dispatches sv) (next_dispatch sv) (reply_gate_ sv) (sent_ sv) (broken_ sv) (leaked_ sv)
    (erased_ sv) (destroyed_ sv).
Definition upd_sessions (f : gmap Z session_stage -> gmap Z session_stage) sv : server :=
  mk_server _ (listening sv) (limits_ sv) (stats_ sv) (connection_idx_ sv) (conns sv) (open_ sv)
    (f (sessions sv)) (dispatches sv) (next_dispatch sv) (reply_gate_ sv) (sent_ sv) (broken_ sv) (leaked_ sv)
    (erased_ sv) (destroyed_ sv).
Definition upd_dispatches (f : gmap Z dispatch -> gmap Z dispatch) sv : server :=
  mk_server _ (listening sv) (limits_ sv) (stats_ sv) (connection_idx_ sv) (conns sv) (open_ sv)
    (sessions sv) (f (dispatches sv)) (next_dispatch sv) (reply_gate_ sv) (sent_ sv) (broken_ sv) (leaked_ sv)
    (erased_ sv) (destroyed_ sv).
Definition upd_gate (g : gate) sv : server :=
  mk_server _ (listening sv) (limits_ sv) (stats_ sv) (connection_idx_ sv) (conns sv) (open_ sv)
    (sessions sv) (dispatches sv) (next_dispatch sv) g (sent_ sv) (broken_ sv) (leaked_ sv)
    (erased_ sv) (destroyed_ sv).
Definition add_leaked (n : Z) sv : server :=
  mk_server _ (listening sv) (limits_ sv) (stats_ sv) (connection_idx_ sv) (conns sv) (open_ sv)
    (sessions sv) (dispatches sv) (next_dispatch sv) (reply_gate_ sv) (sent_ sv) (broken_ sv) (leaked_ sv + n)
    (erased_ sv) (destroyed_ sv).
Definition add_sent (id : Z) (e : rpc_envelope) sv : server :=
  mk_server _ (listening sv) (limits_ sv) (stats_ sv) (connection_idx_ sv) (conns sv) (open_ sv)
    (sessions sv) (dispatches sv) (next_dispatch sv) (reply_gate_ sv)
    (<[id := default [] (sent_ sv !! id) ++ [e]]> (sent_ sv)) (broken_ sv) (leaked_ sv)
    (erased_ sv) (destroyed_ sv).

(** A change of the [rpc_connection] of connection [id]. *)
Definition upd_conn (id : Z) (f : rpc_connection -> rpc_connection) sv : server :=
  upd_conns (alter (fun c => mk_sconn _ (f (conn c)) (serialize_writes c)) id) sv.
Definition upd_writes (id : Z) (w : semaphore) sv : server :=
  upd_conns (alter (fun c => mk_sconn _ (conn c) w) id) sv.
Definition set_session (id : Z) (st : session_stage) sv : server :=
  upd_sessions (insert id st) sv.
Definition set_stage (tid : Z) (st : dispatch_stage) sv : server :=
  upd_dispatches (alter (fun d => mk_dispatch (d_conn d) (d_payload_size d) st) tid) sv.

(** [resources_available.signal(payload_size)]: the [int32_t] is converted to
    the [size_t] parameter of [signal]. *)
Definition signal_units (payload_size : Z) sv : server :=
  upd_limits (fun s => sem_signal s (u64 payload_size)) sv.

(** History of a failed write. *)
Definition mark_broken (id : Z) sv : server :=
  mk_server _ (listening sv) (limits_ sv) (stats_ sv) (connection_idx_ sv) (conns sv) (open_ sv)
    (sessions sv) (dispatches sv) (next_dispatch sv) (reply_gate_ sv) (sent_ sv)
    ({[id]} ∪ broken_ sv) (leaked_ sv) (erased_ sv) (destroyed_ sv).

(** [open_connections_.erase(it)]. *)
Definition erase_open (id : Z) sv : server :=
  mk_server _ (listening sv) (limits_ sv) (stats_ sv) (connection_idx_ sv) (conns sv)
    (open_ sv ∖ {[id]}) (sessions sv) (dispatches sv) (next_dispatch sv) (reply_gate_ sv) (sent_ sv)
    (broken_ sv) (leaked_ sv) (erased_ sv + 1) (destroyed_ sv).

(** A new dispatch fiber. *)
Definition add_dispatch (d : dispatch) sv : server :=
  mk_server _ (listening sv) (limits_ sv) (stats_ sv) (connection_idx_ sv) (conns sv) (open_ sv)
    (sessions sv) (<[next_dispatch sv := d]> (dispatches sv)) (next_dispatch sv + 1)
    (reply_gate_ sv) (sent_ sv) (broken_ sv) (leaked_ sv) (erased_ sv) (destroyed_ sv).

(** ** Operations *)

(** The constructor. *)
Definition rpc_server_make (args : rpc_server_args) : server :=
  mk_server _ false (rpc_connection_limits_make (memory_avail_per_core args) (recv_timeout args))
    rpc_server_stats0 0 ∅ ∅ ∅ ∅ 0 gate_new ∅ ∅ 0 0 0.

(** [start]: the accept loop runs. *)
Definition server_start sv : server :=
  mk_server _ true (limits_ sv) (stats_ sv) (connection_idx_ sv) (conns sv) (open_ sv)
    (sessions sv) (dispatches sv) (next_dispatch sv) (reply_gate_ sv) (sent_ sv) (broken_ sv)
    (leaked_ sv) (erased_ sv) (destroyed_ sv).

(** One iteration of the accept loop: a connection object (whose constructor
    counts it), an entry of [open_connections_] and a session fiber.  Ids are
    not reused before 2^64 connections; the streams of a new socket are fresh. *)
Definition server_accept (addr : socket_address) (i : istream) (o : ostream) sv : option server :=
  let id := u64 (connection_idx_ sv + 1) in
  if listening sv && bool_decide (conns sv !! id = None) &&
     bool_decide (written o = []) && negb (eof i) then
    Some (mk_server _ (listening sv) (limits_ sv) (add_total 1 (add_active 1 (stats_ sv))) id
      (<[id := mk_sconn _ (rpc_connection_make addr i o) (sem_make 1)]> (conns sv))
      ({[id]} ∪ open_ sv) (<[id := s_loop]> (sessions sv)) (dispatches sv) (next_dispatch sv)
      (reply_gate_ sv) (<[id := []]> (sent_ sv)) (broken_ sv ∖ {[id]}) (leaked_ sv)
      (erased_ sv) (destroyed_ sv))
  else None.

(** [~rpc_server_connection], when the last reference is dropped: no entry in
    [open_connections_], the session fiber has returned and no dispatch fiber
    holds the connection. *)
Definition server_destroy (id : Z) sv : option server :=
  if bool_decide (is_Some (conns sv !! id) /\ (id ∉ open_ sv) /\ sessions sv !! id = Some s_done /\
                  map_Forall (fun _ d => d_conn d <> id) (dispatches sv)) then
    let sv := upd_conns (delete id) (upd_stats (add_active (-1)) sv) in
    Some (mk_server _ (listening sv) (limits_ sv) (stats_ sv) (connection_idx_ sv) (conns sv)
      (open_ sv) (delete id (sessions sv)) (dispatches sv) (next_dispatch sv) (reply_gate_ sv)
      (sent_ sv) (broken_ sv) (leaked_ sv) (erased_ sv) (destroyed_ sv + 1))
  else None.

(** [stop]: no more accepts, the input of every open connection is shut down,
    and the gate is closed. *)
Definition server_stop sv : server :=
  let shut := fun c => mk_sconn _ (with_istream (shutdown_input (c_istream (conn c))) (conn c))
                         (serialize_writes c) in
  mk_server _ false (limits_ sv) (stats_ sv) (connection_idx_ sv)
    (map_imap (fun id c => Some (if bool_decide (id ∈ open_ sv) then shut c else c)) (conns sv))
    (open_ sv) (sessions sv) (dispatches sv) (next_dispatch sv) (gate_close (reply_gate_ sv))
    (sent_ sv) (broken_ sv) (leaked_ sv) (erased_ sv) (destroyed_ sv).

(** [cleanup_dispatch_rpc]. *)
Definition cleanup_dispatch_rpc (id : Z) sv : server :=
  match conns sv !! id with
  | None => sv
  | Some c =>
      if has_error (conn c) then
        if bool_decide (id ∈ open_ sv) then
          let sv := erase_open id sv in
          let sv := upd_stats (add_bad 1) sv in
          let sv := upd_stats (add_active (-1)) sv in
          let sv := upd_conn id disable sv in
          upd_conn id shutdown sv
        else sv
      else upd_stats (add_completed 1) sv
  end.

(** The tail of [handle_client_connection] after an exception: [finally], then
    [handle_exception]. *)
Definition session_exception (id : Z) sv : server :=
  let sv := cleanup_dispatch_rpc id sv in
  let sv := upd_conn id (set_error "handling client session exception") sv in
  let sv := cleanup_dispatch_rpc id sv in
  set_session id s_done sv.

(** The condition of [do_until] and the start of [handle_one_client_session]. *)
Definition session_loop (id : Z) (c : rpc_server_connection) sv : option server :=
  if negb (is_valid (conn c)) then Some (set_session id s_done (cleanup_dispatch_rpc id sv))
  else
    match parse_header_begin (conn c) with
    | Ready c' => Some (set_session id s_header (upd_conn id (fun _ => c') sv))
    | Failed _ => Some (session_exception id sv)
    | Undefined => None
    end.

(** The header was read. *)
Definition session_header (id : Z) (c : rpc_server_connection) sv : option server :=
  match read_exactly (c_istream (conn c)) kHeaderSize with
  | None => None
  | Some (buf, i) =>
      let '(hdr, c') := parse_header_resume buf i (conn c) in
      let sv := upd_conn id (fun _ => c') sv in
      match hdr with
      | None =>
          Some (set_session id s_loop (upd_conn id (set_error "Error parsing connection header") sv))
      | Some hdr => Some (set_session id (s_wait hdr) sv)
      end
  end.

(** The read of the header failed; [finally] of [parse_header] runs. *)
Definition session_header_failed (id : Z) sv : server :=
  session_exception id
    (upd_conn id (fun c => with_parsers (u32 (istream_active_parser c - 1)) c) sv).

(** [resources_available.wait(payload_size)] was granted. *)
Definition session_grant (id : Z) (hdr : header) sv : option server :=
  match sem_wait (resources_available (limits_ sv)) (hsize hdr) with
  | None => None
  | Some s => Some (set_session id (s_payload hdr) (upd_limits (fun _ => s) sv))
  end.

(** [do_dispatch_rpc] up to its first suspension. *)
Definition do_dispatch_rpc (id : Z) (ctx : rpc_recv_context) sv : dispatch_stage * server :=
  if request_id ctx =? 0 then
    (d_end true, upd_conn id (set_error "Missing request_id. Invalid request") sv)
  else
    match get_handle_for_request (routes cfg) (request_id ctx) with
    | None =>
        (d_end true, upd_conn id (set_error "Can't find route for request. Invalid")
                       (upd_stats (add_no_route 1) sv))
    | Some h =>
        (d_incoming h ctx,
         upd_stats (add_in_bytes (hsize (ctx_header ctx) + blen (payload ctx))) sv)
    end.

(** [dispatch_rpc(int32_t payload_size, conn, ctx)] up to its first suspension;
    entering a closed gate throws. *)
Definition dispatch_rpc (payload_size id : Z) (ctx : option rpc_recv_context) sv : outcome server :=
  match ctx with
  | None =>
      Ready (upd_conn id (set_error "Could not parse payload") (signal_units payload_size sv))
  | Some ctx =>
      g ← gate_enter (reply_gate_ sv);
      let '(stage, sv) := do_dispatch_rpc id ctx (upd_gate g sv) in
      Ready (add_dispatch (mk_dispatch id payload_size stage) sv)
  end.

(** The payload was read in time.  The [uint32_t] size becomes the [int32_t]
    parameter of [dispatch_rpc]; units it cannot give back are leaked. *)
Definition session_payload (id : Z) (hdr : header) (c : rpc_server_connection) sv : option server :=
  match read_exactly (c_istream (conn c)) (hsize hdr) with
  | None => None
  | Some (b, i) =>
      match parse_payload_resume hdr b i (conn c) with
      | Ready (maybe_payload, c') =>
          let sv := upd_conn id (fun _ => c') sv in
          match dispatch_rpc (s32 (hsize hdr)) id maybe_payload sv with
          | Ready sv => Some (set_session id s_loop (add_leaked (hsize hdr - s32 (hsize hdr)) sv))
          | Failed _ => Some (session_exception id (add_leaked (hsize hdr) sv))
          | Undefined => None
          end
      | Failed _ => Some (session_exception id (add_leaked (hsize hdr) sv))
      | Undefined => None
      end
  end.

(** [with_timeout] expired, or the read of the payload failed: [dispatch_rpc]
    is skipped, and with it the [signal] of the units. *)
Definition session_payload_failed (id : Z) (hdr : header) sv : server :=
  session_exception id (add_leaked (hsize hdr) sv).

(** The end of [with_semaphore(serialize_writes, 1, ...)]. *)
Definition release_writes (id : Z) (c : rpc_server_connection) sv : server :=
  upd_writes id (sem_signal (serialize_writes c) 1) sv.

(** A dispatch fiber runs to its next suspension. *)
Definition dispatch_step (tid : Z) (d : dispatch) (c : rpc_server_connection) sv : option server :=
  let id := d_conn d in
  match d_stage d with
  | d_incoming h ctx =>
      match rpc_filter_apply (in_filters cfg) ctx with
      | Ready ctx =>
          if negb (compression (ctx_header ctx) =? flag_value compression_flags_none) then
            Some (set_stage tid d_flush
                   (upd_conn id (set_error "There was no decompression filter for compression enum") sv))
          else Some (set_stage tid (d_apply h ctx) sv)
      | Failed _ => Some (set_stage tid (d_end false) sv)
      | Undefined => None
      end
  | d_apply h ctx =>
      match apply h ctx with
      | Ready e => Some (set_stage tid (d_outgoing e) sv)
      | Failed _ => Some (set_stage tid (d_end false) sv)
      | Undefined => None
      end
  | d_outgoing e =>
      match rpc_filter_apply (out_filters cfg) e with
      | Ready e =>
          if negb (is_valid (conn c)) then Some (set_stage tid d_flush sv)
          else Some (set_stage tid (d_lock e) (upd_stats (add_out_bytes (rpc_letter_size (letter e))) sv))
      | Failed _ => Some (set_stage tid (d_end false) sv)
      | Undefined => None
      end
  | d_lock e =>
      match sem_wait (serialize_writes c) 1 with
      | None => None
      | Some w => Some (set_stage tid (d_header e) (upd_writes id w sv))
      end
  | d_header e =>
      match send_header (c_ostream (conn c)) e with
      | Ready o => Some (set_stage tid (d_body e) (upd_conn id (with_ostream o) sv))
      | Failed _ => Some (set_stage tid (d_end false) (release_writes id c (mark_broken id sv)))
      | Undefined => None
      end
  | d_body e =>
      match owrite (c_ostream (conn c)) (body (letter e)) with
      | Ready o =>
          Some (set_stage tid (d_send_flush e) (add_sent id e (upd_conn id (with_ostream o) sv)))
      | Failed _ => Some (set_stage tid (d_end false) (release_writes id c (mark_broken id sv)))
      | Undefined => None
      end
  | d_send_flush e =>
      match oflush (c_ostream (conn c)) with
      | Ready o => Some (set_stage tid d_flush (release_writes id c (upd_conn id (with_ostream o) sv)))
      | Failed _ => Some (set_stage tid (d_end false) (release_writes id c (mark_broken id sv)))
      | Undefined => None
      end
  | d_flush =>
      if is_valid (conn c) then
        match oflush (c_ostream (conn c)) with
        | Ready o => Some (set_stage tid (d_end true) (upd_conn id (with_ostream o) sv))
        | Failed _ => Some (set_stage tid (d_end false) (mark_broken id sv))
        | Undefined => None
        end
      else Some (set_stage tid (d_end true) sv)
  | d_end ok =>
      let sv := if ok then cleanup_dispatch_rpc id sv else sv in
      let sv := signal_units (d_payload_size d) sv in
      let sv := upd_gate (gate_leave (reply_gate_ sv)) sv in
      Some (upd_dispatches (delete tid) sv)
  end.

(** ** Events *)
Inductive event :=
| ev_start
| ev_stop
| ev_accept (addr : socket_address) (i : istream) (o : ostream)
| ev_arrive (id : Z) (i : istream)       (* bytes or the end of the stream arrive *)
| ev_session (id : Z)                    (* the session fiber runs *)
| ev_session_failed (id : Z)             (* its read fails, or times out *)
| ev_dispatch (tid : Z)                  (* a dispatch fiber runs *)
| ev_destroy (id : Z).

Definition exec (ev : event) sv : option server :=
  match ev with
  | ev_start => Some (server_start sv)
  | ev_stop => Some (server_stop sv)
  | ev_accept addr i o => server_accept addr i o sv
  | ev_arrive id i =>
      match conns sv !! id with
      | Some c =>
          if bool_decide (pending (c_istream (conn c)) `prefix_of` pending i) &&
             bool_decide (eof i = eof (c_istream (conn c)))
          then Some (upd_conn id (with_istream i) sv) else None
      | None => None
      end
  | ev_session id =>
      match conns sv !! id, sessions sv !! id with
      | Some c, Some s_loop => session_loop id c sv
      | Some c, Some s_header => session_header id c sv
      | Some c, Some (s_wait hdr) => session_grant id hdr sv
      | Some c, Some (s_payload hdr) => session_payload id hdr c sv
      | _, _ => None
      end
  | ev_session_failed id =>
      match sessions sv !! id with
      | Some s_header => Some (session_header_failed id sv)
      | Some (s_payload hdr) => Some (session_payload_failed id hdr sv)
      | _ => None
      end
  | ev_dispatch tid =>
      match dispatches sv !! tid with
      | Some d =>
          match conns sv !! d_conn d with
          | Some c => dispatch_step tid d c sv
          | None => None
          end
      | None => None
      end
  | ev_destroy id => server_destroy id sv
  end.

Definition step sv sv' : Prop := exists ev, exec ev sv = Some sv'.

(** The states a server of configuration [args] can be in. *)
Definition reachable (args : rpc_server_args) sv : Prop := rtc step (rpc_server_make args) sv.

(** A run of events, for concrete executions. *)
Fixpoint run (evs : list event) sv : option server :=
  match evs with
  | [] => Some sv
  | ev :: evs => match exec ev sv with Some sv => run evs sv | None => None end
  end.
End server.
