(* ===== verification/ServerInv.v ===== *)
(** * Lifecycle of the server's connections and fibers

    Invariants of every execution of the server of Server.v: which objects are
    alive, when a connection leaves [open_connections_], what the counters of
    [rpc_server_stats] and the reply gate count. *)

From Stdlib Require Import ZArith Lia.
From stdpp Require Import base gmap list numbers strings.
From coqutil Require Import Byte.
From S2P Require Import Prelude Header Seastar Letter Connection RecvContext Wire Filters Router Server.

Section inv.
Context `{Build, GeneratedHeader, Xxhash, Seastar}.
Variable cfg : server_config.
Implicit Types sv : server.

(** Invariants by rule induction on executions. *)
Lemma reachable_inv args (P : server -> Prop) :
  P (rpc_server_make args) ->
  (forall ev sv sv', reachable cfg args sv -> P sv -> exec cfg ev sv = Some sv' -> P sv') ->
  forall sv, reachable cfg args sv -> P sv.
Proof.
  intros I S. apply (rtc_ind_r P _ I). intros sv sv' R [ev E] IH. by eapply S.
Qed.

Lemma run_rtc evs sv sv' : run cfg evs sv = Some sv' -> rtc (step cfg) sv sv'.
Proof.
  revert sv. induction evs as [|ev evs IH]; simpl; intros sv R; [by injection R as <-|].
  destruct (exec cfg ev sv) as [sv1|] eqn:E; [|done]. eapply rtc_l; [by exists ev|by apply IH].
Qed.

Lemma run_app evs evs' sv :
  run cfg (evs ++ evs') sv = match run cfg evs sv with Some sv1 => run cfg evs' sv1 | None => None end.
Proof. revert sv. induction evs as [|ev evs IH]; simpl; intros sv; [done|]. by destruct (exec cfg ev sv). Qed.

(** ** Live objects *)

(** Every connection object has a session fiber and the other way round;
    [open_connections_] and the dispatch fibers refer to live connections. *)
Record live_inv sv : Prop := mk_live_inv {
  li_sessions : forall id, is_Some (sessions sv !! id) <-> is_Some (conns sv !! id);
  li_open : forall id, id ∈ open_ sv -> is_Some (conns sv !! id);
  li_dispatches : forall tid d, dispatches sv !! tid = Some d -> is_Some (conns sv !! d_conn d);
  li_fresh : forall tid, next_dispatch sv <= tid -> dispatches sv !! tid = None
}.

(** States with the same live connections, fibers and open set, up to erasing. *)
Record same_live sv sv' : Prop := mk_same_live {
  sl_conns : forall id, is_Some (conns sv' !! id) <-> is_Some (conns sv !! id);
  sl_sessions : sessions sv' = sessions sv;
  sl_dispatches : dispatches sv' = dispatches sv;
  sl_next : next_dispatch sv' = next_dispatch sv;
  sl_open : open_ sv' ⊆ open_ sv
}.

#[local] Instance same_live_preorder : PreOrder same_live.
Proof.
  split; [by constructor|]. intros a b c [C1 S1 D1 N1 O1] [C2 S2 D2 N2 O2].
  constructor; try congruence; [intros id; rewrite C2; apply C1|set_solver].
Qed.

Lemma live_inv_same sv sv' : same_live sv sv' -> live_inv sv -> live_inv sv'.
Proof.
  intros [C S D N O] [Is Io Id If]. constructor; rewrite ?S, ?D, ?N; try done.
  - intros id. rewrite Is. symmetry. apply C.
  - intros id Hid. apply C, Io. set_solver.
  - intros tid d E. apply C. by eapply Id.
Qed.

Lemma upd_conns_alter_live f id sv : same_live sv (upd_conns (alter f id) sv).
Proof. constructor; try done. intros j. simpl. by rewrite lookup_alter_is_Some. Qed.

Lemma cleanup_live id sv : same_live sv (cleanup_dispatch_rpc id sv).
Proof.
  unfold cleanup_dispatch_rpc. repeat case_goal; try done.
  etransitivity; [|apply upd_conns_alter_live].
  etransitivity; [|apply upd_conns_alter_live]. constructor; try done. simpl. set_solver.
Qed.

Lemma session_exception_live id sv :
  exists sv', session_exception id sv = set_session id s_done sv' /\ same_live sv sv'.
Proof.
  eexists. split; [done|]. etransitivity; [apply (cleanup_live id)|].
  etransitivity; [|apply cleanup_live]. apply upd_conns_alter_live.
Qed.

Lemma live_inv_session id st st' sv :
  sessions sv !! id = Some st -> live_inv sv -> live_inv (set_session id st' sv).
Proof.
  intros E [Is Io Id If]. constructor; try done. intros j. simpl. rewrite lookup_insert.
  case_decide; [subst|done]. rewrite <- Is, E. by split; eauto.
Qed.

Lemma live_inv_session_same id st st' sv sv' :
  sessions sv !! id = Some st -> same_live sv sv' -> live_inv sv -> live_inv (set_session id st' sv').
Proof.
  intros E S I. apply (live_inv_session id st); [by rewrite (sl_sessions _ _ S)|by eapply live_inv_same].
Qed.

Lemma live_inv_exception id st sv sv' :
  sessions sv !! id = Some st -> live_inv sv -> same_live sv sv' -> live_inv (session_exception id sv').
Proof.
  intros E I S. destruct (session_exception_live id sv') as (sv2 & -> & S2).
  apply (live_inv_session_same id st _ sv); [done| |done]. by etransitivity.
Qed.

Lemma live_inv_stage tid st sv : live_inv sv -> live_inv (set_stage tid st sv).
Proof.
  intros [Is Io Id If]. constructor; try done; simpl.
  - intros j d. rewrite lookup_alter_Some. intros [(_ & d' & Ed & ->)|[_ Ed]]; by apply Id in Ed.
  - intros j Hj. apply lookup_alter_None. by apply If.
Qed.

Lemma do_dispatch_live id ctx sv : same_live sv (do_dispatch_rpc cfg id ctx sv).2.
Proof.
  unfold do_dispatch_rpc. repeat case_goal; simpl; try apply upd_conns_alter_live; try done.
  etransitivity; [|apply upd_conns_alter_live]. done.
Qed.

Lemma live_inv_add_dispatch id ps stage sv :
  is_Some (conns sv !! id) -> live_inv sv -> live_inv (add_dispatch (mk_dispatch id ps stage) sv).
Proof.
  intros C [Is Io Id If]. constructor; simpl; try done.
  - intros j d. rewrite lookup_insert_Some. intros [[<- <-]|[_ E]]; [done|by eapply Id].
  - intros j Hj. rewrite lookup_insert_ne by lia. apply If. lia.
Qed.

Ltac live_same := first [done | apply cleanup_live
  | constructor; [intros ?; simpl; by rewrite ?lookup_alter_is_Some|done..]].

Lemma live_inv_payload id hdr c sv sv' :
  conns sv !! id = Some c -> sessions sv !! id = Some (s_payload hdr) ->
  session_payload cfg id hdr c sv = Some sv' -> live_inv sv -> live_inv sv'.
Proof.
  intros C E P I. unfold session_payload in P.
  destruct (read_exactly _ _) as [[b i]|]; [|done].
  destruct (parse_payload_resume hdr b i (conn c)) as [[r c']|e|]; [| |done].
  - set (sv1 := upd_conn id (fun _ => c') sv) in *.
    assert (same_live sv sv1) as S1 by apply upd_conns_alter_live.
    destruct r as [ctx|]; simpl in P.
    + destruct (gate_enter (reply_gate_ sv)) as [g|e|]; simpl in P; [| |done].
      * pose proof (do_dispatch_live id ctx (upd_gate g sv1)) as S2.
        destruct (do_dispatch_rpc _ _ _ _) as [stage sv2]. injection P as <-. simpl in S2.
        assert (same_live sv sv2) as S3
          by (etransitivity; [apply S1|]; etransitivity; [|apply S2]; done).
        apply (live_inv_session id (s_payload hdr)); [simpl; by rewrite (sl_sessions _ _ S3)|].
        apply (live_inv_same (add_dispatch (mk_dispatch id (s32 (hsize hdr)) stage) sv2)); [done|].
        apply live_inv_add_dispatch; [apply (sl_conns _ _ S3); eauto|by eapply live_inv_same].
      * injection P as <-. eapply live_inv_exception; [done|done|]. by etransitivity; [apply S1|].
    + injection P as <-. apply (live_inv_session_same id (s_payload hdr) _ sv); [done| |done].
      subst sv1. live_same.
  - injection P as <-. eapply live_inv_exception; [done|done|live_same].
Qed.

Lemma live_inv_dispatch tid d c sv sv' :
  dispatch_step cfg tid d c sv = Some sv' -> live_inv sv -> live_inv sv'.
Proof.
  intros S I. unfold dispatch_step in S.
  repeat case_hyp S; simplify_eq;
    try (apply live_inv_stage; apply (live_inv_same sv); [|done]; live_same).
  all: assert (live_inv (cleanup_dispatch_rpc (d_conn d) sv)) as I2
         by (by eapply live_inv_same; [apply cleanup_live|]).
  all: match goal with |- live_inv (upd_dispatches _ (upd_gate _ (signal_units _ ?s))) =>
         assert (live_inv s) as [Is Io Id If] by done end.
  all: constructor; simpl; try done;
    [intros j d'; rewrite lookup_delete_Some; intros [_ E]; by eapply Id
    |intros j Hj; rewrite lookup_delete_None; right; by apply If].
Qed.
Lemma live_inv_accept addr i o sv sv' :
  server_accept addr i o sv = Some sv' -> live_inv sv -> live_inv sv'.
Proof.
  intros A [Is Io Id If]. unfold server_accept in A. case_match; [|done]. injection A as <-.
  constructor; simpl; try done.
  - intros id. rewrite !lookup_insert. case_decide; [by split; eauto|done].
  - intros id Hid. rewrite lookup_insert. case_decide; [eauto|]. apply Io. set_solver.
  - intros tid d E. rewrite lookup_insert. case_decide; [eauto|by eapply Id].
Qed.

Lemma live_inv_destroy id sv sv' : server_destroy id sv = Some sv' -> live_inv sv -> live_inv sv'.
Proof.
  intros A [Is Io Id If]. unfold server_destroy in A. case_bool_decide as D; [|done].
  destruct D as (_ & No & _ & Nd). injection A as <-. constructor; simpl; try done.
  - intros j. rewrite !lookup_delete. by case_decide.
  - intros j Hj. rewrite lookup_delete. case_decide; [by subst|by apply Io].
  - intros tid d E. rewrite lookup_delete. case_decide as Ej; [|by eapply Id].
    by destruct (Nd _ _ E).
Qed.

Lemma server_stop_lookup id sv :
  is_Some (conns (server_stop sv) !! id) <-> is_Some (conns sv !! id).
Proof. simpl. rewrite map_lookup_imap. destruct (conns sv !! id); simpl; split; eauto. Qed.

Lemma live_inv_step ev sv sv' : exec cfg ev sv = Some sv' -> live_inv sv -> live_inv sv'.
Proof.
  intros E I. destruct ev; simpl in E.
  - injection E as <-. by apply (live_inv_same sv).
  - injection E as <-. apply (live_inv_same sv); [|done]. constructor; try done.
    intros id. apply server_stop_lookup.
  - by eapply live_inv_accept.
  - repeat case_hyp E; simplify_eq. eapply live_inv_same; [apply upd_conns_alter_live|done].
  - destruct (conns sv !! id) as [c|] eqn:C; [|done].
    destruct (sessions sv !! id) as [[| |hdr|hdr|]|] eqn:S; try done.
    + unfold session_loop in E. repeat case_hyp E; simplify_eq;
        first [by eapply live_inv_exception | eapply live_inv_session_same; [done|live_same|done]].
    + unfold session_header in E. repeat case_hyp E; simplify_eq;
        (eapply live_inv_session_same; [done|live_same|done]).
    + unfold session_grant in E. repeat case_hyp E; simplify_eq.
      by eapply live_inv_session_same.
    + by eapply live_inv_payload.
  - repeat case_hyp E; simplify_eq; (eapply live_inv_exception; [done|done|live_same]).
  - repeat case_hyp E; simplify_eq. by eapply live_inv_dispatch.
  - by eapply live_inv_destroy.
Qed.

Lemma live_inv_make args : live_inv (rpc_server_make args).
Proof. constructor; simpl; try done. split; by intros []. Qed.

Lemma reachable_live args sv : reachable cfg args sv -> live_inv sv.
Proof.
  apply reachable_inv; [apply live_inv_make|]. intros ev s s' _ I E. by eapply live_inv_step.
Qed.

(** ** The counter of active connections *)

(** The live connection objects, minus the entries [cleanup_dispatch_rpc] erased. *)
Definition count_inv sv : Prop :=
  active_connections (stats_ sv) = u64 (Z.of_nat (size (conns sv)) - erased_ sv).

Lemma count_same sv sv' :
  (forall id, is_Some (conns sv' !! id) <-> is_Some (conns sv !! id)) ->
  active_connections (stats_ sv') = active_connections (stats_ sv) -> erased_ sv' = erased_ sv ->
  count_inv sv -> count_inv sv'.
Proof.
  unfold count_inv. intros C -> -> ->. do 3 f_equal. rewrite <- !size_dom. f_equal.
  apply set_eq. intros id. rewrite !elem_of_dom. symmetry. apply C.
Qed.

Lemma upd_conn_some id f sv j : is_Some (conns (upd_conn id f sv) !! j) <-> is_Some (conns sv !! j).
Proof. simpl. by rewrite lookup_alter_is_Some. Qed.

Lemma count_cleanup id sv : count_inv sv -> count_inv (cleanup_dispatch_rpc id sv).
Proof.
  unfold cleanup_dispatch_rpc. intros I. destruct (conns sv !! id) as [c|]; [|done].
  destruct (has_error (conn c)); [|done]. case_bool_decide; [|done].
  set (sv1 := upd_stats (add_active (-1)) _).
  assert (count_inv sv1) as I1.
  { unfold count_inv in *. simpl. rewrite I, wrap_u_add_l. f_equal. lia. }
  apply (count_same sv1); [|done..]. intros j. by rewrite !upd_conn_some.
Qed.

Lemma count_exception id sv : count_inv sv -> count_inv (session_exception id sv).
Proof.
  intros I. unfold session_exception.
  apply (count_same (cleanup_dispatch_rpc id (upd_conn id (set_error "handling client session exception")
    (cleanup_dispatch_rpc id sv)))); [done..|].
  apply count_cleanup, (count_same (cleanup_dispatch_rpc id sv)); [|done..|by apply count_cleanup].
  intros j. by rewrite upd_conn_some.
Qed.

Lemma count_accept addr i o sv sv' :
  server_accept addr i o sv = Some sv' -> count_inv sv -> count_inv sv'.
Proof.
  intros A I. unfold server_accept in A. destruct (_ && _) eqn:G; [|done]. injection A as <-.
  rewrite !andb_true_iff, !bool_decide_eq_true in G. destruct G as [[[_ C] _] _].
  unfold count_inv in *. simpl. rewrite map_size_insert_None, I, wrap_u_add_l by done. f_equal. lia.
Qed.

Lemma count_destroy id sv sv' : server_destroy id sv = Some sv' -> count_inv sv -> count_inv sv'.
Proof.
  intros A I. unfold server_destroy in A. case_bool_decide as D; [|done].
  destruct D as ([c C] & _). injection A as <-. unfold count_inv in *. simpl.
  rewrite map_size_delete, C, I, wrap_u_add_l. f_equal.
  assert (size (conns sv) <> 0%nat) as N; [|lia].
  intros Z. apply map_size_empty_inv in Z. by rewrite Z in C.
Qed.

Ltac count_frame sv :=
  apply (count_same sv); [intros ?; simpl; by rewrite ?lookup_alter_is_Some|done..].

Lemma do_dispatch_count id ctx sv : count_inv sv -> count_inv (do_dispatch_rpc cfg id ctx sv).2.
Proof. intros I. unfold do_dispatch_rpc. repeat case_goal; count_frame sv. Qed.

Lemma count_payload id hdr c sv sv' :
  session_payload cfg id hdr c sv = Some sv' -> count_inv sv -> count_inv sv'.
Proof.
  intros P I. unfold session_payload in P.
  destruct (read_exactly _ _) as [[b i]|]; [|done].
  destruct (parse_payload_resume hdr b i (conn c)) as [[r c']|e|]; [| |done].
  - destruct r as [ctx|]; simpl in P; [|injection P as <-; count_frame sv].
    destruct (gate_enter (reply_gate_ sv)) as [g|e|]; simpl in P; [| |done].
    + pose proof (do_dispatch_count id ctx (upd_gate g (upd_conn id (fun _ => c') sv))) as D.
      destruct (do_dispatch_rpc _ _ _ _) as [stage sv2]. injection P as <-.
      apply (count_same sv2); [done..|]. apply D. count_frame sv.
    + injection P as <-. apply count_exception. count_frame sv.
  - injection P as <-. apply count_exception. count_frame sv.
Qed.

Lemma count_step ev sv sv' : exec cfg ev sv = Some sv' -> count_inv sv -> count_inv sv'.
Proof.
  intros E I. destruct ev; simpl in E.
  - injection E as <-. done.
  - injection E as <-. apply (count_same sv); [|done..]. intros id. apply server_stop_lookup.
  - by eapply count_accept.
  - repeat case_hyp E; simplify_eq. count_frame sv.
  - destruct (conns sv !! id) as [c|] eqn:C; [|done].
    destruct (sessions sv !! id) as [[| |hdr|hdr|]|] eqn:S; try done.
    + unfold session_loop in E. repeat case_hyp E; simplify_eq;
        first [by apply count_exception | by apply (count_cleanup id) in I | count_frame sv].
    + unfold session_header in E. repeat case_hyp E; simplify_eq; count_frame sv.
    + unfold session_grant in E. repeat case_hyp E; simplify_eq. count_frame sv.
    + by eapply count_payload.
  - repeat case_hyp E; simplify_eq; apply count_exception; count_frame sv.
  - repeat case_hyp E; simplify_eq. unfold dispatch_step in E.
    repeat case_hyp E; simplify_eq; first [count_frame sv | by apply (count_cleanup (d_conn d)) in I].
  - by eapply count_destroy.
Qed.

(** C21: the counter of active connections is the number of live connection
    objects minus the number of entries that [cleanup_dispatch_rpc] erased: an
    erased connection is subtracted twice, so the counter is wrong from the
    first erased connection on. *)
Theorem active_connections_accounting args sv :
  reachable cfg args sv ->
  active_connections (stats_ sv) = u64 (Z.of_nat (size (conns sv)) - erased_ sv) /\
  (0 < erased_ sv < 2 ^ 64 -> active_connections (stats_ sv) <> Z.of_nat (size (conns sv))).
Proof.
  intros R. assert (count_inv sv) as I.
  { revert R. apply (reachable_inv args); [done|]. intros ev s s' _ I E. by eapply count_step. }
  unfold count_inv in I. split; [done|]. intros B. rewrite I. unfold wrap_u.
  generalize (Z.of_nat (size (conns sv))) as n. intros n E.
  pose proof (Z.div_mod (n - erased_ sv) (2 ^ 64)). rewrite E in *.
  assert (erased_ sv = - 2 ^ 64 * ((n - erased_ sv) / 2 ^ 64)) by lia. nia.
Qed.

(** ** The reply gate *)

Definition gate_inv sv : Prop :=
  gate_count (reply_gate_ sv) = Z.of_nat (size (dispatches sv)).

(** The gate and the dispatch fibers are left alone. *)
Definition same_gate sv sv' : Prop :=
  reply_gate_ sv' = reply_gate_ sv /\ dispatches sv' = dispatches sv.

Lemma cleanup_gate id sv : same_gate sv (cleanup_dispatch_rpc id sv).
Proof. unfold cleanup_dispatch_rpc, same_gate. by repeat case_goal. Qed.

Lemma exception_gate id sv sv1 : same_gate sv sv1 -> same_gate sv (session_exception id sv1).
Proof.
  unfold same_gate. intros [<- <-]. unfold session_exception. simpl. unfold cleanup_dispatch_rpc. by repeat (case_goal; simpl).
Qed.

(** What a step does to the gate and to the set of dispatch fibers. *)
Definition gate_steps ev sv sv' : Prop :=
  match ev with
  | ev_stop => reply_gate_ sv' = gate_close (reply_gate_ sv) /\ dispatches sv' = dispatches sv
  | ev_session id =>
      same_gate sv sv' \/
      exists d, gate_enter (reply_gate_ sv) = Ready (reply_gate_ sv') /\
        dispatches sv' = <[next_dispatch sv := d]> (dispatches sv)
  | ev_dispatch tid =>
      is_Some (dispatches sv !! tid) /\
      (reply_gate_ sv' = reply_gate_ sv /\ dom (dispatches sv') = dom (dispatches sv) \/
       reply_gate_ sv' = gate_leave (reply_gate_ sv) /\ dispatches sv' = delete tid (dispatches sv))
  | _ => same_gate sv sv'
  end.

Lemma session_payload_gate id hdr c sv sv' :
  session_payload cfg id hdr c sv = Some sv' -> gate_steps (ev_session id) sv sv'.
Proof.
  intros P. unfold session_payload in P.
  destruct (read_exactly _ _) as [[b i]|]; [|done].
  destruct (parse_payload_resume hdr b i (conn c)) as [[r c']|e|]; [| |done].
  - destruct r as [ctx|]; simpl in P; [|injection P as <-; by left].
    destruct (gate_enter (reply_gate_ sv)) as [g|e|] eqn:G; simpl in P; [| |done].
    + right. unfold do_dispatch_rpc in P. repeat case_hyp P; simplify_eq; simpl; eauto.
    + injection P as <-. left. by apply exception_gate.
  - injection P as <-. left. by apply exception_gate.
Qed.

Lemma exec_gate ev sv sv' : exec cfg ev sv = Some sv' -> gate_steps ev sv sv'.
Proof.
  intros E. destruct ev; simpl in E; try (by repeat case_hyp E; simplify_eq).
  - unfold server_accept in E. by repeat case_hyp E; simplify_eq.
  - destruct (conns sv !! id) as [c|] eqn:C; [|done].
    destruct (sessions sv !! id) as [[| |hdr|hdr|]|] eqn:S; try done; [left..|].
    + unfold session_loop in E. repeat case_hyp E; simplify_eq;
        first [by apply exception_gate | by apply (cleanup_gate id) | done].
    + unfold session_header in E. by repeat case_hyp E; simplify_eq.
    + unfold session_grant in E. by repeat case_hyp E; simplify_eq.
    + by eapply session_payload_gate.
  - repeat case_hyp E; simplify_eq; by apply exception_gate.
  - destruct (dispatches sv !! tid) as [d|] eqn:D; [|done]. destruct (conns sv !! d_conn d); [|done].
    split; [eauto|]. unfold dispatch_step in E. pose proof (cleanup_gate (d_conn d) sv) as [Cg Cd].
    repeat case_hyp E; simplify_eq; simpl;
      first [left; split; [done|apply dom_alter_L] | right; by rewrite ?Cg, ?Cd].
  - unfold server_destroy in E. by repeat case_hyp E; simplify_eq.
Qed.

Lemma gate_step ev sv sv' :
  live_inv sv -> exec cfg ev sv = Some sv' -> gate_inv sv -> gate_inv sv'.
Proof.
  intros L E I. unfold gate_inv in *. apply exec_gate in E.
  destruct ev; simpl in E; try (by destruct E as [-> ->]).
  - destruct E as [-> ->]. by rewrite (proj1 (gate_close_spec _)).
  - destruct E as [[-> ->]|(d & G & ->)]; [done|].
    rewrite map_size_insert_None by (apply (li_fresh _ L); lia).
    destruct (gate_is_closed (reply_gate_ sv)) eqn:Cl; [by rewrite gate_enter_closed in G|].
    destruct (gate_enter_open _ Cl) as (g & Eg & Cg & _). rewrite Eg in G. simplify_eq. lia.
  - destruct E as [[d D] [[-> De]|[-> ->]]]; [by rewrite I, <- !size_dom, De|].
    rewrite (proj1 (gate_leave_spec _)), map_size_delete, D, I.
    assert (size (dispatches sv) <> 0%nat) as N; [|lia].
    intros Z. apply map_size_empty_inv in Z. by rewrite Z in D.
Qed.

(** The reply gate counts exactly the requests in flight, so the future of
    [stop] resolves when the last of them is done.  Once the gate is closed it
    stays closed, and no step starts another request. *)
Theorem reply_gate_counts_requests args sv :
  reachable cfg args sv ->
  gate_count (reply_gate_ sv) = Z.of_nat (size (dispatches sv)) /\
  (gate_is_closed (reply_gate_ sv) = true -> forall ev sv', exec cfg ev sv = Some sv' ->
   gate_is_closed (reply_gate_ sv') = true /\ dom (dispatches sv') ⊆ dom (dispatches sv)).
Proof.
  intros R. split.
  - change (gate_inv sv). revert R. apply (reachable_inv args).
    + unfold gate_inv. simpl. by rewrite (proj1 gate_new_spec).
    + intros ev s s' R I E. eapply gate_step; [by eapply reachable_live|done..].
  - intros Cl ev sv' E. apply exec_gate in E. destruct ev; simpl in E; try (by destruct E as [-> ->]).
    + destruct E as [-> ->]. by rewrite (proj2 (gate_close_spec _)).
    + destruct E as [[-> ->]|(d & G & _)]; [done|]. by rewrite gate_enter_closed in G.
    + destruct E as [_ [[-> ->]|[-> ->]]]; [done|].
      rewrite (proj2 (gate_leave_spec _)), dom_delete_L. split; [done|set_solver].
Qed.

End inv.

(** ** A concrete server

    One service with one method, which echoes the payload; no filters. *)
Module ServerDemo.
Import Demo.
Definition demo_echo (c : rpc_recv_context) : outcome rpc_envelope :=
  Ready (demo_envelope (payload c) 200 0).
Definition demo_request (b : list byte) : rpc_envelope :=
  demo_envelope b (client_request_id 9 5) 77.
Definition demo_config : server_config :=
  server_register_service (generated_service "Storage" 9 [mk_method 5 demo_echo]) (mk_config [] [] []).
Definition demo_stream (bs : list byte) (fin : bool) : @istream demo_seastar := mk_stream bs fin false.
Definition demo_accept (bs : list byte) (fin : bool) : event :=
  ev_accept demo_addr (demo_stream bs fin) ([] : @ostream demo_seastar).

(** The state after the events, from a server with budget [mem]. *)
Definition demo_run (mem : Z) (evs : list event) : option server :=
  run demo_config evs (rpc_server_make (mk_args 60000 mem)).
Definition demo_state (mem : Z) (evs : list event) : server :=
  default (rpc_server_make (mk_args 60000 mem)) (demo_run mem evs).
Definition ran {A} (o : option A) : bool := match o with Some _ => true | None => false end.

Lemma ran_default {A} (x : A) o : ran o = true -> o = Some (default x o).
Proof. by destruct o. Qed.

Lemma demo_reachable mem evs :
  ran (demo_run mem evs) = true -> reachable demo_config (mk_args 60000 mem) (demo_state mem evs).
Proof.
  unfold demo_state. intros E. destruct (demo_run mem evs) as [sv|] eqn:R; [|done].
  by eapply run_rtc.
Qed.

Lemma demo_step mem evs ev :
  ran (demo_run mem (evs ++ [ev])) = true ->
  exec demo_config ev (demo_state mem evs) = Some (demo_state mem (evs ++ [ev])).
Proof.
  unfold demo_state, demo_run. rewrite run_app. destruct (run demo_config evs _) as [sv|]; [|done].
  simpl. by destruct (exec demo_config ev sv).
Qed.

(** From accepting a connection to a session suspended in the payload read. *)
Definition to_payload (id : Z) : list event := [ev_session id; ev_session id; ev_session id].
Definition serve (id tid : Z) : list event :=
  to_payload id ++ [ev_session id] ++ repeat (ev_dispatch tid) 9.
End ServerDemo.
