(* ===== verification/ServerUnits.v ===== *)
(** * The server's memory budget

    Accounting of [resources_available] over every execution of the server of
    Server.v: which units are held by whom, which are never given back, and what
    follows for the requests that wait for units. *)

From Stdlib Require Import ZArith Lia.
From stdpp Require Import base gmap list numbers strings.
From coqutil Require Import Byte.
From S2P Require Import Prelude Header Seastar Letter Connection RecvContext Wire Filters Router Server ServerInv.

(** Units held by a session fiber: those of the payload it is reading. *)
Definition stage_units (st : session_stage) : Z :=
  match st with s_payload hdr => hsize hdr | _ => 0 end.

(** Units that a signal of the size, converted to [int32_t], takes away. *)
Definition stage_excess (st : session_stage) : Z :=
  match st with s_payload hdr => Z.max 0 (- s32 (hsize hdr)) | _ => 0 end.

(** A header a session fiber holds has passed the header checks. *)
Definition stage_wf (st : session_stage) : Prop :=
  match st with
  | s_wait hdr | s_payload hdr => 0 < hsize hdr < 2 ^ 32
  | _ => True
  end.

Lemma stage_bounds st : stage_wf st -> 0 <= stage_excess st <= stage_units st.
Proof.
  destruct st as [| |hdr|hdr|]; simpl; try lia. intros W.
  destruct (s32_u32 (hsize hdr)) as [[? ->]|[? ->]]; [unfold fits_u|..]; lia.
Qed.

Section units.
Context `{Build, GeneratedHeader, Xxhash, Seastar}.
Variable cfg : server_config.
Implicit Types sv : server.

(** Units held: by sessions reading a payload and by dispatch fibers. *)
Definition held sv : Z := msum stage_units (sessions sv) + msum d_payload_size (dispatches sv).

(** Units available now. *)
Definition available sv : Z := sem_count (resources_available (limits_ sv)).

Record units_inv (args : rpc_server_args) sv : Prop := mk_units_inv {
  ui_count : available sv = s64 (memory_avail_per_core args - held sv - leaked_ sv);
  ui_sessions : map_Forall (fun _ => stage_wf) (sessions sv);
  ui_dispatches : map_Forall (fun _ d => 0 < d_payload_size d < 2 ^ 31) (dispatches sv);
  ui_fresh : forall tid, next_dispatch sv <= tid -> dispatches sv !! tid = None;
  ui_leaked : 0 <= leaked_ sv;
  ui_low : msum stage_excess (sessions sv) <=
    memory_avail_per_core args + (memory_avail_per_core args - held sv - leaked_ sv);
  ui_bound : leaked_ sv = 0 -> held sv <= memory_avail_per_core args
}.

(** ** What the operations leave alone *)

(** Two states that agree on everything the accounting looks at. *)
Definition same_units sv sv' : Prop :=
  limits_ sv' = limits_ sv /\ sessions sv' = sessions sv /\ dispatches sv' = dispatches sv /\
  next_dispatch sv' = next_dispatch sv /\ leaked_ sv' = leaked_ sv.

Lemma cleanup_units id sv : same_units sv (cleanup_dispatch_rpc id sv).
Proof. unfold cleanup_dispatch_rpc, same_units. by repeat case_goal. Qed.

Lemma units_inv_same args sv sv' : same_units sv sv' -> units_inv args sv -> units_inv args sv'.
Proof.
  intros (L & S & D & N & K) [Ic Is Id If Il Iw Ib].
  constructor; unfold available, held in *; by rewrite ?L, ?S, ?D, ?N, ?K.
Qed.

(** ** How the accounting changes *)

(** A session fiber moves between stages that hold the same units. *)
Lemma units_inv_session args id st st' sv :
  sessions sv !! id = Some st -> stage_units st' = stage_units st ->
  stage_excess st' = stage_excess st -> stage_wf st' ->
  units_inv args sv -> units_inv args (set_session id st' sv).
Proof.
  intros E U X W [Ic Is Id If Il Iw Ib].
  assert (held (set_session id st' sv) = held sv) as Hh.
  { unfold held. simpl. rewrite (msum_update _ _ _ st) by done. lia. }
  constructor; simpl; rewrite ?Hh; try done; [by apply map_Forall_insert_2|].
  rewrite (msum_update _ _ _ st) by done. lia.
Qed.

(** A session fiber that holds units dies: its units are leaked. *)
Lemma units_inv_leak args id st sv :
  sessions sv !! id = Some st -> units_inv args sv ->
  units_inv args (set_session id s_done (add_leaked (stage_units st) sv)).
Proof.
  intros E [Ic Is Id If Il Iw Ib].
  pose proof (stage_bounds _ (Is _ _ E)) as P.
  assert (held (set_session id s_done (add_leaked (stage_units st) sv)) = held sv - stage_units st) as Hh.
  { unfold held. simpl. rewrite (msum_update _ _ _ st) by done. simpl. lia. }
  constructor; rewrite ?Hh; simpl; try done; try lia.
  - unfold available in *. simpl. rewrite Ic. f_equal. lia.
  - by apply map_Forall_insert_2.
  - rewrite (msum_update _ _ _ st) by done. simpl. lia.
Qed.

Lemma held_nonneg args sv : units_inv args sv -> 0 <= held sv.
Proof.
  intros [_ Is Id _ _ _ _]. unfold held.
  assert (0 <= msum stage_units (sessions sv)).
  { apply msum_nonneg. intros i st E. pose proof (stage_bounds _ (Is _ _ E)). lia. }
  assert (0 <= msum d_payload_size (dispatches sv)); [|lia].
  apply msum_nonneg. intros i d E. specialize (Id _ _ E). simpl in *. lia.
Qed.

(** The counter never wraps. *)
Lemma available_exact args sv :
  0 <= memory_avail_per_core args < 2 ^ 63 -> units_inv args sv ->
  available sv = memory_avail_per_core args - held sv - leaked_ sv.
Proof.
  intros M I. pose proof (held_nonneg _ _ I) as Hp. destruct I as [Ic Is Id If Il Iw Ib].
  rewrite Ic. apply wrap_s_small; [lia|]. unfold fits_s. split; [|lia].
  assert (0 <= msum stage_excess (sessions sv)); [|lia].
  apply msum_nonneg. intros i st E. pose proof (stage_bounds _ (Is _ _ E)). lia.
Qed.

(** Units are granted to a session fiber. *)
Lemma units_inv_grant args id hdr sv sv' :
  0 <= memory_avail_per_core args < 2 ^ 63 ->
  sessions sv !! id = Some (s_wait hdr) -> session_grant id hdr sv = Some sv' ->
  units_inv args sv -> units_inv args sv'.
Proof.
  intros M E G I. pose proof (available_exact _ _ M I) as A.
  pose proof (held_nonneg _ _ I) as Hp. destruct I as [Ic Is Id If Il Iw Ib].
  unfold session_grant in G.
  destruct (sem_wait _ (hsize hdr)) as [s|] eqn:W; [|done]. injection G as <-.
  apply sem_wait_granted in W as [Wn Ws]. pose proof (Is _ _ E) as Hn. simpl in Hn.
  set (sv2 := set_session _ _ _).
  assert (held sv2 = held sv + hsize hdr) as Hh.
  { unfold held. simpl. rewrite (msum_update _ _ _ (s_wait hdr)) by done. simpl. lia. }
  unfold available in A. fold sv2.
  assert (map_Forall (fun _ => stage_wf) (sessions sv2)) as Is2 by (by apply map_Forall_insert_2).
  assert (msum stage_excess (sessions sv2) <= held sv2) as Hx.
  { transitivity (msum stage_units (sessions sv2)).
    - apply msum_le. intros i st Ei. pose proof (stage_bounds _ (Is2 _ _ Ei)). lia.
    - assert (0 <= msum d_payload_size (dispatches sv2)); [|unfold held; lia].
      apply msum_nonneg. intros i d Ei. specialize (Id _ _ Ei). simpl in *. lia. }
  constructor; try done.
  - unfold available. simpl. rewrite Ws, A, Hh, <- (wrap_s_small 64 (_ - _ - _ - _)); [f_equal; simpl; lia|lia|].
    unfold fits_s. lia.
  - rewrite Hh in *. simpl in *. lia.
  - intros K. rewrite Hh. simpl in *. lia.
Qed.

(** ** The steps *)

#[local] Instance same_units_preorder : PreOrder same_units.
Proof.
  split; [by repeat split|].
  intros a b c (? & ? & ? & ? & ?) (? & ? & ? & ? & ?). repeat split; congruence.
Qed.

Lemma same_units_session id st sv sv' :
  same_units sv sv' -> same_units (set_session id st sv) (set_session id st sv').
Proof. intros (? & ? & ? & ? & ?). repeat split; simpl; congruence. Qed.

Lemma session_exception_units id sv :
  same_units (set_session id s_done sv) (session_exception id sv).
Proof.
  unfold session_exception. apply same_units_session.
  etransitivity; [apply (cleanup_units id)|].
  etransitivity; [|apply cleanup_units]. by repeat split.
Qed.

Lemma units_inv_exception args id st sv sv' :
  sessions sv !! id = Some st -> units_inv args sv -> same_units (add_leaked (stage_units st) sv) sv' ->
  units_inv args (session_exception id sv').
Proof.
  intros E I U. eapply units_inv_same; [apply session_exception_units|].
  eapply units_inv_same; [apply same_units_session, U|]. by apply units_inv_leak.
Qed.

Lemma do_dispatch_units id ctx sv : same_units sv (do_dispatch_rpc cfg id ctx sv).2.
Proof. unfold do_dispatch_rpc. repeat case_goal; by repeat split. Qed.

(** The payload did not parse: the units are signalled as an [int32_t]. *)
Lemma units_inv_bad_payload args id hdr sv sv' :
  sessions sv !! id = Some (s_payload hdr) -> units_inv args sv ->
  same_units (add_leaked (hsize hdr - s32 (hsize hdr)) (signal_units (s32 (hsize hdr)) sv)) sv' ->
  units_inv args (set_session id s_loop sv').
Proof.
  intros E [Ic Is Id If Il Iw Ib] (L & S & D & N & K). pose proof (Is _ _ E) as Hn. simpl in *.
  destruct (s32_u32 (hsize hdr)) as [[? Sn]|[? Sn]]; [unfold fits_u; lia| |];
  (assert (held (set_session id s_loop sv') = held sv - hsize hdr) as Hh;
   [unfold held; simpl; rewrite S, D, (msum_update _ _ _ (s_payload hdr)) by done; simpl; lia|]);
  (constructor; rewrite ?Hh; simpl; rewrite ?S, ?D, ?N, ?K; try done; try lia;
   [unfold available in *; simpl; rewrite L; simpl;
    rewrite sem_signal_count, wrap_s_add_u, Ic, wrap_s_add_l; f_equal; lia
   |by apply map_Forall_insert_2
   |rewrite (msum_update _ _ _ (s_payload hdr)) by done; simpl; lia]).
Qed.

(** The payload parsed: the units pass to the dispatch fiber. *)
Lemma units_inv_dispatched args id hdr stage sv sv' :
  sessions sv !! id = Some (s_payload hdr) -> units_inv args sv -> hsize hdr < 2 ^ 31 ->
  same_units sv sv' ->
  units_inv args (set_session id s_loop
    (add_leaked (hsize hdr - s32 (hsize hdr))
       (add_dispatch (mk_dispatch id (s32 (hsize hdr)) stage) sv'))).
Proof.
  intros E [Ic Is Id If Il Iw Ib] B (L & S & D & N & K). pose proof (Is _ _ E) as Hn. simpl in Hn.
  rewrite (wrap_s_small 32 (hsize hdr)) by (unfold fits_s; lia).
  set (sv2 := set_session _ _ _).
  assert (held sv2 = held sv) as Hh.
  { unfold held, sv2. simpl. rewrite S, D, N, (msum_update _ _ _ (s_payload hdr)) by done.
    rewrite msum_insert by (apply If; lia). simpl. lia. }
  constructor; rewrite ?Hh; unfold sv2; simpl; rewrite ?S, ?D, ?N, ?K; try lia.
  - unfold available in *. simpl. rewrite L, Ic. f_equal. lia.
  - by apply map_Forall_insert_2.
  - apply map_Forall_insert_2; [simpl; lia|done].
  - intros tid T. rewrite lookup_insert_ne by lia. apply If. lia.
  - rewrite (msum_update _ _ _ (s_payload hdr)) by done. simpl. lia.
Qed.

Lemma units_inv_payload args id hdr c sv sv' :
  sessions sv !! id = Some (s_payload hdr) -> session_payload cfg id hdr c sv = Some sv' ->
  units_inv args sv -> units_inv args sv'.
Proof.
  intros E P I. unfold session_payload in P.
  destruct (read_exactly _ _) as [[b i]|]; [|done].
  unfold parse_payload_resume in P.
  destruct (check_payload_total (remote_address (conn c)) hdr b) as [r Cr]. rewrite Cr in P. simpl in P.
  destruct r as [ctx|]; simpl in P.
  - apply check_payload_Some in Cr as (Cs & Cm & _). unfold max_flatbuffers_size in Cm.
    destruct (gate_enter (reply_gate_ sv)) as [g|e|]; simpl in P; [| |done].
    + destruct (do_dispatch_rpc _ _ _ _) as [stage sv1] eqn:DD. injection P as <-.
      apply (units_inv_dispatched args id hdr stage sv); [done|done|lia|].
      etransitivity; [|pose proof (do_dispatch_units id ctx (upd_gate g (upd_conn id
        (fun _ => with_istream i (conn c)) sv))) as U; rewrite DD in U; apply U].
      by repeat split.
    + injection P as <-. eapply units_inv_exception; [done|done|by repeat split].
  - injection P as <-. apply (units_inv_bad_payload args id hdr sv); [done|done|by repeat split].
Qed.

(** A dispatch fiber moves on, or ends and gives its units back. *)
Lemma units_inv_stage args tid st sv sv' :
  units_inv args sv -> same_units sv sv' -> units_inv args (set_stage tid st sv').
Proof.
  intros I U. apply (units_inv_same args sv sv') in I; [|done]. destruct I as [Ic Is Id If Il Iw Ib].
  assert (held (set_stage tid st sv') = held sv') as Hh.
  { unfold held. simpl. destruct (dispatches sv' !! tid) as [d|] eqn:E.
    - rewrite (msum_alter _ _ _ d) by done. simpl. lia.
    - f_equal. f_equal. apply map_eq. intros j. rewrite lookup_alter. case_decide; subst; by rewrite ?E. }
  constructor; rewrite ?Hh; simpl; try done.
  - intros j d. rewrite lookup_alter_Some. intros [(_ & d' & Ed & ->)|[_ Ed]]; by apply Id in Ed.
  - intros j Hj. apply lookup_alter_None. by apply If.
Qed.

Lemma units_inv_end args tid d sv sv' :
  dispatches sv !! tid = Some d -> units_inv args sv -> same_units sv sv' ->
  units_inv args (upd_dispatches (delete tid)
    (upd_gate (gate_leave (reply_gate_ (signal_units (d_payload_size d) sv')))
       (signal_units (d_payload_size d) sv'))).
Proof.
  intros E [Ic Is Id If Il Iw Ib] (L & S & D & N & K). pose proof (Id _ _ E) as Hn. simpl in Hn.
  set (sv2 := upd_dispatches _ _).
  assert (held sv2 = held sv - d_payload_size d) as Hh.
  { unfold held, sv2. simpl. rewrite S, D, (msum_delete _ _ _ d) by done. lia. }
  constructor; rewrite ?Hh; unfold sv2; simpl; rewrite ?S, ?D, ?N, ?K; try done; try lia.
  - unfold available in *. simpl. rewrite L.
    rewrite sem_signal_count, wrap_s_add_u, Ic, wrap_s_add_l. f_equal. lia.
  - by apply map_Forall_delete.
  - intros j Hj. rewrite lookup_delete_None. right. by apply If.
Qed.

Lemma units_inv_dispatch args tid d c sv sv' :
  dispatches sv !! tid = Some d -> dispatch_step cfg tid d c sv = Some sv' ->
  units_inv args sv -> units_inv args sv'.
Proof.
  intros E S I. unfold dispatch_step in S.
  repeat case_hyp S; simplify_eq;
    try (eapply (units_inv_stage args); [done|by repeat split]);
    eapply units_inv_end; try done; try apply cleanup_units; by repeat split.
Qed.
(** ** Every step *)

Ltac units_same := first [apply cleanup_units | repeat split; simpl; try done; lia].

Lemma units_inv_accept args addr i o sv sv' :
  server_accept addr i o sv = Some sv' -> live_inv sv -> units_inv args sv -> units_inv args sv'.
Proof.
  intros A L [Ic Is Id If Il Iw Ib]. unfold server_accept in A.
  destruct (_ && _) eqn:G; [|done]. injection A as <-.
  rewrite !andb_true_iff, !bool_decide_eq_true in G. destruct G as [[[_ C] _] _].
  assert (sessions sv !! u64 (connection_idx_ sv + 1) = None) as N.
  { apply eq_None_not_Some. rewrite (li_sessions _ L), C. by intros []. }
  set (sv2 := mk_server _ _ _ _ _ _ _ _ _ _ _ _ _ _ _ _).
  assert (held sv2 = held sv) as Hh by (unfold held; simpl; rewrite msum_insert by done; done).
  constructor; rewrite ?Hh; simpl; try done; [by apply map_Forall_insert_2|].
  by rewrite msum_insert by done.
Qed.

Lemma units_inv_destroy args id sv sv' :
  server_destroy id sv = Some sv' -> units_inv args sv -> units_inv args sv'.
Proof.
  intros A [Ic Is Id If Il Iw Ib]. unfold server_destroy in A. case_bool_decide as D; [|done].
  destruct D as (_ & _ & E & _). injection A as <-. set (sv2 := mk_server _ _ _ _ _ _ _ _ _ _ _ _ _ _ _ _).
  assert (held sv2 = held sv) as Hh.
  { unfold held. simpl. rewrite (msum_delete _ _ _ s_done) by done. simpl. lia. }
  constructor; rewrite ?Hh; simpl; try done; [by apply map_Forall_delete|].
  rewrite (msum_delete _ _ _ s_done) by done. simpl. lia.
Qed.

Lemma units_inv_session_same args id st st' sv sv' :
  sessions sv !! id = Some st -> stage_units st = 0 -> stage_excess st = 0 ->
  stage_units st' = 0 -> stage_excess st' = 0 -> stage_wf st' -> same_units sv sv' ->
  units_inv args sv -> units_inv args (set_session id st' sv').
Proof.
  intros E U X U' X' W S I. apply (units_inv_session args id st); try congruence; try done.
  - destruct S as (_ & -> & _). done.
  - by eapply units_inv_same.
Qed.

Lemma units_inv_header args id c sv sv' :
  sessions sv !! id = Some s_header -> session_header id c sv = Some sv' ->
  units_inv args sv -> units_inv args sv'.
Proof.
  intros E P I. unfold session_header in P. destruct (read_exactly _ _) as [[b i]|]; [|done].
  unfold parse_header_resume in P. destruct (negb _) eqn:L.
  - injection P as <-. eapply units_inv_session_same; try done; units_same.
  - apply negb_false_iff, Z.eqb_eq in L.
    assert (header_wf (header_of_bytes b)) as W
      by (apply header_of_bytes_wf; unfold blen, kHeaderSize in *; lia).
    destruct (check_header _) as [hdr|] eqn:C; injection P as <-;
      (eapply units_inv_session_same; try done; try units_same).
    pose proof (check_header_fields _ _ W C) as (S & _).
    apply check_header_Some in C as (_ & _ & _ & _ & ->); [|done].
    destruct W as (_ & _ & _ & W & _). unfold fits_u in W. revert S W.
    generalize (header_of_bytes b) as h. intros h. destruct (compression h =? _); simpl; lia.
Qed.

Lemma units_inv_step args ev sv sv' :
  0 <= memory_avail_per_core args < 2 ^ 63 -> live_inv sv ->
  exec cfg ev sv = Some sv' -> units_inv args sv -> units_inv args sv'.
Proof.
  intros M L E I. destruct ev; simpl in E.
  - injection E as <-. by apply (units_inv_same args sv).
  - injection E as <-. by apply (units_inv_same args sv).
  - by eapply units_inv_accept.
  - repeat case_hyp E; simplify_eq. by apply (units_inv_same args sv).
  - destruct (conns sv !! id) as [c|] eqn:C; [|done].
    destruct (sessions sv !! id) as [[| |hdr|hdr|]|] eqn:S; try done.
    + unfold session_loop in E. repeat case_hyp E; simplify_eq;
        first [eapply units_inv_exception; [done|done|units_same]
              |eapply units_inv_session_same; try done; units_same].
    + by eapply units_inv_header.
    + by eapply units_inv_grant.
    + by eapply units_inv_payload.
  - repeat case_hyp E; simplify_eq; (eapply units_inv_exception; [done|done|units_same]).
  - repeat case_hyp E; simplify_eq. by eapply units_inv_dispatch.
  - by eapply units_inv_destroy.
Qed.

Lemma reachable_units args sv :
  0 <= memory_avail_per_core args < 2 ^ 63 -> reachable cfg args sv -> units_inv args sv.
Proof.
  intros M. apply reachable_inv.
  - constructor; unfold held, available; simpl; rewrite ?msum_empty; try done; try lia.
    rewrite sem_make_count, wrap_s_small by (unfold fits_s; lia). lia.
  - intros ev s s' R I E. eapply units_inv_step; try done. by eapply reachable_live.
Qed.

(** ** Where units are lost *)

Lemma session_exception_leaked id sv : leaked_ (session_exception id sv) = leaked_ sv.
Proof. apply (session_exception_units id sv). Qed.

Lemma dispatch_step_leaked tid d c sv sv' :
  dispatch_step cfg tid d c sv = Some sv' -> leaked_ sv' = leaked_ sv.
Proof.
  intros S. unfold dispatch_step in S. repeat case_hyp S; simplify_eq; try done.
  by apply (cleanup_units (d_conn d) sv).
Qed.

(** The units a session fiber loses when its payload was read. *)
Lemma session_payload_leaked id hdr c sv sv' :
  session_payload cfg id hdr c sv = Some sv' ->
  gate_is_closed (reply_gate_ sv) = true /\ leaked_ sv' = leaked_ sv + hsize hdr \/
  leaked_ sv' = leaked_ sv + (hsize hdr - s32 (hsize hdr)).
Proof.
  intros P. unfold session_payload in P. destruct (read_exactly _ _) as [[b i]|]; [|done].
  unfold parse_payload_resume in P.
  destruct (check_payload_total (remote_address (conn c)) hdr b) as [r Cr]. rewrite Cr in P. simpl in P.
  destruct r as [ctx|]; simpl in P; [|injection P as <-; by right].
  destruct (gate_is_closed (reply_gate_ sv)) eqn:G.
  - rewrite gate_enter_closed in P by done. injection P as <-. left.
    by rewrite session_exception_leaked.
  - destruct (gate_enter_open _ G) as (g & Eg & _). rewrite Eg in P. simpl in P.
    pose proof (do_dispatch_units id ctx (upd_gate g (upd_conn id (fun _ => with_istream i (conn c)) sv)))
      as (_ & _ & _ & _ & U).
    destruct (do_dispatch_rpc _ _ _ _) as [stage sv1]. injection P as <-. right. simpl in *. by rewrite U.
Qed.

Lemma exec_leaked ev sv sv' :
  exec cfg ev sv = Some sv' ->
  leaked_ sv' = leaked_ sv \/
  exists id hdr, sessions sv !! id = Some (s_payload hdr) /\
    (leaked_ sv' = leaked_ sv + hsize hdr /\
     (ev = ev_session_failed id \/ ev = ev_session id /\ gate_is_closed (reply_gate_ sv) = true) \/
     leaked_ sv' = leaked_ sv + (hsize hdr - s32 (hsize hdr)) /\ ev = ev_session id).
Proof.
  intros E. destruct ev; simpl in E; try (left; by repeat case_hyp E; simplify_eq).
  - left. unfold server_accept in E. by repeat case_hyp E; simplify_eq.
  - destruct (conns sv !! id) as [c|] eqn:C; [|done].
    destruct (sessions sv !! id) as [[| |hdr|hdr|]|] eqn:S; try done.
    + left. unfold session_loop in E. repeat case_hyp E; simplify_eq; try done.
      * apply (cleanup_units id sv).
      * apply session_exception_leaked.
    + left. unfold session_header in E. by repeat case_hyp E; simplify_eq.
    + left. unfold session_grant in E. by repeat case_hyp E; simplify_eq.
    + right. exists id, hdr. apply session_payload_leaked in E. naive_solver.
  - destruct (sessions sv !! id) as [[| |hdr|hdr|]|] eqn:S; simplify_eq.
    + left. unfold session_header_failed. by rewrite session_exception_leaked.
    + right. exists id, hdr. split; [done|]. left. split; [|by left].
      unfold session_payload_failed. by rewrite session_exception_leaked.
  - left. repeat case_hyp E; simplify_eq. by eapply dispatch_step_leaked.
  - left. unfold server_destroy in E. by repeat case_hyp E; simplify_eq.
Qed.

Lemma leaked_mono args sv sv' :
  0 <= memory_avail_per_core args < 2 ^ 63 -> reachable cfg args sv -> rtc (step cfg) sv sv' ->
  reachable cfg args sv' /\ leaked_ sv <= leaked_ sv'.
Proof.
  intros M R S. induction S as [sv|sv sv1 sv2 [ev E] S IH]; [done|].
  assert (reachable cfg args sv1) as R1 by (eapply rtc_r; [done|by exists ev]).
  destruct (IH R1) as [R2 L]. split; [done|].
  pose proof (ui_sessions _ _ (reachable_units args sv M R)) as W.
  destruct (exec_leaked _ _ _ E) as [|(id & hdr & Es & C)]; [lia|].
  pose proof (W _ _ Es) as Wn. simpl in Wn.
  destruct (s32_u32 (hsize hdr)) as [[? ?]|[? ?]]; [unfold fits_u; lia|..]; lia.
Qed.

(** ** Properties *)

(** C10: in every reachable state the units of [resources_available] are the
    budget of the core, minus the units of the payloads being read and of the
    requests being dispatched, minus the units lost before; the signed counter
    never wraps.  While nothing was lost, the counter stays within the budget,
    and an idle server has the whole budget available. *)
Theorem resource_accounting args sv :
  0 <= memory_avail_per_core args < 2 ^ 63 -> reachable cfg args sv ->
  available sv = memory_avail_per_core args - held sv - leaked_ sv /\
  0 <= held sv /\ 0 <= leaked_ sv /\
  (leaked_ sv = 0 -> 0 <= available sv <= memory_avail_per_core args) /\
  (leaked_ sv = 0 -> dispatches sv = ∅ ->
   map_Forall (fun _ st => forall hdr, st <> s_payload hdr) (sessions sv) ->
   available sv = memory_avail_per_core args).
Proof.
  intros M R. pose proof (reachable_units args sv M R) as I.
  pose proof (available_exact args sv M I) as A. pose proof (held_nonneg _ _ I) as Hn.
  destruct I as [_ _ _ _ Il _ Ib]. split_and!; [done..|intros K; specialize (Ib K); lia|].
  intros K D Q. rewrite A, K. unfold held. rewrite D, msum_empty.
  assert (msum stage_units (sessions sv) <= 0) as U; [|specialize (Ib K); unfold held in *; rewrite D, msum_empty in *; lia].
  transitivity (msum (fun _ => 0) (sessions sv)).
  - apply msum_le. intros id st E. specialize (Q _ _ E). by destruct st as [| | |hdr|]; simpl; [..|destruct (Q hdr)|].
  - by rewrite msum_zero.
Qed.


(** C23: a payload that times out starves the core for good: when a payload of
    [n] announced bytes has timed out, no session that waits for [m] units with
    [n + m] beyond the budget ever proceeds, whatever happens after. *)
Theorem timeout_starvation args id hdr sv sv1 sv2 id2 hdr2 :
  0 <= memory_avail_per_core args < 2 ^ 63 -> reachable cfg args sv ->
  sessions sv !! id = Some (s_payload hdr) ->
  exec cfg (ev_session_failed id) sv = Some sv1 -> rtc (step cfg) sv1 sv2 ->
  sessions sv2 !! id2 = Some (s_wait hdr2) ->
  memory_avail_per_core args < hsize hdr + hsize hdr2 ->
  exec cfg (ev_session id2) sv2 = None.
Proof.
  intros M R Es E S W B.
  assert (reachable cfg args sv1) as R1 by (eapply rtc_r; [done|by eexists]).
  destruct (leaked_mono args sv1 sv2 M R1 S) as [R2 L].
  simpl in E. rewrite Es in E. injection E as <-.
  unfold session_payload_failed in L. rewrite session_exception_leaked in L. simpl in L.
  pose proof (reachable_units args sv M R) as I. pose proof (reachable_units args sv2 M R2) as I2.
  pose proof (available_exact args sv2 M I2) as A. pose proof (held_nonneg _ _ I2) as Hn.
  pose proof (ui_leaked _ _ I). unfold available in A. simpl. rewrite W. unfold session_grant.
  rewrite (proj2 (sem_wait_refused (resources_available (limits_ sv2)) (hsize hdr2)));
    [by destruct (conns sv2 !! id2)|lia].
Qed.

(** A header that announces 2^31 bytes or more makes the core lose 2^32
    units when its payload read resolves: the [int32_t] size is negative, so
    the signal takes the missing [2^32 - n] units away as well. *)
Theorem oversized_announcement_leak args id hdr sv sv' :
  0 <= memory_avail_per_core args < 2 ^ 63 -> reachable cfg args sv ->
  sessions sv !! id = Some (s_payload hdr) -> 2 ^ 31 <= hsize hdr ->
  exec cfg (ev_session id) sv = Some sv' ->
  leaked_ sv' = leaked_ sv + 2 ^ 32 /\ available sv' = available sv - (2 ^ 32 - hsize hdr).
Proof.
  intros M R Es B E. pose proof (reachable_units args sv M R) as I.
  pose proof (ui_sessions _ _ I _ _ Es) as Wn. simpl in Wn.
  assert (units_inv args sv') as I' by (eapply reachable_units, rtc_r; [done..|by eexists]).
  assert (leaked_ sv' = leaked_ sv + 2 ^ 32 /\ held sv' = held sv - hsize hdr) as [L Hh].
  2: { rewrite !(available_exact args) by done. lia. }
  simpl in E. rewrite Es in E. destruct (conns sv !! id) as [c|]; [|done].
  unfold session_payload in E. destruct (read_exactly _ _) as [[b i]|]; [|done].
  unfold parse_payload_resume in E.
  destruct (check_payload_total (remote_address (conn c)) hdr b) as [r Cr]. rewrite Cr in E. simpl in E.
  destruct r as [ctx|]; simpl in E.
  { apply check_payload_Some in Cr as (? & Cm & _). unfold max_flatbuffers_size in Cm. lia. }
  injection E as <-. unfold held. simpl. rewrite (msum_update _ _ _ (s_payload hdr)) by done. simpl.
  destruct (s32_u32 (hsize hdr)) as [[? ?]|[? ->]]; [unfold fits_u|..]; lia.
Qed.

End units.

Module UnitsWitness.
Import Demo ServerDemo.
Definition w_args : rpc_server_args := mk_args 60000 1000.

(** Two connections; the first one's payload never arrives, the second waits. *)
Definition w_big (n : Z) : list byte := header_to_bytes (mk_header 0 0 0 n 1 1).
Definition w_evs : list event :=
  [ev_start; demo_accept (w_big 600) false; demo_accept (w_big 500) false]
  ++ to_payload 1 ++ [ev_session 2; ev_session 2].

Lemma resource_accounting_witness :
  available (demo_state 1000 w_evs) = 1000 - 600 - 0.
Proof.
  destruct (resource_accounting demo_config w_args (demo_state 1000 w_evs)) as [-> _];
    [vm_decide|apply demo_reachable; vm_refl|].
  vm_refl.
Defined.


Lemma timeout_starvation_witness :
  exec demo_config (ev_session 2) (demo_state 1000 (w_evs ++ [ev_session_failed 1])) = None.
Proof.
  apply (timeout_starvation demo_config w_args 1 (mk_header 0 0 0 600 1 1) (demo_state 1000 w_evs)
           (demo_state 1000 (w_evs ++ [ev_session_failed 1])) _ 2 (mk_header 0 0 0 500 1 1));
    [vm_decide|apply demo_reachable; vm_refl|vm_refl|apply demo_step; vm_refl|apply rtc_refl|vm_refl|vm_decide].
Defined.

(** An announcement of 2^31 bytes by a peer that then closes. *)
Definition w_evs2 : list event :=
  [ev_start; demo_accept (w_big (2 ^ 31)) true] ++ to_payload 1.
Lemma oversized_announcement_leak_witness :
  available (demo_state (2 ^ 32) (w_evs2 ++ [ev_session 1])) = 0.
Proof.
  destruct (oversized_announcement_leak demo_config (mk_args 60000 (2 ^ 32)) 1
    (mk_header 0 0 0 (2 ^ 31) 1 1) (demo_state (2 ^ 32) w_evs2)
    (demo_state (2 ^ 32) (w_evs2 ++ [ev_session 1]))) as [_ ->];
    [vm_decide|apply demo_reachable; vm_refl|vm_refl|vm_decide|apply demo_step; vm_refl|].
  vm_refl.
Defined.
End UnitsWitness.
