(* ===== verification/ServerClose.v ===== *)
(** * How connections of the server end

    A connection leaves [open_connections_] when its session ends, over every
    execution of the server of Server.v; and what a failing filter or handler
    does to its connection. *)

From Stdlib Require Import ZArith Lia.
From stdpp Require Import base gmap list numbers strings.
From coqutil Require Import Byte.
From S2P Require Import Prelude Header Seastar Letter Connection RecvContext Wire Filters Router Server ServerInv.

Section close.
Context `{Build, GeneratedHeader, Xxhash, Seastar}.
Variable cfg : server_config.
Implicit Types sv : server.

(** A disabled connection is not open; a stream that ended has left an error. *)
Definition conn_ok (o : gset Z) (id : Z) (c : rpc_connection) : Prop :=
  (enabled_ c = false -> id ∉ o) /\ (eof (c_istream c) = true -> has_error c = true).

Record close_inv sv : Prop := mk_close_inv {
  ci_conns : forall id c, conns sv !! id = Some c -> conn_ok (open_ sv) id (conn c);
  ci_done : forall id, sessions sv !! id = Some s_done -> id ∉ open_ sv
}.

(** A change of connection [id] and of its session only. *)
Lemma close_frame id sv sv' :
  close_inv sv -> open_ sv' = open_ sv ->
  (forall j, j <> id -> conns sv' !! j = conns sv !! j /\ sessions sv' !! j = sessions sv !! j) ->
  (forall c', conns sv' !! id = Some c' -> conn_ok (open_ sv) id (conn c')) ->
  (sessions sv' !! id = Some s_done -> id ∉ open_ sv) -> close_inv sv'.
Proof.
  intros [Ic Id] O F C D. constructor; rewrite O.
  - intros j c E. destruct (decide (j = id)) as [->|N]; [by apply C|].
    apply Ic. by rewrite <- (proj1 (F j N)).
  - intros j E. destruct (decide (j = id)) as [->|N]; [by apply D|].
    apply Id. by rewrite <- (proj2 (F j N)).
Qed.

Lemma close_same sv sv' :
  open_ sv' = open_ sv -> conns sv' = conns sv -> sessions sv' = sessions sv ->
  close_inv sv -> close_inv sv'.
Proof. intros O C S [Ic Id]. constructor; by rewrite ?O, ?C, ?S. Qed.

(** Every update of a connection that keeps [conn_ok]. *)
Lemma close_upd_conn id f sv :
  (forall c, conns sv !! id = Some c -> conn_ok (open_ sv) id (conn c) -> conn_ok (open_ sv) id (f (conn c))) ->
  close_inv sv -> close_inv (upd_conn id f sv).
Proof.
  intros F I. apply (close_frame id sv); [done|done| | |apply (ci_done _ I)].
  - intros j N. simpl. by rewrite lookup_alter_ne.
  - intros c'. simpl. rewrite lookup_alter_eq. destruct (conns sv !! id) as [c|] eqn:C; [|done].
    intros [= <-]. apply F; [done|]. by apply (ci_conns _ I).
Qed.

Lemma close_session id st sv :
  (st = s_done -> id ∉ open_ sv) -> close_inv sv -> close_inv (set_session id st sv).
Proof.
  intros D I. apply (close_frame id sv); [done|done| |apply (ci_conns _ I)|].
  - intros j N. simpl. by rewrite lookup_insert_ne.
  - simpl. rewrite lookup_insert_eq. intros [= ->]. by apply D.
Qed.

(** ** cleanup_dispatch_rpc *)

Lemma close_erase id sv : close_inv sv -> close_inv (erase_open id sv).
Proof.
  intros [Ic Id]. constructor; simpl.
  - intros j c E. destruct (Ic _ _ E) as [A B]. split; [|done]. intros F. specialize (A F). set_solver.
  - intros j E. specialize (Id _ E). set_solver.
Qed.

Lemma conn_ok_disable o id c : id ∉ o -> conn_ok o id c -> conn_ok o id (disable c).
Proof. intros N [_ B]. by split. Qed.

Lemma conn_ok_shutdown o id c : conn_ok o id c -> conn_ok o id (shutdown c).
Proof.
  intros [A B]. split; [done|]. simpl. by rewrite (proj2 (shutdown_input_spec _)).
Qed.

Lemma close_cleanup id sv : close_inv sv -> close_inv (cleanup_dispatch_rpc id sv).
Proof.
  intros I. unfold cleanup_dispatch_rpc. destruct (conns sv !! id) as [c|]; [|done].
  destruct (has_error (conn c)); [|by apply (close_same sv)]. case_bool_decide; [|done].
  apply close_upd_conn; [intros; by apply conn_ok_shutdown|].
  apply close_upd_conn; [intros; apply conn_ok_disable; [simpl; set_solver|done]|].
  by apply (close_same (erase_open id sv)), close_erase.
Qed.

(** An errored connection is erased. *)
Lemma cleanup_erases id c sv :
  conns sv !! id = Some c -> has_error (conn c) = true -> id ∉ open_ (cleanup_dispatch_rpc id sv).
Proof.
  intros C E. unfold cleanup_dispatch_rpc. rewrite C, E. case_bool_decide; [simpl; set_solver|done].
Qed.

Lemma conn_ok_set_error o id e c : conn_ok o id c -> conn_ok o id (set_error e c).
Proof. intros [A _]. by split. Qed.

Lemma close_exception id sv :
  is_Some (conns sv !! id) -> close_inv sv -> close_inv (session_exception id sv).
Proof.
  intros S I. unfold session_exception. set (sv1 := upd_conn id _ _).
  assert (close_inv sv1) as I1.
  { apply close_upd_conn; [intros; by apply conn_ok_set_error|by apply close_cleanup]. }
  apply close_session; [|by apply close_cleanup]. intros _.
  destruct (proj2 (sl_conns _ _ (cleanup_live id sv) id) S) as [c C].
  apply (cleanup_erases id (mk_sconn _ (set_error "handling client session exception" (conn c))
    (serialize_writes c))); [|done].
  simpl. by rewrite lookup_alter_eq, C.
Qed.
(** ** The steps *)

(** A read of the session fiber, with an error when it was refused. *)
Lemma conn_ok_read o id c n b i :
  0 <= n -> read_exactly (c_istream c) n = Some (b, i) -> blen b = n ->
  conn_ok o id c -> conn_ok o id (with_istream i c).
Proof.
  intros Hn R L [A B]. split; [done|]. simpl.
  apply read_exactly_eof in R as [|[_ E]]; [lia| |done]. by rewrite E.
Qed.

Lemma conn_ok_parsers o id n c : conn_ok o id c -> conn_ok o id (with_parsers n c).
Proof. done. Qed.

(** The session fiber refuses what it read: the connection gets an error. *)
Lemma close_refused id e c f st sv sv' :
  close_inv sv -> conns sv !! id = Some c -> st <> s_done -> enabled_ (f (conn c)) = enabled_ (conn c) ->
  open_ sv' = open_ sv -> sessions sv' = sessions sv ->
  conns sv' = conns (upd_conn id (set_error e) (upd_conn id f sv)) ->
  close_inv (set_session id st sv').
Proof.
  intros I C N F O S E. apply close_session; [done|].
  apply (close_frame id sv); [done..| | |]; rewrite ?S; try apply (ci_done _ I).
  - intros j Nj. rewrite E. simpl. by rewrite !lookup_alter_ne.
  - intros c'. rewrite E. simpl. rewrite !lookup_alter_eq, C. simpl. intros [= <-].
    split; [|done]. simpl. rewrite F. apply (ci_conns _ I _ _ C).
Qed.

Ltac refused := eapply close_refused; [done|done|done| |done|done|reflexivity]; done.

Lemma close_loop id c sv sv' :
  conns sv !! id = Some c -> session_loop id c sv = Some sv' -> close_inv sv -> close_inv sv'.
Proof.
  intros C E I. unfold session_loop in E. destruct (negb _) eqn:V.
  - injection E as <-. apply close_session; [|by apply close_cleanup]. intros _.
    destruct (ci_conns _ I _ _ C) as [A B].
    destruct (has_error (conn c)) eqn:Er; [by eapply cleanup_erases|].
    assert (id ∉ open_ sv); [|pose proof (sl_open _ _ (cleanup_live id sv)); set_solver].
    apply A. unfold is_valid in V. rewrite Er in *.
    destruct (eof (c_istream (conn c))); [by discriminate B|]. by destruct (enabled_ (conn c)).
  - destruct (parse_header_begin (conn c)) as [c'|e|] eqn:P; [| |done]; injection E as <-.
    + unfold parse_header_begin in P. apply outcome_bind_Ready in P as (_ & _ & [= <-]).
      apply close_session; [done|]. apply close_upd_conn; [|done].
      intros c0 C0. rewrite C in C0. simplify_eq. apply conn_ok_parsers.
    + apply close_exception; [by eauto|done].
Qed.

Lemma close_header id c sv sv' :
  conns sv !! id = Some c -> session_header id c sv = Some sv' -> close_inv sv -> close_inv sv'.
Proof.
  intros C E I. unfold session_header in E. destruct (read_exactly _ _) as [[b i]|] eqn:R; [|done].
  unfold parse_header_resume in E. destruct (kHeaderSize =? blen b) eqn:L; simpl in E.
  2: { injection E as <-. refused. }
  destruct (check_header _); injection E as <-; [|refused].
  apply close_session; [done|]. apply close_upd_conn; [|done]. intros c0 C0. rewrite C in C0. simplify_eq.
  intros K. apply conn_ok_parsers. apply Z.eqb_eq in L.
  eapply conn_ok_read; [|exact R|..]; unfold kHeaderSize in *; lia || done.
Qed.

Lemma close_do_dispatch id ctx sv : close_inv sv -> close_inv (do_dispatch_rpc cfg id ctx sv).2.
Proof.
  intros I. unfold do_dispatch_rpc. repeat case_goal; simpl;
    first [by apply (close_same sv)
          |apply close_upd_conn; [intros; by apply conn_ok_set_error|by apply (close_same sv)]].
Qed.

Lemma close_payload id hdr c sv sv' :
  conns sv !! id = Some c -> session_payload cfg id hdr c sv = Some sv' ->
  close_inv sv -> close_inv sv'.
Proof.
  intros C P I. unfold session_payload in P. destruct (read_exactly _ _) as [[b i]|] eqn:R; [|done].
  unfold parse_payload_resume in P.
  destruct (check_payload_total (remote_address (conn c)) hdr b) as [r Cr]. rewrite Cr in P. simpl in P.
  destruct r as [ctx|]; simpl in P; [|injection P as <-; refused].
  apply check_payload_Some in Cr as (L & _).
  set (sv1 := upd_conn id (fun _ => with_istream i (conn c)) sv) in *.
  assert (close_inv sv1) as I1.
  { apply close_upd_conn; [|done]. intros c0 C0. rewrite C in C0. simplify_eq.
    intros K. eapply conn_ok_read; [|exact R|done..]. rewrite L. apply blen_nonneg. }
  destruct (gate_enter (reply_gate_ sv)) as [g|e|]; simpl in P; [| |done].
  - pose proof (close_do_dispatch id ctx (upd_gate g sv1)) as D.
    destruct (do_dispatch_rpc _ _ _ _) as [stage sv2]. injection P as <-.
    apply close_session; [done|]. apply (close_same sv2); [done..|]. by apply D, (close_same sv1).
  - injection P as <-. apply close_exception; [|by apply (close_same sv1)].
    simpl. rewrite lookup_alter_eq, C. eauto.
Qed.

(** Updates of the rest of the state. *)
Ltac close_strip := repeat match goal with
  | |- close_inv (set_stage _ _ ?s) => apply (close_same s); [done..|]
  | |- close_inv (upd_stats _ ?s) => apply (close_same s); [done..|]
  | |- close_inv (mark_broken _ ?s) => apply (close_same s); [done..|]
  | |- close_inv (add_sent _ _ ?s) => apply (close_same s); [done..|]
  | |- close_inv (upd_dispatches _ ?s) => apply (close_same s); [done..|]
  | |- close_inv (upd_gate _ ?s) => apply (close_same s); [done..|]
  | |- close_inv (signal_units _ ?s) => apply (close_same s); [done..|]
  end.

Lemma close_dispatch tid d c sv sv' :
  dispatch_step cfg tid d c sv = Some sv' -> close_inv sv -> close_inv sv'.
Proof.
  intros S I. unfold dispatch_step in S. pose proof (close_cleanup (d_conn d) sv I) as Ic.
  assert (forall e, close_inv (upd_conn (d_conn d) (set_error e) sv)) as Ie.
  { intros e. apply close_upd_conn; [intros; by apply conn_ok_set_error|done]. }
  assert (forall o, close_inv (upd_conn (d_conn d) (with_ostream o) sv)) as Io.
  { intros o. by apply close_upd_conn. }
  assert (forall w sv1, close_inv sv1 -> close_inv (upd_writes (d_conn d) w sv1)) as Iw.
  { intros w sv1 I1. apply (close_frame (d_conn d) sv1); [done..| | |apply (ci_done _ I1)].
    - intros j N. simpl. by rewrite lookup_alter_ne.
    - intros c'. simpl. rewrite lookup_alter_eq. destruct (conns sv1 !! d_conn d) eqn:C; [|done].
      intros [= <-]. by apply (ci_conns _ I1) in C. }
  repeat case_hyp S; simplify_eq; close_strip;
    first [done | apply Ie | apply Io | apply Iw; close_strip; first [done|apply Io]].
Qed.

Lemma close_accept addr i o sv sv' :
  server_accept addr i o sv = Some sv' -> live_inv sv -> close_inv sv -> close_inv sv'.
Proof.
  intros A L [Ic Id]. unfold server_accept in A. destruct (_ && _) eqn:G; [|done]. injection A as <-.
  rewrite !andb_true_iff, !bool_decide_eq_true, negb_true_iff in G. destruct G as [[[_ C] _] F].
  constructor; simpl.
  - intros j c. rewrite lookup_insert. case_decide as Ej.
    + intros [= <-]. split; [done|]. simpl. by rewrite F.
    + intros E. destruct (Ic _ _ E) as [A B]. split; [|done]. intros K. specialize (A K). set_solver.
  - intros j. rewrite lookup_insert. case_decide; [done|]. intros E. specialize (Id _ E). set_solver.
Qed.

Lemma close_step args ev sv sv' :
  reachable cfg args sv -> exec cfg ev sv = Some sv' -> close_inv sv -> close_inv sv'.
Proof.
  intros R E I. pose proof (reachable_live cfg args sv R) as L. destruct ev; simpl in E.
  - injection E as <-. by apply (close_same sv).
  - injection E as <-. destruct I as [Ic Id]. constructor; [|done]. intros id c. simpl.
    rewrite map_lookup_imap. destruct (conns sv !! id) as [c0|] eqn:C; [|done]. simpl. intros [= <-].
    case_bool_decide; simpl; [apply conn_ok_shutdown|]; by apply Ic.
  - by eapply close_accept.
  - destruct (conns sv !! id) as [c|] eqn:C; [|done]. destruct (_ && _) eqn:G; [|done].
    injection E as <-. apply andb_true_iff in G as [_ G]. apply bool_decide_eq_true in G.
    apply close_upd_conn; [|done]. intros c0 C0 [A B]. rewrite C in C0. simplify_eq.
    split; [done|]. simpl. by rewrite G.
  - destruct (conns sv !! id) as [c|] eqn:C; [|done].
    destruct (sessions sv !! id) as [[| |hdr|hdr|]|] eqn:S; try done.
    + by eapply close_loop.
    + by eapply close_header.
    + unfold session_grant in E. repeat case_hyp E; simplify_eq.
      by apply close_session, (close_same sv).
    + by eapply close_payload.
  - assert (is_Some (sessions sv !! id) -> is_Some (conns sv !! id)) as K by apply (li_sessions _ L).
    destruct (sessions sv !! id) as [[| |hdr|hdr|]|] eqn:S; simplify_eq;
      (apply close_exception; [simpl; rewrite ?lookup_alter_is_Some; by eauto|]).
    + by apply close_upd_conn.
    + by apply (close_same sv).
  - repeat case_hyp E; simplify_eq. by eapply close_dispatch.
  - unfold server_destroy in E. case_bool_decide as D; [|done]. injection E as <-.
    destruct I as [Ic Id]. constructor; simpl.
    + intros j c. rewrite lookup_delete_Some. intros [_ Ej]. by apply Ic.
    + intros j. rewrite lookup_delete_Some. intros [_ Ej]. by apply Id.
Qed.

Lemma reachable_close args sv : reachable cfg args sv -> close_inv sv.
Proof.
  apply reachable_inv; [|intros ev s s' R I E; by eapply close_step].
  constructor; simpl; [done|]. intros id E. set_solver.
Qed.

(** ** Properties *)

(** C20: when the session of a connection has returned, whatever ended it (the
    peer, an error, an exception, a timeout, [stop]), the connection is no
    longer in [open_connections_], and as soon as none of its requests is in
    flight its object is destroyed. *)
Theorem ended_session_is_closed args id sv :
  reachable cfg args sv -> sessions sv !! id = Some s_done ->
  id ∉ open_ sv /\
  (map_Forall (fun _ d => d_conn d <> id) (dispatches sv) ->
   exists sv', exec cfg (ev_destroy id) sv = Some sv' /\ conns sv' = delete id (conns sv)).
Proof.
  intros R E. pose proof (ci_done _ (reachable_close args sv R) _ E) as N. split; [done|].
  intros F. simpl. unfold server_destroy. rewrite bool_decide_eq_true_2; [by eauto|].
  split_and!; [|done..]. apply (li_sessions _ (reachable_live cfg args sv R)). by eauto.
Qed.

(** The incoming filters, the handler or the outgoing filters fail. *)
Definition request_fails (st : dispatch_stage) : Prop :=
  match st with
  | d_incoming h ctx => exists e, rpc_filter_apply (in_filters cfg) ctx = Failed e
  | d_apply h ctx => exists e, apply h ctx = Failed e
  | d_outgoing env => exists e, rpc_filter_apply (out_filters cfg) env = Failed e
  | _ => False
  end.

(** C24: an exception of a filter or of a handler is swallowed with the
    discarded future of the request: the connection stays as it is and stays
    open, no counter changes and the peer gets no reply; the units of the
    request are given back. *)
Theorem failed_request_is_dropped tid d c sv :
  dispatches sv !! tid = Some d -> conns sv !! d_conn d = Some c -> request_fails (d_stage d) ->
  exists sv', run cfg [ev_dispatch tid; ev_dispatch tid] sv = Some sv' /\
    conns sv' = conns sv /\ open_ sv' = open_ sv /\ sent_ sv' = sent_ sv /\ stats_ sv' = stats_ sv /\
    dispatches sv' = delete tid (dispatches sv) /\
    limits_ sv' = limits_ (signal_units (d_payload_size d) sv).
Proof.
  intros E C F. assert (exec cfg (ev_dispatch tid) sv = Some (set_stage tid (d_end false) sv)) as E1.
  { simpl. rewrite E, C. unfold dispatch_step. destruct d as [id ps st]. simpl in *.
    destruct st; try done; destruct F as [ex ->]; done. }
  eexists. split; [unfold run; rewrite E1; simpl; rewrite lookup_alter_eq, E; simpl; by rewrite C|].
  simpl. split_and!; try done. apply map_eq. intros j. rewrite !lookup_delete, lookup_alter.
  by case_decide.
Qed.

End close.

Module CloseWitness.
Import Demo ServerDemo.

(** A connection whose peer sends nothing and closes. *)
Definition w_evs : list event :=
  [ev_start; demo_accept [] true; ev_session 1; ev_session 1; ev_session 1].

Lemma active_connections_accounting_witness :
  active_connections (stats_ (demo_state 1000 (w_evs ++ [ev_destroy 1]))) = 2 ^ 64 - 1.
Proof.
  destruct (active_connections_accounting demo_config (mk_args 60000 1000)
    (demo_state 1000 (w_evs ++ [ev_destroy 1]))) as [-> _]; [apply demo_reachable; vm_refl|].
  vm_refl.
Defined.

Lemma reply_gate_counts_requests_witness :
  gate_count (reply_gate_ (demo_state 1000
    ([ev_start; demo_accept (frame (demo_request [Byte.x2a])) false] ++ to_payload 1 ++ [ev_session 1]))) = 1.
Proof.
  destruct (reply_gate_counts_requests demo_config (mk_args 60000 1000) (demo_state 1000
    ([ev_start; demo_accept (frame (demo_request [Byte.x2a])) false] ++ to_payload 1 ++ [ev_session 1])))
    as [-> _]; [apply demo_reachable; vm_refl|].
  vm_refl.
Defined.

Lemma ended_session_is_closed_witness : 1 ∉ open_ (demo_state 1000 w_evs).
Proof.
  apply (ended_session_is_closed demo_config (mk_args 60000 1000) 1 (demo_state 1000 w_evs));
    [apply demo_reachable; vm_refl|vm_refl].
Defined.

(** The echo service behind a filter that throws. *)
Definition w_config : server_config :=
  register_incoming_filter (fun _ => Failed (user_exception "denied")) demo_config.
Definition w_server : server :=
  default (rpc_server_make (mk_args 60000 1000)) (run w_config
    ([ev_start; demo_accept (frame (demo_request [Byte.x2a])) false] ++ to_payload 1 ++ [ev_session 1])
    (rpc_server_make (mk_args 60000 1000))).

Definition w_dispatch : dispatch := default (mk_dispatch 0 0 (d_end true)) (dispatches w_server !! 0).
Definition w_sconn : rpc_server_connection :=
  default (mk_sconn _ (demo_conn [] true) 0) (conns w_server !! d_conn w_dispatch).
Definition at_incoming (st : dispatch_stage) : bool :=
  match st with d_incoming _ _ => true | _ => false end.

Lemma at_incoming_fails st : at_incoming st = true -> request_fails w_config st.
Proof. destruct st; try done. intros _. by eexists. Qed.

Lemma failed_request_is_dropped_witness :
  exists sv', run w_config [ev_dispatch 0; ev_dispatch 0] w_server = Some sv' /\ sent_ sv' = sent_ w_server.
Proof.
  destruct (failed_request_is_dropped w_config 0 w_dispatch w_sconn w_server) as (sv' & R & _ & _ & S & _).
  - apply ran_default. vm_refl.
  - apply ran_default. vm_refl.
  - apply at_incoming_fails. vm_refl.
  - exists sv'. split; [exact R|exact S].
Defined.
End CloseWitness.
