(* ===== verification/ServerWrites.v ===== *)
(** * Replies on the wire

    The requests of one connection are dispatched concurrently and reply in any
    order; over every execution of the server of Server.v the replies are
    written one frame after the other. *)

From Stdlib Require Import ZArith Lia.
From stdpp Require Import base gmap list numbers strings.
From coqutil Require Import Byte.
From S2P Require Import Prelude Header Seastar Letter Connection RecvContext Wire Filters Router Server ServerInv.

(** The fiber is inside [with_semaphore(serialize_writes, 1, ...)]. *)
Definition writing (st : dispatch_stage) : bool :=
  match st with d_header _ | d_body _ | d_send_flush _ => true | _ => false end.

(** The fiber has written a header and not yet the body. *)
Definition half_written (st : dispatch_stage) : option (list byte) :=
  match st with d_body e => Some (header_to_bytes (lheader (letter e))) | _ => None end.

Definition writer (id : Z) (d : dispatch) : Z :=
  if bool_decide (d_conn d = id) && writing (d_stage d) then 1 else 0.

Section writes.
Context `{Build, GeneratedHeader, Xxhash, Seastar}.
Variable cfg : server_config.
Implicit Types sv : server.

(** The envelopes written to connection [id] in full. *)
Definition sent_to (id : Z) sv : list rpc_envelope := default [] (sent_ sv !! id).

Record conn_writes sv (id : Z) (c : rpc_server_connection) : Prop := mk_conn_writes {
  cw_count : sem_count (serialize_writes c) = 1 - msum (writer id) (dispatches sv);
  cw_nonneg : 0 <= sem_count (serialize_writes c);
  cw_idle : id ∉ broken_ sv ->
    (forall tid d, dispatches sv !! tid = Some d -> d_conn d = id -> half_written (d_stage d) = None) ->
    written (c_ostream (conn c)) = concat (map frame (sent_to id sv));
  cw_half : id ∉ broken_ sv -> forall tid d h,
    dispatches sv !! tid = Some d -> d_conn d = id -> half_written (d_stage d) = Some h ->
    written (c_ostream (conn c)) = concat (map frame (sent_to id sv)) ++ h
}.

Definition write_inv sv : Prop := forall id c, conns sv !! id = Some c -> conn_writes sv id c.

Lemma writer_nonneg id (m : gmap Z dispatch) : map_Forall (fun _ d => 0 <= writer id d) m.
Proof. intros tid d _. unfold writer. by case_goal. Qed.

Lemma writer_writing id d : d_conn d = id -> writing (d_stage d) = true -> writer id d = 1.
Proof. intros E W. unfold writer. by rewrite bool_decide_eq_true_2, W. Qed.

Lemma writer_quiet id d : writing (d_stage d) = false -> writer id d = 0.
Proof. intros W. unfold writer. by rewrite W, andb_false_r. Qed.

Lemma half_writing st h : half_written st = Some h -> writing st = true.
Proof. by destruct st. Qed.

(** One fiber of a connection writes at a time. *)
Lemma one_writer sv c tid d tid' d' :
  write_inv sv -> dispatches sv !! tid = Some d -> dispatches sv !! tid' = Some d' ->
  conns sv !! d_conn d = Some c -> d_conn d' = d_conn d ->
  writing (d_stage d) = true -> writing (d_stage d') = true -> tid' = tid.
Proof.
  intros I E E' C Ec W W'. destruct (decide (tid' = tid)) as [|N]; [done|]. exfalso.
  destruct (I _ _ C) as [Hc Hn _ _].
  pose proof (msum_ge2 (writer (d_conn d)) (dispatches sv) tid tid' d d'
    (writer_nonneg _ _) E E' ltac:(done)) as G.
  rewrite !writer_writing in G by done. lia.
Qed.

(** ** Steps that do not write *)

(** The output side of a connection: the lock and what was written. *)
Definition out_side (c : rpc_server_connection) : Z * list byte :=
  (sem_count (serialize_writes c), written (c_ostream (conn c))).

Record same_writes sv sv' : Prop := mk_same_writes {
  sw_conns : forall id, out_side <$> conns sv' !! id = out_side <$> conns sv !! id;
  sw_dispatches : dispatches sv' = dispatches sv;
  sw_sent : sent_ sv' = sent_ sv;
  sw_broken : broken_ sv' = broken_ sv
}.

#[local] Instance same_writes_preorder : PreOrder same_writes.
Proof.
  split; [done|]. intros a b c [C1 D1 S1 B1] [C2 D2 S2 B2].
  constructor; congruence.
Qed.

Lemma conn_writes_out sv sv' id c c' :
  out_side c' = out_side c -> dispatches sv' = dispatches sv -> sent_ sv' = sent_ sv ->
  broken_ sv' = broken_ sv -> conn_writes sv id c -> conn_writes sv' id c'.
Proof.
  intros O D S B [A1 A2 A3 A4]. injection O as Ow Oo.
  constructor; unfold sent_to; rewrite ?Ow, ?Oo, ?D, ?S, ?B; done.
Qed.

Lemma write_inv_same sv sv' : same_writes sv sv' -> write_inv sv -> write_inv sv'.
Proof.
  intros [C D S B] I id c' E'. specialize (C id). rewrite E' in C.
  destruct (conns sv !! id) as [c|] eqn:E; [|done]. injection C as C1 C2.
  eapply (conn_writes_out sv); [|done..|by apply I]. unfold out_side. congruence.
Qed.

(** An update of a connection that keeps its output side. *)
Lemma same_writes_conn id f sv :
  (forall c, conns sv !! id = Some c -> written (c_ostream (f (conn c))) = written (c_ostream (conn c))) ->
  same_writes sv (upd_conn id f sv).
Proof.
  intros F. constructor; try done. intros j. simpl. rewrite lookup_alter.
  case_decide as E; [|done]. subst. destruct (conns sv !! j) eqn:C; [|done]. simpl.
  unfold out_side. simpl. by rewrite F.
Qed.

Lemma cleanup_writes id sv : same_writes sv (cleanup_dispatch_rpc id sv).
Proof.
  unfold cleanup_dispatch_rpc. repeat case_goal; try done.
  etransitivity; [|apply same_writes_conn; intros c _; apply shutdown_output_written]. etransitivity; [|by apply same_writes_conn]. done.
Qed.

Lemma session_writes id st sv : same_writes sv (set_session id st sv).
Proof. done. Qed.

Lemma exception_writes id sv : same_writes sv (session_exception id sv).
Proof.
  etransitivity; [apply (cleanup_writes id)|].
  etransitivity; [|etransitivity; [apply cleanup_writes|apply session_writes]].
  by apply same_writes_conn.
Qed.
(** ** Steps of a dispatch fiber *)

Definition w01 (st : dispatch_stage) : Z := if writing st then 1 else 0.

Definition with_stage (st : dispatch_stage) (d : dispatch) : dispatch :=
  mk_dispatch (d_conn d) (d_payload_size d) st.

(** The fiber [tid] moves to [st]; other connections keep their output side. *)
Record stage_step (tid : Z) (d : dispatch) (st : dispatch_stage) sv sv' : Prop := mk_stage_step {
  ss_dispatch : dispatches sv !! tid = Some d;
  ss_dispatches : dispatches sv' = alter (with_stage st) tid (dispatches sv);
  ss_other : forall j, j <> d_conn d ->
    conns sv' !! j = conns sv !! j /\ sent_ sv' !! j = sent_ sv !! j /\ (j ∈ broken_ sv -> j ∈ broken_ sv')
}.

Lemma msum_with_stage tid d st id (m : gmap Z dispatch) :
  m !! tid = Some d ->
  msum (writer id) (alter (with_stage st) tid m) =
    msum (writer id) m + (if bool_decide (d_conn d = id) then w01 st - w01 (d_stage d) else 0).
Proof.
  intros E. rewrite (msum_alter _ _ _ d) by done. unfold writer, w01. simpl.
  case_bool_decide; simpl; repeat case_goal; lia.
Qed.

(** Fibers of other connections are the same before and after. *)
Lemma stage_step_lookup tid d st sv sv' tid' d' :
  stage_step tid d st sv sv' -> dispatches sv' !! tid' = Some d' ->
  tid' = tid /\ d' = with_stage st d \/ tid' <> tid /\ dispatches sv !! tid' = Some d'.
Proof.
  intros [E D _]. rewrite D, lookup_alter. case_decide as N; [subst|by right; split].
  rewrite E. intros [= <-]. by left.
Qed.

Lemma conn_writes_other tid d st sv sv' j c :
  stage_step tid d st sv sv' -> j <> d_conn d -> conn_writes sv j c -> conn_writes sv' j c.
Proof.
  intros S N [A1 A2 A3 A4]. pose proof (ss_other _ _ _ _ _ S j N) as (_ & Es & Eb).
  constructor; [|done| |]; unfold sent_to in *; rewrite ?Es.
  - rewrite (ss_dispatches _ _ _ _ _ S), (msum_with_stage _ d) by apply S.
    rewrite bool_decide_eq_false_2 by done. rewrite A1. lia.
  - intros B Q. apply A3; [by intros ?; apply B, Eb|]. intros tid' d' E' Ec.
    apply (Q tid'); [|done]. rewrite (ss_dispatches _ _ _ _ _ S), lookup_alter_ne; [done|].
    intros <-. rewrite (ss_dispatch _ _ _ _ _ S) in E'. by simplify_eq.
  - intros B tid' d' h E' Ec Hh. apply (A4 ltac:(by intros ?; apply B, Eb) tid' d'); [|done..].
    destruct (stage_step_lookup _ _ _ _ _ _ _ S E') as [[_ ->]|[_ ?]]; [|done]. simpl in Ec. done.
Qed.

(** No other fiber of the connection is writing. *)
Definition alone (tid : Z) (d : dispatch) sv : Prop :=
  forall tid' d', dispatches sv !! tid' = Some d' -> tid' <> tid -> d_conn d' = d_conn d ->
  half_written (d_stage d') = None.

Lemma alone_holder tid d c sv :
  write_inv sv -> dispatches sv !! tid = Some d -> conns sv !! d_conn d = Some c ->
  writing (d_stage d) = true -> alone tid d sv.
Proof.
  intros I E C W tid' d' E' N Ec. destruct (half_written (d_stage d')) as [h|] eqn:Hh; [|done].
  destruct N. eapply (one_writer sv c); eauto using half_writing.
Qed.

Lemma alone_free tid d c sv :
  conn_writes sv (d_conn d) c -> 1 <= sem_count (serialize_writes c) -> alone tid d sv.
Proof.
  intros [Hc _ _ _] G tid' d' E' N Ec. destruct (half_written (d_stage d')) as [h|] eqn:Hh; [|done].
  pose proof (msum_ge (writer (d_conn d)) _ tid' d' (writer_nonneg _ _) E').
  rewrite writer_writing in * by eauto using half_writing. lia.
Qed.

(** The only fiber that writes moves on. *)
Lemma write_inv_holder tid d st c c' sv sv' :
  write_inv sv -> stage_step tid d st sv sv' -> conns sv !! d_conn d = Some c ->
  conns sv' !! d_conn d = Some c' -> alone tid d sv ->
  sem_count (serialize_writes c') = sem_count (serialize_writes c) + w01 (d_stage d) - w01 st ->
  0 <= sem_count (serialize_writes c') ->
  (d_conn d ∉ broken_ sv' -> written (c_ostream (conn c')) =
     concat (map frame (sent_to (d_conn d) sv')) ++ default [] (half_written st)) ->
  write_inv sv'.
Proof.
  intros I S C C' Al Hc Hn Hw j cj Ej. destruct (decide (j = d_conn d)) as [->|N].
  2: { apply (conn_writes_other tid d st sv); [done..|]. apply I.
       by rewrite <- (proj1 (ss_other _ _ _ _ _ S j N)). }
  rewrite C' in Ej. injection Ej as <-. constructor; [|done| |].
  - rewrite Hc, (cw_count _ _ _ (I _ _ C)), (ss_dispatches _ _ _ _ _ S), (msum_with_stage _ d) by apply S.
    rewrite bool_decide_eq_true_2 by done. lia.
  - intros B Q. rewrite (Hw B). specialize (Q tid (with_stage st d)). rewrite (ss_dispatches _ _ _ _ _ S) in Q.
    rewrite lookup_alter_eq, (ss_dispatch _ _ _ _ _ S) in Q. simpl in Q. rewrite Q by done. by rewrite app_nil_r.
  - intros B tid' d' h E' Ec Hh. rewrite (Hw B).
    destruct (stage_step_lookup _ _ _ _ _ _ _ S E') as [[_ ->]|[Nt E]]; [simpl in Hh; by rewrite Hh|].
    by rewrite (Al tid' d') in Hh.
Qed.

(** A fiber outside the critical section moves on. *)
Lemma write_inv_quiet tid d st sv sv' :
  write_inv sv -> stage_step tid d st sv sv' -> writing (d_stage d) = false -> writing st = false ->
  (forall j, out_side <$> conns sv' !! j = out_side <$> conns sv !! j) ->
  sent_ sv' = sent_ sv -> broken_ sv ⊆ broken_ sv' -> write_inv sv'.
Proof.
  intros I S W W' Co Es Eb j cj Ej. specialize (Co j). rewrite Ej in Co.
  destruct (conns sv !! j) as [c|] eqn:C; [|done]. injection Co as Cw Cs.
  destruct (I _ _ C) as [A1 A2 A3 A4]. unfold sent_to in *.
  constructor; unfold sent_to; rewrite ?Es, ?Cw, ?Cs; [|done| |].
  - rewrite (ss_dispatches _ _ _ _ _ S), (msum_with_stage _ d) by apply S.
    rewrite A1. unfold w01. rewrite W, W'. case_goal; lia.
  - intros B Q. apply A3; [set_solver|]. intros tid' d' E' Ec.
    destruct (decide (tid' = tid)) as [->|N].
    + rewrite (ss_dispatch _ _ _ _ _ S) in E'. simplify_eq. by destruct (d_stage d').
    + apply (Q tid'); [|done]. by rewrite (ss_dispatches _ _ _ _ _ S), lookup_alter_ne.
  - intros B tid' d' h E' Ec Hh. apply (A4 ltac:(set_solver) tid' d'); [|done..].
    destruct (stage_step_lookup _ _ _ _ _ _ _ S E') as [[_ ->]|[_ ?]]; [|done].
    simpl in Hh. by destruct st.
Qed.

(** A fiber that ended is gone. *)
Lemma write_inv_delete tid d sv sv' :
  write_inv sv -> dispatches sv !! tid = Some d -> writing (d_stage d) = false ->
  (forall id, out_side <$> conns sv' !! id = out_side <$> conns sv !! id) ->
  dispatches sv' = delete tid (dispatches sv) -> sent_ sv' = sent_ sv -> broken_ sv' = broken_ sv ->
  write_inv sv'.
Proof.
  intros I E W Co D Es Eb j cj Ej. specialize (Co j). rewrite Ej in Co.
  destruct (conns sv !! j) as [c|] eqn:C; [|done]. injection Co as Cw Cs.
  destruct (I _ _ C) as [A1 A2 A3 A4]. unfold sent_to in *.
  constructor; unfold sent_to; rewrite ?Es, ?Eb, ?Cw, ?Cs, ?D; [|done| |].
  - rewrite (msum_delete _ _ _ d), (writer_quiet j d) by done. lia.
  - intros B Q. apply A3; [done|]. intros tid' d' E' Ec. destruct (decide (tid' = tid)) as [->|N].
    + rewrite E in E'. injection E' as <-. by destruct (d_stage d).
    + apply (Q tid'); [by rewrite lookup_delete_ne|done].
  - intros B tid' d' h. rewrite lookup_delete_Some. intros [_ E']. by apply (A4 B tid').
Qed.

(** Nothing of the connection's current frame is on the wire yet. *)
Lemma written_idle tid d c sv :
  write_inv sv -> dispatches sv !! tid = Some d -> conns sv !! d_conn d = Some c ->
  alone tid d sv -> half_written (d_stage d) = None -> d_conn d ∉ broken_ sv ->
  written (c_ostream (conn c)) = concat (map frame (sent_to (d_conn d) sv)).
Proof.
  intros I E C Al Hh B. apply (cw_idle _ _ _ (I _ _ C)); [done|]. intros tid' d' E' Ec.
  destruct (decide (tid' = tid)) as [->|N]; [by simplify_eq|by eapply Al].
Qed.

(** The lock after the holder leaves. *)
Lemma release_count sv id c d :
  conn_writes sv id c -> (exists tid, dispatches sv !! tid = Some d) -> d_conn d = id ->
  writing (d_stage d) = true ->
  sem_count (sem_signal (serialize_writes c) 1) = sem_count (serialize_writes c) + 1.
Proof.
  intros [A1 A2 _ _] [tid E] Ec W. rewrite sem_signal_count. apply wrap_s_small; [lia|].
  pose proof (msum_ge (writer id) _ tid d (writer_nonneg _ _) E).
  rewrite writer_writing in * by done. unfold fits_s. lia.
Qed.

Ltac stage_step_tac := constructor; [eassumption|reflexivity|];
  intros ? ?; simpl; rewrite ?lookup_alter_ne, ?lookup_insert_ne by done; split_and!; set_solver.

Ltac out_side_tac := intros ?; simpl; rewrite ?lookup_alter; case_decide;
  [subst; rewrite ?lookup_alter_eq; match goal with C : conns _ !! _ = Some _ |- _ => rewrite C end; simpl;
   done|done].

Section step.
Variables (tid : Z) (d : dispatch) (c : rpc_server_connection) (sv : server).
Hypothesis Hd : dispatches sv !! tid = Some d.
Hypothesis Hc : conns sv !! d_conn d = Some c.
Hypothesis Hi : write_inv sv.

Lemma write_lock e w :
  d_stage d = d_lock e -> sem_wait (serialize_writes c) 1 = Some w ->
  write_inv (set_stage tid (d_header e) (upd_writes (d_conn d) w sv)).
Proof.
  intros St W. apply sem_wait_granted in W as [G Ew].
  assert (alone tid d sv) as Al by (by eapply alone_free; [apply Hi|]).
  eapply (write_inv_holder tid d (d_header e) c); [done|stage_step_tac|done| |done|..];
    [simpl; by rewrite lookup_alter_eq, Hc|simpl; unfold w01; rewrite ?St; simpl; lia..|].
  intros B. simpl. rewrite app_nil_r. by rewrite (written_idle tid d c sv) by (done || by rewrite St).
Qed.

(** The holder wrote something, with the lock kept. *)
Lemma write_holder st o sv' :
  writing (d_stage d) = true -> writing st = true ->
  stage_step tid d st sv sv' ->
  conns sv' !! d_conn d = Some (mk_sconn _ (with_ostream o (conn c)) (serialize_writes c)) ->
  (d_conn d ∉ broken_ sv' -> written o =
     concat (map frame (sent_to (d_conn d) sv')) ++ default [] (half_written st)) ->
  write_inv sv'.
Proof.
  intros W W' S C' Hw. eapply (write_inv_holder tid d st c); [done..|by eapply alone_holder| | |done];
    simpl; unfold w01; rewrite ?W, ?W'; [lia|]. apply (Hi _ _ Hc).
Qed.

(** The holder leaves the critical section. *)
Lemma write_release st c0 sv' :
  writing (d_stage d) = true -> writing st = false -> stage_step tid d st sv sv' ->
  conns sv' !! d_conn d = Some (mk_sconn _ c0 (sem_signal (serialize_writes c) 1)) ->
  (d_conn d ∉ broken_ sv' -> written (c_ostream c0) = concat (map frame (sent_to (d_conn d) sv'))) ->
  write_inv sv'.
Proof.
  intros W W' S C' Hw. pose proof (release_count sv _ c d (Hi _ _ Hc) ltac:(eauto) eq_refl W) as Rc.
  assert (half_written st = None) as Hh by (by destruct st).
  eapply (write_inv_holder tid d st c); [done..|by eapply alone_holder| | |].
  - simpl. unfold w01. rewrite W, W'. lia.
  - simpl. pose proof (cw_nonneg _ _ _ (Hi _ _ Hc)). lia.
  - simpl. intros B. by rewrite Hh, app_nil_r, Hw.
Qed.

Lemma write_failed :
  writing (d_stage d) = true ->
  write_inv (set_stage tid (d_end false) (release_writes (d_conn d) c (mark_broken (d_conn d) sv))).
Proof.
  intros W. eapply (write_release (d_end false) (conn c)); [done|done|stage_step_tac| |].
  - simpl. by rewrite lookup_alter_eq, Hc.
  - simpl. intros B. set_solver.
Qed.

Lemma write_header e o :
  d_stage d = d_header e -> send_header (c_ostream (conn c)) e = Ready o ->
  write_inv (set_stage tid (d_body e) (upd_conn (d_conn d) (with_ostream o) sv)).
Proof.
  intros St S. eapply (write_holder (d_body e) o); [by rewrite St|done|stage_step_tac| |].
  - simpl. by rewrite lookup_alter_eq, Hc.
  - simpl. intros B. rewrite (send_header_written _ _ _ S).
    rewrite (written_idle tid d c sv); [done..| |by rewrite St|done].
    eapply alone_holder; [done..|by rewrite St].
Qed.

Lemma write_body e o :
  d_stage d = d_body e -> owrite (c_ostream (conn c)) (body (letter e)) = Ready o ->
  write_inv (set_stage tid (d_send_flush e) (add_sent (d_conn d) e (upd_conn (d_conn d) (with_ostream o) sv))).
Proof.
  intros St S. eapply (write_holder (d_send_flush e) o); [by rewrite St|done|stage_step_tac| |].
  - simpl. by rewrite lookup_alter_eq, Hc.
  - simpl. intros B. rewrite (owrite_written _ _ _ S).
    rewrite (cw_half _ _ _ (Hi _ _ Hc) B tid d (header_to_bytes (lheader (letter e))) Hd eq_refl)
      by (by rewrite St).
    unfold sent_to. simpl. rewrite lookup_insert_eq. simpl.
    by rewrite map_app, concat_app, app_nil_r, <- app_assoc; simpl; rewrite app_nil_r.
Qed.

Lemma write_send_flush e o :
  d_stage d = d_send_flush e -> oflush (c_ostream (conn c)) = Ready o ->
  write_inv (set_stage tid d_flush (release_writes (d_conn d) c (upd_conn (d_conn d) (with_ostream o) sv))).
Proof.
  intros St S. eapply (write_release d_flush (with_ostream o (conn c))); [by rewrite St|done|stage_step_tac| |].
  - simpl. by rewrite !lookup_alter_eq, Hc.
  - simpl. intros B. rewrite (oflush_written _ _ S).
    apply (written_idle tid d c sv); [done..| |by rewrite St|done].
    eapply alone_holder; [done..|by rewrite St].
Qed.

Lemma write_flush o :
  d_stage d = d_flush -> oflush (c_ostream (conn c)) = Ready o ->
  write_inv (set_stage tid (d_end true) (upd_conn (d_conn d) (with_ostream o) sv)).
Proof.
  intros St S. eapply (write_inv_quiet tid d); [done|stage_step_tac|by rewrite St|done| |done|done].
  intros j. simpl. rewrite lookup_alter. case_decide; [subst|done]. rewrite Hc. simpl.
  unfold out_side. simpl. by rewrite (oflush_written _ _ S).
Qed.

Lemma write_inv_dispatch sv' : dispatch_step cfg tid d c sv = Some sv' -> write_inv sv'.
Proof.
  intros S. unfold dispatch_step in S. destruct (d_stage d) eqn:St; repeat case_hyp S; simplify_eq;
    try (by apply write_lock); try (by apply write_header); try (by apply write_body);
    try (by eapply write_send_flush); try (by apply write_flush); try (apply write_failed; by rewrite St);
    try (eapply (write_inv_quiet tid d);
         [exact Hi|stage_step_tac|by rewrite St|done|out_side_tac || done|done|set_solver || done]).
  - eapply (write_inv_delete tid d (cleanup_dispatch_rpc (d_conn d) sv));
      [by eapply write_inv_same; [apply cleanup_writes|]| |by rewrite St|done..].
    by rewrite (sw_dispatches _ _ (cleanup_writes (d_conn d) sv)).
  - eapply (write_inv_delete tid d sv); [done|done|by rewrite St|done..].
Qed.
End step.

(** ** Every step *)

(** A new fiber does not write. *)
Lemma write_inv_add d sv sv' :
  write_inv sv -> dispatches sv !! next_dispatch sv = None -> writing (d_stage d) = false ->
  same_writes sv sv' -> next_dispatch sv' = next_dispatch sv -> write_inv (add_dispatch d sv').
Proof.
  intros I F W S Nx. apply (write_inv_same sv sv') in I; [|done].
  assert (dispatches sv' !! next_dispatch sv' = None) as F'.
  { by rewrite (sw_dispatches _ _ S), Nx. }
  intros j c C. destruct (I _ _ C) as [A1 A2 A3 A4]. constructor; [|done| |]; simpl.
  - rewrite msum_insert by done. rewrite writer_quiet by done. lia.
  - intros B Q. apply A3; [done|]. intros tid d' E. apply (Q tid). rewrite lookup_insert_ne; [done|].
    intros <-. by rewrite F' in E.
  - intros B tid d' h. rewrite lookup_insert_Some. intros [[_ <-]|[_ E]]; [|by apply (A4 B tid)].
    intros _ Hh. by apply half_writing in Hh; rewrite W in Hh.
Qed.

(** The first stage of a request. *)
Definition first_stage (ctx : rpc_recv_context) (st : dispatch_stage) : Prop :=
  st = d_end true \/
  exists h, st = d_incoming h ctx /\ (request_id ctx =? 0) = false /\
    get_handle_for_request (routes cfg) (request_id ctx) = Some h.

Lemma do_dispatch_writes id ctx sv :
  first_stage ctx (do_dispatch_rpc cfg id ctx sv).1 /\
  same_writes sv (do_dispatch_rpc cfg id ctx sv).2 /\
  next_dispatch (do_dispatch_rpc cfg id ctx sv).2 = next_dispatch sv.
Proof.
  unfold do_dispatch_rpc. repeat case_goal; simpl; split_and!; try done; try (by left);
    try (by right; eauto); (etransitivity; [|by apply same_writes_conn]); done.
Qed.

Lemma first_stage_quiet ctx st : first_stage ctx st -> writing st = false.
Proof. by intros [->|(h & -> & _)]. Qed.

(** The payload of a request: at most one new fiber, with the context read. *)
Lemma payload_writes id hdr c sv sv' :
  conns sv !! id = Some c -> session_payload cfg id hdr c sv = Some sv' ->
  same_writes sv sv' \/
  exists b i ctx ps stage sv2 n,
    read_exactly (c_istream (conn c)) (hsize hdr) = Some (b, i) /\
    check_payload (remote_address (conn c)) hdr b = Ready (Some ctx) /\ first_stage ctx stage /\
    same_writes sv sv2 /\ next_dispatch sv2 = next_dispatch sv /\
    sv' = set_session id s_loop (add_leaked n (add_dispatch (mk_dispatch id ps stage) sv2)).
Proof.
  intros C P. unfold session_payload in P.
  destruct (read_exactly _ _) as [[b i]|] eqn:R; [|done]. unfold parse_payload_resume in P.
  destruct (check_payload_total (remote_address (conn c)) hdr b) as [r Cr]. rewrite Cr in P. simpl in P.
  set (sv1 := upd_conn id (fun _ => with_istream i (conn c)) sv) in *.
  assert (same_writes sv sv1) as S1.
  { apply same_writes_conn. intros c0 C0. rewrite C in C0. by injection C0 as <-. }
  destruct r as [ctx|]; simpl in P.
  - destruct (gate_enter (reply_gate_ sv)) as [g|e|]; simpl in P; [| |done].
    + pose proof (do_dispatch_writes id ctx (upd_gate g sv1)) as (W & S2 & N2).
      destruct (do_dispatch_rpc _ _ _ _) as [stage sv2]. injection P as <-. simpl in *. right.
      exists b, i, ctx, (s32 (hsize hdr)), stage, sv2, (hsize hdr - s32 (hsize hdr)). split_and!; try done.
      etransitivity; [apply S1|]. by etransitivity; [|apply S2].
    + injection P as <-. left. etransitivity; [apply S1|].
      etransitivity; [|apply exception_writes]. done.
  - injection P as <-. left. etransitivity; [apply S1|].
    etransitivity; [|apply session_writes].
    etransitivity; [by apply (same_writes_conn id (set_error "Could not parse payload"))|]. done.
Qed.

Lemma write_inv_payload id hdr c sv sv' :
  live_inv sv -> conns sv !! id = Some c -> session_payload cfg id hdr c sv = Some sv' ->
  write_inv sv -> write_inv sv'.
Proof.
  intros L C P I. destruct (payload_writes id hdr c sv sv' C P) as
    [S|(b & i & ctx & ps & stage & sv2 & n & _ & _ & F & S & Nx & ->)]; [by eapply write_inv_same|].
  apply (write_inv_same (add_dispatch (mk_dispatch id ps stage) sv2)); [done|].
  apply (write_inv_add _ sv); [done| |by eapply first_stage_quiet|done..].
  apply (li_fresh _ L). lia.
Qed.

Lemma write_inv_accept addr i o sv sv' :
  server_accept addr i o sv = Some sv' -> live_inv sv -> write_inv sv -> write_inv sv'.
Proof.
  intros A L I. unfold server_accept in A. destruct (_ && _) eqn:G; [|done]. injection A as <-.
  rewrite !andb_true_iff, !bool_decide_eq_true in G. destruct G as [[[_ C] W] _].
  set (id := u64 (connection_idx_ sv + 1)) in *.
  assert (forall tid d, dispatches sv !! tid = Some d -> d_conn d <> id) as Fr.
  { intros tid d E Ed. apply (li_dispatches _ L) in E as [c Ec]. rewrite Ed in Ec. by rewrite C in Ec. }
  intros j c. simpl. rewrite lookup_insert. case_decide as Ej; [subst j|].
  - intros [= <-]. assert (msum (writer id) (dispatches sv) = 0) as Z.
    { apply Z.le_antisymm; [|apply msum_nonneg, writer_nonneg].
      etransitivity; [apply (msum_le _ (fun _ => 0))|by rewrite msum_zero].
      intros tid d E. unfold writer. rewrite bool_decide_eq_false_2 by (by eapply Fr). done. }
    constructor; simpl; rewrite ?Z, ?sem_make_count by (unfold fits_s; lia); try lia.
    + intros _ _. unfold sent_to. simpl. by rewrite lookup_insert_eq.
    + intros _ tid d h E Ed. by apply (Fr tid d E) in Ed.
  - intros E. destruct (I _ _ E) as [A1 A2 A3 A4]. constructor; simpl; try done;
      unfold sent_to; simpl; rewrite lookup_insert_ne by done; intros B.
    + apply A3. by set_solver.
    + apply A4. by set_solver.
Qed.

(** The events that neither write nor start a request. *)
Lemma quiet_step ev sv sv' :
  exec cfg ev sv = Some sv' ->
  match ev with
  | ev_accept _ _ _ | ev_dispatch _ | ev_destroy _ => True
  | ev_session id => same_writes sv sv' \/ exists c hdr,
      conns sv !! id = Some c /\ sessions sv !! id = Some (s_payload hdr) /\
      session_payload cfg id hdr c sv = Some sv'
  | _ => same_writes sv sv'
  end.
Proof.
  intros E. destruct ev; simpl in E; try done.
  - by injection E as <-.
  - injection E as <-. constructor; try done. intros id. simpl.
    rewrite map_lookup_imap. destruct (conns sv !! id); [|done]. simpl. by case_bool_decide.
  - repeat case_hyp E; simplify_eq. by apply same_writes_conn.
  - destruct (conns sv !! id) as [c|] eqn:C; [|done].
    assert (forall c', c_ostream c' = c_ostream (conn c) -> same_writes sv (upd_conn id (fun _ => c') sv)) as Sc.
    { intros c' Ec. apply same_writes_conn. intros c0 C0. rewrite C in C0. injection C0 as <-. by rewrite Ec. }
    destruct (sessions sv !! id) as [[| |hdr|hdr|]|] eqn:S; try done; [left..|right; eauto].
    + unfold session_loop in E. repeat case_hyp E; simplify_eq.
      * etransitivity; [apply cleanup_writes|apply session_writes].
      * etransitivity; [|apply session_writes]. apply Sc.
        unfold parse_header_begin in Heqo. by apply outcome_bind_Ready in Heqo as (_ & _ & [= <-]).
      * apply exception_writes.
    + unfold session_header, parse_header_resume in E. repeat case_hyp E; simplify_eq;
        (etransitivity; [|apply session_writes]);
        try (etransitivity; [|by apply same_writes_conn]); by apply Sc.
    + unfold session_grant in E. by repeat case_hyp E; simplify_eq.
  - repeat case_hyp E; simplify_eq; (etransitivity; [|apply exception_writes]); [by apply same_writes_conn|done].
Qed.

Lemma write_inv_step ev sv sv' :
  live_inv sv -> exec cfg ev sv = Some sv' -> write_inv sv -> write_inv sv'.
Proof.
  intros L E I. pose proof (quiet_step ev sv sv' E) as Q.
  destruct ev; try (by eapply write_inv_same); simpl in E.
  - by eapply write_inv_accept.
  - destruct Q as [Q|(c & hdr & C & _ & P)]; [by eapply write_inv_same|by eapply write_inv_payload].
  - destruct (dispatches sv !! tid) as [d|] eqn:D; [|done].
    destruct (conns sv !! d_conn d) as [c|] eqn:C; [|done]. by eapply write_inv_dispatch.
  - unfold server_destroy in E. case_bool_decide as D; [|done]. injection E as <-.
    intros j c. simpl. rewrite lookup_delete_Some. intros [_ Ej].
    by apply (conn_writes_out sv _ j c c), I.
Qed.

Lemma reachable_writes args sv : reachable cfg args sv -> write_inv sv.
Proof.
  apply (reachable_inv cfg args); [done|]. intros ev s s' R I E.
  eapply write_inv_step; [by eapply reachable_live|done..].
Qed.

(** C11: the replies of a connection, which its requests produce concurrently,
    reach the stream one complete frame after the other: while no write to it
    failed, what was written is the frames of the replies sent, in order,
    followed by at most one header whose body follows; and at most one request
    is writing at a time. *)
Theorem replies_not_interleaved args id c sv :
  reachable cfg args sv -> conns sv !! id = Some c ->
  (forall tid tid' d d', dispatches sv !! tid = Some d -> dispatches sv !! tid' = Some d' ->
   d_conn d = id -> d_conn d' = id -> writing (d_stage d) = true -> writing (d_stage d') = true -> tid' = tid) /\
  (id ∉ broken_ sv ->
   written (c_ostream (conn c)) = concat (map frame (sent_to id sv)) \/
   exists tid d e, dispatches sv !! tid = Some d /\ d_conn d = id /\ d_stage d = d_body e /\
     written (c_ostream (conn c)) = concat (map frame (sent_to id sv)) ++ header_to_bytes (lheader (letter e))).
Proof.
  intros R C. pose proof (reachable_writes args sv R) as I. split.
  - intros tid tid' d d' E E' Ed Ed' W W'. eapply (one_writer sv c); try done; congruence.
  - intros B. destruct (I _ _ C) as [_ _ A3 A4].
    destruct (decide (map_Forall (fun _ d => d_conn d = id -> half_written (d_stage d) = None) (dispatches sv)))
      as [Q|Q]; [left; apply A3; [done|intros tid d E; by apply (Q tid)]|right].
    apply map_not_Forall in Q as (tid & d & E & Nq); [|apply _].
    destruct (decide (d_conn d = id)) as [Ed|]; [|by destruct Nq].
    destruct (d_stage d) as [| | | | |e| | |] eqn:St; try (by destruct Nq).
    exists tid, d, e. split_and!; try done. apply (A4 B tid d); [done..|by rewrite St].
Qed.

End writes.

Module WritesWitness.
Import Demo ServerDemo.

(** Two requests of one connection; the second replies first. *)
Definition w_evs : list event :=
  [ev_start; demo_accept (frame (demo_request [Byte.x2a]) ++ frame (demo_request [Byte.x2b])) false]
  ++ to_payload 1 ++ [ev_session 1] ++ to_payload 1 ++ [ev_session 1]
  ++ repeat (ev_dispatch 1) 6 ++ repeat (ev_dispatch 0) 3.
Definition w_sconn : rpc_server_connection :=
  default (mk_sconn _ (demo_conn [] true) 0) (conns (demo_state 1000 w_evs) !! 1).

Lemma replies_not_interleaved_witness :
  exists tid d e, dispatches (demo_state 1000 w_evs) !! tid = Some d /\ d_stage d = d_body e \/
  written (c_ostream (conn w_sconn)) = concat (map frame (sent_to 1 (demo_state 1000 w_evs))).
Proof.
  destruct (replies_not_interleaved demo_config (mk_args 60000 1000) 1 w_sconn (demo_state 1000 w_evs))
    as [_ [W|(tid & d & e & E & _ & S & _)]].
  - apply demo_reachable. vm_refl.
  - apply ran_default. vm_refl.
  - apply (bool_decide_eq_false_1 (1 ∈ broken_ (demo_state 1000 w_evs))). vm_refl.
  - exists 0, (mk_dispatch 0 0 d_flush), rpc_envelope0. right. exact W.
  - exists tid, d, e. left. split; [exact E|exact S].
Defined.
End WritesWitness.
