(* ===== verification/ServerWire.v ===== *)
(** * One connection, seen from the server

    What the server of Server.v does with the bytes of one connection [sid]
    that carry requests of [P]: the session fiber stays on frame boundaries,
    every dispatch fiber works on one of those requests, and the output grows
    by frames of their replies.  Events of other connections interleave. *)

From Stdlib Require Import ZArith Lia.
From stdpp Require Import base gmap list numbers strings.
From coqutil Require Import Byte.
From S2P Require Import Prelude Header Seastar Letter Connection RecvContext Wire Streams Filters Router Server ServerInv ServerWrites.

Section wire.
Context `{Build, GeneratedHeader, Xxhash, Seastar}.
Variable cfg : server_config.
Variable sid : Z.
Implicit Types sv : server.

(** ** Input *)

Definition session_pos (c : rpc_server_connection) (st : session_stage) : position :=
  match st with
  | s_loop => at_frame (is_valid (conn c))
  | s_header => at_frame true
  | s_wait hdr | s_payload hdr => behind hdr
  | s_done => gone
  end.

Definition session_aligned (P : rpc_envelope -> Prop) (rest : list byte) sv : Prop :=
  forall c st, conns sv !! sid = Some c -> sessions sv !! sid = Some st ->
  aligned P (session_pos c st) (c_istream (conn c)) rest.

(** The session fiber and the input of the connection are the same, or the end
    of the input came nearer. *)
Record keeps sv sv' : Prop := mk_keeps {
  kp_session : sessions sv' !! sid = sessions sv !! sid;
  kp_conn : forall c', conns sv' !! sid = Some c' -> exists c, conns sv !! sid = Some c /\
    shrinks (c_istream (conn c)) (c_istream (conn c')) /\
    (is_valid (conn c') = true -> is_valid (conn c) = true)
}.

Lemma keeps_same sv sv' :
  sessions sv' !! sid = sessions sv !! sid -> conns sv' !! sid = conns sv !! sid -> keeps sv sv'.
Proof. intros S C. constructor; [done|]. intros c Ec. rewrite C in Ec. exists c. by split_and!. Qed.

#[local] Instance keeps_preorder : PreOrder keeps.
Proof.
  split; [intros sv; by apply keeps_same|].
  intros a b c [S1 C1] [S2 C2]. constructor; [congruence|]. intros c' C.
  destruct (C2 c' C) as (cb & Cb & Sb & Vb). destruct (C1 cb Cb) as (ca & Ca & Sa & Va).
  exists ca. split_and!; [done|by etransitivity|auto].
Qed.

Lemma keeps_aligned P rest sv sv' : keeps sv sv' -> session_aligned P rest sv -> session_aligned P rest sv'.
Proof.
  intros [Ks Kc] A c' st C' St. rewrite Ks in St. destruct (Kc c' C') as (c & C & Sh & V).
  specialize (A c st C St). eapply aligned_shrinks; [done|]. destruct st; try done. simpl in *.
  destruct (is_valid (conn c')); [|done]. by rewrite V in A.
Qed.

(** An update of a connection that keeps its input. *)
Lemma keeps_conn id f sv :
  (forall c, conns sv !! id = Some c -> shrinks (c_istream (conn c)) (c_istream (f (conn c))) /\
     (is_valid (f (conn c)) = true -> is_valid (conn c) = true)) ->
  keeps sv (upd_conn id f sv).
Proof.
  intros F. destruct (decide (id = sid)) as [->|N]; [|apply keeps_same; [done|by apply lookup_alter_ne]].
  constructor; [done|]. simpl. intros c'. rewrite lookup_alter_eq.
  destruct (conns sv !! sid) as [c|] eqn:C; [|done]. simpl. intros [= <-]. exists c. split; [done|]. by apply F.
Qed.

Lemma keeps_set_error id msg sv : keeps sv (upd_conn id (set_error msg) sv).
Proof. apply keeps_conn. intros c _. by rewrite set_error_invalid. Qed.

Lemma keeps_ostream id o sv : keeps sv (upd_conn id (with_ostream o) sv).
Proof. by apply keeps_conn. Qed.

Lemma keeps_cleanup id sv : keeps sv (cleanup_dispatch_rpc id sv).
Proof.
  unfold cleanup_dispatch_rpc. repeat case_goal; try done; [|by apply keeps_same].
  etransitivity; [|apply keeps_conn; intros c _; split; [apply shrinks_shutdown|]].
  - etransitivity; [|apply keeps_conn; intros c _; by rewrite disable_invalid]. by apply keeps_same.
  - unfold is_valid, has_error. simpl. by rewrite (proj2 (shutdown_input_spec _)).
Qed.

(** The session fiber moves on after such an update. *)
Lemma aligned_session P rest id st sv sv' :
  (id = sid -> forall c, conns sv' !! sid = Some c -> aligned P (session_pos c st) (c_istream (conn c)) rest) ->
  (id <> sid -> keeps sv sv') ->
  session_aligned P rest sv -> session_aligned P rest (set_session id st sv').
Proof.
  intros E N A. destruct (decide (id = sid)) as [->|Ne].
  - intros c st' C. simpl. rewrite lookup_insert_eq. intros [= <-]. by apply E.
  - eapply keeps_aligned; [|exact A]. etransitivity; [by apply N|].
    apply keeps_same; [|done]. simpl. by rewrite lookup_insert_ne.
Qed.

Lemma aligned_exception P rest id sv sv' :
  (id <> sid -> keeps sv sv') -> session_aligned P rest sv -> session_aligned P rest (session_exception id sv').
Proof.
  intros N A. unfold session_exception. apply (aligned_session P rest id s_done sv); [done| |done].
  intros Ne. etransitivity; [by apply N|]. etransitivity; [apply (keeps_cleanup id)|].
  etransitivity; [apply keeps_set_error|apply keeps_cleanup].
Qed.

Lemma keeps_upd_other id f sv : id <> sid -> keeps sv (upd_conn id f sv).
Proof. intros N. apply keeps_same; [done|]. by apply lookup_alter_ne. Qed.

Section session.
Variable P : rpc_envelope -> Prop.
Hypothesis P_framed : forall e, P e -> framed e.
Variables (rest : list byte) (id : Z) (c : rpc_server_connection) (sv sv' : server).
Hypothesis Hc : conns sv !! id = Some c.
Hypothesis Ha : session_aligned P rest sv.

Lemma aligned_loop :
  sessions sv !! id = Some s_loop -> session_loop id c sv = Some sv' -> session_aligned P rest sv'.
Proof.
  intros St E. unfold session_loop in E. destruct (is_valid (conn c)) eqn:V; simpl in E.
  2: { injection E as <-. apply (aligned_session P rest id s_done sv); [done| |done]. intros _. apply keeps_cleanup. }
  destruct (parse_header_begin (conn c)) as [c'|ex|] eqn:B; [| |done]; injection E as <-;
    [|by apply (aligned_exception P rest id sv)].
  apply outcome_bind_Ready in B as (_ & _ & [= <-]).
  apply (aligned_session P rest id s_header sv); [|by intros; apply keeps_upd_other|done].
  intros -> c0. simpl. rewrite lookup_alter_eq, Hc. simpl. intros [= <-].
  specialize (Ha c s_loop Hc St). simpl in Ha. by rewrite V in Ha.
Qed.

Lemma aligned_header_step :
  sessions sv !! id = Some s_header -> session_header id c sv = Some sv' -> session_aligned P rest sv'.
Proof.
  intros St E. unfold session_header in E. destruct (read_exactly _ _) as [[b i]|] eqn:R; [|done].
  unfold parse_header_resume in E.
  set (c1 := with_parsers (u32 (istream_active_parser (conn c) - 1)) (with_istream i (conn c))) in *.
  assert (forall msg, session_aligned P rest (set_session id s_loop (upd_conn id (set_error msg)
    (upd_conn id (fun _ => c1) sv)))) as Er.
  { intros msg. apply (aligned_session P rest id s_loop sv); [| |done].
    - intros -> c0. simpl. rewrite !lookup_alter_eq, Hc. simpl. intros [= <-]. simpl. by rewrite set_error_invalid.
    - intros N. etransitivity; by apply keeps_upd_other. }
  destruct (negb _) eqn:L; [injection E as <-; apply Er|]. apply negb_false_iff, Z.eqb_eq in L.
  destruct (check_header (header_of_bytes b)) as [hdr|] eqn:Ch; injection E as <-; [|apply Er].
  apply (aligned_session P rest id (s_wait hdr) sv); [|by intros; apply keeps_upd_other|done].
  intros -> c0. simpl. rewrite lookup_alter_eq, Hc. simpl. intros [= <-].
  destruct (aligned_header P P_framed _ b i rest (Ha c s_header Hc St) R) as (hdr' & Ch' & A); [done|].
  rewrite Ch in Ch'. by injection Ch' as <-.
Qed.

Lemma aligned_grant hdr :
  sessions sv !! id = Some (s_wait hdr) -> session_grant id hdr sv = Some sv' -> session_aligned P rest sv'.
Proof.
  intros St E. unfold session_grant in E. case_hyp E; simplify_eq.
  apply (aligned_session P rest id (s_payload hdr) sv); [|by intros; apply keeps_same|done].
  intros -> c0 C0. by apply (Ha c0 (s_wait hdr)).
Qed.

(** The request that the session fiber reads next. *)
Lemma aligned_request hdr b i ctx :
  id = sid -> sessions sv !! id = Some (s_payload hdr) ->
  read_exactly (c_istream (conn c)) (hsize hdr) = Some (b, i) ->
  check_payload (remote_address (conn c)) hdr b = Ready (Some ctx) ->
  (exists e, P e /\ ctx = received (remote_address (conn c)) e) /\ aligned P (at_frame true) i rest.
Proof.
  intros -> St R Cp. destruct (decide (blen b = hsize hdr)) as [L|L]; [|by rewrite short_payload in Cp].
  destruct (aligned_payload P P_framed (remote_address (conn c)) hdr _ b i rest (Ha c _ Hc St) R L)
    as (e & Pe & Cp' & A). split; [|done]. exists e. split; [done|]. congruence.
Qed.

Lemma aligned_payload_step hdr :
  sessions sv !! id = Some (s_payload hdr) -> session_payload cfg id hdr c sv = Some sv' ->
  session_aligned P rest sv'.
Proof.
  intros St E. unfold session_payload in E. destruct (read_exactly _ _) as [[b i]|] eqn:R; [|done].
  unfold parse_payload_resume in E.
  destruct (check_payload_total (remote_address (conn c)) hdr b) as [opt Cp]. rewrite Cp in E. simpl in E.
  set (sv1 := upd_conn id (fun _ => with_istream i (conn c)) sv) in *.
  assert (id <> sid -> keeps sv sv1) as K by (by intros; apply keeps_upd_other).
  destruct opt as [ctx|]; simpl in E.
  - destruct (gate_enter (reply_gate_ sv)) as [g|ex|]; simpl in E; [| |done].
    2: { injection E as <-. apply (aligned_exception P rest id sv); [|done]. intros N.
         etransitivity; [by apply K|]. by apply keeps_same. }
    assert (exists f, conns (do_dispatch_rpc cfg id ctx (upd_gate g sv1)).2 =
      alter (fun c => mk_sconn _ (f (conn c)) (serialize_writes c)) id (conns sv1) /\
      sessions (do_dispatch_rpc cfg id ctx (upd_gate g sv1)).2 = sessions sv1 /\
      (forall c, c_istream (f c) = c_istream c)) as (f & Ef & Es & Fi).
    { unfold do_dispatch_rpc. repeat case_goal; simpl;
        [by eexists (set_error _)|exists (fun c => c); split; [|done]|by eexists (set_error _)].
      symmetry. apply map_eq. intros j. rewrite lookup_alter. case_decide; [subst|done].
      by destruct (alter _ _ _ !! j) as [[]|]. }
    destruct (do_dispatch_rpc _ _ _ _) as [stage sv2]. simpl in *. injection E as <-.
    apply (aligned_session P rest id s_loop sv); [| |done].
    + intros Ei. destruct (aligned_request hdr b i ctx Ei St R Cp) as [_ A]. subst id.
      intros c0. simpl. rewrite Ef, !lookup_alter_eq, Hc. simpl. intros [= <-]. simpl. rewrite Fi. simpl.
      by case_goal.
    + intros N. etransitivity; [by apply K|]. apply keeps_same; simpl; [by rewrite Es|].
      by rewrite Ef, lookup_alter_ne.
  - injection E as <-. apply (aligned_session P rest id s_loop sv); [| |done].
    + intros -> c0. simpl. rewrite !lookup_alter_eq, Hc. simpl. intros [= <-]. simpl. by rewrite set_error_invalid.
    + intros N. etransitivity; [by apply K|]. apply keeps_same; [done|]. simpl. by rewrite lookup_alter_ne.
Qed.
End session.

Lemma keeps_writes id w sv : keeps sv (upd_writes id w sv).
Proof.
  constructor; [done|]. simpl. intros c'. rewrite lookup_alter. case_decide; [subst|by exists c'].
  destruct (conns sv !! sid) as [c|]; [|done]. simpl. intros [= <-]. by exists c.
Qed.

(** The updates of a dispatch fiber. *)
Ltac keeps_tac := repeat first
  [ reflexivity | apply keeps_set_error | apply keeps_ostream | apply keeps_writes | apply keeps_cleanup
  | by apply keeps_same
  | match goal with
    | |- keeps _ (set_stage _ _ ?s) => transitivity s; [|by apply keeps_same]
    | |- keeps _ (upd_dispatches _ ?s) => transitivity s; [|by apply keeps_same]
    | |- keeps _ (upd_gate _ ?s) => transitivity s; [|by apply keeps_same]
    | |- keeps _ (signal_units _ ?s) => transitivity s; [|by apply keeps_same]
    | |- keeps _ (add_sent _ _ ?s) => transitivity s; [|by apply keeps_same]
    | |- keeps _ (release_writes _ _ ?s) => transitivity s; [|apply keeps_writes]
    end ].

Lemma keeps_dispatch tid d c sv sv' : dispatch_step cfg tid d c sv = Some sv' -> keeps sv sv'.
Proof. intros E. unfold dispatch_step in E. repeat case_hyp E; simplify_eq; keeps_tac. Qed.

(** Events that do not concern the bytes that arrive at the connection. *)
Definition elsewhere (ev : event) sv : bool :=
  match ev with
  | ev_accept _ _ _ => negb (u64 (connection_idx_ sv + 1) =? sid)
  | ev_arrive id _ => negb (id =? sid)
  | _ => true
  end.

Lemma session_aligned_step P rest ev sv sv' :
  (forall e, P e -> framed e) -> elsewhere ev sv = true -> exec cfg ev sv = Some sv' ->
  session_aligned P rest sv -> session_aligned P rest sv'.
Proof.
  intros Pf El E A. destruct ev; simpl in E, El.
  - injection E as <-. eapply keeps_aligned; [|exact A]. by apply keeps_same.
  - injection E as <-. eapply keeps_aligned; [|exact A]. constructor; [done|]. intros c'. simpl.
    rewrite map_lookup_imap. destruct (conns sv !! sid) as [c|]; [|done]. simpl. intros [= <-].
    exists c. split; [done|]. case_bool_decide; [|done]. simpl. split; [apply shrinks_shutdown|].
    unfold is_valid, has_error. simpl. by rewrite (proj2 (shutdown_input_spec _)).
  - apply negb_true_iff, Z.eqb_neq in El. unfold server_accept in E. case_hyp E; simplify_eq.
    eapply keeps_aligned; [|exact A]. apply keeps_same; simpl; by rewrite lookup_insert_ne.
  - apply negb_true_iff, Z.eqb_neq in El. repeat case_hyp E; simplify_eq.
    eapply keeps_aligned; [|exact A]. by apply keeps_upd_other.
  - destruct (conns sv !! id) as [c|] eqn:C; [|done].
    destruct (sessions sv !! id) as [[| |hdr|hdr|]|] eqn:St; try done.
    + by eapply aligned_loop.
    + by eapply aligned_header_step.
    + by eapply (aligned_grant P rest id c).
    + by eapply aligned_payload_step.
  - repeat case_hyp E; simplify_eq; (apply (aligned_exception P rest id sv); [|exact A]); intros N;
      [by apply keeps_upd_other|by apply keeps_same].
  - destruct (dispatches sv !! tid) as [d|]; [|done]. destruct (conns sv !! d_conn d) as [c|]; [|done].
    eapply keeps_aligned; [by eapply keeps_dispatch|exact A].
  - unfold server_destroy in E. case_hyp E; simplify_eq. destruct (decide (id = sid)) as [->|N].
    + intros c st C. simpl in C. by rewrite lookup_delete_eq in C.
    + eapply keeps_aligned; [|exact A]. apply keeps_same; simpl; by rewrite lookup_delete_ne.
Qed.

Lemma session_aligned_arrive P x rest i sv sv' :
  exec cfg (ev_arrive sid i) sv = Some sv' ->
  (forall c, conns sv !! sid = Some c ->
     finished (c_istream (conn c)) = false /\ pending i = pending (c_istream (conn c)) ++ x) ->
  session_aligned P (x ++ rest) sv -> session_aligned P rest sv'.
Proof.
  intros E Hx A. simpl in E. destruct (conns sv !! sid) as [c|] eqn:C; [|done].
  destruct (Hx c eq_refl) as [F Pi]. destruct (_ && _) eqn:G; [|done]. injection E as <-.
  apply andb_true_iff in G as [_ G]. apply bool_decide_eq_true in G.
  intros c' st. simpl. rewrite lookup_alter_eq, C. simpl. intros [= <-] St.
  specialize (A c st C St). simpl. eapply aligned_arrive; [done..|]. destruct st; try done. simpl in *.
  unfold is_valid, has_error in *. simpl. by rewrite G.
Qed.

(** ** The connection object *)

(** It keeps its peer, and what was written stays written. *)
Definition extends sv sv' : Prop :=
  forall c', conns sv' !! sid = Some c' -> exists c, conns sv !! sid = Some c /\
  remote_address (conn c') = remote_address (conn c) /\
  written (c_ostream (conn c)) `prefix_of` written (c_ostream (conn c')).

Lemma extends_same sv sv' : conns sv' !! sid = conns sv !! sid -> extends sv sv'.
Proof. intros E c' C'. rewrite E in C'. by exists c'. Qed.

#[local] Instance extends_preorder : PreOrder extends.
Proof.
  split; [intros sv; by apply extends_same|]. intros a b c E1 E2 c' C'.
  destruct (E2 c' C') as (cb & Cb & Rb & Wb). destruct (E1 cb Cb) as (ca & Ca & Ra & Wa).
  exists ca. split_and!; [done|congruence|by etransitivity].
Qed.

Lemma extends_conn id f sv :
  (forall c, conns sv !! id = Some c -> remote_address (f (conn c)) = remote_address (conn c) /\
     written (c_ostream (conn c)) `prefix_of` written (c_ostream (f (conn c)))) ->
  extends sv (upd_conn id f sv).
Proof.
  intros F c'. simpl. rewrite lookup_alter. case_decide; [subst|by exists c'].
  destruct (conns sv !! sid) as [c|] eqn:C; [|done]. simpl. intros [= <-]. exists c. split; [done|]. by apply F.
Qed.

Lemma extends_to id c c' sv :
  conns sv !! id = Some c -> remote_address c' = remote_address (conn c) ->
  written (c_ostream (conn c)) `prefix_of` written (c_ostream c') -> extends sv (upd_conn id (fun _ => c') sv).
Proof. intros C R W. apply extends_conn. intros c0 C0. rewrite C in C0. by injection C0 as <-. Qed.

Lemma extends_set_error id msg sv : extends sv (upd_conn id (set_error msg) sv).
Proof. by apply extends_conn. Qed.

Lemma extends_writes id w sv : extends sv (upd_writes id w sv).
Proof.
  intros c'. simpl. rewrite lookup_alter. case_decide; [subst|by exists c'].
  destruct (conns sv !! sid) as [c|]; [|done]. simpl. intros [= <-]. by exists c.
Qed.

Lemma extends_cleanup id sv : extends sv (cleanup_dispatch_rpc id sv).
Proof.
  unfold cleanup_dispatch_rpc. repeat case_goal; try done; [|by apply extends_same].
  etransitivity; [|apply extends_conn; intros c _; simpl; by rewrite shutdown_output_written].
  etransitivity; [|by apply extends_conn]. by apply extends_same.
Qed.

Lemma extends_exception id sv : extends sv (session_exception id sv).
Proof.
  etransitivity; [apply (extends_cleanup id)|]. etransitivity; [by apply (extends_set_error id)|].
  etransitivity; [apply (extends_cleanup id)|]. by apply extends_same.
Qed.

Lemma extends_session id sv sv' : exec cfg (ev_session id) sv = Some sv' -> extends sv sv'.
Proof.
  simpl. intros E. destruct (conns sv !! id) as [c|] eqn:C; [|done].
  destruct (sessions sv !! id) as [[| |hdr|hdr|]|]; try done.
  - unfold session_loop in E. repeat case_hyp E; simplify_eq; [exact (extends_cleanup id sv)| |apply extends_exception].
    match goal with X : parse_header_begin _ = _ |- _ => apply outcome_bind_Ready in X as (_ & _ & [= <-]) end.
    by apply (extends_to id c).
  - unfold session_header, parse_header_resume in E. repeat case_hyp E; simplify_eq; try (by apply (extends_to id c));
      (etransitivity; [|exact (extends_set_error id _ _)]; by apply (extends_to id c)).
  - unfold session_grant in E. by repeat case_hyp E; simplify_eq; apply extends_same.
  - unfold session_payload in E. destruct (read_exactly _ _) as [[b i]|]; [|done]. unfold parse_payload_resume in E.
    destruct (check_payload_total (remote_address (conn c)) hdr b) as [opt Cp]. rewrite Cp in E. simpl in E.
    set (sv1 := upd_conn id _ sv) in *. assert (extends sv sv1) as Up by (by apply (extends_to id c)).
    etransitivity; [exact Up|]. destruct opt as [ctx|]; simpl in E.
    + destruct (gate_enter (reply_gate_ sv)) as [g|ex|]; simpl in E; [| |done].
      2: { injection E as <-. etransitivity; [|apply extends_exception]. by apply extends_same. }
      unfold do_dispatch_rpc in E. repeat case_hyp E; simplify_eq; try (by apply extends_same);
        exact (extends_set_error id _ sv1).
    + injection E as <-. exact (extends_set_error id "Could not parse payload" sv1).
Qed.

Lemma extends_dispatch tid d c sv sv' :
  conns sv !! d_conn d = Some c -> dispatch_step cfg tid d c sv = Some sv' -> extends sv sv'.
Proof.
  intros C E. assert (forall o b, written o = written (c_ostream (conn c)) ++ b ->
    extends sv (upd_conn (d_conn d) (with_ostream o) sv)) as Out.
  { intros o b W. apply extends_conn. intros c0 C0. rewrite C in C0. injection C0 as <-. split; [done|].
    simpl. rewrite W. by apply prefix_app_r. }
  assert (forall o, written o = written (c_ostream (conn c)) ->
    extends sv (upd_conn (d_conn d) (with_ostream o) sv)) as Fl by (intros o W; apply (Out o []); by rewrite W, app_nil_r).
  unfold dispatch_step in E. repeat case_hyp E; simplify_eq; try (by apply extends_same);
    try exact (extends_set_error (d_conn d) _ sv); try exact (extends_writes (d_conn d) _ sv);
    try exact (extends_cleanup (d_conn d) sv).
  - by eapply (Out _), send_header_written.
  - by eapply (Out _), owrite_written.
  - etransitivity; [by eapply Fl, oflush_written|]. exact (extends_writes (d_conn d) _ _).
  - by eapply Fl, oflush_written.
Qed.

Lemma extends_step ev sv sv' : elsewhere ev sv = true -> exec cfg ev sv = Some sv' -> extends sv sv'.
Proof.
  intros El E. destruct ev; simpl in El; [..|].
  - simpl in E. injection E as <-. by apply extends_same.
  - simpl in E. injection E as <-. intros c'. simpl. rewrite map_lookup_imap.
    destruct (conns sv !! sid) as [c|]; [|done]. simpl. intros [= <-]. exists c. by case_bool_decide.
  - apply negb_true_iff, Z.eqb_neq in El. simpl in E. unfold server_accept in E. case_hyp E; simplify_eq.
    apply extends_same. simpl. by rewrite lookup_insert_ne.
  - simpl in E. repeat case_hyp E; simplify_eq. by apply extends_conn.
  - by eapply extends_session.
  - simpl in E. repeat case_hyp E; simplify_eq; (etransitivity; [|apply extends_exception]);
      [by apply extends_conn|by apply extends_same].
  - simpl in E. destruct (dispatches sv !! tid) as [d|]; [|done].
    destruct (conns sv !! d_conn d) as [c|] eqn:C; [|done]. by eapply extends_dispatch.
  - simpl in E. unfold server_destroy in E. case_hyp E; simplify_eq. intros c'. simpl.
    rewrite lookup_delete_Some. intros [_ C']. by exists c'.
Qed.

(** ** Requests *)

(** What the server computes for a request that was received, and how far: the
    route, the incoming filters, the handler, the outgoing filters. *)
Definition routed (ctx : rpc_recv_context) : option rpc_service_method_handle :=
  if request_id ctx =? 0 then None else get_handle_for_request (routes cfg) (request_id ctx).

Definition filtered (ctx : rpc_recv_context) : option (rpc_service_method_handle * rpc_recv_context) :=
  h ← routed ctx;
  ctx1 ← ready (rpc_filter_apply (in_filters cfg) ctx);
  if compression (ctx_header ctx1) =? flag_value compression_flags_none then Some (h, ctx1) else None.

Definition handled (ctx : rpc_recv_context) : option rpc_envelope :=
  '(h, ctx1) ← filtered ctx; ready (apply h ctx1).

Definition answer (ctx : rpc_recv_context) : option rpc_envelope :=
  e ← handled ctx; ready (rpc_filter_apply (out_filters cfg) e).

(** What an answer is made of. *)
Lemma answer_inv ctx e2 :
  answer ctx = Some e2 -> exists h ctx1 e,
    request_id ctx <> 0 /\ get_handle_for_request (routes cfg) (request_id ctx) = Some h /\
    rpc_filter_apply (in_filters cfg) ctx = Ready ctx1 /\
    compression (ctx_header ctx1) = flag_value compression_flags_none /\
    apply h ctx1 = Ready e /\ rpc_filter_apply (out_filters cfg) e = Ready e2.
Proof.
  unfold answer, handled, filtered, routed. intros A.
  destruct (request_id ctx =? 0) eqn:N; [done|]. apply Z.eqb_neq in N.
  destruct (get_handle_for_request _ _) as [h|] eqn:G; [|done]. cbn [mbind option_bind] in A.
  destruct (rpc_filter_apply (in_filters cfg) ctx) as [ctx1|ex|] eqn:F1; [|done..]. cbn [ready mbind option_bind] in A.
  destruct (_ =? _) eqn:C; [|done]. apply Z.eqb_eq in C. cbn [mbind option_bind] in A.
  destruct (apply h ctx1) as [e|ex|] eqn:Ap; [|done..]. cbn [ready mbind option_bind] in A.
  destruct (rpc_filter_apply (out_filters cfg) e) as [e'|ex|] eqn:F2; [|done..]. injection A as <-.
  exists h, ctx1, e. by split_and!.
Qed.

Section requests.
Variable P : rpc_envelope -> Prop.
Variable addr : socket_address.

Definition from_wire (ctx : rpc_recv_context) : Prop := exists e, P e /\ ctx = received addr e.

(** A reply to a request of [P]. *)
Definition reply_to (e : rpc_envelope) : Prop := exists ctx, from_wire ctx /\ answer ctx = Some e.

Definition stage_ok (st : dispatch_stage) : Prop :=
  match st with
  | d_incoming h ctx => from_wire ctx /\ routed ctx = Some h
  | d_apply h ctx1 => exists ctx, from_wire ctx /\ filtered ctx = Some (h, ctx1)
  | d_outgoing e => exists ctx, from_wire ctx /\ handled ctx = Some e
  | d_lock e | d_header e | d_body e | d_send_flush e => reply_to e
  | d_flush | d_end _ => True
  end.

Definition dispatches_ok sv : Prop :=
  forall tid d, dispatches sv !! tid = Some d -> d_conn d = sid -> stage_ok (d_stage d).

Lemma dispatches_ok_same sv sv' : dispatches sv' = dispatches sv -> dispatches_ok sv -> dispatches_ok sv'.
Proof. intros E. unfold dispatches_ok. by rewrite E. Qed.

Lemma dispatches_ok_stage tid d st sv sv' :
  dispatches sv !! tid = Some d -> dispatches sv' = alter (with_stage st) tid (dispatches sv) ->
  (d_conn d = sid -> stage_ok st) -> dispatches_ok sv -> dispatches_ok sv'.
Proof.
  intros D E S A tid' d'. rewrite E, lookup_alter_Some. intros [(<- & d0 & D0 & ->)|[_ D']]; [|by apply (A tid')].
  rewrite D in D0. by injection D0 as <-.
Qed.

Lemma dispatches_ok_dispatch tid d c sv sv' :
  dispatches sv !! tid = Some d -> dispatch_step cfg tid d c sv = Some sv' ->
  dispatches_ok sv -> dispatches_ok sv'.
Proof.
  intros D E A. assert (d_conn d = sid -> stage_ok (d_stage d)) as Ok by (by apply (A tid)).
  unfold dispatch_step in E. destruct (d_stage d) eqn:St; repeat case_hyp E; simplify_eq;
    try (eapply (dispatches_ok_stage tid d); [done|reflexivity|intros Ed; specialize (Ok Ed)|exact A]); try done.
  - destruct Ok as [Fw Ro]. exists ctx. split; [done|]. unfold filtered. rewrite Ro. cbn [ready mbind option_bind].
    match goal with X : rpc_filter_apply _ ctx = _ |- _ => rewrite X end. cbn [ready mbind option_bind].
    match goal with X : negb _ = false |- _ => apply negb_false_iff in X; rewrite X end. done.
  - destruct Ok as (ctx0 & Fw & Ac). exists ctx0. split; [done|]. unfold handled. rewrite Ac. simpl.
    match goal with X : apply _ _ = _ |- _ => by rewrite X end.
  - destruct Ok as (ctx0 & Fw & Ha). exists ctx0. split; [done|]. unfold answer. rewrite Ha. simpl.
    match goal with X : rpc_filter_apply _ _ = _ |- _ => by rewrite X end.
  - intros tid' d'. simpl. rewrite (sw_dispatches _ _ (cleanup_writes _ _)), lookup_delete_Some. intros [_ D'].
    by apply (A tid').
  - intros tid' d'. simpl. rewrite lookup_delete_Some. intros [_ D']. by apply (A tid').
Qed.

Lemma dispatches_ok_step rest ev sv sv' :
  (forall e, P e -> framed e) -> session_aligned P rest sv ->
  (forall c, conns sv !! sid = Some c -> remote_address (conn c) = addr) -> exec cfg ev sv = Some sv' ->
  dispatches_ok sv -> dispatches_ok sv'.
Proof.
  intros Pf Al Pe E A. pose proof (quiet_step cfg ev sv sv' E) as Q.
  destruct ev; try (by eapply dispatches_ok_same; [apply Q|]); simpl in E.
  - unfold server_accept in E. case_hyp E; simplify_eq. by apply (dispatches_ok_same sv).
  - destruct Q as [Q|(c & hdr & C & St & Pl)]; [by eapply dispatches_ok_same; [apply Q|]|].
    destruct (payload_writes cfg id hdr c sv sv' C Pl) as
      [S|(b & i & ctx & ps & stage & sv2 & n & R & Cp & F & S & Nx & ->)]; [by eapply dispatches_ok_same; [apply S|]|].
    intros tid d. simpl. rewrite lookup_insert_Some, (sw_dispatches _ _ S).
    intros [[_ <-]|[_ D]]; [|by apply (A tid)]. simpl. intros Ei.
    destruct (aligned_request P Pf rest id c sv C Al hdr b i ctx Ei St R Cp) as [(e & Pr & Ec) _].
    destruct F as [->|(h & -> & Rq & Gh)]; [done|]. split; [exists e; subst id; by rewrite <- (Pe c C)|].
    unfold routed. by rewrite Rq.
  - destruct (dispatches sv !! tid) as [d|] eqn:D; [|done].
    destruct (conns sv !! d_conn d) as [c|] eqn:C; [|done]. by eapply dispatches_ok_dispatch.
  - unfold server_destroy in E. case_hyp E; simplify_eq. by apply (dispatches_ok_same sv).
Qed.
End requests.

(** ** Output *)

Definition server_out sv : list byte :=
  match conns sv !! sid with Some c => written (c_ostream (conn c)) | None => [] end.

(** [t]: what is missing of the reply that is being written. *)
Definition half_reply sv (t : list byte) : Prop :=
  (exists tid d e, dispatches sv !! tid = Some d /\ d_conn d = sid /\ d_stage d = d_body e /\ t = body (letter e)) \/
  ((forall tid d, dispatches sv !! tid = Some d -> d_conn d = sid -> half_written (d_stage d) = None) /\ t = []).

Lemma half_reply_same sv sv' t : dispatches sv' = dispatches sv -> half_reply sv t -> half_reply sv' t.
Proof. intros E. unfold half_reply. by rewrite E. Qed.

(** A fiber of another connection, or one outside of [send], moves on. *)
Lemma half_reply_stage tid d st sv sv' t :
  dispatches sv !! tid = Some d -> dispatches sv' = alter (with_stage st) tid (dispatches sv) ->
  (d_conn d = sid -> half_written (d_stage d) = None /\ half_written st = None) ->
  half_reply sv t -> half_reply sv' t.
Proof.
  intros D E N [(tid' & d' & e & D' & C' & St & ->)|[Q ->]]; [left|right]; rewrite E.
  - exists tid', d', e. split_and!; try done. rewrite lookup_alter_ne; [done|]. intros <-.
    rewrite D in D'. injection D' as <-. destruct (N C') as [Hh _]. by rewrite St in Hh.
  - split; [|done]. intros tid' d'. rewrite lookup_alter_Some. intros [(<- & d0 & D0 & ->)|[_ D']]; [|by eapply Q].
    rewrite D in D0. injection D0 as <-. simpl. intros C. by apply N.
Qed.

Lemma half_reply_delete tid d sv sv' t :
  dispatches sv !! tid = Some d -> dispatches sv' = delete tid (dispatches sv) ->
  half_written (d_stage d) = None -> half_reply sv t -> half_reply sv' t.
Proof.
  intros D E N [(tid' & d' & e & D' & C' & St & ->)|[Q ->]]; [left|right]; rewrite E.
  - exists tid', d', e. split_and!; try done. rewrite lookup_delete_ne; [done|]. intros <-.
    rewrite D in D'. injection D' as <-. by rewrite St in N.
  - split; [|done]. intros tid' d'. rewrite lookup_delete_Some. intros [_ D']. by eapply Q.
Qed.

Lemma half_reply_add d sv sv' t :
  live_inv sv -> dispatches sv' = <[next_dispatch sv := d]> (dispatches sv) ->
  writing (d_stage d) = false -> half_reply sv t -> half_reply sv' t.
Proof.
  intros L E W [(tid' & d' & e & D' & C' & St & ->)|[Q ->]]; [left|right]; rewrite E.
  - exists tid', d', e. split_and!; try done. rewrite lookup_insert_ne; [done|]. intros <-.
    by rewrite (li_fresh _ L) in D' by lia.
  - split; [|done]. intros tid' d'. rewrite lookup_insert_Some. intros [[_ <-]|[_ D']]; [|by eapply Q].
    intros _. by destruct (d_stage d).
Qed.

(** The fiber that holds the lock. *)
Lemma half_reply_holder tid d c sv t :
  write_inv sv -> dispatches sv !! tid = Some d -> conns sv !! sid = Some c -> d_conn d = sid ->
  writing (d_stage d) = true -> half_reply sv t ->
  t = match d_stage d with d_body e => body (letter e) | _ => [] end.
Proof.
  intros I D C Ed W [(tid' & d' & e & D' & C' & St & ->)|[Q ->]].
  - assert (tid' = tid) as ->.
    { eapply (one_writer sv c); try done; [congruence|congruence|by rewrite St]. }
    rewrite D in D'. injection D' as <-. by rewrite St.
  - specialize (Q tid d D Ed). by destruct (d_stage d).
Qed.

(** The output is the same, or grows by a piece of the replies of [R]. *)
Definition grows (R : rpc_envelope -> Prop) (t out : list byte) sv' : Prop :=
  exists d t' es, server_out sv' = out ++ d /\ half_reply sv' t' /\ Forall R es /\
    d ++ t' = t ++ concat (map frame es).

Lemma grows_same R t sv sv' :
  server_out sv' = server_out sv -> half_reply sv' t -> grows R t (server_out sv) sv'.
Proof. intros O Hf. exists [], t, []. split_and!; [by rewrite app_nil_r|done|done|by rewrite app_nil_r]. Qed.

Lemma server_out_same sv sv' : same_writes sv sv' -> server_out sv' = server_out sv.
Proof.
  intros S. pose proof (sw_conns _ _ S sid) as C. unfold server_out.
  destruct (conns sv' !! sid), (conns sv !! sid); try done. by injection C as _ ?.
Qed.

Lemma server_out_cleanup id sv : server_out (cleanup_dispatch_rpc id sv) = server_out sv.
Proof. apply server_out_same, cleanup_writes. Qed.

(** A fiber of another connection. *)
Lemma grows_other R tid d c sv sv' t :
  dispatches sv !! tid = Some d -> d_conn d <> sid -> dispatch_step cfg tid d c sv = Some sv' ->
  half_reply sv t -> grows R t (server_out sv) sv'.
Proof.
  intros D N E Hf. apply grows_same.
  - assert (forall sv0 sv1, conns sv1 !! sid = conns sv0 !! sid -> server_out sv1 = server_out sv0) as Same.
    { intros sv0 sv1 Ec. unfold server_out. by rewrite Ec. }
    unfold dispatch_step in E. repeat case_hyp E; simplify_eq;
      try (etransitivity; [apply (Same (cleanup_dispatch_rpc (d_conn d) sv)); done|apply server_out_cleanup]);
      apply Same; simpl; rewrite ?lookup_alter_ne; done.
  - unfold dispatch_step in E. repeat case_hyp E; simplify_eq;
      try (eapply (half_reply_stage tid d); [done|reflexivity|done|done]);
      (eapply (half_reply_delete tid d); [done| |by rewrite Heqd0|done]); simpl;
      by rewrite ?(sw_dispatches _ _ (cleanup_writes _ _)).
Qed.

(** A fiber of the connection, which is not broken. *)
Lemma grows_dispatch (R : rpc_envelope -> Prop) tid d c sv sv' t :
  write_inv sv -> dispatches sv !! tid = Some d -> d_conn d = sid -> conns sv !! sid = Some c ->
  dispatch_step cfg tid d c sv = Some sv' -> sid ∉ broken_ sv' ->
  (forall e, d_stage d = d_header e -> R e) -> half_reply sv t -> grows R t (server_out sv) sv'.
Proof.
  intros I D Ed C E Nb Rh Hf. pose proof (half_reply_holder tid d c sv t I D C Ed) as Ho.
  assert (forall s, broken_ sv' = {[sid]} ∪ s -> False) as Br.
  { intros s Es. apply Nb. rewrite Es. apply elem_of_union_l, elem_of_singleton. done. }
  assert (forall st sv1, half_written (d_stage d) = None -> half_written st = None ->
    dispatches sv1 = alter (with_stage st) tid (dispatches sv) ->
    (written ∘ c_ostream ∘ conn) <$> conns sv1 !! sid = (written ∘ c_ostream ∘ conn) <$> conns sv !! sid ->
    grows R t (server_out sv) sv1) as Move.
  { intros st sv1 Hd Hd' Es Eo. apply grows_same; [|by eapply half_reply_stage].
    unfold server_out. destruct (conns sv1 !! sid), (conns sv !! sid); try done. by injection Eo. }
  unfold dispatch_step in E. rewrite Ed in E. destruct (d_stage d) eqn:St; repeat case_hyp E; simplify_eq;
    try (by destruct (Br (broken_ sv)));
    try (eapply Move; [done| |reflexivity|]; [done|]; simpl; rewrite ?lookup_alter_eq, C; simpl; done).
  - rewrite (Ho eq_refl Hf). exists (header_to_bytes (lheader (letter e))), (body (letter e)), [e]. split_and!.
    + unfold server_out. simpl. rewrite lookup_alter_eq, C. simpl. by apply send_header_written.
    + left. exists tid, (with_stage (d_body e) d), e. simpl. by rewrite lookup_alter_eq, D.
    + by repeat constructor; apply Rh.
    + simpl. by rewrite app_nil_r.
  - rewrite (Ho eq_refl Hf). exists (body (letter e)), [], []. split_and!; [| |done|simpl; by rewrite !app_nil_r].
    + unfold server_out. simpl. rewrite lookup_alter_eq, C. simpl. by apply owrite_written.
    + right. split; [|done]. simpl. intros tid' d'. rewrite lookup_alter_Some.
      intros [(<- & d0 & D0 & ->)|[Nt D']]; [done|]. intros Ed'.
      eapply (alone_holder tid d c sv); [done..| |by rewrite St|exact D'|done|by rewrite Ed']. by rewrite Ed.
  - eapply Move; [done| |reflexivity|]; [done|]. simpl. rewrite !lookup_alter_eq, C. simpl.
    by rewrite (oflush_written _ _ Heqo).
  - eapply Move; [done| |reflexivity|]; [done|]. simpl. rewrite !lookup_alter_eq, C. simpl.
    by rewrite (oflush_written _ _ Heqo).
  - apply grows_same; [exact (server_out_cleanup sid sv)|]. eapply (half_reply_delete tid d); [done| |by rewrite St|done].
    simpl. by rewrite (sw_dispatches _ _ (cleanup_writes _ _)).
  - apply grows_same; [done|]. by eapply (half_reply_delete tid d); [..|rewrite St|].
Qed.

(** The bytes a step wrote. *)
Definition new_output sv sv' : list byte := drop (length (server_out sv)) (server_out sv').

Lemma grows_new R t sv sv' :
  grows R t (server_out sv) sv' -> exists t' es, half_reply sv' t' /\ Forall R es /\
    new_output sv sv' ++ t' = t ++ concat (map frame es).
Proof.
  intros (d & t' & es & O & Hf & F & E). exists t', es. split_and!; [done|done|].
  unfold new_output. by rewrite O, drop_app_length.
Qed.

(** Every event, while no write to the connection failed. *)
Lemma output_step (R : rpc_envelope -> Prop) ev sv sv' t :
  live_inv sv -> write_inv sv -> elsewhere ev sv = true -> exec cfg ev sv = Some sv' ->
  sid ∉ broken_ sv' ->
  (forall tid d e, dispatches sv !! tid = Some d -> d_conn d = sid -> d_stage d = d_header e -> R e) ->
  half_reply sv t -> exists t' es, half_reply sv' t' /\ Forall R es /\
    new_output sv sv' ++ t' = t ++ concat (map frame es).
Proof.
  intros L I El E Nb Rh Hf. pose proof (quiet_step cfg ev sv sv' E) as Q.
  assert (same_writes sv sv' -> grows R t (server_out sv) sv') as Same.
  { intros S. apply grows_same; [by apply server_out_same|]. by eapply half_reply_same; [apply S|]. }
  destruct ev; try (by apply grows_new, Same); simpl in E, El.
  - apply grows_new. apply negb_true_iff, Z.eqb_neq in El. unfold server_accept in E. case_hyp E; simplify_eq.
    apply grows_same; [|done]. unfold server_out. simpl. by rewrite lookup_insert_ne.
  - apply grows_new. destruct Q as [Q|(c & hdr & C & St & Pl)]; [by apply Same|].
    destruct (payload_writes cfg id hdr c sv sv' C Pl) as
      [S|(b & i & ctx & ps & stage & sv2 & n & _ & _ & F & S & Nx & ->)]; [by apply Same|].
    apply grows_same; [exact (server_out_same sv sv2 S)|].
    eapply (half_reply_add (mk_dispatch id ps stage) sv); [done| |by eapply first_stage_quiet|done].
    simpl. by rewrite Nx, (sw_dispatches _ _ S).
  - apply grows_new. destruct (dispatches sv !! tid) as [d|] eqn:D; [|done].
    destruct (conns sv !! d_conn d) as [c|] eqn:C; [|done]. destruct (decide (d_conn d = sid)) as [Ed|Ne].
    + rewrite Ed in C. eapply grows_dispatch; eauto.
    + by eapply grows_other.
  - unfold server_destroy in E. case_hyp E; simplify_eq. destruct (decide (id = sid)) as [->|N].
    + exists t, []. split_and!; [done|done|]. unfold new_output, server_out. simpl.
      by rewrite lookup_delete_eq, drop_nil, app_nil_r.
    + apply grows_new, grows_same; [|done]. unfold server_out. simpl. by rewrite lookup_delete_ne.
Qed.

(** A failed write is remembered. *)
Lemma broken_step ev sv sv' :
  elsewhere ev sv = true -> exec cfg ev sv = Some sv' -> sid ∈ broken_ sv -> sid ∈ broken_ sv'.
Proof.
  intros El E B. pose proof (quiet_step cfg ev sv sv' E) as Q.
  assert (same_writes sv sv' -> sid ∈ broken_ sv') as Same by (intros S; by rewrite (sw_broken _ _ S)).
  destruct ev; try (by apply Same); simpl in E, El.
  - apply negb_true_iff, Z.eqb_neq in El. unfold server_accept in E. case_hyp E; simplify_eq. simpl.
    apply elem_of_difference. split; [done|]. by intros X%elem_of_singleton.
  - destruct Q as [Q|(c & hdr & C & St & Pl)]; [by apply Same|].
    destruct (payload_writes cfg id hdr c sv sv' C Pl) as
      [S|(b & i & ctx & ps & stage & sv2 & n & _ & _ & F & S & Nx & ->)]; [by apply Same|].
    simpl. by rewrite (sw_broken _ _ S).
  - destruct (dispatches sv !! tid) as [d|]; [|done]. destruct (conns sv !! d_conn d) as [c|]; [|done].
    unfold dispatch_step in E. repeat case_hyp E; simplify_eq; simpl; try done; try (by apply elem_of_union_r).
    by rewrite (sw_broken _ _ (cleanup_writes _ _)).
  - unfold server_destroy in E. case_hyp E; by simplify_eq.
Qed.

(** ** More requests *)

Lemma session_aligned_mono (P P' : rpc_envelope -> Prop) rest sv :
  (forall e, P e -> P' e) -> session_aligned P rest sv -> session_aligned P' rest sv.
Proof. intros I A c st C S. by eapply aligned_mono, A. Qed.

Lemma session_aligned_grow (P : rpc_envelope -> Prop) rest es sv :
  Forall P es -> session_aligned P rest sv -> session_aligned P (rest ++ concat (map frame es)) sv.
Proof. intros F A c st C S. by apply aligned_grow, A. Qed.

Lemma reply_to_mono (P P' : rpc_envelope -> Prop) addr e :
  (forall e, P e -> P' e) -> reply_to P addr e -> reply_to P' addr e.
Proof. intros I (ctx & (e1 & Pe & ->) & S). exists (received addr e1). split; [|done]. exists e1. auto. Qed.

Lemma dispatches_ok_mono (P P' : rpc_envelope -> Prop) addr sv :
  (forall e, P e -> P' e) -> dispatches_ok P addr sv -> dispatches_ok P' addr sv.
Proof.
  intros I A tid d D Ed. specialize (A tid d D Ed).
  assert (forall ctx, from_wire P addr ctx -> from_wire P' addr ctx) as Fw.
  { intros ctx (e & Pe & ->). exists e. auto. }
  destruct (d_stage d); simpl in *; eauto using reply_to_mono.
  - destruct A. auto.
  - destruct A as (ctx0 & ? & ?). eauto.
  - destruct A as (ctx0 & ? & ?). eauto.
Qed.
End wire.
