(* ===== verification/ServerServe.v ===== *)
(** * A request served

    The way of one request through the server of Server.v when nothing fails:
    the session reads and checks the frame, the request passes the filters and
    its handler, and the reply is written. *)

From Stdlib Require Import ZArith Lia.
From stdpp Require Import base gmap list numbers strings.
From coqutil Require Import Byte.
From S2P Require Import Prelude Header Seastar Letter Connection RecvContext Wire Filters Router Server ServerInv ServerUnits ServerWrites.

Section serve.
Context `{Build, GeneratedHeader, Xxhash, Seastar}.
Variable cfg : server_config.
Implicit Types sv : server.

(** ** The dispatch fiber *)

Section dispatch_run.
Variables (sv0 : server) (tid id ps : Z).

(** From [sv0], only the fiber [tid] of connection [id] has run: it is at [st],
    the connection is [c] and the replies sent to it are [l]. *)
Record disp_at (st : dispatch_stage) (c : rpc_server_connection) (l : list rpc_envelope) sv : Prop := {
  da_conns : conns sv = <[id := c]> (conns sv0);
  da_dispatches : dispatches sv = <[tid := mk_dispatch id ps st]> (dispatches sv0);
  da_limits : limits_ sv = limits_ sv0;
  da_sessions : sessions sv = sessions sv0;
  da_open : open_ sv = open_ sv0;
  da_sent : sent_to id sv = l;
  da_completed : completed_requests (stats_ sv) = completed_requests (stats_ sv0);
  da_gate : reply_gate_ sv = reply_gate_ sv0
}.

Lemma disp_exec st c l sv :
  disp_at st c l sv -> exec cfg (ev_dispatch tid) sv = dispatch_step cfg tid (mk_dispatch id ps st) c sv.
Proof.
  intros A. simpl. rewrite (da_dispatches _ _ _ _ A), lookup_insert_eq. simpl.
  by rewrite (da_conns _ _ _ _ A), lookup_insert_eq.
Qed.

(** The updates a fiber makes. *)
Lemma disp_stage st st' c l sv : disp_at st c l sv -> disp_at st' c l (set_stage tid st' sv).
Proof.
  intros [A1 A2 A3 A4 A5 A6 A7 A8]. constructor; simpl; try done. by rewrite A2, alter_insert_eq.
Qed.

Lemma disp_conn st c l f sv :
  disp_at st c l sv -> disp_at st (mk_sconn _ (f (conn c)) (serialize_writes c)) l (upd_conn id f sv).
Proof.
  intros [A1 A2 A3 A4 A5 A6 A7 A8]. constructor; simpl; try done. by rewrite A1, alter_insert_eq.
Qed.

Lemma disp_writes st c l w sv :
  disp_at st c l sv -> disp_at st (mk_sconn _ (conn c) w) l (upd_writes id w sv).
Proof.
  intros [A1 A2 A3 A4 A5 A6 A7 A8]. constructor; simpl; try done. by rewrite A1, alter_insert_eq.
Qed.

Lemma disp_sent st c l e sv : disp_at st c l sv -> disp_at st c (l ++ [e]) (add_sent id e sv).
Proof.
  intros [A1 A2 A3 A4 A5 A6 A7 A8]. constructor; simpl; try done. unfold sent_to in *. simpl.
  by rewrite lookup_insert_eq, <- A6.
Qed.

Lemma disp_out_bytes st c l n sv : disp_at st c l sv -> disp_at st c l (upd_stats (add_out_bytes n) sv).
Proof. intros [A1 A2 A3 A4 A5 A6 A7 A8]. by constructor. Qed.

(** [n] events take the fiber from one stage to another. *)
Definition moves (n : nat) st c l st' c' l' : Prop :=
  forall sv, disp_at st c l sv ->
  exists sv', run cfg (repeat (ev_dispatch tid) n) sv = Some sv' /\ disp_at st' c' l' sv'.

Lemma moves_0 st c l : moves 0 st c l st c l.
Proof. intros sv A. by exists sv. Qed.

Lemma moves_S n st c l f st1 c1 l1 st' c' l' :
  (forall sv, dispatch_step cfg tid (mk_dispatch id ps st) c sv = Some (f sv)) ->
  (forall sv, disp_at st c l sv -> disp_at st1 c1 l1 (f sv)) ->
  moves n st1 c1 l1 st' c' l' -> moves (S n) st c l st' c' l'.
Proof.
  intros E F M sv A. change (repeat _ (S n)) with (ev_dispatch tid :: repeat (ev_dispatch tid) n).
  unfold run; fold (run cfg). rewrite (disp_exec _ _ _ _ A), E. by apply M, F.
Qed.

Ltac stage_move tac :=
  eapply moves_S; [intros; unfold dispatch_step; simpl; tac; reflexivity
                  |intros; cbv beta; eauto using disp_stage, disp_conn, disp_writes, disp_sent, disp_out_bytes|].

(** From the reply to its last flush. *)
Lemma moves_reply e c l :
  healthy -> is_valid (conn c) = true -> sem_count (serialize_writes c) = 1 -> sendable e ->
  exists o w, written o = written (c_ostream (conn c)) ++ frame e /\ sem_count w = 1 /\
    moves 5 (d_lock e) c l (d_end true) (mk_sconn _ (with_ostream o (conn c)) w) (l ++ [e]).
Proof.
  intros [Hw Hf] V Sc Se.
  destruct (sem_wait (serialize_writes c) 1) as [w|] eqn:W; [|apply sem_wait_refused in W; lia].
  destruct (Hw (c_ostream (conn c)) (header_to_bytes (lheader (letter e)))) as [o1 E1].
  destruct (Hw o1 (body (letter e))) as [o2 E2].
  destruct (Hf o2) as [o3 E3]. destruct (Hf o3) as [o4 E4].
  exists o4, (sem_signal w 1). split_and!.
  - by rewrite (oflush_written _ _ E4), (oflush_written _ _ E3), (owrite_written _ _ _ E2),
      (owrite_written _ _ _ E1), <- app_assoc.
  - apply sem_wait_granted in W as [_ W]. rewrite sem_signal_count, W, Sc. done.
  - stage_move ltac:(rewrite W).
    stage_move ltac:(rewrite send_header_sendable, E1 by done).
    stage_move ltac:(rewrite E2).
    stage_move ltac:(rewrite E3).
    stage_move ltac:(unfold is_valid in *; simpl; unfold has_error in *; simpl; rewrite V, E4).
    apply moves_0.
Qed.

Lemma moves_request h ctx ctx' e e' c l :
  healthy -> rpc_filter_apply (in_filters cfg) ctx = Ready ctx' ->
  compression (ctx_header ctx') = flag_value compression_flags_none ->
  apply h ctx' = Ready e -> rpc_filter_apply (out_filters cfg) e = Ready e' ->
  is_valid (conn c) = true -> sem_count (serialize_writes c) = 1 -> sendable e' ->
  exists o w, written o = written (c_ostream (conn c)) ++ frame e' /\ sem_count w = 1 /\
    moves 8 (d_incoming h ctx) c l (d_end true) (mk_sconn _ (with_ostream o (conn c)) w) (l ++ [e']).
Proof.
  intros Hh F1 Cz Ap F2 V Sc Se.
  destruct (moves_reply e' c l Hh V Sc Se) as (o & w & Ho & Hw & M). exists o, w. split_and!; [done..|].
  stage_move ltac:(rewrite F1, Cz; simpl). stage_move ltac:(rewrite Ap).
  stage_move ltac:(rewrite F2, V; simpl). done.
Qed.
End dispatch_run.

(** ** The session fiber *)

Lemma exec_loop id c sv :
  conns sv !! id = Some c -> sessions sv !! id = Some s_loop -> quiescent (conn c) -> is_valid (conn c) = true ->
  exec cfg (ev_session id) sv =
    Some (set_session id s_header (upd_conn id (fun _ => with_parsers 1 (conn c)) sv)).
Proof.
  intros C S Q V. simpl. rewrite C, S. unfold session_loop, parse_header_begin, DLOG_THROW_IF.
  rewrite V, !Q. by destruct NDEBUG; simpl; rewrite ?Q.
Qed.

Lemma exec_header id c b i hdr sv :
  conns sv !! id = Some c -> sessions sv !! id = Some s_header ->
  read_exactly (c_istream (conn c)) kHeaderSize = Some (b, i) -> blen b = kHeaderSize ->
  check_header (header_of_bytes b) = Some hdr ->
  exec cfg (ev_session id) sv =
    Some (set_session id (s_wait hdr) (upd_conn id (fun _ =>
      with_parsers (u32 (istream_active_parser (conn c) - 1)) (with_istream i (conn c))) sv)).
Proof.
  intros C S R L K. simpl. rewrite C, S. unfold session_header, parse_header_resume.
  by rewrite R, L, Z.eqb_refl, K.
Qed.

Lemma exec_payload id c b i hdr ctx g h sv :
  conns sv !! id = Some c -> sessions sv !! id = Some (s_payload hdr) ->
  read_exactly (c_istream (conn c)) (hsize hdr) = Some (b, i) ->
  check_payload (remote_address (conn c)) hdr b = Ready (Some ctx) ->
  gate_enter (reply_gate_ sv) = Ready g -> request_id ctx <> 0 ->
  get_handle_for_request (routes cfg) (request_id ctx) = Some h ->
  exec cfg (ev_session id) sv =
    Some (set_session id s_loop (add_leaked (hsize hdr - s32 (hsize hdr))
      (add_dispatch (mk_dispatch id (s32 (hsize hdr)) (d_incoming h ctx))
        (upd_stats (add_in_bytes (hsize (ctx_header ctx) + blen (payload ctx)))
          (upd_gate g (upd_conn id (fun _ => with_istream i (conn c)) sv)))))).
Proof.
  intros C S R K G N Rt. simpl. rewrite C, S. unfold session_payload, parse_payload_resume. rewrite R, K. simpl.
  rewrite G. simpl. unfold do_dispatch_rpc. by rewrite (proj2 (Z.eqb_neq _ _) N), Rt.
Qed.

(** What the session did when the request of [e] was handed to a fiber. *)
Record accepted (id : Z) (c : rpc_server_connection) e h (r : list byte) sv sv' : Prop := {
  ac_conn : exists i, pending i = r /\ finished i = finished (c_istream (conn c)) /\
    eof i = eof (c_istream (conn c)) /\
    conns sv' = <[id := mk_sconn _ (with_istream i (conn c)) (serialize_writes c)]> (conns sv);
  ac_dispatches : dispatches sv' = <[next_dispatch sv := mk_dispatch id (blen (body (letter e)))
    (d_incoming h (received (remote_address (conn c)) e))]> (dispatches sv);
  ac_sessions : sessions sv' = <[id := s_loop]> (sessions sv);
  ac_units : available sv' = available sv - blen (body (letter e));
  ac_open : open_ sv' = open_ sv;
  ac_sent : sent_ sv' = sent_ sv;
  ac_completed : completed_requests (stats_ sv') = completed_requests (stats_ sv);
  ac_gate : gate_is_closed (reply_gate_ sv') = false
}.

(** A connection after [f], when only [id] changed. *)
Lemma upd_conn_insert id f c m :
  conns m !! id = Some c ->
  conns (upd_conn id f m) = <[id := mk_sconn _ (f (conn c)) (serialize_writes c)]> (conns m).
Proof. intros C. simpl. rewrite <- (insert_id _ _ _ C) at 1. by rewrite alter_insert_eq. Qed.

Section accepts.
Variables (id : Z) (c : rpc_server_connection) (e : rpc_envelope) (h : rpc_service_method_handle).
Variables (r : list byte) (sv : server).
Hypothesis C : conns sv !! id = Some c.
Hypothesis S : sessions sv !! id = Some s_loop.
Hypothesis Q : quiescent (conn c).
Hypothesis V : is_valid (conn c) = true.
Hypothesis P : pending (c_istream (conn c)) = frame e ++ r.
Hypothesis F : framed e.

(** The header was read and checked. *)
Lemma session_reads_header :
  exists i sv1, run cfg (repeat (ev_session id) 2) sv = Some sv1 /\
    pending i = body (letter e) ++ r /\ finished i = finished (c_istream (conn c)) /\
    eof i = eof (c_istream (conn c)) /\
    conns sv1 = <[id := mk_sconn _ (with_istream i (conn c)) (serialize_writes c)]> (conns sv) /\
    sv1 = set_session id (s_wait (received_header (lheader (letter e)))) (upd_conns (fun _ => conns sv1) sv).
Proof using C S Q V P F.
  unfold frame in P. pose proof P as P0. rewrite <- app_assoc in P0.
  destruct F as [W Sz [Rg1 Rg2] Ck Ck0 Mt Bf [f Cf]].
  destruct (read_exactly_app _ _ _ P0) as (i1 & R1 & P1 & F1 & E1). rewrite header_to_bytes_blen in R1.
  exists i1. eexists. split.
  { simpl repeat. unfold run. rewrite (exec_loop id c) by done.
    erewrite exec_header; [reflexivity|simpl; by rewrite lookup_alter_eq, C|simpl; by rewrite lookup_insert_eq
      |exact R1|apply header_to_bytes_blen|].
    rewrite <- (app_nil_r (header_to_bytes _)), header_of_to_bytes by done.
    apply (check_header_framed _ f); try done. lia. }
  split_and!; [done|done|done| |].
  - simpl. rewrite <- (insert_id _ _ _ C) at 1. rewrite !alter_insert_eq. simpl. do 2 f_equal.
    unfold with_parsers, with_istream. simpl. by rewrite Q.
  - unfold set_session, upd_sessions, upd_conn, upd_conns. simpl. f_equal. apply insert_insert_eq.
Qed.

Hypothesis Av : blen (body (letter e)) <= available sv.
Hypothesis G : gate_is_closed (reply_gate_ sv) = false.
Hypothesis Rt : get_handle_for_request (routes cfg) (meta (lheader (letter e))) = Some h.

Lemma session_accepts :
  exists sv', run cfg (repeat (ev_session id) 4) sv = Some sv' /\ accepted id c e h r sv sv'.
Proof using C S Q V P F Av G Rt.
  destruct session_reads_header as (i1 & sv1 & R1 & P1 & F1 & E1 & C1 & Sv1).
  destruct (read_exactly_app _ _ _ P1) as (i2 & R2 & P2 & F2 & E2).
  destruct (gate_enter_open _ G) as (g & Eg & _ & Og).
  set (hdr := received_header (lheader (letter e))) in *.
  assert (hsize hdr = blen (body (letter e))) as Hs
    by (unfold hdr; rewrite (proj1 (received_header_frame _)); apply F).
  assert (s32 (hsize hdr) = blen (body (letter e))) as Hs32.
  { rewrite Hs. pose proof (framed_range _ F). unfold max_flatbuffers_size in *.
    apply wrap_s_small; unfold fits_s; lia. }
  destruct (sem_wait (resources_available (limits_ sv)) (hsize hdr)) as [s|] eqn:W.
  2: { apply sem_wait_refused in W. unfold available in *. lia. }
  eexists. split.
  { change (repeat (ev_session id) 4) with (repeat (ev_session id) 2 ++ repeat (ev_session id) 2).
    rewrite run_app, R1. simpl repeat. unfold run.
    assert (exec cfg (ev_session id) sv1 = Some (set_session id (s_payload hdr) (upd_limits (fun _ => s) sv1))) as ->.
    { unfold exec. rewrite C1, lookup_insert_eq, Sv1. simpl. rewrite lookup_insert_eq. unfold session_grant. simpl.
      by rewrite W. }
    rewrite (exec_payload id (mk_sconn _ (with_istream i1 (conn c)) (serialize_writes c)) (body (letter e)) i2 hdr
      (received (remote_address (conn c)) e) g h); [reflexivity|..]; try done.
    - simpl. by rewrite C1, lookup_insert_eq.
    - simpl. by rewrite lookup_insert_eq.
    - by rewrite Hs.
    - by apply check_payload_framed.
    - simpl. by rewrite Sv1.
    - unfold request_id. simpl. fold hdr. unfold hdr. pose proof (received_header_frame (lheader (letter e))) as (_ & _ & _ & -> & _). apply F.
    - unfold request_id. simpl. by pose proof (received_header_frame (lheader (letter e))) as (_ & _ & _ & -> & _). }
  apply sem_wait_granted in W as [_ W].
  constructor; simpl; rewrite ?Hs32.
  - exists i2. split_and!; [done|congruence|congruence|]. rewrite C1, alter_insert_eq. done.
  - rewrite Sv1. done.
  - rewrite Sv1. simpl. by rewrite !insert_insert_eq.
  - unfold available. simpl. by rewrite W, Hs.
  - by rewrite Sv1.
  - by rewrite Sv1.
  - by rewrite Sv1.
  - done.
Qed.
End accepts.

(** ** Properties *)

(** A request is served.  When a complete, well-formed request with a
    registered handler is pending on a valid connection, the units it needs are
    available, the filters and the handler succeed and the peer takes the
    bytes, then thirteen events lead to a state in which exactly the frame of
    the reply was added to the connection's output, exactly the frame of the
    request was consumed, the units are available again and the connection is
    ready for the next request. *)
Theorem request_served args id c e h ctx' e1 e2 r sv :
  0 <= memory_avail_per_core args < 2 ^ 63 -> reachable cfg args sv -> healthy ->
  conns sv !! id = Some c -> sessions sv !! id = Some s_loop -> quiescent (conn c) ->
  is_valid (conn c) = true -> pending (c_istream (conn c)) = frame e ++ r -> framed e ->
  blen (body (letter e)) <= available sv -> gate_is_closed (reply_gate_ sv) = false ->
  get_handle_for_request (routes cfg) (meta (lheader (letter e))) = Some h ->
  rpc_filter_apply (in_filters cfg) (received (remote_address (conn c)) e) = Ready ctx' ->
  compression (ctx_header ctx') = flag_value compression_flags_none ->
  apply h ctx' = Ready e1 -> rpc_filter_apply (out_filters cfg) e1 = Ready e2 ->
  sem_count (serialize_writes c) = 1 -> sendable e2 ->
  exists sv' c',
    run cfg (repeat (ev_session id) 4 ++ repeat (ev_dispatch (next_dispatch sv)) 9) sv = Some sv' /\
    conns sv' !! id = Some c' /\
    written (c_ostream (conn c')) = written (c_ostream (conn c)) ++ frame e2 /\
    pending (c_istream (conn c')) = r /\ is_valid (conn c') = true /\
    sessions sv' !! id = Some s_loop /\ dispatches sv' = dispatches sv /\ available sv' = available sv /\
    sent_to id sv' = sent_to id sv ++ [e2] /\
    completed_requests (stats_ sv') = u64 (completed_requests (stats_ sv) + 1) /\
    gate_is_closed (reply_gate_ sv') = false /\ quiescent (conn c') /\ sem_count (serialize_writes c') = 1 /\
    finished (c_istream (conn c')) = finished (c_istream (conn c)) /\
    eof (c_istream (conn c')) = eof (c_istream (conn c)).
Proof.
  intros M R Hh C S Q V P F Av G Rt F1 Cz Ap F2 Sc Se. set (tid := next_dispatch sv).
  destruct (session_accepts id c e h r sv C S Q V P F Av G Rt)
    as (sv1 & R1 & [(i & Pi & Fi & Ei & Cs) Ds Ss Us Os Sn Co Og]).
  set (c1 := mk_sconn _ (with_istream i (conn c)) (serialize_writes c)) in *.
  assert (is_valid (conn c1) = true) as V1.
  { apply is_valid_spec. apply is_valid_spec in V as (? & ? & ?). simpl. by rewrite Ei. }
  destruct (moves_request sv1 tid id (blen (body (letter e))) h _ ctx' e1 e2 c1 (sent_to id sv)
    Hh F1 Cz Ap F2 V1 Sc Se) as (o & w & Ho & Hw & Mv).
  destruct (Mv sv1) as (sv2 & R2 & A).
  { constructor; try done; [by rewrite Cs, insert_insert_eq|by rewrite Ds, insert_insert_eq|].
    unfold sent_to. by rewrite Sn. }
  set (c2 := mk_sconn _ (with_ostream o (conn c1)) w) in *.
  pose proof (disp_exec _ _ _ _ _ _ _ _ A) as E2. destruct A as [A1 A2 A3 A4 A5 A6 A7 A8].
  assert (has_error (conn c2) = false) as Er.
  { apply is_valid_spec in V as (_ & V & _). unfold has_error. simpl. by rewrite V. }
  assert (dispatches sv !! tid = None) as Fr by (apply (li_fresh _ (reachable_live cfg args sv R)); lia).
  do 2 eexists. split; [|split_and!].
  - change (repeat (ev_dispatch tid) 9) with (repeat (ev_dispatch tid) 8 ++ [ev_dispatch tid]).
    rewrite run_app, R1, run_app, R2. unfold run. rewrite E2. unfold dispatch_step. simpl.
    unfold cleanup_dispatch_rpc. by rewrite A1, lookup_insert_eq, Er.
  - simpl. by rewrite A1, lookup_insert_eq.
  - done.
  - done.
  - done.
  - simpl. by rewrite A4, Ss, lookup_insert_eq.
  - simpl. rewrite A2, Ds, insert_insert_eq. by apply delete_insert_id.
  - unfold available in *. simpl. rewrite A3, sem_signal_count, wrap_s_add_u, Us.
    pose proof (reachable_units cfg args sv M R) as I. pose proof (available_exact args sv M I) as Ax.
    pose proof (held_nonneg _ _ I). pose proof (ui_leaked _ _ I). pose proof (blen_nonneg (body (letter e))).
    unfold available in Ax. rewrite wrap_s_small; [lia|lia|unfold fits_s; lia].
  - done.
  - simpl. by rewrite A7, Co.
  - simpl. by rewrite (proj2 (gate_leave_spec _)), A8.
  - done.
  - done.
  - done.
  - done.
Qed.
End serve.

Module ServeWitness.
Import Demo ServerDemo.
Definition w_request : rpc_envelope := demo_request [Byte.x2a].
Definition w_evs : list event := [ev_start; demo_accept (frame w_request ++ [Byte.x01]) false].
Definition w_sconn : rpc_server_connection :=
  mk_sconn _ (demo_conn (frame w_request ++ [Byte.x01]) false) 1.
Definition w_reply : rpc_envelope := map_header (mutate_session 77) (demo_envelope [Byte.x2a] 200 0).
Definition w_handle : rpc_service_method_handle :=
  default (mk_handle (fun _ => Undefined))
    (get_handle_for_request (routes demo_config) (client_request_id 9 5)).

Lemma w_healthy : healthy.
Proof. split; eauto. Qed.

Lemma request_served_witness :
  exists sv' c', run demo_config (repeat (ev_session 1) 4 ++ repeat (ev_dispatch 0) 9)
    (demo_state 1000 w_evs) = Some sv' /\ conns sv' !! 1 = Some c' /\
    written (c_ostream (conn c')) = frame w_reply.
Proof.
  destruct (request_served demo_config (mk_args 60000 1000) 1 w_sconn w_request w_handle
    (received demo_addr w_request) w_reply w_reply [Byte.x01] (demo_state 1000 w_evs))
    as (sv' & c' & R & C & W & _).
  - vm_decide.
  - apply demo_reachable. vm_refl.
  - apply w_healthy.
  - vm_refl.
  - vm_refl.
  - reflexivity.
  - vm_refl.
  - vm_refl.
  - apply (WireWitness.w_framed [Byte.x2a] (client_request_id 9 5) 77); vm_refl.
  - vm_decide.
  - vm_refl.
  - apply ran_default. vm_refl.
  - vm_refl.
  - vm_refl.
  - vm_refl.
  - vm_refl.
  - vm_refl.
  - split; vm_decide.
  - exists sv', c'. split; [exact R|]. split; [exact C|]. exact W.
Defined.
End ServeWitness.
