(* ===== verification/Client.v ===== *)
(** * The RPC client

    src/src/core/rpc_client.cc with rpc_client.h.

    The client is a state machine like the server of Server.v.  Its fibers are
    the requests ([send], [raw_send]), the writes ([dispatch_write], run in the
    background), and the readers: the loop [do_reads] of each connection, and
    calls of [process_one_request] that [with_timeout] gave up waiting for and
    that still run.  An event resumes one fiber up to its next suspension; an
    execution is followed up to its first undefined operation, except that
    resolving a promise twice and using a null connection are recorded in
    [undefined_].  Connection objects are not removed when their last owner goes;
    [dangling_write] of ClientProps tells the writes that outlive theirs. *)

From Stdlib Require Import ZArith Lia.
From stdpp Require Import base gmap list numbers strings.
From coqutil Require Import Byte.
From S2P Require Import Prelude Header Seastar Letter Connection RecvContext Wire Filters.

(** [struct rpc_client_opts], the fields the core uses. *)
Record rpc_client_opts := mk_opts {
  credentials : bool;
  client_recv_timeout : Z;
  memory_avail_for_client : Z
}.
Definition rpc_client_opts0 : rpc_client_opts := mk_opts false 60000 (2 ^ 30).

(** A [seastar::promise<std::optional<rpc_recv_context>>]. *)
Inductive promise :=
| unresolved
| set_value (r : option rpc_recv_context)
| set_exception (e : exn).

(** [struct work_item]. *)
Record work_item := mk_work { pr : promise; w_session : Z }.

(** Where a request is suspended: in the outgoing filters, on the promise of its
    work item, in the incoming filters; [q_end]: its future is resolved, the
    gate not yet left. *)
Inductive request_stage :=
| q_outgoing (e : rpc_envelope)
| q_wait
| q_incoming (ctx : rpc_recv_context)
| q_end (r : outcome (option rpc_recv_context))
| q_done (r : outcome (option rpc_recv_context)).

(** Where a write is suspended; [id] is the connection whose stream it uses. *)
Inductive write_stage :=
| w_units (e : rpc_envelope)             (* waiting for [resources_available] *)
| w_lock (e : rpc_envelope)              (* waiting for [serialize_writes_] *)
| w_header (e : rpc_envelope)
| w_body (id : Z) (e : rpc_envelope)
| w_flush (id : Z) (e : rpc_envelope).

(** Where a read is suspended; [id] is the connection it captured. *)
Inductive read_stage :=
| r_loop
| r_header (id : Z)
| r_payload (id : Z) (hdr : header).

(** A reader: [live] is false for a read that [with_timeout] abandoned. *)
Record reader := mk_reader { r_stage : read_stage; live : bool }.

(** A connection object, and whether it was wrapped in TLS. *)
Record client_conn `{Seastar} := mk_cconn { cc_conn : rpc_connection; cc_tls : bool }.

(** [class rpc_client].  [creds_] is whether credentials are held; [lost_] are
    the requests whose slot was occupied when they were sent. *)
Record client `{Seastar} := mk_client {
  limits_ : rpc_connection_limits;
  creds_ : bool;
  read_counter_ : Z;
  conn_ : option Z;
  connections : gmap Z client_conn;
  next_conn : Z;
  rpc_slots_ : gmap Z Z;
  works : gmap Z work_item;
  requests : gmap Z request_stage;
  next_request : Z;
  writes : gmap Z write_stage;
  next_write : Z;
  readers : gmap Z reader;
  next_reader : Z;
  dispatch_gate_ : gate;
  serialize_writes_ : semaphore;
  session_idx_ : Z;
  connecting : Z;
  reconnecting : Z;
  lost_ : gset Z;
  undefined_ : bool
}.

Section client.
Context `{Build, GeneratedHeader, Xxhash, Seastar}.

Variable in_filters_ : list (rpc_recv_context -> outcome rpc_recv_context).
Variable out_filters_ : list (rpc_envelope -> outcome rpc_envelope).

Implicit Types cl : client.

(** ** Field updates *)

Definition upd_limits (f : rpc_connection_limits -> rpc_connection_limits) cl : client :=
  mk_client _ (f (limits_ cl)) (creds_ cl) (read_counter_ cl) (conn_ cl) (connections cl) (next_conn
    cl) (rpc_slots_ cl) (works cl) (requests cl) (next_request cl) (writes cl) (next_write cl)
    (readers cl) (next_reader cl) (dispatch_gate_ cl) (serialize_writes_ cl) (session_idx_ cl)
    (connecting cl) (reconnecting cl) (lost_ cl) (undefined_ cl).
Definition upd_creds (f : bool -> bool) cl : client :=
  mk_client _ (limits_ cl) (f (creds_ cl)) (read_counter_ cl) (conn_ cl) (connections cl) (next_conn
    cl) (rpc_slots_ cl) (works cl) (requests cl) (next_request cl) (writes cl) (next_write cl)
    (readers cl) (next_reader cl) (dispatch_gate_ cl) (serialize_writes_ cl) (session_idx_ cl)
    (connecting cl) (reconnecting cl) (lost_ cl) (undefined_ cl).
Definition upd_read_counter (f : Z -> Z) cl : client :=
  mk_client _ (limits_ cl) (creds_ cl) (f (read_counter_ cl)) (conn_ cl) (connections cl) (next_conn
    cl) (rpc_slots_ cl) (works cl) (requests cl) (next_request cl) (writes cl) (next_write cl)
    (readers cl) (next_reader cl) (dispatch_gate_ cl) (serialize_writes_ cl) (session_idx_ cl)
    (connecting cl) (reconnecting cl) (lost_ cl) (undefined_ cl).
Definition upd_conn (f : option Z -> option Z) cl : client :=
  mk_client _ (limits_ cl) (creds_ cl) (read_counter_ cl) (f (conn_ cl)) (connections cl) (next_conn
    cl) (rpc_slots_ cl) (works cl) (requests cl) (next_request cl) (writes cl) (next_write cl)
    (readers cl) (next_reader cl) (dispatch_gate_ cl) (serialize_writes_ cl) (session_idx_ cl)
    (connecting cl) (reconnecting cl) (lost_ cl) (undefined_ cl).
Definition upd_connections (f : gmap Z client_conn -> gmap Z client_conn) cl : client :=
  mk_client _ (limits_ cl) (creds_ cl) (read_counter_ cl) (conn_ cl) (f (connections cl)) (next_conn
    cl) (rpc_slots_ cl) (works cl) (requests cl) (next_request cl) (writes cl) (next_write cl)
    (readers cl) (next_reader cl) (dispatch_gate_ cl) (serialize_writes_ cl) (session_idx_ cl)
    (connecting cl) (reconnecting cl) (lost_ cl) (undefined_ cl).
Definition upd_rpc_slots (f : gmap Z Z -> gmap Z Z) cl : client :=
  mk_client _ (limits_ cl) (creds_ cl) (read_counter_ cl) (conn_ cl) (connections cl) (next_conn cl)
    (f (rpc_slots_ cl)) (works cl) (requests cl) (next_request cl) (writes cl) (next_write cl)
    (readers cl) (next_reader cl) (dispatch_gate_ cl) (serialize_writes_ cl) (session_idx_ cl)
    (connecting cl) (reconnecting cl) (lost_ cl) (undefined_ cl).
Definition upd_works (f : gmap Z work_item -> gmap Z work_item) cl : client :=
  mk_client _ (limits_ cl) (creds_ cl) (read_counter_ cl) (conn_ cl) (connections cl) (next_conn cl)
    (rpc_slots_ cl) (f (works cl)) (requests cl) (next_request cl) (writes cl) (next_write cl)
    (readers cl) (next_reader cl) (dispatch_gate_ cl) (serialize_writes_ cl) (session_idx_ cl)
    (connecting cl) (reconnecting cl) (lost_ cl) (undefined_ cl).
Definition upd_requests (f : gmap Z request_stage -> gmap Z request_stage) cl : client :=
  mk_client _ (limits_ cl) (creds_ cl) (read_counter_ cl) (conn_ cl) (connections cl) (next_conn cl)
    (rpc_slots_ cl) (works cl) (f (requests cl)) (next_request cl) (writes cl) (next_write cl)
    (readers cl) (next_reader cl) (dispatch_gate_ cl) (serialize_writes_ cl) (session_idx_ cl)
    (connecting cl) (reconnecting cl) (lost_ cl) (undefined_ cl).
Definition upd_writes (f : gmap Z write_stage -> gmap Z write_stage) cl : client :=
  mk_client _ (limits_ cl) (creds_ cl) (read_counter_ cl) (conn_ cl) (connections cl) (next_conn cl)
    (rpc_slots_ cl) (works cl) (requests cl) (next_request cl) (f (writes cl)) (next_write cl)
    (readers cl) (next_reader cl) (dispatch_gate_ cl) (serialize_writes_ cl) (session_idx_ cl)
    (connecting cl) (reconnecting cl) (lost_ cl) (undefined_ cl).
Definition upd_readers (f : gmap Z reader -> gmap Z reader) cl : client :=
  mk_client _ (limits_ cl) (creds_ cl) (read_counter_ cl) (conn_ cl) (connections cl) (next_conn cl)
    (rpc_slots_ cl) (works cl) (requests cl) (next_request cl) (writes cl) (next_write cl) (f
    (readers cl)) (next_reader cl) (dispatch_gate_ cl) (serialize_writes_ cl) (session_idx_ cl)
    (connecting cl) (reconnecting cl) (lost_ cl) (undefined_ cl).
Definition upd_dispatch_gate (f : gate -> gate) cl : client :=
  mk_client _ (limits_ cl) (creds_ cl) (read_counter_ cl) (conn_ cl) (connections cl) (next_conn cl)
    (rpc_slots_ cl) (works cl) (requests cl) (next_request cl) (writes cl) (next_write cl) (readers
    cl) (next_reader cl) (f (dispatch_gate_ cl)) (serialize_writes_ cl) (session_idx_ cl)
    (connecting cl) (reconnecting cl) (lost_ cl) (undefined_ cl).
Definition upd_serialize_writes (f : semaphore -> semaphore) cl : client :=
  mk_client _ (limits_ cl) (creds_ cl) (read_counter_ cl) (conn_ cl) (connections cl) (next_conn cl)
    (rpc_slots_ cl) (works cl) (requests cl) (next_request cl) (writes cl) (next_write cl) (readers
    cl) (next_reader cl) (dispatch_gate_ cl) (f (serialize_writes_ cl)) (session_idx_ cl)
    (connecting cl) (reconnecting cl) (lost_ cl) (undefined_ cl).
Definition upd_session_idx (f : Z -> Z) cl : client :=
  mk_client _ (limits_ cl) (creds_ cl) (read_counter_ cl) (conn_ cl) (connections cl) (next_conn cl)
    (rpc_slots_ cl) (works cl) (requests cl) (next_request cl) (writes cl) (next_write cl) (readers
    cl) (next_reader cl) (dispatch_gate_ cl) (serialize_writes_ cl) (f (session_idx_ cl))
    (connecting cl) (reconnecting cl) (lost_ cl) (undefined_ cl).
Definition upd_connecting (f : Z -> Z) cl : client :=
  mk_client _ (limits_ cl) (creds_ cl) (read_counter_ cl) (conn_ cl) (connections cl) (next_conn cl)
    (rpc_slots_ cl) (works cl) (requests cl) (next_request cl) (writes cl) (next_write cl) (readers
    cl) (next_reader cl) (dispatch_gate_ cl) (serialize_writes_ cl) (session_idx_ cl) (f (connecting
    cl)) (reconnecting cl) (lost_ cl) (undefined_ cl).
Definition upd_reconnecting (f : Z -> Z) cl : client :=
  mk_client _ (limits_ cl) (creds_ cl) (read_counter_ cl) (conn_ cl) (connections cl) (next_conn cl)
    (rpc_slots_ cl) (works cl) (requests cl) (next_request cl) (writes cl) (next_write cl) (readers
    cl) (next_reader cl) (dispatch_gate_ cl) (serialize_writes_ cl) (session_idx_ cl) (connecting
    cl) (f (reconnecting cl)) (lost_ cl) (undefined_ cl).
Definition upd_lost (f : gset Z -> gset Z) cl : client :=
  mk_client _ (limits_ cl) (creds_ cl) (read_counter_ cl) (conn_ cl) (connections cl) (next_conn cl)
    (rpc_slots_ cl) (works cl) (requests cl) (next_request cl) (writes cl) (next_write cl) (readers
    cl) (next_reader cl) (dispatch_gate_ cl) (serialize_writes_ cl) (session_idx_ cl) (connecting
    cl) (reconnecting cl) (f (lost_ cl)) (undefined_ cl).
Definition upd_undefined (f : bool -> bool) cl : client :=
  mk_client _ (limits_ cl) (creds_ cl) (read_counter_ cl) (conn_ cl) (connections cl) (next_conn cl)
    (rpc_slots_ cl) (works cl) (requests cl) (next_request cl) (writes cl) (next_write cl) (readers
    cl) (next_reader cl) (dispatch_gate_ cl) (serialize_writes_ cl) (session_idx_ cl) (connecting
    cl) (reconnecting cl) (lost_ cl) (f (undefined_ cl)).
Definition add_conn (x : client_conn) cl : client :=
  mk_client _ (limits_ cl) (creds_ cl) (read_counter_ cl) (conn_ cl) (<[next_conn cl := x]>
    (connections cl)) (next_conn cl + 1) (rpc_slots_ cl) (works cl) (requests cl) (next_request cl)
    (writes cl) (next_write cl) (readers cl) (next_reader cl) (dispatch_gate_ cl) (serialize_writes_
    cl) (session_idx_ cl) (connecting cl) (reconnecting cl) (lost_ cl) (undefined_ cl).
Definition add_request (x : request_stage) cl : client :=
  mk_client _ (limits_ cl) (creds_ cl) (read_counter_ cl) (conn_ cl) (connections cl) (next_conn cl)
    (rpc_slots_ cl) (works cl) (<[next_request cl := x]> (requests cl)) (next_request cl + 1)
    (writes cl) (next_write cl) (readers cl) (next_reader cl) (dispatch_gate_ cl) (serialize_writes_
    cl) (session_idx_ cl) (connecting cl) (reconnecting cl) (lost_ cl) (undefined_ cl).
Definition add_write (x : write_stage) cl : client :=
  mk_client _ (limits_ cl) (creds_ cl) (read_counter_ cl) (conn_ cl) (connections cl) (next_conn cl)
    (rpc_slots_ cl) (works cl) (requests cl) (next_request cl) (<[next_write cl := x]> (writes cl))
    (next_write cl + 1) (readers cl) (next_reader cl) (dispatch_gate_ cl) (serialize_writes_ cl)
    (session_idx_ cl) (connecting cl) (reconnecting cl) (lost_ cl) (undefined_ cl).
Definition add_reader (x : reader) cl : client :=
  mk_client _ (limits_ cl) (creds_ cl) (read_counter_ cl) (conn_ cl) (connections cl) (next_conn cl)
    (rpc_slots_ cl) (works cl) (requests cl) (next_request cl) (writes cl) (next_write cl)
    (<[next_reader cl := x]> (readers cl)) (next_reader cl + 1) (dispatch_gate_ cl)
    (serialize_writes_ cl) (session_idx_ cl) (connecting cl) (reconnecting cl) (lost_ cl)
    (undefined_ cl).

Definition upd_cconn (id : Z) (f : rpc_connection -> rpc_connection) cl : client :=
  upd_connections (alter (fun c => mk_cconn _ (f (cc_conn c)) (cc_tls c)) id) cl.
Definition set_request (k : Z) (st : request_stage) cl : client := upd_requests (insert k st) cl.
Definition set_write (k : Z) (st : write_stage) cl : client := upd_writes (insert k st) cl.
Definition set_reader (k : Z) (st : read_stage) cl : client :=
  upd_readers (alter (fun r => mk_reader st (live r)) k) cl.
Definition leave_gate cl : client := upd_dispatch_gate gate_leave cl.

(** ** Operations *)

(** The constructor. *)
Definition rpc_client_make (opts : rpc_client_opts) : client :=
  mk_client _ (rpc_connection_limits_make (memory_avail_for_client opts) (client_recv_timeout opts))
    (credentials opts) 0 None ∅ 0 ∅ ∅ ∅ 0 ∅ 0 ∅ 0 gate_new (sem_make 1) 0 0 0 ∅ false.

Definition is_conn_valid cl : bool :=
  match conn_ cl with
  | Some id => match connections cl !! id with Some c => is_valid (cc_conn c) | None => false end
  | None => false
  end.

(** [pr.set_value] and [pr.set_exception]; a promise is resolved once. *)
Definition resolve (p : promise) (k : Z) cl : client :=
  match works cl !! k with
  | Some (mk_work unresolved s) => upd_works (insert k (mk_work p s)) cl
  | _ => upd_undefined (fun _ => true) cl
  end.

(** The loop of [fail_outstanding_futures], in the order of the map. *)
Fixpoint fail_slots (slots : list (Z * Z)) cl : client :=
  match slots with
  | [] => cl
  | (session, k) :: slots =>
      fail_slots slots (upd_rpc_slots (delete session) (resolve (set_exception remote_connection_error) k cl))
  end.

Definition disable_conn cl : client :=
  match conn_ cl with
  | Some id =>
      if is_conn_valid cl then
        upd_cconn id shutdown (upd_cconn id disable cl)
      else cl
  | None => cl
  end.

Definition fail_outstanding_futures cl : client :=
  let cl := disable_conn cl in fail_slots (map_to_list (rpc_slots_ cl)) cl.

(** [raw_send] up to its first suspension; [unordered_map::insert] keeps an
    entry that exists. *)
Definition raw_send (e : rpc_envelope) cl : client :=
  if negb (is_conn_valid cl) then add_request (q_end (Failed invalid_connection_state)) cl
  else
    let cl := upd_session_idx (fun s => u16 (s + 1)) cl in
    let cl := upd_read_counter (fun n => u64 (n + 1)) cl in
    let s := session_idx_ cl in
    let taken := bool_decide (is_Some (rpc_slots_ cl !! s)) in
    match DLOG_THROW_IF taken "RPC slot already allocated" with
    | Ready _ =>
        let k := next_request cl in
        let cl := upd_works (insert k (mk_work unresolved s)) cl in
        let cl := if taken then upd_lost (union {[k]}) cl else upd_rpc_slots (insert s k) cl in
        add_request (q_outgoing (map_header (mutate_session s) e)) cl
    | Failed ex => add_request (q_end (Failed ex)) cl
    | Undefined => cl
    end.

(** [send]: [raw_send] inside the gate. *)
Definition client_send (e : rpc_envelope) cl : client :=
  match gate_enter (dispatch_gate_ cl) with
  | Ready g => raw_send e (upd_dispatch_gate (fun _ => g) cl)
  | Failed ex => add_request (q_done (Failed ex)) cl
  | Undefined => cl
  end.

(** [conn_->limits]: the limits of a connection are the ones of the client, which
    [connect] hands to it; the connection has to be there. *)
Definition conn_limits cl : client :=
  upd_undefined (fun u => match conn_ cl with Some _ => u | None => true end) cl.

(** [dispatch_write] up to its first suspension. *)
Definition dispatch_write (e : rpc_envelope) cl : outcome client :=
  g ← gate_enter (dispatch_gate_ cl);
  Ready (add_write (w_units e) (upd_dispatch_gate (fun _ => g) (conn_limits cl))).

(** The continuations of [raw_send]. *)
Definition request_step (k : Z) (st : request_stage) cl : option client :=
  match st with
  | q_outgoing e =>
      match rpc_filter_apply out_filters_ e with
      | Ready e =>
          match dispatch_write e cl with
          | Ready cl => Some (set_request k q_wait cl)
          | Failed ex => Some (set_request k (q_end (Failed ex)) cl)
          | Undefined => None
          end
      | Failed ex => Some (set_request k (q_end (Failed ex)) cl)
      | Undefined => None
      end
  | q_wait =>
      match works cl !! k with
      | Some (mk_work (set_value None) _) => Some (set_request k (q_end (Ready None)) cl)
      | Some (mk_work (set_value (Some ctx)) _) => Some (set_request k (q_incoming ctx) cl)
      | Some (mk_work (set_exception ex) _) => Some (set_request k (q_end (Failed ex)) cl)
      | _ => None
      end
  | q_incoming ctx =>
      match (ctx ← rpc_filter_apply in_filters_ ctx;
             LOG_THROW_IF (negb (compression (ctx_header ctx) =? flag_value compression_flags_none))
               "client is communicating with a server speaking different compression protocols" ;;
             Ready (Some ctx)) with
      | Undefined => None
      | r => Some (set_request k (q_end r) cl)
      end
  | q_end r => Some (set_request k (q_done r) (leave_gate cl))
  | q_done _ => None
  end.

(** The end of [dispatch_write]: both semaphores are signalled, the gate is left. *)
Definition write_end (k : Z) (e : rpc_envelope) cl : client :=
  let cl := upd_serialize_writes (fun s => sem_signal s 1) cl in
  let cl := upd_limits (fun l => mk_limits _ (max_memory l) (max_body_parsing_duration l)
                (sem_signal (resources_available l) (rpc_envelope_size e))) cl in
  upd_writes (delete k) (leave_gate cl).

(** The future of [send] fails: [handle_exception]. *)
Definition write_failed (k : Z) (e : rpc_envelope) cl : client :=
  write_end k e (fail_outstanding_futures cl).

(** A check of [send] that throws is not handled: there is no future yet to
    attach [handle_exception] to, and the one of [dispatch_write] is discarded. *)
Definition write_step (k : Z) (st : write_stage) cl : option client :=
  match st with
  | w_units e =>
      match sem_wait (resources_available (limits_ cl)) (rpc_envelope_size e) with
      | None => None
      | Some s => Some (set_write k (w_lock e) (upd_limits (fun l =>
                    mk_limits _ (max_memory l) (max_body_parsing_duration l) s) cl))
      end
  | w_lock e =>
      match sem_wait (serialize_writes_ cl) 1 with
      | None => None
      | Some s => Some (set_write k (w_header e) (upd_serialize_writes (fun _ => s) cl))
      end
  | w_header e =>
      match conn_ cl with
      | None => Some (upd_undefined (fun _ => true) cl)
      | Some id =>
          match connections cl !! id with
          | None => None
          | Some c =>
              match send_checks e with
              | Ready _ =>
                  match owrite (c_ostream (cc_conn c)) (header_to_bytes (lheader (letter e))) with
                  | Ready o => Some (set_write k (w_body id e) (upd_cconn id (with_ostream o) cl))
                  | Failed _ => Some (write_failed k e cl)
                  | Undefined => None
                  end
              | Failed _ => Some (write_end k e cl)
              | Undefined => None
              end
          end
      end
  | w_body id e =>
      match connections cl !! id with
      | None => None
      | Some c =>
          match owrite (c_ostream (cc_conn c)) (body (letter e)) with
          | Ready o => Some (set_write k (w_flush id e) (upd_cconn id (with_ostream o) cl))
          | Failed _ => Some (write_failed k e cl)
          | Undefined => None
          end
      end
  | w_flush id e =>
      match connections cl !! id with
      | None => None
      | Some c =>
          match oflush (c_ostream (cc_conn c)) with
          | Ready o => Some (write_end k e (upd_cconn id (with_ostream o) cl))
          | Failed _ => Some (write_failed k e cl)
          | Undefined => None
          end
      end
  end.

(** ** Reading *)

(** An exception ends [do_reads]; a read that was abandoned just ends. *)
Definition reader_exception (k : Z) (r : reader) cl : client :=
  if live r then upd_readers (delete k) (leave_gate (fail_outstanding_futures cl))
  else upd_readers (delete k) cl.

(** One call of [process_one_request] is done. *)
Definition reader_next (k : Z) (r : reader) cl : client :=
  if live r then set_reader k r_loop cl else upd_readers (delete k) cl.

(** A refused header or payload. *)
Definition refuse (id : Z) (msg : string) cl : client :=
  fail_outstanding_futures (upd_cconn id (set_error msg) cl).

(** The continuation of [parse_payload] in [process_one_request]. *)
Definition process_payload (id : Z) (opt : option rpc_recv_context) cl : outcome client :=
  DLOG_THROW_IF (read_counter_ cl <=? 0) "Internal error. Invalid counter" ;;
  match opt with
  | None => Ready (refuse id "Could not parse response from server. Bad payload" cl)
  | Some ctx =>
      let sess := u16 (ctx_session ctx) in
      match rpc_slots_ cl !! sess with
      | None => Ready (refuse id "Invalid session" cl)
      | Some k =>
          let cl := upd_read_counter (fun n => u64 (n - 1)) cl in
          Ready (upd_rpc_slots (delete sess) (resolve (set_value (Some ctx)) k cl))
      end
  end.

Definition reader_step (k : Z) (r : reader) cl : option client :=
  match r_stage r with
  | r_loop =>
      if negb (is_conn_valid cl) then Some (upd_readers (delete k) (leave_gate cl))
      else
        match conn_ cl with
        | None => None
        | Some id =>
            match connections cl !! id with
            | None => None
            | Some c =>
                match parse_header_begin (cc_conn c) with
                | Ready c' => Some (set_reader k (r_header id) (upd_cconn id (fun _ => c') cl))
                | Failed _ => Some (reader_exception k r cl)
                | Undefined => None
                end
            end
        end
  | r_header id =>
      match connections cl !! id with
      | None => None
      | Some c =>
          match read_exactly (c_istream (cc_conn c)) kHeaderSize with
          | None => None
          | Some (buf, i) =>
              let '(hdr, c') := parse_header_resume buf i (cc_conn c) in
              let cl := upd_cconn id (fun _ => c') cl in
              match hdr with
              | None => Some (reader_next k r (refuse id "Could not parse header from server" cl))
              | Some hdr => Some (set_reader k (r_payload id hdr) cl)
              end
          end
      end
  | r_payload id hdr =>
      match connections cl !! id with
      | None => None
      | Some c =>
          match read_exactly (c_istream (cc_conn c)) (hsize hdr) with
          | None => None
          | Some (b, i) =>
              match parse_payload_resume hdr b i (cc_conn c) with
              | Ready (opt, c') =>
                  let cl := upd_cconn id (fun _ => c') cl in
                  match process_payload id opt cl with
                  | Ready cl => Some (reader_next k r cl)
                  | Failed _ => Some (reader_exception k r cl)
                  | Undefined => None
                  end
              | Failed _ => Some (reader_exception k r cl)
              | Undefined => None
              end
          end
      end
  end.

(** The stream of connection [id] fails a read; [finally] of [parse_header] runs. *)
Definition reader_failed (k : Z) (r : reader) cl : option client :=
  match r_stage r with
  | r_loop => None
  | r_header id =>
      Some (reader_exception k r
        (upd_cconn id (fun c => with_parsers (u32 (istream_active_parser c - 1)) c) cl))
  | r_payload _ _ => Some (reader_exception k r cl)
  end.

(** [with_timeout] expires: the loop ends, the call still runs. *)
Definition reader_timeout (k : Z) (r : reader) cl : option client :=
  match r_stage r with
  | r_loop => None
  | st => if live r then Some (add_reader (mk_reader st false) (reader_exception k r cl)) else None
  end.

(** ** Connecting *)

(** [connect] up to the connection attempt; [None]: it throws. *)
Definition client_connect cl : option client :=
  if is_conn_valid cl then None else Some (upd_connecting (Z.add 1) cl).

(** The socket is connected: TLS is applied when credentials are held, and
    [std::move(creds_)] leaves none; [do_reads] starts inside the gate. *)
Definition client_connected (addr : socket_address) (i : istream) (o : ostream) cl : option client :=
  if (0 <? connecting cl) && negb (eof i) && bool_decide (written o = []) then
    let id := next_conn cl in
    let cl := upd_connecting (fun n => n - 1) cl in
    let cl := add_conn (mk_cconn _ (rpc_connection_make addr i o) (creds_ cl)) cl in
    let cl := upd_conn (fun _ => Some id) (upd_creds (fun _ => false) cl) in
    match gate_enter (dispatch_gate_ cl) with
    | Ready g => Some (add_reader (mk_reader r_loop true) (upd_dispatch_gate (fun _ => g) cl))
    | Failed _ => Some cl
    | Undefined => None
    end
  else None.

(** The attempt fails, before or inside the TLS handshake. *)
Definition client_connect_failed (handshake : bool) cl : option client :=
  if (0 <? connecting cl) then
    let cl := upd_connecting (fun n => n - 1) cl in
    Some (if handshake then upd_creds (fun _ => false) cl else cl)
  else None.

(** [stop]; closing a closed gate is undefined. *)
Definition client_stop cl : option client :=
  if gate_is_closed (dispatch_gate_ cl) then None
  else Some (upd_dispatch_gate gate_close (fail_outstanding_futures cl)).

(** [reconnect] up to the end of [stop], and after it. *)
Definition client_reconnect cl : option client :=
  match client_stop (fail_outstanding_futures cl) with
  | Some cl => Some (upd_reconnecting (Z.add 1) cl)
  | None => None
  end.

Definition client_reconnected cl : option client :=
  if (0 <? reconnecting cl) && (gate_count (dispatch_gate_ cl) =? 0) then
    let cl := upd_reconnecting (fun n => n - 1) cl in
    if negb (gate_is_closed (dispatch_gate_ cl)) then Some cl
    else client_connect (upd_conn (fun _ => None) (upd_dispatch_gate (fun _ => gate_new) cl))
  else None.

(** ** Events *)
Inductive client_event :=
| ce_send (e : rpc_envelope)
| ce_request (k : Z)                     (* a request runs *)
| ce_write (k : Z)                       (* a write runs *)
| ce_reader (k : Z)                      (* a reader runs *)
| ce_reader_failed (k : Z)
| ce_reader_timeout (k : Z)
| ce_arrive (id : Z) (i : istream)
| ce_connect
| ce_connected (addr : socket_address) (i : istream) (o : ostream)
| ce_connect_failed (handshake : bool)
| ce_stop
| ce_reconnect
| ce_reconnected.

Definition client_exec (ev : client_event) cl : option client :=
  match ev with
  | ce_send e => Some (client_send e cl)
  | ce_request k => match requests cl !! k with Some st => request_step k st cl | None => None end
  | ce_write k => match writes cl !! k with Some st => write_step k st cl | None => None end
  | ce_reader k => match readers cl !! k with Some r => reader_step k r cl | None => None end
  | ce_reader_failed k => match readers cl !! k with Some r => reader_failed k r cl | None => None end
  | ce_reader_timeout k => match readers cl !! k with Some r => reader_timeout k r cl | None => None end
  | ce_arrive id i =>
      match connections cl !! id with
      | Some c =>
          if bool_decide (pending (c_istream (cc_conn c)) `prefix_of` pending i) &&
             bool_decide (eof i = eof (c_istream (cc_conn c)))
          then Some (upd_cconn id (with_istream i) cl) else None
      | None => None
      end
  | ce_connect => client_connect cl
  | ce_connected addr i o => client_connected addr i o cl
  | ce_connect_failed h => client_connect_failed h cl
  | ce_stop => client_stop cl
  | ce_reconnect => client_reconnect cl
  | ce_reconnected => client_reconnected cl
  end.

Definition client_step cl cl' : Prop := exists ev, client_exec ev cl = Some cl'.
Definition client_reachable (opts : rpc_client_opts) cl : Prop :=
  rtc client_step (rpc_client_make opts) cl.

Fixpoint client_run (evs : list client_event) cl : option client :=
  match evs with
  | [] => Some cl
  | ev :: evs => match client_exec ev cl with Some cl => client_run evs cl | None => None end
  end.
End client.
