(* ===== verification/ClientInv.v ===== *)
(** * Promises, slots and connections of the client

    Invariants of every execution of the client of Client.v: every promise is
    resolved at most once and with the response of its session, no request is
    forgotten while the client can still answer it, and what failing, stopping
    and reconnecting do. *)

From Stdlib Require Import ZArith Lia.
From stdpp Require Import base gmap list numbers strings.
From coqutil Require Import Byte.
From S2P Require Import Prelude Header Seastar Letter Connection RecvContext Wire Filters Client.

(** What [fail_outstanding_futures] makes of a work item. *)
Definition fail_work (slots : gmap Z Z) (k : Z) (w : work_item) : option work_item :=
  Some (if bool_decide (slots !! w_session w = Some k)
        then mk_work (set_exception remote_connection_error) (w_session w) else w).

Section inv.
Context `{Build, GeneratedHeader, Xxhash, Seastar}.
Variable in_filters_ : list (rpc_recv_context -> outcome rpc_recv_context).
Variable out_filters_ : list (rpc_envelope -> outcome rpc_envelope).
Implicit Types cl : client.

Abbreviation exec := (client_exec in_filters_ out_filters_).
Abbreviation reachable := (client_reachable in_filters_ out_filters_).

Lemma client_reachable_inv opts (P : client -> Prop) :
  P (rpc_client_make opts) ->
  (forall ev cl cl', P cl -> exec ev cl = Some cl' -> P cl') ->
  forall cl, reachable opts cl -> P cl.
Proof. intros I S. apply (rtc_ind_r P _ I). intros cl cl' R [ev E] IH. by eapply S. Qed.

(** A run is an execution. *)
Lemma client_run_rtc evs cl cl' :
  client_run in_filters_ out_filters_ evs cl = Some cl' -> rtc (client_step in_filters_ out_filters_) cl cl'.
Proof.
  revert cl. induction evs as [|ev evs IH]; intros cl R; [by injection R as <-|].
  unfold client_run in R; fold (client_run in_filters_ out_filters_) in R.
  destruct (exec ev cl) as [cl1|] eqn:E; [|done]. eapply rtc_l; [by exists ev|by apply IH].
Qed.

(** ** Slots and promises *)

Definition slot_ok (works : gmap Z work_item) (slots : gmap Z Z) : Prop :=
  forall s k, slots !! s = Some k -> works !! k = Some (mk_work unresolved s).

Record slots_inv cl : Prop := mk_slots_inv {
  si_slots : slot_ok (works cl) (rpc_slots_ cl);
  si_values : forall k r s, works cl !! k = Some (mk_work (set_value r) s) ->
    exists ctx, r = Some ctx /\ u16 (ctx_session ctx) = s;
  si_waiting : forall k s, works cl !! k = Some (mk_work unresolved s) ->
    k ∉ lost_ cl -> rpc_slots_ cl !! s = Some k;
  si_fresh : forall k, next_request cl <= k -> works cl !! k = None
}.

Lemma slots_inv_same cl cl' :
  works cl' = works cl -> rpc_slots_ cl' = rpc_slots_ cl -> lost_ cl' = lost_ cl ->
  next_request cl <= next_request cl' -> slots_inv cl -> slots_inv cl'.
Proof.
  intros W S L N [A B C D]. constructor; rewrite ?W, ?S, ?L; try done.
  intros k Hk. apply D. lia.
Qed.

(** The loop over the slots, as one update. *)
Lemma fail_slots_spec l cl :
  NoDup l.*1 -> rpc_slots_ cl = list_to_map l -> slot_ok (works cl) (rpc_slots_ cl) ->
  fail_slots l cl =
    upd_works (map_imap (fail_work (rpc_slots_ cl))) (upd_rpc_slots (fun _ => ∅) cl).
Proof.
  revert cl. induction l as [|[s k] l IH]; simpl; intros cl N S A.
  - rewrite S. unfold upd_works, upd_rpc_slots. destruct cl; simpl in *. subst. f_equal.
    apply map_eq. intros j. rewrite map_lookup_imap. destruct (works !! j); [|done]. simpl.
    unfold fail_work. by rewrite lookup_empty.
  - apply NoDup_cons in N as [Ns N]. simpl in Ns.
    assert (list_to_map (M := gmap Z Z) l !! s = None) as Sn by (by apply not_elem_of_list_to_map).
    assert (works cl !! k = Some (mk_work unresolved s)) as Wk
      by (apply A; rewrite S; apply lookup_insert_eq).
    unfold resolve. rewrite Wk. rewrite IH; simpl; [|done|rewrite S; by rewrite delete_insert_id|].
    + unfold upd_works, upd_rpc_slots. simpl. f_equal. apply map_eq. intros j.
      rewrite !map_lookup_imap, lookup_insert, S, delete_insert_id by done.
      case_decide as Ej; [subst j; rewrite Wk|destruct (works cl !! j) as [w|]; [|done]]; simpl;
        unfold fail_work; simpl.
      * rewrite lookup_insert_eq, (bool_decide_eq_true_2 (Some k = Some k)) by done. by case_goal.
      * rewrite lookup_insert. case_decide as Es; [|done]. subst s.
        rewrite Sn, !bool_decide_eq_false_2; [done|congruence|done].
    + intros s' k' E. rewrite lookup_insert_ne; [apply A; rewrite S|].
      * rewrite S, delete_insert_id in E by done. rewrite lookup_insert_ne; [done|congruence].
      * intros <-. apply lookup_delete_Some in E as [E1 E2].
        apply A in E2. rewrite Wk in E2. congruence.
Qed.

Lemma disable_conn_frame cl :
  works (disable_conn cl) = works cl /\ rpc_slots_ (disable_conn cl) = rpc_slots_ cl.
Proof. unfold disable_conn. by repeat case_goal. Qed.

Lemma fail_outstanding_spec cl :
  slots_inv cl ->
  fail_outstanding_futures cl =
    upd_works (map_imap (fail_work (rpc_slots_ cl))) (upd_rpc_slots (fun _ => ∅) (disable_conn cl)).
Proof.
  intros I. unfold fail_outstanding_futures. destruct (disable_conn_frame cl) as [W S].
  rewrite fail_slots_spec; rewrite ?S; [done|apply NoDup_fst_map_to_list|by rewrite list_to_map_to_list|].
  rewrite W. apply I.
Qed.

Lemma slots_inv_fail cl : slots_inv cl -> slots_inv (fail_outstanding_futures cl).
Proof.
  intros I. rewrite fail_outstanding_spec by done. destruct I as [A B C D].
  assert (lost_ (disable_conn cl) = lost_ cl /\ next_request (disable_conn cl) = next_request cl) as [L N]
    by (unfold disable_conn; by repeat case_goal).
  destruct (disable_conn_frame cl) as [W _].
  constructor; simpl; rewrite ?W, ?L, ?N; [done| | |].
  - intros k r s. rewrite map_lookup_imap. destruct (works cl !! k) as [[p s']|] eqn:E; [|done]. simpl.
    unfold fail_work. simpl. case_bool_decide; intros [= -> ->]. by apply (B k).
  - intros k s. rewrite map_lookup_imap. destruct (works cl !! k) as [[p s']|] eqn:E; [|done]. simpl.
    unfold fail_work. simpl. case_bool_decide as Sl; intros [= -> ->] Nl. by destruct Sl; apply C.
  - intros k Hk. rewrite map_lookup_imap, D by done. done.
Qed.

Lemma slots_inv_resolve ctx k cl cl' :
  slots_inv cl -> rpc_slots_ cl !! u16 (ctx_session ctx) = Some k ->
  works cl' = works cl -> rpc_slots_ cl' = rpc_slots_ cl -> lost_ cl' = lost_ cl ->
  next_request cl' = next_request cl ->
  resolve (set_value (Some ctx)) k cl' =
    upd_works (insert k (mk_work (set_value (Some ctx)) (u16 (ctx_session ctx)))) cl' /\
  slots_inv (upd_rpc_slots (delete (u16 (ctx_session ctx))) (resolve (set_value (Some ctx)) k cl')).
Proof.
  intros [A B C D] S W Sl L N. set (s := u16 (ctx_session ctx)) in *.
  assert (resolve (set_value (Some ctx)) k cl' = upd_works (insert k (mk_work (set_value (Some ctx)) s)) cl') as E.
  { unfold resolve. by rewrite W, (A _ _ S). }
  split; [done|]. rewrite E. constructor; simpl; rewrite ?W, ?Sl, ?L, ?N.
  - intros s' k'. rewrite lookup_delete_Some. intros [Ns Es]. rewrite lookup_insert_ne; [by apply A|].
    intros <-. apply A in Es. rewrite (A _ _ S) in Es. congruence.
  - intros k' r s'. rewrite lookup_insert. case_decide; [|by apply B]. intros [= <- <-]. eauto.
  - intros k' s'. rewrite lookup_insert. case_decide; [done|]. intros Ek Nl. pose proof (C _ _ Ek Nl) as Es.
    rewrite lookup_delete_ne; [done|]. intros <-. congruence.
  - intros k' Hk. rewrite lookup_insert_ne; [by apply D|]. intros ->.
    apply A in S. by rewrite (D k' Hk) in S.
Qed.

Lemma slots_inv_send e cl : slots_inv cl -> slots_inv (client_send e cl).
Proof.
  intros I. unfold client_send. destruct (gate_enter _) as [g|ex|]; [|by apply (slots_inv_same cl); simpl; lia || done|done].
  unfold raw_send. case_goal; [by apply (slots_inv_same cl); simpl; lia || done|].
  set (s := session_idx_ _). set (taken := bool_decide _).
  destruct (DLOG_THROW_IF _ _); [|by apply (slots_inv_same cl); simpl; lia || done..].
  destruct I as [A B C D]. pose proof (D (next_request cl) ltac:(lia)) as Fr.
  assert (forall s' k', rpc_slots_ cl !! s' = Some k' -> k' <> next_request cl) as Nk.
  { intros s' k' E ->. apply A in E. by rewrite Fr in E. }
  destruct taken eqn:T; constructor; simpl.
  - intros s' k' E. rewrite lookup_insert_ne; [by apply A|]. by apply not_eq_sym, (Nk s').
  - intros k' r s'. rewrite lookup_insert. case_decide; [done|]. by apply B.
  - intros k' s'. rewrite lookup_insert. case_decide; [set_solver|]. intros Ek Nl. apply C; [done|set_solver].
  - intros k' Hk. rewrite lookup_insert_ne by lia. apply D. lia.
  - apply bool_decide_eq_false in T. intros s' k'. rewrite lookup_insert. case_decide as Es.
    + intros [= <-]. subst s'. apply lookup_insert_eq.
    + intros E. rewrite lookup_insert_ne; [by apply A|]. by apply not_eq_sym, (Nk s').
  - intros k' r s'. rewrite lookup_insert. case_decide; [done|]. by apply B.
  - intros k' s'. rewrite lookup_insert. case_decide as Ek.
    + subst k'. intros [= <-] _. apply lookup_insert_eq.
    + intros Ew Nl. pose proof (C _ _ Ew Nl) as Es. rewrite lookup_insert_ne; [done|]. intros <-.
      apply bool_decide_eq_false in T. by destruct T; simpl; rewrite Es.
  - intros k' Hk. rewrite lookup_insert_ne by lia. apply D. lia.
Qed.

(** Updates that leave slots and work items alone. *)
Ltac slots_same c := apply (slots_inv_same c); [done|done|done|simpl; lia|].

Lemma slots_inv_refuse id msg cl : slots_inv cl -> slots_inv (refuse id msg cl).
Proof. intros I. apply slots_inv_fail. by slots_same cl. Qed.

Lemma slots_inv_write_failed k e cl : slots_inv cl -> slots_inv (write_failed k e cl).
Proof. intros I. slots_same (fail_outstanding_futures cl). by apply slots_inv_fail. Qed.

Lemma slots_inv_exception k r cl : slots_inv cl -> slots_inv (reader_exception k r cl).
Proof.
  intros I. unfold reader_exception. case_goal; [|by slots_same cl].
  slots_same (fail_outstanding_futures cl). by apply slots_inv_fail.
Qed.

Lemma slots_inv_next k r cl : slots_inv cl -> slots_inv (reader_next k r cl).
Proof. intros I. unfold reader_next. case_goal; by slots_same cl. Qed.

Lemma slots_inv_process id opt cl cl' :
  process_payload id opt cl = Ready cl' -> slots_inv cl -> slots_inv cl'.
Proof.
  unfold process_payload. intros P I. apply outcome_bind_Ready in P as (_ & _ & P).
  destruct opt as [ctx|]; [|injection P as <-; by apply slots_inv_refuse].
  destruct (rpc_slots_ cl !! u16 (ctx_session ctx)) as [k|] eqn:S;
    injection P as <-; [|by apply slots_inv_refuse].
  by apply (slots_inv_resolve ctx k cl).
Qed.

Lemma slots_inv_reader k r cl cl' : reader_step k r cl = Some cl' -> slots_inv cl -> slots_inv cl'.
Proof.
  intros E I. unfold reader_step in E. destruct (r_stage r) as [|id|id hdr].
  - repeat case_hyp E; simplify_eq; first [by slots_same cl | by apply slots_inv_exception].
  - destruct (connections cl !! id) as [c|]; [|done].
    destruct (read_exactly _ _) as [[b i]|]; [|done]. unfold parse_header_resume in E.
    repeat case_hyp E; simplify_eq; first [by slots_same cl | apply slots_inv_next, slots_inv_refuse; by slots_same cl].
  - destruct (connections cl !! id) as [c|]; [|done].
    destruct (read_exactly _ _) as [[b i]|]; [|done].
    destruct (parse_payload_resume hdr b i (cc_conn c)) as [[opt c']|ex|]; [| |done].
    + set (cl1 := upd_cconn id (fun _ => c') cl) in *.
      assert (slots_inv cl1) as I1 by (by slots_same cl).
      destruct (process_payload id opt cl1) as [cl2|ex|] eqn:P; [| |done]; injection E as <-.
      * by eapply slots_inv_next, slots_inv_process.
      * by apply slots_inv_exception.
    + injection E as <-. by apply slots_inv_exception.
Qed.

Lemma slots_inv_write k st cl cl' : write_step k st cl = Some cl' -> slots_inv cl -> slots_inv cl'.
Proof.
  intros E I. unfold write_step in E. destruct st; repeat case_hyp E; simplify_eq;
    first [by slots_same cl | by apply slots_inv_write_failed].
Qed.

Lemma slots_inv_request k st cl cl' :
  request_step in_filters_ out_filters_ k st cl = Some cl' -> slots_inv cl -> slots_inv cl'.
Proof.
  intros E I. unfold request_step, dispatch_write in E. destruct st; repeat case_hyp E; simplify_eq;
    try by slots_same cl.
  all: match goal with X : _ ≫= _ = Ready ?c |- _ =>
         apply outcome_bind_Ready in X as (g & _ & [= <-]); by slots_same cl end.
Qed.

Lemma slots_inv_stop cl cl' : client_stop cl = Some cl' -> slots_inv cl -> slots_inv cl'.
Proof.
  intros E I. unfold client_stop in E. case_hyp E; simplify_eq.
  slots_same (fail_outstanding_futures cl). by apply slots_inv_fail.
Qed.

Lemma slots_inv_step ev cl cl' : exec ev cl = Some cl' -> slots_inv cl -> slots_inv cl'.
Proof.
  intros E I. destruct ev; simpl in E.
  - injection E as <-. by apply slots_inv_send.
  - case_hyp E; [|done]. by eapply slots_inv_request.
  - case_hyp E; [|done]. by eapply slots_inv_write.
  - case_hyp E; [|done]. by eapply slots_inv_reader.
  - unfold reader_failed in E. repeat case_hyp E; simplify_eq; apply slots_inv_exception; by slots_same cl.
  - unfold reader_timeout in E. repeat case_hyp E; simplify_eq;
      match goal with |- slots_inv (add_reader _ ?c) => slots_same c end; by apply slots_inv_exception.
  - repeat case_hyp E; simplify_eq. by slots_same cl.
  - unfold client_connect in E. case_hyp E; simplify_eq. by slots_same cl.
  - unfold client_connected in E. repeat case_hyp E; simplify_eq; by slots_same cl.
  - unfold client_connect_failed in E. repeat case_hyp E; simplify_eq; by slots_same cl.
  - by eapply slots_inv_stop.
  - unfold client_reconnect in E. destruct (client_stop _) as [cl1|] eqn:S; [|done]. injection E as <-.
    slots_same cl1. by eapply slots_inv_stop, slots_inv_fail.
  - unfold client_reconnected, client_connect in E. repeat case_hyp E; simplify_eq; by slots_same cl.
Qed.
End inv.
