(* ===== verification/ClientLife.v ===== *)
(** * The life of the client's connection

    The second invariant of the client of Client.v: what its gate counts, when
    a connection can be used, and that outstanding requests always have a valid
    connection and a reader. *)

From Stdlib Require Import ZArith Lia.
From stdpp Require Import base gmap list numbers strings.
From coqutil Require Import Byte.
From S2P Require Import Prelude Header Seastar Letter Connection RecvContext Wire Filters Client ClientInv.

(** Fibers inside the gate. *)
Definition q_open (st : request_stage) : Z := match st with q_done _ => 0 | _ => 1 end.
Definition r_live (r : reader) : Z := if live r then 1 else 0.

(** A read that was abandoned is in the middle of a message; the size of a
    header that was read is a [uint32_t]. *)
Definition reader_ok (r : reader) : Prop :=
  (live r = false -> r_stage r <> r_loop) /\
  match r_stage r with r_payload _ hdr => 0 <= hsize hdr | _ => True end.

(** The connection a reader captured. *)
Definition reads (st : read_stage) : option Z :=
  match st with r_loop => None | r_header id | r_payload id _ => Some id end.

Section life.
Context `{Build, GeneratedHeader, Xxhash, Seastar}.
Variable in_filters_ : list (rpc_recv_context -> outcome rpc_recv_context).
Variable out_filters_ : list (rpc_envelope -> outcome rpc_envelope).
Implicit Types cl : client.

Abbreviation exec := (client_exec in_filters_ out_filters_).
Abbreviation reachable := (client_reachable in_filters_ out_filters_).

Definition fibers cl : Z :=
  msum q_open (requests cl) + msum (fun _ => 1) (writes cl) + msum r_live (readers cl).

(** A loop [do_reads] that serves the current connection: it has captured it, or
    it is about to capture [conn_]. *)
Definition serves cl (r : reader) : Prop :=
  live r = true /\ (r_stage r = r_loop \/ exists id, conn_ cl = Some id /\ reads (r_stage r) = Some id).
Definition has_reader cl : Prop := exists k r, readers cl !! k = Some r /\ serves cl r.

(** A write or a request on its way to one. *)
Definition will_write cl : Prop :=
  (exists k st, writes cl !! k = Some st) \/ (exists k e, requests cl !! k = Some (q_outgoing e)).

Record life_inv cl : Prop := mk_life_inv {
  le_gate : gate_count (dispatch_gate_ cl) = fibers cl;
  le_requests : forall k, next_request cl <= k -> requests cl !! k = None;
  le_writes : forall k, next_write cl <= k -> writes cl !! k = None;
  le_readers : forall k, next_reader cl <= k -> readers cl !! k = None;
  le_reads : forall k r id, readers cl !! k = Some r -> reads (r_stage r) = Some id ->
    is_Some (connections cl !! id) /\
    (live r = false -> conn_ cl = Some id -> is_conn_valid cl = false);
  le_ok : map_Forall (fun _ => reader_ok) (readers cl);
  le_conn : forall id, conn_ cl = Some id -> is_Some (connections cl !! id);
  le_next_conn : forall id, next_conn cl <= id -> connections cl !! id = None;
  le_uses : will_write cl -> conn_ cl <> None;
  le_valid : is_conn_valid cl = true -> has_reader cl \/ gate_is_closed (dispatch_gate_ cl) = true;
  le_slots : rpc_slots_ cl <> ∅ ->
    is_conn_valid cl = true /\ has_reader cl /\ gate_is_closed (dispatch_gate_ cl) = false;
  le_undefined : undefined_ cl = false
}.

(** ** Updates of connections *)

(** Everything but the contents of the connections, which keep their validity. *)
Record same_life cl cl' : Prop := mk_same_life {
  sf_gate : dispatch_gate_ cl' = dispatch_gate_ cl;
  sf_requests : requests cl' = requests cl;
  sf_next_request : next_request cl' = next_request cl;
  sf_writes : writes cl' = writes cl;
  sf_next_write : next_write cl' = next_write cl;
  sf_readers : readers cl' = readers cl;
  sf_next_reader : next_reader cl' = next_reader cl;
  sf_conn : conn_ cl' = conn_ cl;
  sf_conns : forall id, is_Some (connections cl' !! id) <-> is_Some (connections cl !! id);
  sf_next_conn : next_conn cl' = next_conn cl;
  sf_valid : is_conn_valid cl' = true -> is_conn_valid cl = true;
  sf_undefined : undefined_ cl' = undefined_ cl
}.

Lemma life_inv_same cl cl' :
  same_life cl cl' -> (rpc_slots_ cl' <> ∅ -> rpc_slots_ cl <> ∅ /\ is_conn_valid cl' = is_conn_valid cl) ->
  life_inv cl -> life_inv cl'.
Proof.
  intros [E1 E2 E3 E4 E5 E6 E7 E8 E9 E10 E11 E12] Sl [A B C D P E F G I J K L].
  constructor; unfold fibers, will_write, has_reader, serves in *;
    rewrite ?E1, ?E2, ?E3, ?E4, ?E5, ?E6, ?E7, ?E8, ?E10, ?E12; try done.
  - intros k r id Er Ed. rewrite E9. destruct (P _ _ _ Er Ed) as [P1 P2]. split; [done|].
    intros Lr Ec. destruct (is_conn_valid cl') eqn:V'; [|done]. by rewrite E11 in P2; [apply P2|].
  - intros id Hid. by apply E9, F.
  - intros id Hid. apply eq_None_not_Some. rewrite E9, G by done. by intros [].
  - intros V. by apply J, E11.
  - intros N. destruct (Sl N) as [N' V]. rewrite V. by apply K.
Qed.

Lemma valid_upd_cconn id f cl :
  (forall c, connections cl !! id = Some c -> is_valid (f (cc_conn c)) = is_valid (cc_conn c)) ->
  is_conn_valid (upd_cconn id f cl) = is_conn_valid cl.
Proof.
  intros F. unfold is_conn_valid. simpl. destruct (conn_ cl) as [j|]; [|done].
  rewrite lookup_alter. case_decide; [subst|done].
  destruct (connections cl !! j) eqn:C; [|done]. simpl. by apply F.
Qed.

Lemma same_life_upd_cconn id f cl :
  (is_conn_valid (upd_cconn id f cl) = true -> is_conn_valid cl = true) ->
  same_life cl (upd_cconn id f cl).
Proof. intros V. constructor; try done. intros j. simpl. by rewrite lookup_alter_is_Some. Qed.

Lemma life_upd_cconn id f cl :
  (forall c, connections cl !! id = Some c -> is_valid (f (cc_conn c)) = is_valid (cc_conn c)) ->
  life_inv cl -> life_inv (upd_cconn id f cl).
Proof.
  intros F. pose proof (valid_upd_cconn id f cl F) as V.
  apply life_inv_same; [apply same_life_upd_cconn; by rewrite V|done].
Qed.

(** ** Failing the outstanding requests *)

Lemma disable_conn_life cl : same_life cl (disable_conn cl) /\ is_conn_valid (disable_conn cl) = false.
Proof.
  unfold disable_conn. destruct (conn_ cl) as [id|] eqn:C.
  2: { split; [done|]. unfold is_conn_valid. by rewrite C. }
  destruct (is_conn_valid cl) eqn:V; [|done]. split.
  - constructor; try done. intros j. simpl. by rewrite !lookup_alter_is_Some.
  - unfold is_conn_valid. simpl. rewrite C, !lookup_alter_eq.
    destruct (connections cl !! id); [|done]. simpl. done.
Qed.

(** Nothing is outstanding and the connection is not valid. *)
Definition failed_state cl : Prop := rpc_slots_ cl = ∅ /\ is_conn_valid cl = false.

Lemma fail_outstanding_life cl :
  slots_inv cl -> same_life cl (fail_outstanding_futures cl) /\ failed_state (fail_outstanding_futures cl).
Proof.
  intros I. rewrite fail_outstanding_spec by done. destruct (disable_conn_life cl) as [[] V].
  split; [by constructor|]. split; [done|]. apply V.
Qed.

Lemma life_fail cl : slots_inv cl -> life_inv cl -> life_inv (fail_outstanding_futures cl).
Proof.
  intros I. destruct (fail_outstanding_life cl I) as [S [E _]].
  apply life_inv_same; [done|]. by rewrite E.
Qed.

Lemma refuse_life id msg cl :
  slots_inv cl -> same_life cl (refuse id msg cl) /\ failed_state (refuse id msg cl).
Proof.
  intros I. unfold refuse. destruct (fail_outstanding_life (upd_cconn id (set_error msg) cl)) as [S E].
  { by apply (slots_inv_same cl). }
  split; [|done]. assert (same_life cl (upd_cconn id (set_error msg) cl)) as S1.
  { apply same_life_upd_cconn. unfold is_conn_valid. simpl. destruct (conn_ cl) as [j|]; [|done].
    rewrite lookup_alter. case_decide; [subst|done].
    destruct (connections cl !! j); [|done]. simpl. by rewrite set_error_invalid. }
  destruct S, S1. constructor; try congruence; [|eauto].
  intros j. rewrite sf_conns0. apply sf_conns1.
Qed.

(** A reader that read something: [eof] can only become true. *)
Lemma same_life_read id c i n b f cl :
  connections cl !! id = Some c -> 0 <= n -> read_exactly (c_istream (cc_conn c)) n = Some (b, i) ->
  (forall x, is_valid (f x) = is_valid x) ->
  same_life cl (upd_cconn id (fun _ => f (with_istream i (cc_conn c))) cl).
Proof.
  intros C Hn R Fv. apply same_life_upd_cconn. unfold is_conn_valid. simpl.
  destruct (conn_ cl) as [j|]; [|done]. rewrite lookup_alter. case_decide; [subst|done].
  rewrite C. simpl. rewrite Fv, !is_valid_spec. simpl. intros (En & Er & Eo). split_and!; try done.
  destruct (read_exactly_inv _ _ _ _ Hn R) as [_ [L|[_ L]]]; [|congruence].
  destruct (read_exactly_eof _ _ _ _ Hn R) as [?|[_ Ee]]; [lia|congruence].
Qed.

Lemma valid_read id c i n b f cl :
  connections cl !! id = Some c -> 0 <= n -> read_exactly (c_istream (cc_conn c)) n = Some (b, i) ->
  blen b = n -> (forall x, is_valid (f x) = is_valid x) ->
  is_conn_valid (upd_cconn id (fun _ => f (with_istream i (cc_conn c))) cl) = is_conn_valid cl.
Proof.
  intros C Hn R L Fv. apply valid_upd_cconn. intros c0 C0. rewrite C in C0. injection C0 as <-. rewrite Fv.
  destruct (read_exactly_eof _ _ _ _ Hn R) as [?|[_ Ee]]; [lia|].
  unfold is_valid, has_error. simpl. by rewrite Ee.
Qed.

(** ** Updates of the fibers *)

Lemma life_set_request k st st' cl :
  requests cl !! k = Some st -> q_open st' = q_open st -> (forall e, st' <> q_outgoing e) ->
  life_inv cl -> life_inv (set_request k st' cl).
Proof.
  intros E Q N [A B C D P S F G I J K L]. constructor; try done; simpl.
  - rewrite A. unfold fibers. simpl. rewrite (msum_update _ _ _ st) by done. lia.
  - intros j Hj. rewrite lookup_insert_ne; [by apply B|]. intros <-. by rewrite B in E.
  - intros [W|(j & e & Ej)]; apply I; [by left|]. simpl in Ej. rewrite lookup_insert in Ej.
    case_decide; [by simplify_eq; destruct (N e)|]. right. eauto.
Qed.

Lemma life_end_request k st r cl :
  requests cl !! k = Some st -> q_open st = 1 -> life_inv cl ->
  life_inv (set_request k (q_done r) (leave_gate cl)).
Proof.
  intros E Q [A B C D P S F G I J K L]. constructor; try done; simpl.
  - rewrite (proj1 (gate_leave_spec _)), A. unfold fibers. simpl.
    rewrite (msum_update _ _ _ st) by done. simpl. lia.
  - intros j Hj. rewrite lookup_insert_ne; [by apply B|]. intros <-. by rewrite B in E.
  - intros [W|(j & e & Ej)]; apply I; [by left|]. simpl in Ej. rewrite lookup_insert in Ej.
    case_decide; [done|]. right. eauto.
  - intros V. rewrite (proj2 (gate_leave_spec _)). by apply J.
  - rewrite (proj2 (gate_leave_spec _)). done.
Qed.

(** A gate that was entered. *)
Lemma gate_enter_Ready g g' :
  gate_enter g = Ready g' -> gate_is_closed g = false /\ gate_count g' = gate_count g + 1 /\ gate_is_closed g' = false.
Proof.
  intros E. destruct (gate_is_closed g) eqn:C; [by rewrite gate_enter_closed in E|].
  destruct (gate_enter_open _ C) as (g2 & E2 & ?). rewrite E2 in E. by simplify_eq.
Qed.

Lemma life_add_write e g k st cl :
  requests cl !! k = Some (q_outgoing e) -> gate_enter (dispatch_gate_ cl) = Ready g -> life_inv cl ->
  life_inv (add_write st (upd_dispatch_gate (fun _ => g) (conn_limits cl))).
Proof.
  intros E Eg [A B C D P S F G I J K L]. apply gate_enter_Ready in Eg as (Cl & Cg & Cl').
  constructor; try done; simpl.
  - rewrite Cg, A. unfold fibers. simpl. rewrite msum_insert by (apply C; lia). lia.
  - intros j Hj. rewrite lookup_insert_ne by lia. apply C. lia.
  - intros _. apply I. right. eauto.
  - intros V. destruct (J V) as [|Z]; [by left|congruence].
  - intros N. by destruct (K N) as (? & ? & _).
  - assert (conn_ cl <> None) as N by (apply I; right; eauto). by destruct (conn_ cl).
Qed.

Lemma life_set_write k st st' cl :
  writes cl !! k = Some st -> life_inv cl -> life_inv (set_write k st' cl).
Proof.
  intros E [A B C D P S F G I J K L]. constructor; try done; simpl.
  - rewrite A. unfold fibers. simpl. rewrite (msum_update _ _ _ st) by done. lia.
  - intros j Hj. rewrite lookup_insert_ne; [by apply C|]. intros <-. by rewrite C in E.
  - intros [W|W]; apply I; [|by right]. left. eauto.
Qed.

Lemma life_write_end k e st cl : writes cl !! k = Some st -> life_inv cl -> life_inv (write_end k e cl).
Proof.
  intros E [A B C D P S F G I J K L]. constructor; try done; simpl.
  - rewrite (proj1 (gate_leave_spec _)), A. unfold fibers. simpl. rewrite (msum_delete _ _ _ st) by done. lia.
  - intros j Hj. apply lookup_delete_None. right. by apply C.
  - intros [(j & st' & Ej)|W]; apply I; [|by right]. simpl in Ej. apply lookup_delete_Some in Ej as [_ Ej].
    left. eauto.
  - intros V. rewrite (proj2 (gate_leave_spec _)). by apply J.
  - rewrite (proj2 (gate_leave_spec _)). done.
Qed.

Lemma has_reader_set k r st cl :
  readers cl !! k = Some r -> (serves cl r -> serves cl (mk_reader st (live r))) ->
  has_reader cl -> has_reader (set_reader k st cl).
Proof.
  intros Er Sv (j & r' & E & Lr). exists j. simpl. rewrite lookup_alter. case_decide; [subst|by eauto].
  rewrite E in Er |- *. injection Er as ->. eexists. split; [done|]. by apply Sv.
Qed.

Lemma life_set_reader k r st cl :
  readers cl !! k = Some r -> reader_ok (mk_reader st (live r)) ->
  (forall id, reads st = Some id -> reads (r_stage r) = Some id \/
     live r = true /\ conn_ cl = Some id /\ is_Some (connections cl !! id)) ->
  life_inv cl -> life_inv (set_reader k st cl).
Proof.
  intros E Ns Rd I0. assert (serves cl r -> serves cl (mk_reader st (live r))) as Sv.
  { intros [Lr Sv]. split; [done|]. simpl. destruct (reads st) as [id|] eqn:Ed; [right|left; by destruct st].
    destruct (Rd id eq_refl) as [Rd'|(_ & Cn & _)]; [|eauto].
    destruct Sv as [Sv|(j & Cn & Sv)]; [by rewrite Sv in Rd'|]. rewrite Sv in Rd'. injection Rd' as ->. eauto. }
  destruct I0 as [A B C D P S F G I J K L]. constructor; try done; simpl.
  - rewrite A. unfold fibers. simpl. rewrite (msum_alter _ _ _ r) by done. unfold r_live. simpl. lia.
  - intros j Hj. apply lookup_alter_None. by apply D.
  - intros j r' id. rewrite lookup_alter_Some. intros [(-> & r0 & Er & ->)|[_ Er]]; [|by apply (P j)].
    rewrite E in Er. injection Er as <-. simpl. intros Ed.
    destruct (Rd id Ed) as [Ed'|(Lr & _ & Cs)]; [by apply (P j)|]. split; [done|congruence].
  - intros j r'. rewrite lookup_alter_Some. intros [(-> & r0 & Er & ->)|[_ Er]]; [|by apply (S j)].
    rewrite E in Er. by injection Er as <-.
  - intros V. destruct (J V) as [R|]; [left|by right]. by eapply has_reader_set.
  - intros N. destruct (K N) as (V & R & Cl). split_and!; [done| |done]. by eapply has_reader_set.
Qed.

(** A live reader ends: nothing is outstanding, the connection is not valid. *)
Lemma life_end_reader k r cl :
  readers cl !! k = Some r -> live r = true -> failed_state cl -> life_inv cl ->
  life_inv (upd_readers (delete k) (leave_gate cl)).
Proof.
  intros E Lr [Es Ev] [A B C D P S F G I J K L]. constructor; try done; simpl.
  - rewrite (proj1 (gate_leave_spec _)), A. unfold fibers. simpl. rewrite (msum_delete _ _ _ r) by done.
    unfold r_live. rewrite Lr. lia.
  - intros j Hj. apply lookup_delete_None. right. by apply D.
  - intros j r' id. rewrite lookup_delete_Some. intros [_ Ej]. by apply (P j).
  - by apply map_Forall_delete.
  - unfold is_conn_valid in *. simpl. by rewrite Ev.
Qed.

(** A read that was abandoned ends. *)
Lemma life_drop_reader k r cl :
  readers cl !! k = Some r -> live r = false -> life_inv cl -> life_inv (upd_readers (delete k) cl).
Proof.
  intros E Lr [A B C D P S F G I J K L].
  assert (has_reader cl -> has_reader (upd_readers (delete k) cl)) as Hr.
  { intros (j & r' & Ej & Lj). exists j, r'. split; [|done]. simpl. apply lookup_delete_Some.
    split; [|done]. intros <-. destruct Lj. congruence. }
  constructor; try done; simpl.
  - rewrite A. unfold fibers. simpl. rewrite (msum_delete _ _ _ r) by done. unfold r_live. rewrite Lr. lia.
  - intros j Hj. apply lookup_delete_None. right. by apply D.
  - intros j r' id. rewrite lookup_delete_Some. intros [_ Ej]. by apply (P j).
  - by apply map_Forall_delete.
  - intros V. destruct (J V); eauto.
  - intros N. destruct (K N) as (? & ? & ?). eauto.
Qed.

(** ** Operations *)

Lemma life_valid_reader cl :
  is_conn_valid cl = true -> gate_is_closed (dispatch_gate_ cl) = false -> life_inv cl -> has_reader cl.
Proof. intros V G I. destruct (le_valid _ I V); [done|congruence]. Qed.

(** A request enters the gate. *)
Lemma life_add_request st g cl cl' :
  life_inv cl -> gate_enter (dispatch_gate_ cl) = Ready g -> dispatch_gate_ cl' = g ->
  requests cl' = <[next_request cl := st]> (requests cl) -> next_request cl' = next_request cl + 1 ->
  writes cl' = writes cl -> next_write cl' = next_write cl -> readers cl' = readers cl ->
  next_reader cl' = next_reader cl -> conn_ cl' = conn_ cl -> connections cl' = connections cl ->
  next_conn cl' = next_conn cl -> undefined_ cl' = undefined_ cl -> q_open st = 1 ->
  (is_conn_valid cl = true \/ rpc_slots_ cl' = rpc_slots_ cl /\ forall e, st <> q_outgoing e) -> life_inv cl'.
Proof.
  intros I Eg G1 R1 R2 W1 W2 D1 D2 C1 C2 C3 U Q V. apply gate_enter_Ready in Eg as (Cl & Cg & Cl').
  assert (is_conn_valid cl' = is_conn_valid cl) as Ev by (unfold is_conn_valid; by rewrite C1, C2).
  assert (is_conn_valid cl = true -> has_reader cl') as Hr.
  { intros V'. pose proof (life_valid_reader cl V' Cl I) as Hr. unfold has_reader, serves in *. by rewrite D1, C1. }
  destruct I as [A B C D P S F G I J K L].
  constructor; unfold fibers, will_write; rewrite ?R1, ?R2, ?W1, ?W2, ?D1, ?D2, ?C1, ?C2, ?C3, ?U, ?Ev; try done.
  - rewrite G1, Cg, A. unfold fibers. rewrite msum_insert by (apply B; lia). lia.
  - intros k Hk. rewrite lookup_insert_ne by lia. apply B. lia.
  - intros [W|(k & e & Ek)]; [apply I; by left|]. rewrite lookup_insert in Ek. case_decide.
    + destruct V as [V|[_ N]]; [|by injection Ek as ->; destruct (N e)].
      unfold is_conn_valid in V. by destruct (conn_ cl).
    + apply I. right. eauto.
  - intros V'. left. by apply Hr.
  - intros N. rewrite G1. destruct V as [V|[Es _]]; [by auto|]. rewrite Es in N. destruct (K N) as (? & ? & _). auto.
Qed.

Lemma life_send e cl : life_inv cl -> life_inv (client_send e cl).
Proof.
  intros I. unfold client_send. destruct (gate_enter _) as [g|ex|] eqn:Eg; [| |done].
  - unfold raw_send. destruct (is_conn_valid (upd_dispatch_gate (fun _ => g) cl)) eqn:V; simpl negb; cbv iota.
    + destruct (DLOG_THROW_IF _ _) as [u|ex|] eqn:T.
      * match goal with |- context [if bool_decide ?P then _ else _] => destruct (bool_decide P) end;
          (eapply (life_add_request _ g cl); try done; by left).
      * eapply (life_add_request _ g cl); try done. by left.
      * unfold DLOG_THROW_IF, LOG_THROW_IF in T. by repeat case_hyp T.
    + eapply (life_add_request _ g cl); try done. by right.
  - destruct I as [A B C D P S F G I J K L]. constructor; try done; simpl.
    + rewrite A. unfold fibers. simpl. rewrite msum_insert by (apply B; lia). simpl. lia.
    + intros k Hk. rewrite lookup_insert_ne by lia. apply B. lia.
    + intros [W|(k & e' & Ek)]; apply I; [by left|]. simpl in Ek. rewrite lookup_insert in Ek.
      case_decide; [done|]. right. eauto.
Qed.

Lemma life_exception k r cl :
  readers cl !! k = Some r -> slots_inv cl -> life_inv cl -> life_inv (reader_exception k r cl).
Proof.
  intros E Is I. unfold reader_exception. destruct (live r) eqn:Lr; [|by eapply life_drop_reader].
  destruct (fail_outstanding_life cl Is) as [S Fs].
  eapply life_end_reader; [by rewrite (sf_readers _ _ S)|done|done|by apply life_fail].
Qed.

Lemma life_next k r cl : readers cl !! k = Some r -> life_inv cl -> life_inv (reader_next k r cl).
Proof.
  intros E I. unfold reader_next. destruct (live r) eqn:Lr; [|by eapply life_drop_reader].
  by eapply life_set_reader; [|rewrite Lr| |].
Qed.

Lemma life_refuse id msg cl cl' :
  slots_inv cl' -> same_life cl cl' -> life_inv cl -> life_inv (refuse id msg cl').
Proof.
  intros Is S I. destruct (refuse_life id msg cl' Is) as [S' [E V]].
  apply (life_inv_same cl); [|by rewrite E|done].
  destruct S, S'. constructor; try congruence. intros j. rewrite sf_conns1. apply sf_conns0.
Qed.

Lemma life_write_failed k e st cl :
  writes cl !! k = Some st -> slots_inv cl -> life_inv cl -> life_inv (write_failed k e cl).
Proof.
  intros E Is I. destruct (fail_outstanding_life cl Is) as [S _].
  eapply life_write_end; [by rewrite (sf_writes _ _ S)|by apply life_fail].
Qed.

Lemma life_write k st cl cl' :
  writes cl !! k = Some st -> write_step k st cl = Some cl' -> slots_inv cl -> life_inv cl -> life_inv cl'.
Proof.
  intros E S Is I. assert (conn_ cl <> None) as Nc by (apply (le_uses _ I); left; eauto).
  unfold write_step in S. destruct st; repeat case_hyp S; simplify_eq;
    try (by eapply life_write_failed); try (by eapply life_write_end);
    try (eapply life_write_end; [done|by apply life_upd_cconn]);
    (eapply life_set_write; [done|]); first [by apply life_upd_cconn | by apply (life_inv_same cl)].
Qed.

Lemma life_request k st cl cl' :
  requests cl !! k = Some st -> request_step in_filters_ out_filters_ k st cl = Some cl' ->
  life_inv cl -> life_inv cl'.
Proof.
  intros E S I. unfold request_step, dispatch_write in S.
  destruct st; repeat case_hyp S; simplify_eq; try (by eapply life_set_request); try (by eapply life_end_request).
  all: match goal with X : _ ≫= _ = Ready ?c |- _ =>
         apply outcome_bind_Ready in X as (g & Eg & [= <-]) end.
  all: eapply life_set_request; [done|done|done|by eapply life_add_write].
Qed.

(** A read that went through: the reader goes on with the header. *)
Lemma life_reader_header k r id c cl cl' :
  readers cl !! k = Some r -> connections cl !! id = Some c -> r_stage r = r_header id ->
  reader_step k r cl = Some cl' -> slots_inv cl -> life_inv cl -> life_inv cl'.
Proof.
  intros E C St S Is I. unfold reader_step in S. rewrite St, C in S.
  destruct (read_exactly _ _) as [[b i]|] eqn:R; [|done]. unfold parse_header_resume in S.
  assert (0 <= kHeaderSize) as Hk by (unfold kHeaderSize; lia).
  set (f := with_parsers (u32 (istream_active_parser (with_istream i (cc_conn c)) - 1))) in *.
  pose proof (same_life_read id c i _ b f cl C Hk R ltac:(done)) as Sr.
  set (cl1 := upd_cconn id _ cl) in *.
  assert (forall msg, life_inv (reader_next k r (refuse id msg cl1))) as Rf.
  { intros msg. assert (slots_inv cl1) as Is1 by (by apply (slots_inv_same cl)).
    apply life_next; [|by eapply life_refuse].
    by rewrite (sf_readers _ _ (proj1 (refuse_life id msg cl1 Is1))). }
  destruct (negb (kHeaderSize =? blen b)) eqn:L; [injection S as <-; apply Rf|].
  destruct (check_header (header_of_bytes b)) as [hdr|] eqn:Ch; injection S as <-; [|apply Rf].
  apply negb_false_iff, Z.eqb_eq in L. eapply life_set_reader; [done| | |].
  - split; [done|]. simpl. assert (header_wf (header_of_bytes b)) as W
      by (apply header_of_bytes_wf; unfold blen, kHeaderSize in *; lia).
    apply check_header_Some in Ch as (_ & _ & _ & _ & ->); [|done].
    destruct W as (_ & _ & _ & W & _). unfold fits_u in W. revert W.
    generalize (header_of_bytes b) as h. intros h. destruct (compression h =? _); simpl; lia.
  - intros j [= <-]. left. by rewrite St.
  - apply (life_inv_same cl); [done| |done]. intros N. split; [done|].
    by apply (valid_read id c i _ b f cl C Hk R).
Qed.

(** What a read that was abandoned does to its connection does not matter. *)
Lemma life_read_stale k r id f cl :
  readers cl !! k = Some r -> live r = false -> reads (r_stage r) = Some id ->
  same_life cl (upd_cconn id f cl) -> life_inv cl -> life_inv (upd_cconn id f cl).
Proof.
  intros E Lr Ed S I. apply (life_inv_same cl); [done| |done]. intros N. split; [done|].
  destruct (le_reads _ I _ _ _ E Ed) as [_ St]. destruct (le_slots _ I N) as [V _].
  unfold is_conn_valid in *. simpl. destruct (conn_ cl) as [j|] eqn:C; [|done].
  rewrite lookup_alter. case_decide; [subst|done]. specialize (St Lr eq_refl). congruence.
Qed.

Lemma life_process id opt cl cl' k r :
  process_payload id opt cl = Ready cl' -> readers cl !! k = Some r -> slots_inv cl ->
  (opt <> None -> life_inv cl) -> (forall msg, life_inv (refuse id msg cl)) ->
  life_inv cl' /\ readers cl' !! k = Some r.
Proof.
  intros P E Is I Rf. unfold process_payload in P. apply outcome_bind_Ready in P as (_ & _ & P).
  assert (forall msg, readers (refuse id msg cl) !! k = Some r) as Er.
  { intros msg. by rewrite (sf_readers _ _ (proj1 (refuse_life id msg cl Is))). }
  destruct opt as [ctx|]; [|injection P as <-; eauto].
  destruct (rpc_slots_ cl !! u16 (ctx_session ctx)) as [j|] eqn:S; injection P as <-; [|eauto].
  destruct (slots_inv_resolve ctx j cl (upd_read_counter (fun n => u64 (n - 1)) cl)) as [-> _]; try done.
  split; [|done]. apply (life_inv_same cl); [done| |by apply I]. simpl. intros N. split; [|done].
  intros Z. by rewrite Z in S.
Qed.

Lemma life_reader_payload k r id hdr c cl cl' :
  readers cl !! k = Some r -> connections cl !! id = Some c -> r_stage r = r_payload id hdr ->
  reader_step k r cl = Some cl' -> slots_inv cl -> life_inv cl -> life_inv cl'.
Proof.
  intros E C St S Is I. unfold reader_step in S. rewrite St, C in S.
  destruct (read_exactly _ _) as [[b i]|] eqn:R; [|done]. unfold parse_payload_resume in S.
  destruct (check_payload_total (remote_address (cc_conn c)) hdr b) as [opt Cp]. rewrite Cp in S. simpl in S.
  assert (0 <= hsize hdr) as Hk.
  { pose proof (le_ok _ I _ _ E) as [_ Hk]. by rewrite St in Hk. }
  pose proof (same_life_read id c i _ b (fun x => x) cl C Hk R ltac:(done)) as Sr. simpl in Sr.
  set (cl1 := upd_cconn id (fun _ => with_istream i (cc_conn c)) cl) in *.
  assert (slots_inv cl1) as Is1 by (by apply (slots_inv_same cl)).
  assert (opt <> None -> life_inv cl1) as I1.
  { intros No. destruct opt as [ctx|]; [|done]. apply check_payload_Some in Cp as (L & _).
    apply (life_inv_same cl); [done| |done]. intros N. split; [done|].
    by apply (valid_read id c i _ b (fun x => x) cl C Hk R). }
  destruct (process_payload id opt cl1) as [cl2|ex|] eqn:P; [| |done]; injection S as <-.
  - destruct (life_process id opt cl1 cl2 k r P) as [I2 E2]; [done..| |by apply life_next].
    intros msg. by eapply life_refuse.
  - (* the debug check of the counter: everything is failed *)
    unfold reader_exception. destruct (fail_outstanding_life cl1 Is1) as [Sf Fs].
    assert (life_inv (fail_outstanding_futures cl1)) as If.
    { apply (life_inv_same cl); [|by rewrite (proj1 Fs)|done].
      destruct Sf, Sr. constructor; try congruence; [|eauto]. intros j. rewrite sf_conns0. apply sf_conns1. }
    destruct (live r) eqn:Lr; [by eapply life_end_reader; [rewrite (sf_readers _ _ Sf)|..]|].
    eapply life_drop_reader; [done|done|]. eapply life_read_stale; [done|done|by rewrite St|done|done].
Qed.

Lemma life_reader_loop k r cl cl' :
  readers cl !! k = Some r -> r_stage r = r_loop ->
  reader_step k r cl = Some cl' -> slots_inv cl -> life_inv cl -> life_inv cl'.
Proof.
  intros E St S Is I. unfold reader_step in S. rewrite St in S.
  assert (live r = true) as Lr.
  { destruct (live r) eqn:Lr; [done|]. by destruct (le_ok _ I _ _ E) as [Ns _]; destruct Ns. }
  destruct (is_conn_valid cl) eqn:V; simpl in S.
  2: { injection S as <-. eapply life_end_reader; [done|done| |done]. split; [|done].
       destruct (decide (rpc_slots_ cl = ∅)) as [|N]; [done|]. apply (le_slots _ I) in N as [? _]. congruence. }
  destruct (conn_ cl) as [id|] eqn:C; [|done]. destruct (connections cl !! id) as [c|] eqn:Cc; [|done].
  destruct (parse_header_begin (cc_conn c)) as [c'|ex|] eqn:P; [| |done]; injection S as <-.
  - unfold parse_header_begin in P. apply outcome_bind_Ready in P as (_ & _ & [= <-]).
    eapply life_set_reader; [done|by split| |].
    + intros j [= <-]. right. split_and!; [done|done|]. simpl. rewrite lookup_alter_eq, Cc. eauto.
    + apply life_upd_cconn; [|done]. intros c0 C0. rewrite Cc in C0. by injection C0 as <-.
  - by apply life_exception.
Qed.

Lemma life_reader_failed k r cl cl' :
  readers cl !! k = Some r -> reader_failed k r cl = Some cl' -> slots_inv cl -> life_inv cl -> life_inv cl'.
Proof.
  intros E S Is I. unfold reader_failed in S. destruct (r_stage r); [done|..]; injection S as <-.
  - apply life_exception; [done|by apply (slots_inv_same cl)|by apply life_upd_cconn].
  - by apply life_exception.
Qed.

Lemma life_reader_timeout k r cl cl' :
  readers cl !! k = Some r -> reader_timeout k r cl = Some cl' -> slots_inv cl -> life_inv cl -> life_inv cl'.
Proof.
  intros E S Is I. unfold reader_timeout in S.
  assert (exists id, reads (r_stage r) = Some id /\ live r = true /\
    cl' = add_reader (mk_reader (r_stage r) false) (reader_exception k r cl)) as (id & Ed & Lr & ->).
  { destruct (r_stage r) as [|id|id hdr]; [done|..]; exists id; by destruct (live r); simplify_eq. }
  clear S. pose proof (life_exception k r cl E Is I) as I1.
  assert (failed_state (reader_exception k r cl)) as Fs.
  { unfold reader_exception. rewrite Lr. apply (fail_outstanding_life cl Is). }
  assert (is_Some (connections (reader_exception k r cl) !! id)) as Cs.
  { unfold reader_exception. rewrite Lr. destruct (fail_outstanding_life cl Is) as [Sf _].
    apply (sf_conns _ _ Sf). by apply (le_reads _ I k r). }
  pose proof (le_ok _ I _ _ E) as [_ Ok]. destruct Fs as [Fs Fv].
  destruct I1 as [A B C D P S F G I1 J K L]. constructor; try done; simpl.
  - rewrite A. unfold fibers. simpl. rewrite msum_insert by (apply D; lia). unfold r_live. simpl. lia.
  - intros j Hj. rewrite lookup_insert_ne by lia. apply D. lia.
  - intros j r' id'. rewrite lookup_insert. case_decide; [|by apply (P j)]. intros [= <-]. simpl.
    rewrite Ed. by intros [= <-].
  - apply map_Forall_insert_2; [|done]. split; [|done]. simpl. intros _ Z. by rewrite Z in Ed.
  - intros V. unfold is_conn_valid in *. simpl in V. by rewrite Fv in V.
Qed.

Lemma life_connected addr i o cl cl' :
  client_connected addr i o cl = Some cl' -> life_inv cl -> life_inv cl'.
Proof.
  intros S [A B C D P Ok F G I J K L]. unfold client_connected in S.
  destruct (_ && _) eqn:Gd; [|done]. rewrite !andb_true_iff, negb_true_iff in Gd. destruct Gd as [[_ Eo] _].
  assert (is_valid (rpc_connection_make addr i o) = true) as V by (apply is_valid_spec; by simpl).
  simpl in S. destruct (gate_enter _) as [g|ex|] eqn:Eg; [| |done]; injection S as <-.
  - apply gate_enter_Ready in Eg as (Cl & Cg & Cl').
    assert (forall j, j = next_reader cl -> <[j := mk_reader r_loop true]> (readers cl) !! j = Some (mk_reader r_loop true))
      as Rn by (intros; apply lookup_insert_eq).
    constructor; try done; simpl.
    + rewrite Cg, A. unfold fibers. simpl. rewrite (msum_insert r_live) by (apply D; lia). unfold r_live. simpl. lia.
    + intros j Hj. rewrite lookup_insert_ne by lia. apply D. lia.
    + intros j r id. rewrite lookup_insert. case_decide; [by intros [= <-]|]. intros Er Ed.
      destruct (P _ _ _ Er Ed) as [[c Cs] _]. split.
      * rewrite lookup_insert. case_decide; eauto.
      * intros _ [= <-]. rewrite G in Cs by lia. done.
    + by apply map_Forall_insert_2.
    + intros id [= <-]. rewrite lookup_insert_eq. eauto.
    + intros id Hid. rewrite lookup_insert_ne by lia. apply G. lia.
    + intros _. left. exists (next_reader cl), (mk_reader r_loop true). split; [by apply Rn|]. split; auto.
    + intros _. split_and!; [unfold is_conn_valid; simpl; by rewrite lookup_insert_eq| |done].
      exists (next_reader cl), (mk_reader r_loop true). split; [by apply Rn|]. split; auto.
  - assert (gate_is_closed (dispatch_gate_ cl) = true) as Cl.
    { destruct (gate_is_closed (dispatch_gate_ cl)) eqn:Cl; [done|].
      destruct (gate_enter_open _ Cl) as (g & Eg' & _). by rewrite Eg' in Eg. }
    constructor; try done; simpl.
    + intros j r id Er Ed. destruct (P _ _ _ Er Ed) as [[c Cs] _]. split.
      * rewrite lookup_insert. case_decide; eauto.
      * intros _ [= <-]. rewrite G in Cs by lia. done.
    + intros id [= <-]. rewrite lookup_insert_eq. eauto.
    + intros id Hid. rewrite lookup_insert_ne by lia. apply G. lia.
    + by right.
    + intros N. destruct (K N) as (_ & _ & Op). congruence.
Qed.

(** An empty gate: no fiber can use the connection. *)
Lemma fibers_zero cl :
  fibers cl = 0 -> ~ will_write cl /\ ~ has_reader cl.
Proof.
  intros Z. unfold fibers in Z.
  assert (map_Forall (fun _ a => 0 <= q_open a) (requests cl)) as Q by (intros ? [] _; simpl; lia).
  assert (map_Forall (fun _ _ => 0 <= 1) (writes cl)) as W by (intros ? ? _; lia).
  assert (map_Forall (fun _ a => 0 <= r_live a) (readers cl)) as R by (intros ? r _; unfold r_live; case_goal; lia).
  pose proof (msum_nonneg q_open _ Q). pose proof (msum_nonneg (fun _ => 1) _ W).
  pose proof (msum_nonneg r_live _ R).
  split.
  - intros [(k & st & E)|(k & e & E)].
    + pose proof (msum_ge (fun _ => 1) _ _ _ W E). simpl in *. lia.
    + pose proof (msum_ge q_open _ _ _ Q E). simpl in *. lia.
  - intros (k & r & E & Lr & _). pose proof (msum_ge r_live _ _ _ R E) as G.
    assert (r_live r = 1) by (unfold r_live; by rewrite Lr). lia.
Qed.

Lemma life_reconnected cl cl' : client_reconnected cl = Some cl' -> life_inv cl -> life_inv cl'.
Proof.
  intros S I. unfold client_reconnected in S. destruct (_ && _) eqn:Gd; [|done].
  apply andb_true_iff in Gd as [_ Gd]. apply Z.eqb_eq in Gd.
  assert (is_conn_valid (upd_conn (fun _ => None) (upd_dispatch_gate (fun _ => gate_new)
    (upd_reconnecting (fun n => n - 1) cl))) = false) as V by done.
  unfold client_connect in S. rewrite V in S. destruct (negb _); injection S as <-; [by apply (life_inv_same cl)|].
  destruct I as [A B C D P Ok F G I J K L]. rewrite A in Gd. destruct (fibers_zero cl Gd) as [Nw Nr].
  constructor; try done; simpl.
  - rewrite (proj1 gate_new_spec). symmetry. exact Gd.
  - intros k r id Er Ed. split; [by apply (P k r)|done].
  - intros N. by destruct (K N) as (_ & ? & _).
Qed.

Lemma life_stop cl cl' : client_stop cl = Some cl' -> slots_inv cl -> life_inv cl -> life_inv cl'.
Proof.
  intros S Is I. unfold client_stop in S. case_hyp S; simplify_eq.
  pose proof (life_fail cl Is I) as I1. destruct (fail_outstanding_life cl Is) as [_ [Es Ev]].
  destruct I1 as [A B C D P Ok F G I1 J K L]. constructor; try done; simpl.
  - by rewrite (proj1 (gate_close_spec _)).
  - intros V. unfold is_conn_valid in *. simpl in V. by rewrite Ev in V.
Qed.

Definition client_inv cl : Prop := slots_inv cl /\ life_inv cl.

Lemma client_inv_step ev cl cl' : exec ev cl = Some cl' -> client_inv cl -> client_inv cl'.
Proof.
  intros E [Is I]. split; [by eapply slots_inv_step|]. destruct ev; simpl in E.
  - injection E as <-. by apply life_send.
  - destruct (requests cl !! k) eqn:R; [|done]. by eapply life_request.
  - destruct (writes cl !! k) eqn:W; [|done]. by eapply life_write.
  - destruct (readers cl !! k) as [r|] eqn:R; [|done]. destruct (r_stage r) as [|id|id hdr] eqn:St.
    + by eapply life_reader_loop.
    + destruct (le_reads _ I _ _ id R ltac:(by rewrite St)) as [[c C] _]. by eapply life_reader_header.
    + destruct (le_reads _ I _ _ id R ltac:(by rewrite St)) as [[c C] _]. by eapply life_reader_payload.
  - destruct (readers cl !! k) as [r|] eqn:R; [|done]. by eapply life_reader_failed.
  - destruct (readers cl !! k) as [r|] eqn:R; [|done]. by eapply life_reader_timeout.
  - destruct (connections cl !! id) as [c|] eqn:C; [|done]. destruct (_ && _) eqn:G; [|done].
    injection E as <-. apply andb_true_iff in G as [_ G]. apply bool_decide_eq_true in G.
    apply life_upd_cconn; [|done]. intros c0 C0. rewrite C in C0. injection C0 as <-.
    unfold is_valid, has_error. simpl. by rewrite G.
  - unfold client_connect in E. case_hyp E; simplify_eq. by apply (life_inv_same cl).
  - by eapply life_connected.
  - unfold client_connect_failed in E. repeat case_hyp E; simplify_eq; by apply (life_inv_same cl).
  - by eapply life_stop.
  - unfold client_reconnect in E. destruct (client_stop _) as [cl1|] eqn:S; [|done]. injection E as <-.
    apply (life_inv_same cl1); [done|done|]. eapply life_stop; [done|by apply slots_inv_fail|by apply life_fail].
  - by eapply life_reconnected.
Qed.

Lemma reachable_client_inv opts cl : reachable opts cl -> client_inv cl.
Proof.
  apply client_reachable_inv.
  - split; constructor; simpl; try done.
    + rewrite (proj1 gate_new_spec). unfold fibers. simpl. by rewrite !msum_empty.
    + by intros [(k & st & E)|(k & e & E)].
  - intros ev c c' I E. by eapply client_inv_step.
Qed.

End life.
