(* ===== verification/ClientWrites.v ===== *)
(** * Requests on the wire

    The requests of a client are written concurrently; over every execution of
    the client of Client.v one of them at a time is between its header and its
    flush, so that while the connection is valid the output grows by complete
    frames and at most one header whose body follows. *)

From Stdlib Require Import ZArith Lia.
From stdpp Require Import base gmap list numbers strings.
From coqutil Require Import Byte.
From S2P Require Import Prelude Header Seastar Letter Connection RecvContext Wire Filters Client ClientInv ClientLife.

(** The write is inside [with_semaphore(serialize_writes_, 1, ...)]. *)
Definition w_holds (st : write_stage) : Z :=
  match st with w_units _ | w_lock _ => 0 | _ => 1 end.

(** The envelope of a write. *)
Definition w_env (st : write_stage) : rpc_envelope :=
  match st with w_units e | w_lock e | w_header e | w_body _ e | w_flush _ e => e end.

Section writes.
Context `{Build, GeneratedHeader, Xxhash, Seastar}.
Variable in_filters_ : list (rpc_recv_context -> outcome rpc_recv_context).
Variable out_filters_ : list (rpc_envelope -> outcome rpc_envelope).
Implicit Types cl : client.

Abbreviation exec := (client_exec in_filters_ out_filters_).
Abbreviation reachable := (client_reachable in_filters_ out_filters_).

(** ** The lock *)

Record lock_inv cl : Prop := mk_lock_inv {
  lk_count : sem_count (serialize_writes_ cl) = 1 - msum w_holds (writes cl);
  lk_nonneg : 0 <= sem_count (serialize_writes_ cl)
}.

Definition same_lock cl cl' : Prop :=
  serialize_writes_ cl' = serialize_writes_ cl /\ writes cl' = writes cl.

#[local] Instance same_lock_preorder : PreOrder same_lock.
Proof. split; [done|]. intros a b c [? ?] [? ?]. split; congruence. Qed.

Lemma lock_same cl cl' : same_lock cl cl' -> lock_inv cl -> lock_inv cl'.
Proof. intros [L W] [A B]. constructor; by rewrite L, ?W. Qed.

Lemma fail_slots_lock l cl : same_lock cl (fail_slots l cl).
Proof.
  revert cl. induction l as [|[s k] l IH]; intros cl; [done|]. simpl. etransitivity; [|apply IH].
  unfold resolve. by repeat case_goal.
Qed.

Lemma fail_lock cl : same_lock cl (fail_outstanding_futures cl).
Proof.
  unfold fail_outstanding_futures. etransitivity; [|apply fail_slots_lock].
  unfold disable_conn. by repeat case_goal.
Qed.

Lemma refuse_lock id msg cl : same_lock cl (refuse id msg cl).
Proof. unfold refuse. etransitivity; [|apply fail_lock]. done. Qed.

Lemma exception_lock k r cl cl' : same_lock cl cl' -> same_lock cl (reader_exception k r cl').
Proof.
  intros S. unfold reader_exception. case_goal; [|done].
  etransitivity; [apply S|]. etransitivity; [apply fail_lock|done].
Qed.

Lemma next_lock k r cl cl' : same_lock cl cl' -> same_lock cl (reader_next k r cl').
Proof. intros S. unfold reader_next. by case_goal. Qed.

Lemma reader_lock k r cl cl' : reader_step k r cl = Some cl' -> same_lock cl cl'.
Proof.
  unfold reader_step. intros S. destruct (r_stage r) as [|id|id hdr].
  - repeat case_hyp S; simplify_eq; first [done | by apply exception_lock].
  - repeat case_hyp S; simplify_eq; [done|]. apply next_lock. etransitivity; [|apply refuse_lock]. done.
  - repeat case_hyp S; simplify_eq; try (by apply exception_lock).
    apply next_lock. unfold process_payload in *.
    match goal with X : _ ≫= _ = Ready _ |- _ => apply outcome_bind_Ready in X as (_ & _ & X); rename X into P end.
    repeat case_hyp P; simplify_eq; try (etransitivity; [|apply refuse_lock]; done).
    unfold resolve. by repeat case_goal.
Qed.

Lemma w_holds_nonneg (m : gmap Z write_stage) : map_Forall (fun _ st => 0 <= w_holds st) m.
Proof. intros k [] _; simpl; lia. Qed.

Lemma lock_write_end k e st cl cl' :
  writes cl !! k = Some st -> w_holds st = 1 -> same_lock cl cl' -> lock_inv cl -> lock_inv (write_end k e cl').
Proof.
  intros E Wh S I. apply (lock_same cl cl' S) in I. destruct S as [L W], I as [A B].
  rewrite <- W in E. pose proof (msum_delete w_holds _ _ _ E) as D.
  pose proof (msum_nonneg w_holds _ (w_holds_nonneg (delete k (writes cl')))) as N.
  assert (sem_count (sem_signal (serialize_writes_ cl') 1) = 1 - msum w_holds (delete k (writes cl'))) as Sc.
  { rewrite sem_signal_count, A, wrap_s_small; unfold fits_s; lia. }
  constructor; simpl; rewrite Sc; [done|]. lia.
Qed.

Lemma lock_write k st cl cl' :
  writes cl !! k = Some st -> write_step k st cl = Some cl' -> lock_inv cl -> lock_inv cl'.
Proof.
  intros E S I. assert (forall st' cl1, w_holds st' = w_holds st -> same_lock cl cl1 ->
    lock_inv (set_write k st' cl1)) as Mv.
  { intros st' cl1 Wh Sb. apply (lock_same cl cl1 Sb) in I. destruct Sb as [_ W], I as [A B].
    constructor; [|done]. simpl. rewrite (msum_update _ _ _ st) by (by rewrite W). lia. }
  unfold write_step in S. destruct st; repeat case_hyp S; simplify_eq; try (by apply Mv);
    try (by eapply lock_write_end); try (by eapply lock_write_end; [..|apply fail_lock|]);
    try (by apply (lock_same cl)).
  match goal with X : sem_wait _ _ = Some _ |- _ => apply sem_wait_granted in X as [Wn Ws] end.
  destruct I as [A B]. constructor; simpl; rewrite ?(msum_update _ _ _ _ _ E); simpl; lia.
Qed.

Lemma lock_step ev cl cl' : life_inv cl -> exec ev cl = Some cl' -> lock_inv cl -> lock_inv cl'.
Proof.
  intros L E I. destruct ev; simpl in E.
  - injection E as <-. apply (lock_same cl); [|done]. unfold client_send, raw_send. by repeat case_goal.
  - destruct (requests cl !! k) as [st|]; [|done]. unfold request_step, dispatch_write in E.
    destruct st; repeat case_hyp E; simplify_eq; try (by apply (lock_same cl)).
    match goal with X : _ ≫= _ = Ready _ |- _ => apply outcome_bind_Ready in X as (g & _ & [= <-]) end.
    destruct I as [A B]. constructor; [|done]. simpl.
    rewrite msum_insert by (apply (le_writes _ L); lia). simpl. lia.
  - destruct (writes cl !! k) as [st|] eqn:W; [|done]. by eapply lock_write.
  - destruct (readers cl !! k); [|done]. eapply lock_same; [by eapply reader_lock|done].
  - unfold reader_failed in E. repeat case_hyp E; simplify_eq; (apply (lock_same cl); [by apply exception_lock|done]).
  - unfold reader_timeout in E. repeat case_hyp E; simplify_eq;
      (apply (lock_same cl); [|done]; etransitivity; [by apply (exception_lock k r cl cl)|done]).
  - repeat case_hyp E; simplify_eq. by apply (lock_same cl).
  - unfold client_connect in E. case_hyp E; simplify_eq. by apply (lock_same cl).
  - unfold client_connected in E. repeat case_hyp E; simplify_eq; by apply (lock_same cl).
  - unfold client_connect_failed in E. repeat case_hyp E; simplify_eq; by apply (lock_same cl).
  - unfold client_stop in E. case_hyp E; simplify_eq. eapply lock_same; [|done].
    etransitivity; [apply fail_lock|done].
  - unfold client_reconnect, client_stop in E. repeat case_hyp E; simplify_eq. eapply lock_same; [|done].
    etransitivity; [apply fail_lock|]. etransitivity; [apply fail_lock|done].
  - unfold client_reconnected, client_connect in E. repeat case_hyp E; simplify_eq; by apply (lock_same cl).
Qed.

Lemma reachable_lock opts cl : reachable opts cl -> lock_inv cl.
Proof.
  intros R. assert (lock_inv cl /\ client_inv cl) as [I _]; [|done]. revert cl R.
  apply (client_reachable_inv in_filters_ out_filters_ opts (fun c => lock_inv c /\ client_inv c)).
  - split; [|by apply (reachable_client_inv in_filters_ out_filters_ opts), rtc_refl].
    constructor; simpl; rewrite ?msum_empty, sem_make_count by (unfold fits_s; lia); lia.
  - intros ev c c' [I Ic] E. split; [by eapply (lock_step ev c); [apply Ic|..]|by eapply (client_inv_step in_filters_ out_filters_)].
Qed.

(** One write at a time. *)
Lemma one_write cl k k' st st' :
  lock_inv cl -> writes cl !! k = Some st -> writes cl !! k' = Some st' ->
  w_holds st = 1 -> w_holds st' = 1 -> k' = k.
Proof.
  intros [A B] E E' W W'. destruct (decide (k' = k)) as [|N]; [done|]. exfalso.
  pose proof (msum_ge2 w_holds (writes cl) k k' st st' (w_holds_nonneg _) E E' ltac:(done)). lia.
Qed.

(** ** The output of a connection *)

Definition client_out (id : Z) cl : list byte :=
  match connections cl !! id with Some c => written (c_ostream (cc_conn c)) | None => [] end.

(** [t]: what is missing of the frame that is being written. *)
Definition half_sent cl (t : list byte) : Prop :=
  (exists k id e, writes cl !! k = Some (w_body id e) /\ t = body (letter e)) \/
  ((forall k id e, writes cl !! k <> Some (w_body id e)) /\ t = []).

Lemma half_sent_same cl cl' t : writes cl' = writes cl -> half_sent cl t -> half_sent cl' t.
Proof. intros W. unfold half_sent. by rewrite W. Qed.

(** A holder that is not between header and body: nothing is missing. *)
Lemma half_sent_holder cl k st t :
  lock_inv cl -> writes cl !! k = Some st -> w_holds st = 1 -> (forall id e, st <> w_body id e) ->
  half_sent cl t -> t = [].
Proof.
  intros I E W N [(k' & id & e & E' & ->)|[_ ->]]; [|done].
  rewrite (one_write cl k k' st _ I E E' W) in E' by done. rewrite E in E'. injection E' as ->. by destruct (N id e).
Qed.

Lemma half_sent_body cl k id e t :
  lock_inv cl -> writes cl !! k = Some (w_body id e) -> half_sent cl t -> t = body (letter e).
Proof.
  intros I E [(k' & id' & e' & E' & ->)|[N _]]; [|by destruct (N _ _ _ E)].
  rewrite (one_write cl k k' _ _ I E E') in E' by done. rewrite E in E'. by simplify_eq.
Qed.

(** A write that moves on, other than to or from the body. *)
Lemma half_sent_move cl cl' k st st' t :
  writes cl !! k = Some st -> (forall id e, st <> w_body id e) -> (forall id e, st' <> w_body id e) ->
  writes cl' = <[k := st']> (writes cl) -> half_sent cl t -> half_sent cl' t.
Proof.
  intros E N N' W [(k' & id & e & E' & ->)|[Nb ->]]; [left|right]; rewrite W.
  - exists k', id, e. split; [|done]. rewrite lookup_insert_ne; [done|]. intros <-.
    rewrite E in E'. injection E' as ->. by destruct (N id e).
  - split; [|done]. intros k' id e. rewrite lookup_insert. case_decide; [|done]. intros [= ?]. by eapply N'.
Qed.

Lemma half_sent_add cl cl' e t :
  life_inv cl -> writes cl' = <[next_write cl := w_units e]> (writes cl) -> half_sent cl t -> half_sent cl' t.
Proof.
  intros L W [(k & id & e0 & E & ->)|[N ->]]; [left|right]; rewrite W.
  - exists k, id, e0. split; [|done]. rewrite lookup_insert_ne; [done|]. intros <-.
    by rewrite (le_writes _ L) in E by lia.
  - split; [|done]. intros k id e0. rewrite lookup_insert. by case_decide.
Qed.

(** ** Steps of a client that keeps its connection *)

(** Events that neither send nor connect; the environment delivers bytes. *)
Definition local_event (ev : client_event) : bool :=
  match ev with
  | ce_request _ | ce_write _ | ce_reader _ | ce_reader_failed _ | ce_reader_timeout _ | ce_stop => true
  | _ => false
  end.

(** The step only failed promises, and the connection is not valid after it. *)
Record fails_only cl cl' : Prop := mk_fails_only {
  fo_requests : requests cl' = requests cl;
  fo_next : next_request cl' = next_request cl;
  fo_session : session_idx_ cl' = session_idx_ cl;
  fo_conn : conn_ cl' = conn_ cl;
  fo_writes : forall j st, writes cl' !! j = Some st -> writes cl !! j = Some st;
  fo_works : forall j w, works cl' !! j = Some w -> works cl !! j = Some w \/
    exists ex, w = mk_work (set_exception ex) (w_session w) /\ works cl !! j = Some (mk_work unresolved (w_session w));
  fo_invalid : is_conn_valid cl' = false
}.

(** Other fields do not matter. *)
Lemma fails_only_frame cl0 cl cl1 cl2 :
  requests cl = requests cl0 -> next_request cl = next_request cl0 -> session_idx_ cl = session_idx_ cl0 ->
  conn_ cl = conn_ cl0 -> writes cl = writes cl0 -> works cl = works cl0 ->
  requests cl2 = requests cl1 -> next_request cl2 = next_request cl1 -> session_idx_ cl2 = session_idx_ cl1 ->
  conn_ cl2 = conn_ cl1 -> (forall j st, writes cl2 !! j = Some st -> writes cl1 !! j = Some st) ->
  works cl2 = works cl1 -> connections cl2 = connections cl1 ->
  fails_only cl cl1 -> fails_only cl0 cl2.
Proof.
  intros E1 E2 E3 E4 E5 E6 F1 F2 F3 F4 F5 F6 F7 [A B C D E F G]. constructor; try congruence.
  - intros j st Hj. rewrite <- E5. by apply E, F5.
  - intros j w. rewrite F6, <- E6. apply F.
  - unfold is_conn_valid in *. by rewrite F4, F7.
Qed.

Lemma fails_only_fail cl : slots_inv cl -> fails_only cl (fail_outstanding_futures cl).
Proof.
  intros I. destruct (fail_outstanding_life cl I) as [S [_ V]].
  pose proof (fail_outstanding_spec cl I) as E. destruct (disable_conn_frame cl) as [W _].
  constructor; try apply S; [..|done].
  - rewrite E. simpl. unfold disable_conn. by repeat case_goal.
  - intros j st. by rewrite (sf_writes _ _ S).
  - intros j w. rewrite E. simpl. rewrite W, map_lookup_imap.
    destruct (works cl !! j) as [w0|] eqn:Wj; [|done]. simpl. unfold fail_work. case_bool_decide as Sl.
    + intros [= <-]. right. exists remote_connection_error. split; [done|]. simpl.
      apply (si_slots _ I) in Sl. congruence.
    + intros [= <-]. by left.
Qed.

Ltac fails_tac cl1 := eapply (fails_only_frame _ cl1); [..|by apply fails_only_fail];
  try done; simpl; try (intros ? ?; rewrite lookup_delete_Some; by intros []).

Lemma refuse_fails id msg j f cl k r :
  slots_inv cl -> fails_only cl (reader_next k r (refuse id msg (upd_cconn j f cl))).
Proof.
  intros I. unfold reader_next, refuse. set (cl1 := upd_cconn id (set_error msg) (upd_cconn j f cl)).
  assert (slots_inv cl1) by (by apply (slots_inv_same cl)).
  case_goal; fails_tac cl1.
Qed.

(** An exception of a reader, after an update of its connection. *)
Lemma exception_fails k r id f cl :
  slots_inv cl -> (live r = false -> is_conn_valid cl = false) ->
  (is_conn_valid (upd_cconn id f cl) = true -> is_conn_valid cl = true) ->
  fails_only cl (reader_exception k r (upd_cconn id f cl)).
Proof.
  intros I L V. unfold reader_exception. destruct (live r).
  - set (cl1 := upd_cconn id f cl). assert (slots_inv cl1) by (by apply (slots_inv_same cl)). fails_tac cl1.
  - constructor; try done; [by left|]. apply not_true_iff_false. intros V'.
    rewrite V in L by apply V'. by specialize (L eq_refl).
Qed.

Lemma client_out_upd j id f cl :
  (forall c, connections cl !! id = Some c -> c_ostream (f (cc_conn c)) = c_ostream (cc_conn c)) ->
  client_out j (upd_cconn id f cl) = client_out j cl.
Proof.
  intros F. unfold client_out. simpl. rewrite lookup_alter. case_decide; [subst|done].
  destruct (connections cl !! j) eqn:C; [|done]. simpl. by rewrite F.
Qed.

(** What the reader does when the connection stays valid. *)
Inductive reads_on (k : Z) (r : reader) cl : client -> Prop :=
| ro_begin id c : r_stage r = r_loop -> conn_ cl = Some id -> connections cl !! id = Some c ->
    is_valid (cc_conn c) = true ->
    reads_on k r cl (set_reader k (r_header id)
      (upd_cconn id (fun _ => with_parsers (u32 (istream_active_parser (cc_conn c) + 1)) (cc_conn c)) cl))
| ro_header id c b i hdr : r_stage r = r_header id -> connections cl !! id = Some c ->
    read_exactly (c_istream (cc_conn c)) kHeaderSize = Some (b, i) -> blen b = kHeaderSize ->
    check_header (header_of_bytes b) = Some hdr ->
    reads_on k r cl (set_reader k (r_payload id hdr) (upd_cconn id (fun _ =>
      with_parsers (u32 (istream_active_parser (cc_conn c) - 1)) (with_istream i (cc_conn c))) cl))
| ro_payload id c b i hdr ctx w : r_stage r = r_payload id hdr -> connections cl !! id = Some c ->
    read_exactly (c_istream (cc_conn c)) (hsize hdr) = Some (b, i) ->
    check_payload (remote_address (cc_conn c)) hdr b = Ready (Some ctx) ->
    rpc_slots_ cl !! u16 (ctx_session ctx) = Some w -> works cl !! w = Some (mk_work unresolved (u16 (ctx_session ctx))) ->
    reads_on k r cl (reader_next k r (upd_rpc_slots (delete (u16 (ctx_session ctx)))
      (upd_works (insert w (mk_work (set_value (Some ctx)) (u16 (ctx_session ctx))))
        (upd_read_counter (fun n => u64 (n - 1)) (upd_cconn id (fun _ => with_istream i (cc_conn c)) cl))))).

Lemma reader_step_cases k r cl cl' :
  slots_inv cl -> reader_ok r -> (live r = false -> is_conn_valid cl = false) ->
  reader_step k r cl = Some cl' -> reads_on k r cl cl' \/ fails_only cl cl'.
Proof.
  intros Is [_ Ok] Lr S. unfold reader_step in S. destruct (r_stage r) as [|id|id hdr] eqn:St.
  - destruct (is_conn_valid cl) eqn:V; simpl in S.
    + pose proof V as V'. unfold is_conn_valid in V'.
      destruct (conn_ cl) as [id|] eqn:C; [|done]. destruct (connections cl !! id) as [c|] eqn:Cc; [|done].
      destruct (parse_header_begin (cc_conn c)) as [c'|ex|] eqn:P; [| |done]; injection S as <-.
      * apply outcome_bind_Ready in P as (_ & _ & [= <-]). left. by apply ro_begin.
      * right. unfold reader_exception. destruct (live r); [fails_tac cl|by specialize (Lr eq_refl)].
    + injection S as <-. right. constructor; try done. by left.
  - destruct (connections cl !! id) as [c|] eqn:Cc; [|done].
    destruct (read_exactly _ _) as [[b i]|] eqn:R; [|done]. unfold parse_header_resume in S.
    destruct (negb (kHeaderSize =? blen b)) eqn:L; [injection S as <-; right; by apply refuse_fails|].
    destruct (check_header (header_of_bytes b)) as [hdr|] eqn:Ch; injection S as <-;
      [|right; by apply refuse_fails].
    apply negb_false_iff, Z.eqb_eq in L. left. by eapply ro_header.
  - destruct (connections cl !! id) as [c|] eqn:Cc; [|done].
    destruct (read_exactly _ _) as [[b i]|] eqn:R; [|done]. unfold parse_payload_resume in S.
    destruct (check_payload_total (remote_address (cc_conn c)) hdr b) as [opt Cp]. rewrite Cp in S. simpl in S.
    unfold process_payload in S.
    destruct (DLOG_THROW_IF _ _) as [[]|ex|] eqn:D; simpl in S; [| |done].
    2: { injection S as <-. right. apply exception_fails; [done..|].
         apply (same_life_read id c i (hsize hdr) b (fun x => x)); done. }
    destruct opt as [ctx|]; [|injection S as <-; right; by apply refuse_fails].
    simpl in S. destruct (rpc_slots_ cl !! u16 (ctx_session ctx)) as [w|] eqn:Sl; injection S as <-;
      [|right; by apply refuse_fails].
    set (cl1 := upd_cconn id (fun _ => with_istream i (cc_conn c)) cl).
    assert (slots_inv cl1) as Is1 by (by apply (slots_inv_same cl)). left.
    destruct (slots_inv_resolve ctx w cl1 (upd_read_counter (fun n => u64 (n - 1)) cl1)) as [-> _]; try done.
    eapply ro_payload; [done..|]. by apply (si_slots _ Is).
Qed.

(** A request whose outgoing filters ran. *)
Inductive asks_on (k : Z) cl : client -> Prop :=
| ao_write e e' g : requests cl !! k = Some (q_outgoing e) -> rpc_filter_apply out_filters_ e = Ready e' ->
    asks_on k cl (set_request k q_wait (add_write (w_units e') (upd_dispatch_gate (fun _ => g) (conn_limits cl))))
| ao_failed ex : asks_on k cl (set_request k (q_end (Failed ex)) cl)
| ao_none s : requests cl !! k = Some q_wait -> works cl !! k = Some (mk_work (set_value None) s) ->
    asks_on k cl (set_request k (q_end (Ready None)) cl)
| ao_value ctx s : requests cl !! k = Some q_wait -> works cl !! k = Some (mk_work (set_value (Some ctx)) s) ->
    asks_on k cl (set_request k (q_incoming ctx) cl)
| ao_answer ctx ctx' : requests cl !! k = Some (q_incoming ctx) -> rpc_filter_apply in_filters_ ctx = Ready ctx' ->
    compression (ctx_header ctx') = flag_value compression_flags_none ->
    asks_on k cl (set_request k (q_end (Ready (Some ctx'))) cl)
| ao_end r : requests cl !! k = Some (q_end r) -> asks_on k cl (set_request k (q_done r) (leave_gate cl)).

Lemma request_step_cases k st cl cl' :
  requests cl !! k = Some st -> request_step in_filters_ out_filters_ k st cl = Some cl' -> asks_on k cl cl'.
Proof.
  intros E S. unfold request_step, dispatch_write in S. destruct st as [e| |ctx|r|r]; [| | | |done].
  - destruct (rpc_filter_apply out_filters_ e) as [e'|ex|] eqn:F; [|injection S as <-; apply ao_failed|done].
    destruct (gate_enter (dispatch_gate_ cl)) as [g|ex|]; simpl in S; [| |done]; injection S as <-;
      [by eapply ao_write|apply ao_failed].
  - destruct (works cl !! k) as [[[|[ctx|]|ex] s]|] eqn:W; try done; injection S as <-;
      [by eapply ao_value|by eapply ao_none|apply ao_failed].
  - destruct (rpc_filter_apply in_filters_ ctx) as [ctx'|ex|] eqn:F; simpl in S; [| |done].
    + unfold LOG_THROW_IF in S. destruct (negb _) eqn:C; simpl in S; injection S as <-; [apply ao_failed|].
      apply negb_false_iff, Z.eqb_eq in C. by eapply ao_answer.
    + injection S as <-. apply ao_failed.
  - injection S as <-. by eapply ao_end.
Qed.

(** A write whose connection stays valid. *)
Inductive writes_on (k : Z) cl : client -> Prop :=
| wo_units e s : writes cl !! k = Some (w_units e) ->
    writes_on k cl (set_write k (w_lock e) (upd_limits (fun l =>
      mk_limits _ (max_memory l) (max_body_parsing_duration l) s) cl))
| wo_lock e s : writes cl !! k = Some (w_lock e) ->
    writes_on k cl (set_write k (w_header e) (upd_serialize_writes (fun _ => s) cl))
| wo_refused e : writes cl !! k = Some (w_header e) -> writes_on k cl (write_end k e cl)
| wo_header id c e o : writes cl !! k = Some (w_header e) -> conn_ cl = Some id -> connections cl !! id = Some c ->
    written o = written (c_ostream (cc_conn c)) ++ header_to_bytes (lheader (letter e)) ->
    writes_on k cl (set_write k (w_body id e) (upd_cconn id (with_ostream o) cl))
| wo_body id c e o : writes cl !! k = Some (w_body id e) -> connections cl !! id = Some c ->
    written o = written (c_ostream (cc_conn c)) ++ body (letter e) ->
    writes_on k cl (set_write k (w_flush id e) (upd_cconn id (with_ostream o) cl))
| wo_flush id c e o : writes cl !! k = Some (w_flush id e) -> connections cl !! id = Some c ->
    written o = written (c_ostream (cc_conn c)) ->
    writes_on k cl (write_end k e (upd_cconn id (with_ostream o) cl)).

Lemma write_step_cases k st cl cl' :
  slots_inv cl -> writes cl !! k = Some st -> write_step k st cl = Some cl' -> conn_ cl <> None ->
  writes_on k cl cl' \/ fails_only cl cl'.
Proof.
  intros I E S Nc. unfold write_step in S. destruct st; repeat case_hyp S; simplify_eq;
    try (right; unfold write_failed, write_end; fails_tac cl; by intros ? ?; rewrite lookup_delete_Some; intros []); left.
  - by eapply wo_units.
  - by eapply wo_lock.
  - eapply wo_header; [done..|]. by apply owrite_written.
  - by eapply wo_refused.
  - eapply wo_body; [done..|]. by apply owrite_written.
  - eapply wo_flush; [done..|]. by apply oflush_written.
Qed.

(** Every step of a client that neither sends nor connects. *)
Lemma local_cases ev cl cl' :
  client_inv cl -> (forall k r, readers cl !! k = Some r -> live r = false -> is_conn_valid cl = false) ->
  local_event ev = true -> exec ev cl = Some cl' ->
  (exists k, asks_on k cl cl') \/ (exists k, writes_on k cl cl') \/
  (exists k r, readers cl !! k = Some r /\ reads_on k r cl cl') \/ fails_only cl cl'.
Proof.
  intros [Is Li] Dead Loc E. destruct ev; try done; simpl in E.
  - destruct (requests cl !! k) as [st|] eqn:Q; [|done]. left. exists k. by eapply request_step_cases.
  - destruct (writes cl !! k) as [st|] eqn:W; [|done].
    destruct (write_step_cases k st cl cl') as [?|?]; eauto.
    apply (le_uses _ Li). left. eauto.
  - destruct (readers cl !! k) as [r|] eqn:R; [|done].
    destruct (reader_step_cases k r cl cl') as [?|?]; eauto 7. by apply (le_ok _ Li k).
  - destruct (readers cl !! k) as [r|] eqn:R; [|done]. do 3 right. unfold reader_failed in E.
    destruct (r_stage r) as [|id|id hdr]; [done|..]; injection E as <-.
    + apply exception_fails; [done|by eapply Dead|]. by rewrite valid_upd_cconn.
    + unfold reader_exception. destruct (live r) eqn:L; [fails_tac cl|].
      constructor; try done; [by left|]. by eapply (Dead k r).
  - destruct (readers cl !! k) as [r|] eqn:R; [|done]. do 3 right. unfold reader_timeout in E.
    destruct (live r) eqn:L; destruct (r_stage r); try done; injection E as <-;
      unfold reader_exception; rewrite L; fails_tac cl.
  - unfold client_stop in E. case_hyp E; simplify_eq. do 3 right. fails_tac cl.
Qed.
End writes.
