(* ===== verification/ClientWire.v ===== *)
(** * One connection, seen from the client

    What the client of Client.v does between a connect and the end of the
    connection [cid]: its reader [rk] stays on frame boundaries when the bytes
    that arrive are frames of [R], and its output grows by frames of the
    envelopes it writes. *)

From Stdlib Require Import ZArith Lia.
From stdpp Require Import base gmap list numbers strings.
From coqutil Require Import Byte.
From S2P Require Import Prelude Header Seastar Letter Connection RecvContext Wire Streams Filters Client ClientInv ClientLife ClientWrites.

(** The connection a write uses. *)
Definition w_conn (st : write_stage) : option Z :=
  match st with w_body id _ | w_flush id _ => Some id | _ => None end.

Section wire.
Context `{Build, GeneratedHeader, Xxhash, Seastar}.
Variable in_filters_ : list (rpc_recv_context -> outcome rpc_recv_context).
Variable out_filters_ : list (rpc_envelope -> outcome rpc_envelope).
Variables (cid rk : Z).
Implicit Types cl : client.

Abbreviation exec := (client_exec in_filters_ out_filters_).

(** Events of a client that keeps its connection. *)
Definition session_event (ev : client_event) : bool :=
  match ev with ce_send _ | ce_arrive _ _ => true | _ => local_event ev end.

(** ** One connection, one reader *)

Record single cl : Prop := mk_single {
  sg_conn : conn_ cl = Some cid;
  sg_reads : forall k r id, readers cl !! k = Some r -> reads (r_stage r) = Some id -> id = cid;
  sg_live : forall k r, readers cl !! k = Some r -> live r = true -> k = rk;
  sg_writes : forall k st id, writes cl !! k = Some st -> w_conn st = Some id -> id = cid
}.

(** Readers and writes only go away, or change as listed. *)
Lemma single_sub cl cl' :
  conn_ cl' = conn_ cl ->
  (forall k r, readers cl' !! k = Some r ->
     (live r = true -> k = rk) /\ (forall id, reads (r_stage r) = Some id -> id = cid)) ->
  (forall k st id, writes cl' !! k = Some st -> w_conn st = Some id -> id = cid) ->
  single cl -> single cl'.
Proof.
  intros C R W [A B D E]. constructor; [congruence|..|done].
  - intros k r id Ek. by apply (R k r Ek).
  - intros k r Ek. by apply (R k r Ek).
Qed.

Lemma single_same cl cl' :
  conn_ cl' = conn_ cl -> readers cl' = readers cl -> writes cl' = writes cl -> single cl -> single cl'.
Proof. intros C R W [A B D E]. constructor; rewrite ?C, ?R, ?W; done. Qed.

Lemma single_fail cl : slots_inv cl -> single cl -> single (fail_outstanding_futures cl).
Proof. intros I. destruct (fail_outstanding_life cl I) as [S _]. apply single_same; apply S. Qed.

Lemma single_del_reader k cl : single cl -> single (upd_readers (delete k) cl).
Proof.
  intros S. apply (single_sub cl); [done|..|apply S|done]. intros j r. simpl. rewrite lookup_delete_Some.
  intros [_ E]. split; [by apply (sg_live _ S)|by intros id; apply (sg_reads _ S j)].
Qed.

Lemma single_set_reader k st cl :
  (forall id, reads st = Some id -> id = cid) -> single cl -> single (set_reader k st cl).
Proof.
  intros Rd S. apply (single_sub cl); [done|..|apply S|done]. intros j r. simpl. rewrite lookup_alter_Some.
  intros [(<- & r0 & E & ->)|[_ E]]; split; simpl; try done; [by apply (sg_live _ S)..|].
  by intros id; apply (sg_reads _ S j).
Qed.

Lemma single_exception k r cl : slots_inv cl -> single cl -> single (reader_exception k r cl).
Proof.
  intros I S. unfold reader_exception. case_goal; apply single_del_reader; [|done].
  by apply (single_same (fail_outstanding_futures cl)), single_fail.
Qed.

Lemma single_next k r cl : single cl -> single (reader_next k r cl).
Proof. intros S. unfold reader_next. case_goal; [by apply single_set_reader|by apply single_del_reader]. Qed.

Lemma single_refuse id msg cl : slots_inv cl -> single cl -> single (refuse id msg cl).
Proof. intros I S. apply single_fail; [by apply (slots_inv_same cl)|by apply (single_same cl)]. Qed.

Lemma single_set_write k st cl :
  (forall id, w_conn st = Some id -> id = cid) -> single cl -> single (set_write k st cl).
Proof.
  intros W S. apply (single_sub cl); [done|..|done].
  - intros j r E. split; [by apply (sg_live _ S)|by intros id; apply (sg_reads _ S j)].
  - intros j st' id. simpl. rewrite lookup_insert_Some. intros [[_ <-]|[_ E]]; [apply W|by apply (sg_writes _ S j)].
Qed.

Lemma single_write k st cl cl' :
  slots_inv cl -> writes cl !! k = Some st -> write_step k st cl = Some cl' -> single cl -> single cl'.
Proof.
  intros I E W S. pose proof (sg_writes _ S k st) as Wc.
  assert (forall c0 e, single c0 -> single (write_end k e c0)) as End.
  { intros c0 e S0. apply (single_sub c0); [done|..|done].
    - intros j r Ej. split; [by apply (sg_live _ S0)|by intros id; apply (sg_reads _ S0 j)].
    - intros j st' id. simpl. rewrite lookup_delete_Some. intros [_ Ej]. by apply (sg_writes _ S0 j). }
  unfold write_step in W. destruct st; repeat case_hyp W; simplify_eq;
    try (by apply End, single_fail); try (by apply (single_same cl)); try (by apply End).
  - apply single_set_write; [done|by apply (single_same cl)].
  - apply single_set_write; [done|by apply (single_same cl)].
  - apply single_set_write; [|by apply (single_same cl)]. simpl. intros id [= <-].
    pose proof (sg_conn _ S). congruence.
  - apply single_set_write; [|by apply (single_same cl)]. simpl. by intros id0 [= <-]; apply Wc.
  - apply End. by apply (single_same cl).
Qed.

Lemma single_reader k r cl cl' :
  slots_inv cl -> readers cl !! k = Some r -> reader_step k r cl = Some cl' -> single cl -> single cl'.
Proof.
  intros I E R S. pose proof (sg_reads _ S k r) as Rc. unfold reader_step in R.
  destruct (r_stage r) as [|id|id hdr].
  - repeat case_hyp R; simplify_eq.
    + apply single_del_reader. by apply (single_same cl).
    + apply single_set_reader; [|by apply (single_same cl)]. simpl. intros id [= <-].
      pose proof (sg_conn _ S). congruence.
    + by apply single_exception.
  - destruct (connections cl !! id) as [c|]; [|done]. destruct (read_exactly _ _) as [[b i]|]; [|done].
    unfold parse_header_resume in R. repeat case_hyp R; simplify_eq;
      try (apply single_next, single_refuse; [by apply (slots_inv_same cl)|by apply (single_same cl)]).
    apply single_set_reader; [|by apply (single_same cl)]. simpl. by intros id0 [= <-]; apply Rc.
  - destruct (connections cl !! id) as [c|]; [|done]. destruct (read_exactly _ _) as [[b i]|]; [|done].
    destruct (parse_payload_resume hdr b i (cc_conn c)) as [[opt c']|ex|]; [| |done].
    2: { injection R as <-. by apply single_exception. }
    set (cl1 := upd_cconn id (fun _ => c') cl) in *.
    assert (slots_inv cl1) as I1 by (by apply (slots_inv_same cl)).
    assert (single cl1) as S1 by (by apply (single_same cl)).
    destruct (process_payload id opt cl1) as [cl2|ex|] eqn:P; [| |done]; injection R as <-;
      [|by apply single_exception]. apply single_next. unfold process_payload in P.
    apply outcome_bind_Ready in P as (_ & _ & P). repeat case_hyp P; simplify_eq; try (by apply single_refuse).
    apply (single_same cl1); [..|done]; unfold resolve; by repeat case_goal.
Qed.

Lemma single_step ev cl cl' :
  client_inv cl -> session_event ev = true -> exec ev cl = Some cl' -> single cl -> single cl'.
Proof.
  intros [I L] Ev E S. destruct ev; try done; simpl in E.
  - injection E as <-. apply (single_same cl); [..|done]; unfold client_send, raw_send; by repeat case_goal.
  - destruct (requests cl !! k) as [st|] eqn:Q; [|done].
    assert (asks_on in_filters_ out_filters_ k cl cl') as A by (by eapply request_step_cases).
    inversion A; subst; try (by apply (single_same cl)).
    apply (single_sub cl); [done|..|done]; simpl.
    + intros j r Ej. split; [by apply (sg_live _ S)|by intros id; apply (sg_reads _ S j)].
    + intros j st' id. rewrite lookup_insert_Some. intros [[_ <-]|[_ Ej]]; [done|by apply (sg_writes _ S j)].
  - destruct (writes cl !! k) as [st|] eqn:W; [|done]. by eapply single_write.
  - destruct (readers cl !! k) as [r|] eqn:R; [|done]. by eapply single_reader.
  - unfold reader_failed in E. repeat case_hyp E; simplify_eq; apply single_exception;
      try done; [by apply (slots_inv_same cl)|by apply (single_same cl)].
  - destruct (readers cl !! k) as [r|] eqn:R; [|done]. unfold reader_timeout in E.
    pose proof (single_exception k r cl I S) as S1. pose proof (sg_reads _ S k r) as Rc.
    assert (forall st, st = r_stage r -> single (add_reader (mk_reader st false) (reader_exception k r cl))) as Ad.
    { intros st ->. apply (single_sub (reader_exception k r cl)); [done|..|apply S1|done].
      intros j r0. simpl. rewrite lookup_insert_Some. intros [[_ <-]|[_ Ej]]; [split; [done|by intros id; apply Rc]|].
      split; [by apply (sg_live _ S1)|by intros id; apply (sg_reads _ S1 j)]. }
    repeat case_hyp E; simplify_eq; by apply Ad.
  - repeat case_hyp E; simplify_eq. by apply (single_same cl).
  - unfold client_stop in E. case_hyp E; simplify_eq. apply (single_same (fail_outstanding_futures cl)); try done.
    by apply single_fail.
Qed.

(** An abandoned read means that the connection is not valid any more. *)
Lemma single_dead cl k r :
  life_inv cl -> single cl -> readers cl !! k = Some r -> live r = false -> is_conn_valid cl = false.
Proof.
  intros L S E Lr. destruct (le_ok _ L k r E) as [Ok _].
  destruct (reads (r_stage r)) as [id|] eqn:Rd; [|destruct (r_stage r); by try destruct (Ok Lr)].
  destruct (le_reads _ L k r id E Rd) as [_ D]. apply D; [done|].
  rewrite (sg_reads _ S k r id E Rd). apply S.
Qed.

(** ** Input *)

Definition reader_pos (st : read_stage) : position :=
  match st with r_loop | r_header _ => at_frame true | r_payload _ hdr => behind hdr end.

Definition reader_aligned (R : rpc_envelope -> Prop) (rest : list byte) cl : Prop :=
  forall r c, readers cl !! rk = Some r -> connections cl !! cid = Some c ->
  aligned R (reader_pos (r_stage r)) (c_istream (cc_conn c)) rest.

(** The readers and the input of the connection are the same. *)
Lemma reader_aligned_same R rest cl cl' :
  readers cl' = readers cl ->
  (forall c', connections cl' !! cid = Some c' -> exists c, connections cl !! cid = Some c /\
     c_istream (cc_conn c') = c_istream (cc_conn c)) ->
  reader_aligned R rest cl -> reader_aligned R rest cl'.
Proof.
  intros Er Ec A r c' Hr Hc. rewrite Er in Hr. destruct (Ec c' Hc) as (c & C & ->). by apply A.
Qed.

Lemma istream_ostream id o cl c' :
  connections (upd_cconn id (with_ostream o) cl) !! cid = Some c' ->
  exists c, connections cl !! cid = Some c /\ c_istream (cc_conn c') = c_istream (cc_conn c).
Proof.
  simpl. rewrite lookup_alter_Some. intros [(<- & c & C & ->)|[_ C]]; [by exists c|by exists c'].
Qed.

Lemma reader_aligned_mono (R R' : rpc_envelope -> Prop) rest cl :
  (forall e, R e -> R' e) -> reader_aligned R rest cl -> reader_aligned R' rest cl.
Proof. intros I A r c Er Ec. by eapply aligned_mono, A. Qed.

Lemma reader_aligned_grow (R : rpc_envelope -> Prop) rest es cl :
  Forall R es -> reader_aligned R rest cl -> reader_aligned R (rest ++ concat (map frame es)) cl.
Proof. intros F A r c Er Ec. by apply aligned_grow, A. Qed.

Section reads.
Variable R : rpc_envelope -> Prop.
Hypothesis R_framed : forall e, R e -> framed e.
Variable rest : list byte.

(** The response that the reader reads next. *)
Lemma aligned_response k r cl id c b i hdr ctx :
  single cl -> reader_aligned R rest cl -> readers cl !! k = Some r -> live r = true ->
  r_stage r = r_payload id hdr -> connections cl !! id = Some c ->
  read_exactly (c_istream (cc_conn c)) (hsize hdr) = Some (b, i) ->
  check_payload (remote_address (cc_conn c)) hdr b = Ready (Some ctx) ->
  (exists e, R e /\ ctx = received (remote_address (cc_conn c)) e) /\ aligned R (at_frame true) i rest.
Proof.
  intros S A E Lr St C Rd Cp. assert (k = rk) as -> by (by apply (sg_live _ S k r)).
  assert (id = cid) as -> by (by apply (sg_reads _ S rk r); rewrite ?St).
  destruct (decide (blen b = hsize hdr)) as [L|L]; [|by rewrite short_payload in Cp].
  specialize (A r c E C). rewrite St in A.
  destruct (aligned_payload R R_framed (remote_address (cc_conn c)) hdr _ b i rest A Rd L)
    as (e & Re & Cp' & A'). split; [|done]. exists e. split; [done|]. congruence.
Qed.

Lemma reader_aligned_reads k r cl cl' :
  single cl -> readers cl !! k = Some r -> live r = true -> reads_on k r cl cl' ->
  reader_aligned R rest cl -> reader_aligned R rest cl'.
Proof.
  intros S E Lr Rd A. assert (k = rk) as Ek by (by apply (sg_live _ S k r)).
  intros r' c' Er' Ec'. destruct Rd as [id c St C Cc V|id c b i hdr St Cc Rb Lb Ch|id c b i hdr ctx w St Cc Rb Cp Sl W].
  - simpl in Er', Ec'. rewrite (sg_conn _ S) in C. injection C as <-.
    rewrite Ek in Er', E. rewrite lookup_alter_eq, E in Er'. rewrite lookup_alter_eq, Cc in Ec'.
    injection Er' as <-. injection Ec' as <-. specialize (A r c E Cc). by rewrite St in A.
  - assert (id = cid) as -> by (by apply (sg_reads _ S k r); rewrite ?St). simpl in Er', Ec'.
    rewrite Ek in Er', E. rewrite lookup_alter_eq, E in Er'. rewrite lookup_alter_eq, Cc in Ec'.
    injection Er' as <-. injection Ec' as <-. specialize (A r c E Cc). rewrite St in A. simpl.
    destruct (aligned_header R R_framed _ b i rest A Rb Lb) as (hdr' & Ch' & A'). rewrite Ch in Ch'. by injection Ch' as <-.
  - destruct (aligned_response k r cl id c b i hdr ctx S A E Lr St Cc Rb Cp) as [_ A'].
    assert (id = cid) as -> by (by apply (sg_reads _ S k r); rewrite ?St).
    unfold reader_next in Er', Ec'. rewrite Lr in Er', Ec'. simpl in Er', Ec'.
    rewrite Ek in Er', E. rewrite lookup_alter_eq, E in Er'. rewrite lookup_alter_eq, Cc in Ec'.
    injection Er' as <-. injection Ec' as <-. done.
Qed.

Lemma reader_aligned_local ev cl cl' :
  client_inv cl -> single cl -> local_event ev = true -> exec ev cl = Some cl' -> is_conn_valid cl = true ->
  is_conn_valid cl' = true -> reader_aligned R rest cl -> reader_aligned R rest cl'.
Proof.
  intros I S Lo E V V' A.
  assert (forall k r, readers cl !! k = Some r -> live r = true) as Lv.
  { intros k r Er. destruct (live r) eqn:L; [done|]. by rewrite (single_dead cl k r) in V by (apply I || done). }
  destruct (local_cases in_filters_ out_filters_ ev cl cl' I) as [[k X]|[[k X]|[(k & r & Er & X)|X]]]; try done.
  - intros k r Er Lr. by rewrite (Lv k r Er) in Lr.
  - eapply reader_aligned_same; [..|exact A]; destruct X; try done; intros c' C'; by exists c'.
  - eapply reader_aligned_same; [..|exact A]; destruct X; try done; try (by apply istream_ostream);
      intros c' C'; by exists c'.
  - eapply (reader_aligned_reads k r); eauto.
  - by rewrite (fo_invalid _ _ X) in V'.
Qed.

Lemma reader_aligned_arrive i x cl cl' :
  exec (ce_arrive cid i) cl = Some cl' ->
  (forall c, connections cl !! cid = Some c ->
     finished (c_istream (cc_conn c)) = false /\ pending i = pending (c_istream (cc_conn c)) ++ x) ->
  reader_aligned R (x ++ rest) cl -> reader_aligned R rest cl'.
Proof.
  intros E Hx A. simpl in E. destruct (connections cl !! cid) as [c|] eqn:C; [|done].
  destruct (Hx c eq_refl) as [F Pi]. destruct (_ && _); [|done]. injection E as <-.
  intros r c' Er. simpl. rewrite lookup_alter_eq, C. simpl. intros [= <-]. simpl.
  eapply aligned_arrive; [done..|]. by apply A.
Qed.
End reads.

(** ** Output *)

Definition new_sent cl cl' : list byte := drop (length (client_out cid cl)) (client_out cid cl').

Lemma new_sent_app cl cl' d : client_out cid cl' = client_out cid cl ++ d -> new_sent cl cl' = d.
Proof. intros E. unfold new_sent. by rewrite E, drop_app_length. Qed.

Lemma new_sent_same cl cl' : client_out cid cl' = client_out cid cl -> new_sent cl cl' = [].
Proof. intros E. apply new_sent_app. by rewrite app_nil_r. Qed.

Lemma client_out_written id o c d cl cl' :
  id = cid -> connections cl !! id = Some c -> written o = written (c_ostream (cc_conn c)) ++ d ->
  connections cl' = connections (upd_cconn id (with_ostream o) cl) -> new_sent cl cl' = d.
Proof.
  intros -> C W E. apply new_sent_app. unfold client_out. rewrite E. simpl. by rewrite lookup_alter_eq, C.
Qed.

(** A write of a valid connection. *)
Lemma writes_wire (P : rpc_envelope -> Prop) k cl cl' t :
  single cl -> lock_inv cl -> writes_on k cl cl' ->
  (forall e, writes cl !! k = Some (w_header e) -> P e) -> half_sent cl t ->
  exists t' es, half_sent cl' t' /\ Forall P es /\ new_sent cl cl' ++ t' = t ++ concat (map frame es).
Proof.
  intros S I W Ph Hf. destruct W as [e s E|e s E|e E|id c e o E C Cc Wo|id c e o E Cc Wo|id c e o E Cc Wo].
  - exists t, []. rewrite new_sent_same by done. split_and!; [|done|by rewrite app_nil_r].
    by eapply (half_sent_move cl _ k (w_units e) (w_lock e)).
  - exists t, []. rewrite new_sent_same by done. split_and!; [|done|by rewrite app_nil_r].
    by eapply (half_sent_move cl _ k (w_lock e) (w_header e)).
  - rewrite (half_sent_holder cl k _ t I E) by done. exists [], []. rewrite new_sent_same by done.
    split_and!; [|done|done]. right. split; [|done]. simpl. intros j id' e'. rewrite lookup_delete_Some.
    intros [N E']. by destruct (one_write cl k j _ _ I E E').
  - rewrite (sg_conn _ S) in C. injection C as <-.
    rewrite (half_sent_holder cl k _ t I E) by done.
    exists (body (letter e)), [e]. split_and!; [|by repeat constructor; apply Ph|].
    + left. exists k, cid, e. split; [|done]. simpl. apply lookup_insert_eq.
    + erewrite client_out_written by done. simpl. by rewrite app_nil_r.
  - rewrite (half_sent_body cl k id e t I E Hf).
    assert (id = cid) as -> by (by apply (sg_writes _ S k _ id E)).
    exists [], []. split_and!; [|done|erewrite client_out_written by done; simpl; by rewrite !app_nil_r].
    right. split; [|done]. simpl. intros j id' e'. rewrite lookup_insert. case_decide; [done|].
    intros E'. by destruct (one_write cl k j _ _ I E E').
  - assert (id = cid) as -> by (by apply (sg_writes _ S k _ id E)).
    rewrite (half_sent_holder cl k _ t I E) by done. exists [], []. split_and!; [|done|].
    + right. split; [|done]. simpl. intros j id' e'. rewrite lookup_delete_Some. intros [N E'].
      by destruct (one_write cl k j _ _ I E E').
    + erewrite client_out_written; [done|done..| |done]. by rewrite Wo, app_nil_r.
Qed.

Lemma local_wire (P : rpc_envelope -> Prop) ev cl cl' t :
  client_inv cl -> lock_inv cl -> single cl -> local_event ev = true -> exec ev cl = Some cl' ->
  is_conn_valid cl' = true -> (forall k e, writes cl !! k = Some (w_header e) -> P e) -> half_sent cl t ->
  exists t' es, half_sent cl' t' /\ Forall P es /\ new_sent cl cl' ++ t' = t ++ concat (map frame es).
Proof.
  intros I Lk S Lo E V' Ph Hf.
  assert (forall c0, client_out cid c0 = client_out cid cl -> half_sent c0 t -> exists t' es,
    half_sent c0 t' /\ Forall P es /\ new_sent cl c0 ++ t' = t ++ concat (map frame es)) as Same.
  { intros c0 O Hf0. exists t, []. rewrite new_sent_same by done. split_and!; [done|done|by rewrite app_nil_r]. }
  destruct (local_cases in_filters_ out_filters_ ev cl cl' I) as [[k X]|[[k X]|[(k & r & Er & X)|X]]]; try done.
  - intros k r. apply single_dead; [apply I|done].
  - destruct X; apply Same; try done. by eapply half_sent_add; [apply I|..].
  - eapply writes_wire; eauto.
  - destruct X as [id c St C Cc V|id c b i hdr St Cc Rb Lb Ch|id c b i hdr ctx w St Cc Rb Cp Sl W]; apply Same; try done.
    + apply client_out_upd. intros c0 C0. rewrite Cc in C0. by injection C0 as <-.
    + apply client_out_upd. intros c0 C0. rewrite Cc in C0. by injection C0 as <-.
    + etransitivity; [|apply (client_out_upd cid id (fun _ => with_istream i (cc_conn c)))].
      * unfold reader_next. by case_goal.
      * intros c0 C0. rewrite Cc in C0. by injection C0 as <-.
    + unfold reader_next. by case_goal.
  - by rewrite (fo_invalid _ _ X) in V'.
Qed.

(** ** Validity *)

(** A connection that was given up does not become valid again. *)
Lemma local_valid ev cl cl' :
  client_inv cl -> single cl -> local_event ev = true -> exec ev cl = Some cl' ->
  is_conn_valid cl' = true -> is_conn_valid cl = true.
Proof.
  intros I S Lo E V'. destruct (local_cases in_filters_ out_filters_ ev cl cl' I)
    as [[k X]|[[k X]|[(k & r & Er & X)|X]]]; try done.
  - intros k r. apply single_dead; [apply I|done].
  - by destruct X.
  - destruct X; try done; by rewrite <- (valid_upd_cconn id (with_ostream o) cl).
  - destruct X as [id c St C Cc V|id c b i hdr St Cc Rb Lb Ch|id c b i hdr ctx w St Cc Rb Cp Sl W].
    + unfold is_conn_valid. by rewrite C, Cc.
    + eapply (same_life_read id c i kHeaderSize b (with_parsers _)); [done|by vm_compute|done|done|exact V'].
    + destruct (le_ok _ (proj2 I) k r Er) as [_ Sz]. rewrite St in Sz.
      eapply (same_life_read id c i (hsize hdr) b (fun x => x)); [done..|].
      unfold reader_next in V'. by destruct (live r).
  - by rewrite (fo_invalid _ _ X) in V'.
Qed.

(** ** Sending *)

(** A call that was refused. *)
Definition refused (st : request_stage) : Prop := exists ex, st = q_end (Failed ex) \/ st = q_done (Failed ex).

(** What [send] changes. *)
Record sends (e : rpc_envelope) cl cl' : Prop := mk_sends {
  sn_conn : conn_ cl' = conn_ cl;
  sn_connections : connections cl' = connections cl;
  sn_readers : readers cl' = readers cl;
  sn_writes : writes cl' = writes cl;
  sn_next : next_request cl' = next_request cl + 1;
  sn_case : (exists st, refused st /\ requests cl' = <[next_request cl := st]> (requests cl) /\
      works cl' = works cl /\
      (session_idx_ cl' = session_idx_ cl \/ session_idx_ cl' = u16 (session_idx_ cl + 1))) \/
    (session_idx_ cl' = u16 (session_idx_ cl + 1) /\
     requests cl' = <[next_request cl := q_outgoing (map_header (mutate_session (session_idx_ cl')) e)]> (requests cl) /\
     works cl' = <[next_request cl := mk_work unresolved (session_idx_ cl')]> (works cl))
}.

Lemma send_cases e cl : sends e cl (client_send e cl).
Proof.
  unfold client_send. destruct (gate_is_closed (dispatch_gate_ cl)) eqn:G.
  { rewrite gate_enter_closed by done. constructor; try done. left.
    exists (q_done (Failed gate_closed_exception)). split_and!; try done; [by eexists; right|by left]. }
  destruct (gate_enter_open _ G) as (g & -> & _). unfold raw_send. case_goal.
  { constructor; try done. left. exists (q_end (Failed invalid_connection_state)).
    split_and!; try done; [by eexists; left|by left]. }
  set (taken := bool_decide _). unfold DLOG_THROW_IF, LOG_THROW_IF.
  destruct NDEBUG, taken; constructor; try done; try (by right);
    left; exists (q_end (Failed (runtime_error "RPC slot already allocated")));
    (split_and!; [by eexists; left|done|done|by right]).
Qed.

(** ** The connection object *)

(** It keeps its peer, and what was written stays written. *)
Definition client_extends cl cl' : Prop :=
  forall c', connections cl' !! cid = Some c' -> exists c, connections cl !! cid = Some c /\
  remote_address (cc_conn c') = remote_address (cc_conn c) /\
  written (c_ostream (cc_conn c)) `prefix_of` written (c_ostream (cc_conn c')).

Lemma client_extends_same cl cl' : connections cl' = connections cl -> client_extends cl cl'.
Proof. intros E c' C'. rewrite E in C'. by exists c'. Qed.

#[local] Instance client_extends_preorder : PreOrder client_extends.
Proof.
  split; [intros cl; by apply client_extends_same|]. intros a b c E1 E2 c' C'.
  destruct (E2 c' C') as (cb & Cb & Rb & Wb). destruct (E1 cb Cb) as (ca & Ca & Ra & Wa).
  exists ca. split_and!; [done|congruence|by etransitivity].
Qed.

Lemma client_extends_upd id f cl :
  (forall c, connections cl !! id = Some c -> remote_address (f (cc_conn c)) = remote_address (cc_conn c) /\
     written (c_ostream (cc_conn c)) `prefix_of` written (c_ostream (f (cc_conn c)))) ->
  client_extends cl (upd_cconn id f cl).
Proof.
  intros F c'. simpl. rewrite lookup_alter. case_decide; [subst|by exists c'].
  destruct (connections cl !! cid) as [c|] eqn:C; [|done]. simpl. intros [= <-]. exists c. split; [done|]. by apply F.
Qed.

Lemma client_extends_to id c c' cl :
  connections cl !! id = Some c -> remote_address c' = remote_address (cc_conn c) ->
  written (c_ostream (cc_conn c)) `prefix_of` written (c_ostream c') ->
  client_extends cl (upd_cconn id (fun _ => c') cl).
Proof. intros C R W. apply client_extends_upd. intros c0 C0. rewrite C in C0. by injection C0 as <-. Qed.

Lemma client_extends_fail cl : slots_inv cl -> client_extends cl (fail_outstanding_futures cl).
Proof.
  intros I. rewrite fail_outstanding_spec by done. transitivity (disable_conn cl); [|by apply client_extends_same].
  unfold disable_conn. repeat case_goal; try done.
  etransitivity; [|apply client_extends_upd; intros c _; simpl; by rewrite shutdown_output_written].
  by apply client_extends_upd.
Qed.

Lemma client_extends_exception k r cl : slots_inv cl -> client_extends cl (reader_exception k r cl).
Proof.
  intros I. unfold reader_exception. case_goal; [exact (client_extends_fail cl I)|by apply client_extends_same].
Qed.

Lemma client_extends_next k r cl : client_extends cl (reader_next k r cl).
Proof. unfold reader_next. by case_goal; apply client_extends_same. Qed.

Lemma client_extends_refuse id msg cl : slots_inv cl -> client_extends cl (refuse id msg cl).
Proof.
  intros I. unfold refuse. etransitivity; [|apply client_extends_fail; by apply (slots_inv_same cl)].
  by apply client_extends_upd.
Qed.

Lemma client_extends_reader k r cl cl' :
  slots_inv cl -> reader_step k r cl = Some cl' -> client_extends cl cl'.
Proof.
  intros I R. unfold reader_step in R. destruct (r_stage r) as [|id|id hdr].
  - repeat case_hyp R; simplify_eq; [by apply client_extends_same| |by apply client_extends_exception].
    match goal with X : parse_header_begin _ = _ |- _ => apply outcome_bind_Ready in X as (_ & _ & [= <-]) end.
    by eapply client_extends_to.
  - destruct (connections cl !! id) as [c|] eqn:C; [|done]. destruct (read_exactly _ _) as [[b i]|]; [|done].
    unfold parse_header_resume in R. repeat case_hyp R; simplify_eq; try (by eapply client_extends_to);
      (etransitivity; [|apply client_extends_next];
       etransitivity; [|apply client_extends_refuse; by apply (slots_inv_same cl)]; by apply (client_extends_to id c)).
  - destruct (connections cl !! id) as [c|] eqn:C; [|done]. destruct (read_exactly _ _) as [[b i]|]; [|done].
    unfold parse_payload_resume in R.
    destruct (check_payload_total (remote_address (cc_conn c)) hdr b) as [opt Cp]. rewrite Cp in R. simpl in R.
    set (cl1 := upd_cconn id (fun _ => with_istream i (cc_conn c)) cl) in *.
    assert (slots_inv cl1) as I1 by (by apply (slots_inv_same cl)).
    etransitivity; [by eapply (client_extends_to id c (with_istream i (cc_conn c)))|]. fold cl1.
    destruct (process_payload id opt cl1) as [cl2|ex|] eqn:P; [| |done]; injection R as <-;
      [|by apply client_extends_exception]. etransitivity; [|apply client_extends_next].
    unfold process_payload in P. apply outcome_bind_Ready in P as (_ & _ & P).
    repeat case_hyp P; simplify_eq; try (by apply client_extends_refuse).
    apply client_extends_same. unfold resolve. by repeat case_goal.
Qed.

Lemma client_extends_write k st cl cl' :
  slots_inv cl -> write_step k st cl = Some cl' -> client_extends cl cl'.
Proof.
  intros I E. assert (forall id c o b, connections cl !! id = Some c -> written o = written (c_ostream (cc_conn c)) ++ b ->
    client_extends cl (upd_cconn id (with_ostream o) cl)) as Out.
  { intros id c o b C W. apply client_extends_upd. intros c0 C0. rewrite C in C0. injection C0 as <-. split; [done|].
    simpl. rewrite W. by apply prefix_app_r. }
  unfold write_step in E. destruct st; repeat case_hyp E; simplify_eq; try (by apply client_extends_same);
    try exact (client_extends_fail cl I).
  - by eapply Out, owrite_written.
  - by eapply Out, owrite_written.
  - eapply (Out id _ _ []); [done|]. rewrite app_nil_r. by apply oflush_written.
Qed.

Lemma client_extends_step ev cl cl' :
  slots_inv cl -> session_event ev = true -> exec ev cl = Some cl' -> client_extends cl cl'.
Proof.
  intros I Ev E. destruct ev; try done; simpl in E.
  - injection E as <-. apply client_extends_same. apply (send_cases e cl).
  - destruct (requests cl !! k) as [st|] eqn:Q; [|done].
    assert (asks_on in_filters_ out_filters_ k cl cl') as A by (by eapply request_step_cases).
    by destruct A; apply client_extends_same.
  - destruct (writes cl !! k) as [st|]; [|done]. by eapply client_extends_write.
  - destruct (readers cl !! k) as [r|]; [|done]. by eapply client_extends_reader.
  - unfold reader_failed in E. repeat case_hyp E; simplify_eq;
      (etransitivity; [|apply client_extends_exception; by apply (slots_inv_same cl)]); [by apply client_extends_upd|done].
  - unfold reader_timeout in E. repeat case_hyp E; simplify_eq; exact (client_extends_exception _ _ cl I).
  - repeat case_hyp E; simplify_eq. by apply client_extends_upd.
  - unfold client_stop in E. case_hyp E; simplify_eq. exact (client_extends_fail cl I).
Qed.
End wire.
