(* ===== verification/ClientProps.v ===== *)
(** * Properties of the client

    What the invariants of ClientInv.v and ClientLife.v give for every
    execution of the client of Client.v: promises, outstanding requests,
    session numbers and credentials. *)

From Stdlib Require Import ZArith Lia.
From stdpp Require Import base gmap list numbers strings.
From coqutil Require Import Byte.
From S2P Require Import Prelude Header Seastar Letter Connection RecvContext Wire Filters Client ClientInv ClientLife.

Section props.
Context `{Build, GeneratedHeader, Xxhash, Seastar}.
Variable in_filters_ : list (rpc_recv_context -> outcome rpc_recv_context).
Variable out_filters_ : list (rpc_envelope -> outcome rpc_envelope).
Implicit Types cl : client.

Abbreviation exec := (client_exec in_filters_ out_filters_).
Abbreviation reachable := (client_reachable in_filters_ out_filters_).

(** ** Credentials *)

(** Connections keep their kind, and the client its credentials. *)
Definition same_tls cl cl' : Prop :=
  creds_ cl' = creds_ cl /\ forall id, cc_tls <$> connections cl' !! id = cc_tls <$> connections cl !! id.

#[local] Instance same_tls_preorder : PreOrder same_tls.
Proof.
  split; [done|]. intros a b c [C1 T1] [C2 T2]. split; [congruence|]. intros id. by rewrite T2, T1.
Qed.

Lemma upd_cconn_tls id f cl : same_tls cl (upd_cconn id f cl).
Proof.
  split; [done|]. intros j. simpl. rewrite lookup_alter. case_decide; [subst|done].
  by destruct (connections cl !! j).
Qed.

Lemma fail_slots_tls l cl : same_tls cl (fail_slots l cl).
Proof.
  revert cl. induction l as [|[s k] l IH]; intros cl; [done|]. simpl. etransitivity; [|apply IH].
  unfold resolve. by repeat case_goal.
Qed.

Lemma fail_tls cl : same_tls cl (fail_outstanding_futures cl).
Proof.
  unfold fail_outstanding_futures. etransitivity; [|apply fail_slots_tls].
  unfold disable_conn. repeat case_goal; try done.
  etransitivity; [apply upd_cconn_tls|apply upd_cconn_tls].
Qed.

(** The fields that are left alone. *)
Ltac tls_tac := first [done | apply upd_cconn_tls | apply fail_tls
  | by etransitivity; [apply upd_cconn_tls|] | by etransitivity; [apply fail_tls|]].

Lemma reader_exception_tls k r cl : same_tls cl (reader_exception k r cl).
Proof. unfold reader_exception. case_goal; [|done]. by etransitivity; [apply fail_tls|]. Qed.

Lemma refuse_tls id msg cl : same_tls cl (refuse id msg cl).
Proof. etransitivity; [apply (upd_cconn_tls id (set_error msg))|apply fail_tls]. Qed.

Lemma reader_next_tls k r cl cl' : same_tls cl cl' -> same_tls cl (reader_next k r cl').
Proof. intros S. unfold reader_next. by case_goal. Qed.

Lemma process_tls id opt cl cl' : process_payload id opt cl = Ready cl' -> same_tls cl cl'.
Proof.
  unfold process_payload. intros P. apply outcome_bind_Ready in P as (_ & _ & P).
  repeat case_hyp P; simplify_eq; try apply refuse_tls. unfold resolve. by repeat case_goal.
Qed.

Lemma reader_tls k r cl cl' : reader_step k r cl = Some cl' -> same_tls cl cl'.
Proof.
  unfold reader_step. intros S. destruct (r_stage r) as [|id|id hdr].
  - repeat case_hyp S; simplify_eq; first [done | apply reader_exception_tls | apply upd_cconn_tls].
  - repeat case_hyp S; simplify_eq; [apply upd_cconn_tls|].
    apply reader_next_tls. etransitivity; [apply upd_cconn_tls|apply refuse_tls].
  - repeat case_hyp S; simplify_eq; try apply reader_exception_tls.
    + apply reader_next_tls. etransitivity; [apply upd_cconn_tls|by eapply process_tls].
    + etransitivity; [apply upd_cconn_tls|apply reader_exception_tls].
Qed.

Lemma other_tls ev cl cl' :
  exec ev cl = Some cl' ->
  match ev with ce_connected _ _ _ | ce_connect_failed _ => True | _ => same_tls cl cl' end.
Proof.
  intros E. destruct ev; simpl in E; try done.
  - injection E as <-. unfold client_send, raw_send. by repeat case_goal.
  - case_hyp E; [|done]. unfold request_step, dispatch_write in E. repeat case_hyp E; simplify_eq; try done.
    all: match goal with X : _ ≫= _ = Ready ?c |- _ => by apply outcome_bind_Ready in X as (g & _ & [= <-]) end.
  - case_hyp E; [|done]. unfold write_step in E. repeat case_hyp E; simplify_eq; tls_tac.
  - case_hyp E; [|done]. by eapply reader_tls.
  - unfold reader_failed in E. repeat case_hyp E; simplify_eq; try apply reader_exception_tls.
    etransitivity; [apply upd_cconn_tls|apply reader_exception_tls].
  - unfold reader_timeout in E. repeat case_hyp E; simplify_eq; apply reader_exception_tls.
  - repeat case_hyp E; simplify_eq. apply upd_cconn_tls.
  - unfold client_connect in E. by case_hyp E; simplify_eq.
  - unfold client_stop in E. case_hyp E; simplify_eq. tls_tac.
  - unfold client_reconnect, client_stop in E. repeat case_hyp E; simplify_eq.
    etransitivity; [apply fail_tls|]. by etransitivity; [apply fail_tls|].
  - unfold client_reconnected, client_connect in E. by repeat case_hyp E; simplify_eq.
Qed.

Definition tls_inv cl : Prop := forall id c, connections cl !! id = Some c -> cc_tls c = true ->
  creds_ cl = false /\ forall id' c', connections cl !! id' = Some c' -> cc_tls c' = true -> id' = id.

Lemma tls_inv_same cl cl' : same_tls cl cl' -> tls_inv cl -> tls_inv cl'.
Proof.
  intros [Ec Et] I id c' C' T. rewrite Ec.
  assert (forall j d, connections cl' !! j = Some d -> cc_tls d = true ->
    exists d0, connections cl !! j = Some d0 /\ cc_tls d0 = true) as Back.
  { intros j d D Td. pose proof (Et j) as Ej. rewrite D in Ej. destruct (connections cl !! j) as [d0|]; [|done].
    injection Ej as Ej. exists d0. split; [done|congruence]. }
  destruct (Back _ _ C' T) as (c & C & Tc). destruct (I id c C Tc) as [A B]. split; [done|].
  intros id' d D Td. destruct (Back _ _ D Td) as (d0 & D0 & Td0). by apply (B id' d0).
Qed.

Lemma tls_inv_step ev cl cl' : exec ev cl = Some cl' -> tls_inv cl -> tls_inv cl'.
Proof.
  intros E I. pose proof (other_tls ev cl cl' E) as S. destruct ev; try by eapply tls_inv_same.
  - simpl in E. unfold client_connected in E. destruct (_ && _); [|done]. simpl in E.
    repeat case_hyp E; simplify_eq; intros id c; simpl; rewrite lookup_insert_Some;
      (intros [[<- <-]|[Ni C]] T; simpl in *; split; try done; intros id' c'; rewrite lookup_insert_Some;
       intros [[<- <-]|[Ni' C']] T'; try done; simpl in *;
       [destruct (I _ _ C' T') as [Z _]|destruct (I _ _ C T) as [Z _]|by apply (proj2 (I _ _ C T) id' c')]; congruence).
  - simpl in E. unfold client_connect_failed in E. repeat case_hyp E; simplify_eq; [|by apply (tls_inv_same cl)].
    intros id c C T. split; [done|]. by apply (I id c).
Qed.

(** ** The memory budget *)

(** Units a write holds. *)
Definition w_held (st : write_stage) : Z :=
  match st with
  | w_units _ => 0
  | w_lock e | w_header e | w_body _ e | w_flush _ e => rpc_envelope_size e
  end.

Definition client_available cl : Z := sem_count (resources_available (limits_ cl)).

Record budget_inv (mem : Z) cl : Prop := mk_budget_inv {
  bi_count : client_available cl = mem - msum w_held (writes cl);
  bi_nonneg : 0 <= client_available cl
}.

Definition same_budget cl cl' : Prop := limits_ cl' = limits_ cl /\ writes cl' = writes cl.

#[local] Instance same_budget_preorder : PreOrder same_budget.
Proof. split; [done|]. intros a b c [? ?] [? ?]. split; congruence. Qed.

Lemma budget_same mem cl cl' : same_budget cl cl' -> budget_inv mem cl -> budget_inv mem cl'.
Proof. intros [L W] [A B]. constructor; unfold client_available in *; by rewrite L, ?W. Qed.

Lemma fail_slots_budget l cl : same_budget cl (fail_slots l cl).
Proof.
  revert cl. induction l as [|[s k] l IH]; intros cl; [done|]. simpl. etransitivity; [|apply IH].
  unfold resolve. by repeat case_goal.
Qed.

Lemma fail_budget cl : same_budget cl (fail_outstanding_futures cl).
Proof.
  unfold fail_outstanding_futures. etransitivity; [|apply fail_slots_budget].
  unfold disable_conn. by repeat case_goal.
Qed.

Lemma refuse_budget id msg cl : same_budget cl (refuse id msg cl).
Proof. unfold refuse. etransitivity; [|apply fail_budget]. done. Qed.

Lemma exception_budget k r cl cl' : same_budget cl cl' -> same_budget cl (reader_exception k r cl').
Proof.
  intros S. unfold reader_exception. case_goal; [|done].
  etransitivity; [apply S|]. etransitivity; [apply fail_budget|done].
Qed.

Lemma next_budget k r cl cl' : same_budget cl cl' -> same_budget cl (reader_next k r cl').
Proof. intros S. unfold reader_next. by case_goal. Qed.

Lemma reader_budget k r cl cl' : reader_step k r cl = Some cl' -> same_budget cl cl'.
Proof.
  unfold reader_step. intros S. destruct (r_stage r) as [|id|id hdr].
  - repeat case_hyp S; simplify_eq; first [done | by apply exception_budget].
  - repeat case_hyp S; simplify_eq; [done|]. apply next_budget. etransitivity; [|apply refuse_budget]. done.
  - repeat case_hyp S; simplify_eq; try (by apply exception_budget).
    apply next_budget. unfold process_payload in *.
    match goal with X : _ ≫= _ = Ready _ |- _ => apply outcome_bind_Ready in X as (_ & _ & X); rename X into P end.
    repeat case_hyp P; simplify_eq; try (etransitivity; [|apply refuse_budget]; done).
    unfold resolve. by repeat case_goal.
Qed.

Lemma w_held_nonneg (m : gmap Z write_stage) : map_Forall (fun _ st => 0 <= w_held st) m.
Proof.
  intros k st _. destruct st; simpl; unfold rpc_envelope_size, rpc_letter_size; try lia; apply Z.add_nonneg_nonneg; try done; apply blen_nonneg.
Qed.

(** A write ends: its units come back. *)
Lemma budget_write_end mem k e st cl cl' :
  0 <= mem < 2 ^ 63 -> writes cl !! k = Some st -> w_held st = rpc_envelope_size e ->
  same_budget cl cl' -> budget_inv mem cl -> budget_inv mem (write_end k e cl').
Proof.
  intros M E Wh S I. apply (budget_same mem cl cl' S) in I. destruct S as [L W], I as [A B].
  rewrite <- W in E. pose proof (msum_delete w_held _ _ _ E) as D.
  pose proof (msum_nonneg w_held _ (w_held_nonneg (delete k (writes cl')))) as N.
  unfold client_available in *.
  assert (sem_count (sem_signal (resources_available (limits_ cl')) (rpc_envelope_size e)) =
    mem - msum w_held (delete k (writes cl'))) as Sc.
  { rewrite sem_signal_count, A, wrap_s_small; unfold fits_s; pose proof (w_held_nonneg _ _ _ E); simpl in *; lia. }
  constructor; unfold client_available; simpl; rewrite Sc; [done|]. pose proof (w_held_nonneg _ _ _ E). simpl in *. lia.
Qed.

Lemma budget_write mem k st cl cl' :
  0 <= mem < 2 ^ 63 -> writes cl !! k = Some st -> write_step k st cl = Some cl' ->
  budget_inv mem cl -> budget_inv mem cl'.
Proof.
  intros M E S I. assert (forall st' cl1, w_held st' = w_held st -> same_budget cl cl1 ->
    budget_inv mem (set_write k st' cl1)) as Mv.
  { intros st' cl1 Wh Sb. apply (budget_same mem cl cl1 Sb) in I. destruct Sb as [_ W], I as [A B].
    constructor; [|done]. unfold client_available in *. simpl. rewrite (msum_update _ _ _ st) by (by rewrite W). lia. }
  unfold write_step in S. destruct st; repeat case_hyp S; simplify_eq; try (by apply Mv);
    try (by eapply budget_write_end); try (by eapply budget_write_end; [..|apply fail_budget|]);
    try (by apply (budget_same mem cl)).
  match goal with X : sem_wait _ _ = Some _ |- _ => apply sem_wait_granted in X as [Wn Ws] end.
  destruct I as [A B]. unfold client_available in *.
  constructor; unfold client_available; simpl; rewrite ?(msum_update _ _ _ _ _ E); simpl; lia.
Qed.

Lemma budget_step mem ev cl cl' :
  0 <= mem < 2 ^ 63 -> life_inv cl -> exec ev cl = Some cl' -> budget_inv mem cl -> budget_inv mem cl'.
Proof.
  intros M L E I. destruct ev; simpl in E.
  - injection E as <-. apply (budget_same mem cl); [|done]. unfold client_send, raw_send. by repeat case_goal.
  - destruct (requests cl !! k) as [st|]; [|done]. unfold request_step, dispatch_write in E.
    destruct st; repeat case_hyp E; simplify_eq; try (by apply (budget_same mem cl)).
    match goal with X : _ ≫= _ = Ready _ |- _ => apply outcome_bind_Ready in X as (g & _ & [= <-]) end.
    destruct I as [A B]. constructor; [|done]. unfold client_available in *. simpl.
    rewrite msum_insert by (apply (le_writes _ L); lia). simpl. lia.
  - destruct (writes cl !! k) as [st|] eqn:W; [|done]. by eapply budget_write.
  - destruct (readers cl !! k); [|done]. eapply budget_same; [by eapply reader_budget|done].
  - unfold reader_failed in E. repeat case_hyp E; simplify_eq; (apply (budget_same mem cl); [by apply exception_budget|done]).
  - unfold reader_timeout in E. repeat case_hyp E; simplify_eq;
      (apply (budget_same mem cl); [|done]; etransitivity; [by apply (exception_budget k r cl cl)|done]).
  - repeat case_hyp E; simplify_eq. by apply (budget_same mem cl).
  - unfold client_connect in E. case_hyp E; simplify_eq. by apply (budget_same mem cl).
  - unfold client_connected in E. repeat case_hyp E; simplify_eq; by apply (budget_same mem cl).
  - unfold client_connect_failed in E. repeat case_hyp E; simplify_eq; by apply (budget_same mem cl).
  - unfold client_stop in E. case_hyp E; simplify_eq. eapply budget_same; [|done].
    etransitivity; [apply fail_budget|done].
  - unfold client_reconnect, client_stop in E. repeat case_hyp E; simplify_eq. eapply budget_same; [|done].
    etransitivity; [apply fail_budget|]. etransitivity; [apply fail_budget|done].
  - unfold client_reconnected, client_connect in E. repeat case_hyp E; simplify_eq; by apply (budget_same mem cl).
Qed.

(** What failing does to the promise of a slot. *)
Lemma fail_works s k cl :
  slots_inv cl -> rpc_slots_ cl !! s = Some k ->
  works (fail_outstanding_futures cl) !! k = Some (mk_work (set_exception remote_connection_error) s).
Proof.
  intros Is Sl. rewrite fail_outstanding_spec by done. simpl. destruct (disable_conn_frame cl) as [-> _].
  rewrite map_lookup_imap, (si_slots _ Is _ _ Sl). simpl. unfold fail_work. simpl.
  by rewrite bool_decide_eq_true_2.
Qed.

(** ** Properties *)

(** C12: in every execution of the client, whatever the server sends and
    however requests, timeouts, failures and reconnects interleave, no promise
    is resolved twice and no write finds a null connection; every slot holds an
    unresolved promise of its own session; and a promise that got a response
    got one of its session. *)
Theorem promises_resolved_once opts cl :
  reachable opts cl ->
  undefined_ cl = false /\
  (forall s k, rpc_slots_ cl !! s = Some k -> works cl !! k = Some (mk_work unresolved s)) /\
  (forall k r s, works cl !! k = Some (mk_work (set_value r) s) ->
     exists ctx, r = Some ctx /\ u16 (ctx_session ctx) = s).
Proof.
  intros R. destruct (reachable_client_inv in_filters_ out_filters_ opts cl R) as [[A B _ _] I].
  split; [apply I|]. by split.
Qed.

(** What the end of a read does to the promise of a slot. *)
Lemma ended_read_fails j r s k ev cl cl' :
  slots_inv cl -> rpc_slots_ cl !! s = Some k -> readers cl !! j = Some r -> live r = true ->
  ev = ce_reader_failed j \/ ev = ce_reader_timeout j -> exec ev cl = Some cl' ->
  works cl' !! k = Some (mk_work (set_exception remote_connection_error) s).
Proof.
  intros Is Sl Er Lr Ev E. destruct Ev as [-> | ->]; simpl in E; rewrite Er in E.
  - unfold reader_failed, reader_exception in E. rewrite Lr in E. destruct (r_stage r); simplify_eq; simpl;
      apply fail_works; try done. by apply (slots_inv_same cl).
  - unfold reader_timeout, reader_exception in E. rewrite Lr in E. destruct (r_stage r); simplify_eq; simpl;
      by apply fail_works.
Qed.

(** C13: no outstanding request is forgotten: as long as a promise is
    unresolved and its slot was free when it was sent, its slot leads to it, the
    connection is valid, and a loop [do_reads] is running that has captured this
    very connection or is about to; and when the read of that loop fails or
    times out, the request is failed. *)
Theorem outstanding_request_is_served opts cl k s :
  reachable opts cl -> works cl !! k = Some (mk_work unresolved s) -> k ∉ lost_ cl ->
  rpc_slots_ cl !! s = Some k /\ is_conn_valid cl = true /\
  exists j r, readers cl !! j = Some r /\ live r = true /\
    (r_stage r = r_loop \/ exists id, conn_ cl = Some id /\ reads (r_stage r) = Some id) /\
    (forall ev cl', ev = ce_reader_failed j \/ ev = ce_reader_timeout j -> exec ev cl = Some cl' ->
       works cl' !! k = Some (mk_work (set_exception remote_connection_error) s)).
Proof.
  intros R E N. destruct (reachable_client_inv in_filters_ out_filters_ opts cl R) as [Is I].
  pose proof (si_waiting _ Is _ _ E N) as S. split; [done|].
  destruct (le_slots _ I) as (V & (j & r & Er & Lr & Sv) & _); [intros Z; by rewrite Z in S|].
  split; [done|]. exists j, r. split_and!; try done. intros ev cl'. by apply (ended_read_fails j r).
Qed.

(** C25: [fail_outstanding_futures] resolves every promise that has a slot with
    [remote_connection_error], leaves every other one as it is, frees every
    slot and leaves the client without a valid connection. *)
Theorem fail_outstanding_resolves_all opts cl :
  reachable opts cl ->
  let cl' := fail_outstanding_futures cl in
  rpc_slots_ cl' = ∅ /\ is_conn_valid cl' = false /\ undefined_ cl' = false /\
  (forall s k, rpc_slots_ cl !! s = Some k ->
     works cl' !! k = Some (mk_work (set_exception remote_connection_error) s)) /\
  (forall k w, works cl !! k = Some w -> rpc_slots_ cl !! w_session w <> Some k -> works cl' !! k = Some w).
Proof.
  intros R. destruct (reachable_client_inv in_filters_ out_filters_ opts cl R) as [Is I]. simpl.
  destruct (fail_outstanding_life cl Is) as [S [Es Ev]].
  split_and!; [done|done|by rewrite (sf_undefined _ _ S); apply I|..].
  - intros s k Sl. by apply fail_works.
  - intros k w W N. rewrite (fail_outstanding_spec cl Is). simpl. destruct (disable_conn_frame cl) as [-> _].
    rewrite map_lookup_imap, W. simpl. unfold fail_work. by rewrite bool_decide_eq_false_2.
Qed.

(** C29: the credentials are moved into the first TLS connection: at most one
    connection of a client is ever encrypted, and once there is one, every
    later connection (every [reconnect]) is in the clear. *)
Theorem tls_used_once opts cl :
  reachable opts cl ->
  (forall id c, connections cl !! id = Some c -> cc_tls c = true ->
     creds_ cl = false /\ forall id' c', connections cl !! id' = Some c' -> cc_tls c' = true -> id' = id) /\
  (creds_ cl = false -> forall addr i o cl', exec (ce_connected addr i o) cl = Some cl' ->
     exists c, connections cl' !! next_conn cl = Some c /\ cc_tls c = false).
Proof.
  intros R. split.
  - change (tls_inv cl). revert R. apply client_reachable_inv; [done|].
    intros ev c c' I E. by eapply tls_inv_step.
  - intros Cr addr i o cl' E. simpl in E. unfold client_connected in E. destruct (_ && _); [|done]. simpl in E.
    rewrite Cr in E. repeat case_hyp E; simplify_eq; eexists; (split; [apply lookup_insert_eq|done]).
Qed.

(** C28: a read that timed out still fails requests of a later connection: when
    the abandoned read of connection [id] finds the end of its stream, every
    outstanding request of the client is failed and the current connection is
    disabled, whichever connection that is. *)
Theorem late_read_fails_current_connection opts cl k id c :
  reachable opts cl -> readers cl !! k = Some (mk_reader (r_header id) false) ->
  connections cl !! id = Some c -> finished (c_istream (cc_conn c)) = true ->
  blen (pending (c_istream (cc_conn c))) < kHeaderSize ->
  exists cl', exec (ce_reader k) cl = Some cl' /\ conn_ cl' = conn_ cl /\
    is_conn_valid cl' = false /\ rpc_slots_ cl' = ∅ /\
    (forall s w, rpc_slots_ cl !! s = Some w ->
       works cl' !! w = Some (mk_work (set_exception remote_connection_error) s)).
Proof.
  intros R E C F L. destruct (reachable_client_inv in_filters_ out_filters_ opts cl R) as [Is I].
  destruct (read_exactly_short _ _ L F) as (i & Rd & _).
  set (c' := with_parsers (u32 (istream_active_parser (with_istream i (cc_conn c)) - 1)) (with_istream i (cc_conn c))).
  set (cl1 := upd_cconn id (fun _ => c') cl).
  assert (slots_inv (upd_cconn id (set_error "Could not parse header from server") cl1)) as Is1
    by (by apply (slots_inv_same cl)).
  assert (slots_inv cl1) as Is0 by (by apply (slots_inv_same cl)).
  assert (negb (kHeaderSize =? blen (pending (c_istream (cc_conn c)))) = true) as Nb
    by (apply negb_true_iff, Z.eqb_neq; lia).
  eexists. split_and!.
  - unfold client_exec. rewrite E. unfold reader_step. cbn [r_stage]. rewrite C, Rd.
    unfold parse_header_resume. rewrite Nb. fold c'. fold cl1. reflexivity.
  - simpl. by rewrite (sf_conn _ _ (proj1 (refuse_life id _ cl1 Is0))).
  - apply (proj2 (proj2 (refuse_life id "Could not parse header from server" cl1 Is0))).
  - apply (proj1 (proj2 (refuse_life id "Could not parse header from server" cl1 Is0))).
  - intros s w Sl. by apply (fail_works s w (upd_cconn id (set_error "Could not parse header from server") cl1)).
Qed.

Lemma client_units opts cl :
  0 <= memory_avail_for_client opts < 2 ^ 63 -> reachable opts cl ->
  client_available cl = memory_avail_for_client opts - msum w_held (writes cl) /\
  0 <= client_available cl <= memory_avail_for_client opts.
Proof.
  intros M R. assert (budget_inv (memory_avail_for_client opts) cl /\ client_inv cl) as [[A B] _].
  { revert R. apply (client_reachable_inv in_filters_ out_filters_ opts
      (fun c => budget_inv (memory_avail_for_client opts) c /\ client_inv c)).
    - split; [|apply (reachable_client_inv in_filters_ out_filters_ opts), rtc_refl].
      constructor; unfold client_available; simpl; rewrite sem_make_count by (unfold fits_s; lia);
        rewrite ?msum_empty; lia.
    - intros ev c c' [I J] E. split; [|by eapply client_inv_step]. eapply budget_step; [done|apply J|done|done]. }
  pose proof (msum_nonneg w_held _ (w_held_nonneg (writes cl))).
  lia.
Qed.

(** C26: the client never loses memory units: what is available is the budget
    minus the sizes of the envelopes being written, it is never negative, and
    it is the whole budget when nothing is being written. *)
Theorem client_units_exact opts cl :
  0 <= memory_avail_for_client opts < 2 ^ 63 -> reachable opts cl ->
  client_available cl = memory_avail_for_client opts - msum w_held (writes cl) /\
  0 <= client_available cl /\
  (writes cl = ∅ -> client_available cl = memory_avail_for_client opts).
Proof.
  intros M R. destruct (client_units opts cl M R) as (A & B & _).
  split_and!; [done|done|]. intros W. rewrite A, W, msum_empty. lia.
Qed.

(** ** Using up the session numbers *)

Lemma send_release e cl :
  NDEBUG = true -> is_conn_valid cl = true -> gate_is_closed (dispatch_gate_ cl) = false ->
  is_conn_valid (client_send e cl) = true /\
  gate_is_closed (dispatch_gate_ (client_send e cl)) = false /\
  session_idx_ (client_send e cl) = u16 (session_idx_ cl + 1) /\
  is_Some (rpc_slots_ (client_send e cl) !! u16 (session_idx_ cl + 1)) /\
  (forall s, is_Some (rpc_slots_ cl !! s) -> is_Some (rpc_slots_ (client_send e cl) !! s)).
Proof.
  intros Nd V G. destruct (gate_enter_open _ G) as (g & Eg & _ & Cl). unfold client_send. rewrite Eg.
  unfold raw_send. unfold is_conn_valid in V |- *. simpl. rewrite V. simpl. unfold DLOG_THROW_IF. rewrite Nd.
  case_bool_decide as T; simpl; rewrite V; split_and!; try done.
  - by rewrite lookup_insert_eq.
  - intros s Hs. rewrite lookup_insert. case_decide; eauto.
Qed.

(** After [n] requests without an answer, the sessions [1 .. n] are in use. *)
Lemma sends_use_sessions opts (e : rpc_envelope) cl0 (n : nat) :
  NDEBUG = true -> reachable opts cl0 -> is_conn_valid cl0 = true ->
  gate_is_closed (dispatch_gate_ cl0) = false -> session_idx_ cl0 = 0 ->
  exists cl, reachable opts cl /\ is_conn_valid cl = true /\ gate_is_closed (dispatch_gate_ cl) = false /\
    session_idx_ cl = u16 (Z.of_nat n) /\
    (forall s, 1 <= s <= Z.of_nat n -> s < 2 ^ 16 -> is_Some (rpc_slots_ cl !! s)).
Proof.
  intros Nd R0 V0 G0 S0. induction n as [|n (cl & R & V & G & Si & Sl)].
  - exists cl0. split_and!; try done. intros s ? ?. lia.
  - destruct (send_release e cl Nd V G) as (V' & G' & S' & Sn & Mo). exists (client_send e cl).
    assert (u16 (session_idx_ cl + 1) = u16 (Z.of_nat (S n))) as Es.
    { rewrite Si, wrap_u_add_l. f_equal. lia. }
    split_and!; [eapply rtc_r; [done|by exists (ce_send e)]|done|done|congruence|].
    intros s Hs Hb. destruct (decide (s = Z.of_nat n + 1)) as [->|N]; [|apply Mo, Sl; lia].
    replace (Z.of_nat n + 1) with (u16 (session_idx_ cl + 1)); [done|].
    rewrite Es, wrap_u_small; unfold fits_u; lia.
Qed.

(** ** Who keeps a connection object alive *)

(** [conn_] and the continuations of [process_one_request] own a connection; a
    write has the address of its output stream only. *)
Definition owned cl (id : Z) : bool :=
  bool_decide (conn_ cl = Some id) ||
  existsb (fun '(_, r) => bool_decide (reads (r_stage r) = Some id)) (map_to_list (readers cl)).
Definition dangling_write (k : Z) cl : bool :=
  match writes cl !! k with
  | Some (w_body id _) | Some (w_flush id _) => negb (owned cl id)
  | _ => false
  end.

(** [reconnect] drops the connection only when no write is left. *)
Lemma reconnect_waits_for_writes opts cl cl' :
  reachable opts cl -> exec ce_reconnected cl = Some cl' -> writes cl' = ∅.
Proof.
  intros R E. destruct (reachable_client_inv in_filters_ out_filters_ opts cl R) as [_ I]. simpl in E.
  unfold client_reconnected in E. destruct (_ && _) eqn:G; [|done]. apply andb_true_iff in G as [_ G].
  apply Z.eqb_eq in G. rewrite (le_gate _ I) in G. destruct (fibers_zero cl G) as [N _].
  assert (writes cl = ∅) as W.
  { apply map_empty. intros k. destruct (writes cl !! k) as [st|] eqn:Ek; [|done]. destruct N. left. eauto. }
  unfold client_connect in E. by repeat case_hyp E; simplify_eq.
Qed.
End props.

(** ** A concrete client *)
Module ClientDemo.
Import Demo.
Definition d_opts : rpc_client_opts := mk_opts true 60000 1000.
Definition d_run (evs : list client_event) : option client := client_run [] [] evs (rpc_client_make d_opts).
Definition d_state (evs : list client_event) : client := default (rpc_client_make d_opts) (d_run evs).
Definition d_ran {A} (o : option A) : bool := match o with Some _ => true | None => false end.

Lemma d_default {A} (x : A) o : d_ran o = true -> o = Some (default x o).
Proof. by destruct o. Qed.

Lemma d_reachable evs : d_ran (d_run evs) = true -> client_reachable [] [] d_opts (d_state evs).
Proof.
  unfold d_state. intros E. destruct (d_run evs) as [cl|] eqn:R; [|done]. by eapply client_run_rtc.
Qed.

Definition d_connected (bs : list byte) (fin : bool) : client_event :=
  ce_connected demo_addr (mk_stream bs fin false : @istream demo_seastar) ([] : @ostream demo_seastar).
Definition d_envelope : rpc_envelope := demo_envelope [Byte.x2a] 9 0.
Definition d_reply (sess : Z) : rpc_envelope := demo_envelope [Byte.x2b] 200 sess.
End ClientDemo.

Module ClientWitness.
Import Demo ClientDemo.

(** A request sent, and its response read. *)
Definition w_sent : list client_event :=
  [ce_connect; d_connected (frame (d_reply 1)) false; ce_send d_envelope; ce_request 0].
Definition w_answered : list client_event := w_sent ++ [ce_reader 0; ce_reader 0; ce_reader 0].

Lemma promises_resolved_once_witness : undefined_ (d_state w_answered) = false.
Proof.
  destruct (promises_resolved_once [] [] d_opts (d_state w_answered)) as [U _];
    [apply d_reachable; vm_refl|exact U].
Defined.

Lemma outstanding_request_is_served_witness :
  rpc_slots_ (d_state w_sent) !! 1 = Some 0 /\ is_conn_valid (d_state w_sent) = true /\
  exists j r, readers (d_state w_sent) !! j = Some r /\ live r = true.
Proof.
  destruct (outstanding_request_is_served [] [] d_opts (d_state w_sent) 0 1) as (S & V & j & r & Er & Lr & _).
  - apply d_reachable. vm_refl.
  - vm_refl.
  - apply (bool_decide_eq_false_1 (0 ∈ lost_ (d_state w_sent))). vm_refl.
  - split; [exact S|]. split; [exact V|]. exists j, r. split; [exact Er|exact Lr].
Defined.

Lemma fail_outstanding_resolves_all_witness :
  works (fail_outstanding_futures (d_state w_sent)) !! 0 =
    Some (mk_work (set_exception remote_connection_error) 1).
Proof.
  destruct (fail_outstanding_resolves_all [] [] d_opts (d_state w_sent)) as (_ & _ & _ & F & _);
    [apply d_reachable; vm_refl|]. apply F. vm_refl.
Defined.

(** [connect] after a failed read does not wait: it replaces the connection under
    a write that has its stream. *)
Definition w_replaced : list client_event :=
  [ce_connect; d_connected [] false; ce_send d_envelope; ce_request 0; ce_write 0; ce_write 0; ce_write 0;
   ce_reader 0; ce_reader_failed 0; ce_connect; d_connected [] false].
Example connect_leaves_dangling_write : dangling_write 0 <$> d_run w_replaced = Some true.
Proof. vm_refl. Qed.

Lemma tls_used_once_witness : creds_ (d_state w_sent) = false.
Proof.
  destruct (tls_used_once [] [] d_opts (d_state w_sent)) as [T _]; [apply d_reachable; vm_refl|].
  destruct (connections (d_state w_sent) !! 0) as [c|] eqn:C.
  - apply (T 0 c C). assert (cc_tls <$> connections (d_state w_sent) !! 0 = Some true) as Ct by vm_refl.
    rewrite C in Ct. by injection Ct.
  - assert (cc_tls <$> connections (d_state w_sent) !! 0 = Some true) as Ct by vm_refl. by rewrite C in Ct.
Defined.

(** A header read times out, the client reconnects and sends a request; then
    the abandoned read ends. *)
Definition w_late : list client_event :=
  [ce_connect; d_connected [] false; ce_reader 0; ce_reader_timeout 0; ce_reconnect; ce_reconnected;
   d_connected [] false; ce_send d_envelope].
Definition w_conn : client_conn :=
  default (mk_cconn _ (demo_conn [] true) false) (connections (d_state w_late) !! 0).

Lemma late_read_fails_current_connection_witness :
  exists cl', client_exec [] [] (ce_reader 1) (d_state w_late) = Some cl' /\ conn_ cl' = Some 1 /\
    works cl' !! 0 = Some (mk_work (set_exception remote_connection_error) 1).
Proof.
  destruct (late_read_fails_current_connection [] [] d_opts (d_state w_late) 1 0 w_conn)
    as (cl' & E & C & _ & _ & F).
  - apply d_reachable. vm_refl.
  - vm_refl.
  - apply d_default. vm_refl.
  - vm_refl.
  - vm_decide.
  - exists cl'. split; [exact E|]. split; [rewrite C; vm_refl|]. apply F. vm_refl.
Defined.

Lemma client_units_exact_witness :
  client_available (d_state (w_sent ++ [ce_write 0])) = 1000 - 17.
Proof.
  destruct (client_units_exact [] [] d_opts (d_state (w_sent ++ [ce_write 0]))) as [A _];
    [vm_decide|apply d_reachable; vm_refl|]. rewrite A. vm_refl.
Defined.
End ClientWitness.
