(* ===== verification/ClientSerial.v ===== *)
(** * A client that is used for one call at a time

    The load channels of load_channel.h and the tests make a call only when the
    call before has returned.  Sessions are numbered with 16 bits and wrap, and
    a slot that is still occupied makes the client lose a request; this file
    shows that a client that is used serially never does, however many calls it
    makes, as long as its outgoing filters do not throw: a filter that throws
    leaves its slot behind. *)

From Stdlib Require Import ZArith Lia.
From stdpp Require Import base gmap list numbers strings.
From coqutil Require Import Byte.
From S2P Require Import Prelude Header Seastar Letter Connection RecvContext Wire Filters Client ClientInv ClientLife ClientProps.

(** A request that has returned to its caller. *)
Definition returned (st : request_stage) : Prop := exists r, st = q_done r.
(** A request that waits for its response. *)
Definition awaiting (st : request_stage) : Prop := st = q_wait \/ exists e, st = q_outgoing e.

Section serial.
Context `{Build, GeneratedHeader, Xxhash, Seastar}.
Variable in_filters_ : list (rpc_recv_context -> outcome rpc_recv_context).
Variable out_filters_ : list (rpc_envelope -> outcome rpc_envelope).
Implicit Types cl : client.

Abbreviation exec := (client_exec in_filters_ out_filters_).

(** A call is made only when every call before it has returned. *)
Definition serial_step cl cl' : Prop :=
  exists ev, (forall e, ev = ce_send e -> map_Forall (fun _ => returned) (requests cl)) /\ exec ev cl = Some cl'.
Definition serial_reachable (opts : rpc_client_opts) cl : Prop := rtc serial_step (rpc_client_make opts) cl.

Lemma serial_step_client cl cl' : serial_step cl cl' -> client_step in_filters_ out_filters_ cl cl'.
Proof. intros (ev & _ & E). by exists ev. Qed.

(** The same, as a function of the events. *)
Definition all_returned cl : bool :=
  forallb (fun '(_, st) => match st with q_done _ => true | _ => false end) (map_to_list (requests cl)).
Fixpoint serial_run (evs : list client_event) cl : option client :=
  match evs with
  | [] => Some cl
  | ev :: evs =>
      if match ev with ce_send _ => all_returned cl | _ => true end then
        match exec ev cl with Some cl => serial_run evs cl | None => None end
      else None
  end.

Lemma all_returned_spec cl : all_returned cl = true -> map_Forall (fun _ => returned) (requests cl).
Proof.
  unfold all_returned. rewrite forallb_forall. intros F k st E.
  specialize (F (k, st)). rewrite <- list_elem_of_In, elem_of_map_to_list in F. specialize (F E). simpl in F.
  destruct st; try done. by eexists.
Qed.

Lemma serial_run_rtc evs cl cl' : serial_run evs cl = Some cl' -> rtc serial_step cl cl'.
Proof.
  revert cl. induction evs as [|ev evs IH]; intros cl; [by intros [= <-]|]. cbn [serial_run].
  destruct (match ev with ce_send _ => _ | _ => _ end) eqn:A; [|done].
  destruct (exec ev cl) as [cl1|] eqn:E; [|done]. intros R. eapply rtc_l; [|by apply IH].
  exists ev. split; [|done]. intros e ->. by apply all_returned_spec.
Qed.

(** ** What the events do to the slots *)

(** Slots are only released; requests, the gate and what was lost stay. *)
Record releases cl cl' : Prop := mk_releases {
  rl_slots : rpc_slots_ cl' ⊆ rpc_slots_ cl;
  rl_requests : requests cl' = requests cl;
  rl_next : next_request cl' = next_request cl;
  rl_gate : gate_is_closed (dispatch_gate_ cl') = gate_is_closed (dispatch_gate_ cl);
  rl_lost : lost_ cl' = lost_ cl
}.

#[local] Instance releases_preorder : PreOrder releases.
Proof.
  split; [by constructor|]. intros a b c [S1 Q1 N1 G1 L1] [S2 Q2 N2 G2 L2].
  constructor; [by etransitivity|congruence..].
Qed.

(** Updates of other fields. *)
Ltac releases_same := constructor; simpl; rewrite ?(proj2 (gate_leave_spec _)); done.

Lemma releases_resolve p s k cl : releases cl (upd_rpc_slots (delete s) (resolve p k cl)).
Proof. unfold resolve. repeat case_goal; constructor; simpl; try done; apply delete_subseteq. Qed.

Lemma releases_fail_slots l cl : releases cl (fail_slots l cl).
Proof.
  revert cl. induction l as [|[s k] l IH]; intros cl; simpl; [done|]. etransitivity; [|apply IH]. apply releases_resolve.
Qed.

Lemma releases_fail cl : releases cl (fail_outstanding_futures cl).
Proof.
  unfold fail_outstanding_futures. etransitivity; [|apply releases_fail_slots].
  unfold disable_conn. repeat case_goal; releases_same.
Qed.

Lemma releases_refuse id msg cl : releases cl (refuse id msg cl).
Proof. unfold refuse. etransitivity; [|apply releases_fail]. releases_same. Qed.

Lemma releases_exception k r cl : releases cl (reader_exception k r cl).
Proof.
  unfold reader_exception. case_goal; [|releases_same]. etransitivity; [apply releases_fail|]. releases_same.
Qed.

Lemma releases_next k r cl : releases cl (reader_next k r cl).
Proof. unfold reader_next. case_goal; releases_same. Qed.

Lemma releases_process id opt cl cl' : process_payload id opt cl = Ready cl' -> releases cl cl'.
Proof.
  unfold process_payload. intros P. apply outcome_bind_Ready in P as (_ & _ & P).
  repeat case_hyp P; injection P as <-; try apply releases_refuse.
  etransitivity; [|apply releases_resolve]. releases_same.
Qed.

Lemma releases_write_failed k e cl : releases cl (write_failed k e cl).
Proof. unfold write_failed. etransitivity; [apply releases_fail|]. releases_same. Qed.

Lemma releases_write k st cl cl' : write_step k st cl = Some cl' -> releases cl cl'.
Proof.
  intros E. unfold write_step in E. destruct st; repeat case_hyp E; simplify_eq;
    first [apply releases_write_failed | releases_same].
Qed.

Lemma releases_reader k r cl cl' : reader_step k r cl = Some cl' -> releases cl cl'.
Proof.
  intros E. unfold reader_step in E. destruct (r_stage r) as [|id|id hdr].
  - repeat case_hyp E; simplify_eq; first [apply releases_exception | releases_same].
  - destruct (connections cl !! id) as [c|]; [|done]. destruct (read_exactly _ _) as [[b i]|]; [|done].
    destruct (parse_header_resume b i (cc_conn c)) as [[hdr|] c']; injection E as <-; [releases_same|].
    etransitivity; [|apply releases_next]. etransitivity; [|apply releases_refuse]. releases_same.
  - destruct (connections cl !! id) as [c|]; [|done]. destruct (read_exactly _ _) as [[b i]|]; [|done].
    destruct (parse_payload_resume hdr b i (cc_conn c)) as [[opt c']|ex|]; [| |done].
    2: { injection E as <-. apply releases_exception. }
    transitivity (upd_cconn id (fun _ => c') cl); [releases_same|].
    destruct (process_payload id opt _) as [cl2|ex|] eqn:P; [| |done]; injection E as <-.
    + etransitivity; [by eapply releases_process|]. apply releases_next.
    + apply releases_exception.
Qed.

(** Every event but sending, the progress of a request, and what closes or
    replaces the gate. *)
Lemma releases_other ev cl cl' :
  exec ev cl = Some cl' -> (forall e, ev <> ce_send e) -> (forall k, ev <> ce_request k) ->
  ev <> ce_stop -> ev <> ce_reconnect -> ev <> ce_reconnected -> releases cl cl'.
Proof.
  intros E N1 N2 N3 N4 N5. destruct ev as [e|k|k|k|k|k|id i| |a i o|h| | |]; simpl in E;
    try (by destruct (N1 e)); try (by destruct (N2 k)); try done.
  - case_hyp E; [|done]. by eapply releases_write.
  - case_hyp E; [|done]. by eapply releases_reader.
  - unfold reader_failed in E. repeat case_hyp E; simplify_eq; etransitivity; [|apply releases_exception| |apply releases_exception];
      releases_same.
  - unfold reader_timeout in E. repeat case_hyp E; simplify_eq; (etransitivity; [apply releases_exception|]); releases_same.
  - repeat case_hyp E; simplify_eq. releases_same.
  - unfold client_connect in E. case_hyp E; simplify_eq. releases_same.
  - unfold client_connected in E. case_hyp E; [|done]. simpl in E.
    destruct (gate_enter _) as [g|ex|] eqn:G; simplify_eq; [|releases_same].
    apply gate_enter_Ready in G as (Cl & _ & Cl'). constructor; simpl; congruence || done.
  - unfold client_connect_failed in E. repeat case_hyp E; simplify_eq; releases_same.
Qed.

(** ** The invariant *)

Record busy_inv cl : Prop := mk_busy_inv {
  bs_closed : gate_is_closed (dispatch_gate_ cl) = true -> rpc_slots_ cl = ∅;
  bs_busy : forall s k, rpc_slots_ cl !! s = Some k -> exists st, requests cl !! k = Some st /\ awaiting st;
  bs_lost : lost_ cl = ∅
}.

(** At most the last request has not returned. *)
Definition one_open cl : Prop :=
  forall k st, requests cl !! k = Some st -> returned st \/ k = next_request cl - 1.

Lemma busy_releases cl cl' : releases cl cl' -> busy_inv cl -> busy_inv cl'.
Proof.
  intros [S Q _ G L] [A B C]. constructor; rewrite ?Q, ?G, ?L; try done.
  - intros Cl. rewrite (A Cl) in S. apply map_empty. intros s. destruct (rpc_slots_ cl' !! s) as [k|] eqn:E; [|done]. by apply (lookup_weaken _ ∅) in E.
  - intros s k E. apply (B s). by eapply lookup_weaken.
Qed.

(** Without slots, all that matters is what was lost. *)
Lemma busy_empty cl : rpc_slots_ cl = ∅ -> lost_ cl = ∅ -> busy_inv cl.
Proof. intros S L. constructor; rewrite ?S; done. Qed.

(** All calls have returned: no slot is taken. *)
Lemma idle_slots cl : busy_inv cl -> map_Forall (fun _ => returned) (requests cl) -> rpc_slots_ cl = ∅.
Proof.
  intros [_ B _] R. apply map_empty. intros s. destruct (rpc_slots_ cl !! s) as [k|] eqn:E; [|done].
  destruct (B s k E) as (st & Q & Aw). destruct (R k st Q) as [r ->]. by destruct Aw as [|[? ?]].
Qed.

Lemma busy_send e cl :
  busy_inv cl -> map_Forall (fun _ => returned) (requests cl) -> busy_inv (client_send e cl).
Proof.
  intros I R. pose proof (idle_slots cl I R) as S. pose proof (bs_lost _ I) as L. unfold client_send.
  destruct (gate_enter (dispatch_gate_ cl)) as [g|ex|] eqn:G; [|by apply busy_empty|done].
  apply gate_enter_Ready in G as (_ & _ & Cl). unfold raw_send. case_goal; [by apply busy_empty|]. simpl.
  rewrite S, lookup_empty, bool_decide_false by (by intros [? ?]).
  assert (DLOG_THROW_IF false "RPC slot already allocated" = Ready tt) as -> by (unfold DLOG_THROW_IF; by case_goal). simpl.
  constructor; simpl; [congruence| |done]. intros s k. rewrite lookup_insert. case_decide; [|by rewrite S]. intros [= <-].
  eexists. rewrite lookup_insert_eq. split; [done|]. right. eauto.
Qed.

(** The outgoing filters do not throw. *)
Definition quiet_filters : Prop := forall e ex, rpc_filter_apply out_filters_ e <> Failed ex.

Lemma busy_request k st cl cl' :
  quiet_filters -> slots_inv cl -> requests cl !! k = Some st ->
  request_step in_filters_ out_filters_ k st cl = Some cl' -> busy_inv cl -> busy_inv cl'.
Proof.
  intros Qf Is Q E I. pose proof I as [A B C].
  (* no slot belongs to a request that is past waiting *)
  assert (forall st' cl1, rpc_slots_ cl1 = rpc_slots_ cl -> requests cl1 = <[k := st']> (requests cl) ->
    gate_is_closed (dispatch_gate_ cl1) = gate_is_closed (dispatch_gate_ cl) -> lost_ cl1 = lost_ cl ->
    (awaiting st' \/ forall s, rpc_slots_ cl !! s <> Some k) -> busy_inv cl1) as Set_.
  { intros st' cl1 S1 Q1 G1 L1 Ok. constructor; rewrite ?S1, ?Q1, ?G1, ?L1; try done. intros s j Sj.
    rewrite lookup_insert. case_decide as J; [|by apply (B s)]. subst j. destruct Ok as [Ok|Ok]; [eauto|by destruct (Ok s)]. }
  assert (forall s p w, works cl !! k = Some (mk_work p w) -> p <> unresolved -> rpc_slots_ cl !! s <> Some k) as Res.
  { intros s p w W N S. apply (si_slots _ Is) in S. congruence. }
  assert (~ awaiting st -> forall s, rpc_slots_ cl !! s <> Some k) as Past.
  { intros N s S. destruct (B s k S) as (st' & Q' & Aw). congruence. }
  unfold request_step in E. destruct st as [e| |ctx|r|r].
  - destruct (rpc_filter_apply out_filters_ e) as [e1|ex|] eqn:F; [|by destruct (Qf e ex)|done].
    unfold dispatch_write in E. destruct (gate_enter (dispatch_gate_ cl)) as [g|ex|] eqn:G; simpl in E; simplify_eq.
    + apply gate_enter_Ready in G as (Cl & _ & Cl'). eapply Set_; simpl; [done|done|congruence|done|]. left. by left.
    + apply busy_empty; [|done]. apply A. destruct (gate_is_closed (dispatch_gate_ cl)) eqn:Cl; [done|].
      destruct (gate_enter_open _ Cl) as (g & Eg & _). congruence.
  - destruct (works cl !! k) as [[[|[ctx|]|ex] w]|] eqn:W; simplify_eq; eapply Set_; simpl; try done; right; intros s;
      by eapply Res.
  - repeat case_hyp E; simplify_eq; eapply Set_; simpl; try done; right; apply Past; by intros [|[? ?]].
  - injection E as <-. eapply Set_; simpl; try done; [apply gate_leave_spec|]. right. apply Past. by intros [|[? ?]].
  - done.
Qed.

Lemma busy_stop cl cl' : client_stop cl = Some cl' -> slots_inv cl -> busy_inv cl -> busy_inv cl'.
Proof.
  intros E Is I. unfold client_stop in E. case_hyp E; simplify_eq.
  apply busy_empty; simpl; [by rewrite fail_outstanding_spec|]. rewrite (rl_lost _ _ (releases_fail cl)). apply I.
Qed.

Lemma busy_step cl cl' : quiet_filters -> slots_inv cl -> busy_inv cl -> serial_step cl cl' -> busy_inv cl'.
Proof.
  intros Qf Is I (ev & Ok & E). destruct ev; try (eapply busy_releases; [eapply releases_other; [exact E|done..]|done]);
    simpl in E.
  - injection E as <-. apply busy_send; [done|]. by eapply Ok.
  - destruct (requests cl !! k) as [st|] eqn:Q; [|done]. by eapply busy_request.
  - by eapply busy_stop.
  - unfold client_reconnect in E. destruct (client_stop _) as [cl1|] eqn:S; [|done]. injection E as <-.
    eapply (busy_releases cl1); [releases_same|]. eapply busy_stop; [done|by apply slots_inv_fail|].
    eapply busy_releases; [apply releases_fail|done].
  - unfold client_reconnected, client_connect in E. case_hyp E; [|done]. simpl in E.
    destruct (gate_is_closed (dispatch_gate_ cl)) eqn:Cl; simpl in E; simplify_eq.
    + apply busy_empty; simpl; [by apply (bs_closed _ I)|apply I].
    + eapply busy_releases; [|exact I]. releases_same.
Qed.

Lemma one_open_fresh st cl cl' :
  map_Forall (fun _ => returned) (requests cl) -> requests cl' = <[next_request cl := st]> (requests cl) ->
  next_request cl' = next_request cl + 1 -> one_open cl'.
Proof.
  intros R Q N k st'. rewrite Q, N, lookup_insert. case_decide; [right; lia|]. intros E. left. by apply (R k).
Qed.

Lemma one_open_set k st st' cl cl' :
  one_open cl -> requests cl !! k = Some st -> ~ returned st -> requests cl' = <[k := st']> (requests cl) ->
  next_request cl' = next_request cl -> one_open cl'.
Proof.
  intros O E N Q Nx j st2. rewrite Q, Nx, lookup_insert. case_decide as J; [|by apply O]. subst j.
  intros _. right. by destruct (O k st E).
Qed.

Lemma one_open_send e cl : map_Forall (fun _ => returned) (requests cl) -> one_open (client_send e cl).
Proof.
  intros R. unfold client_send. destruct (gate_enter _); [|by eapply one_open_fresh|].
  2: { intros k st E. left. by apply (R k). }
  unfold raw_send. repeat case_goal; try by eapply one_open_fresh.
  intros k st E. left. by apply (R k).
Qed.

(** A returned request stays; another one may advance; only sending adds one. *)
Lemma unsent_requests ev cl cl' :
  exec ev cl = Some cl' -> (forall e, ev <> ce_send e) ->
  next_request cl' = next_request cl /\
  (requests cl' = requests cl \/
   exists k st st', requests cl !! k = Some st /\ ~ returned st /\ requests cl' = <[k := st']> (requests cl)).
Proof.
  intros E N.
  assert (forall c, releases cl c -> next_request c = next_request cl /\ requests c = requests cl) as Same by (by intros c []).
  assert (forall c c', client_stop c = Some c' -> next_request c' = next_request c /\ requests c' = requests c) as Stop.
  { intros c c' S. unfold client_stop in S. case_hyp S; simplify_eq. simpl. by destruct (releases_fail c). }
  destruct ev; try (destruct (Same cl') as [-> ->]; [eapply releases_other; [exact E|done..]|by auto]); simpl in E.
  - destruct (requests cl !! k) as [st|] eqn:Q; [|done]. unfold request_step, dispatch_write in E.
    assert (~ returned st) as Nr by (intros [r ->]; done).
    destruct st; repeat case_hyp E; simplify_eq; try (split; [done|right; by eexists _, _, _]);
      match goal with X : _ ≫= _ = Ready ?c |- _ => apply outcome_bind_Ready in X as (g & _ & [= <-]) end;
      (split; [done|right; by eexists _, _, _]).
  - destruct (Stop _ _ E) as [-> ->]. auto.
  - unfold client_reconnect in E. destruct (client_stop _) as [cl1|] eqn:S; [|done]. injection E as <-. simpl.
    destruct (Stop _ _ S) as [-> ->]. destruct (Same _ (releases_fail cl)) as [-> ->]. auto.
  - unfold client_reconnected, client_connect in E. repeat case_hyp E; simplify_eq; auto.
Qed.

Lemma one_open_step cl cl' : one_open cl -> serial_step cl cl' -> one_open cl'.
Proof.
  intros O (ev & Ok & E). destruct ev as [e| | | | | | | | | | | |].
  { simpl in E. injection E as <-. apply one_open_send. by eapply Ok. }
  all: destruct (unsent_requests _ cl cl' E ltac:(done)) as [Nx [Q|(j & st & st' & Q & Nr & Q')]];
    [intros k' st; rewrite Q, Nx; apply O|by eapply one_open_set].
Qed.

Lemma serial_one_open opts cl : serial_reachable opts cl -> one_open cl.
Proof. apply (rtc_ind_r one_open); [done|]. intros c c' _ S O. by eapply one_open_step. Qed.

Lemma serial_reachable_client opts cl : serial_reachable opts cl -> client_reachable in_filters_ out_filters_ opts cl.
Proof. apply rtc_subrel. apply serial_step_client. Qed.

Lemma serial_busy opts cl : quiet_filters -> serial_reachable opts cl -> busy_inv cl.
Proof.
  intros Qf. apply (rtc_ind_r busy_inv).
  - by apply busy_empty.
  - intros c c' R S I. eapply busy_step; [done| |done|done].
    eapply (reachable_client_inv in_filters_ out_filters_ opts). by apply serial_reachable_client.
Qed.

(** ** Properties *)

(** C14: a client that is used for one call at a time loses no request, however
    many calls it makes and however often its 16-bit sessions wrap, as long as
    its outgoing filters do not throw: no slot is ever found occupied, every
    promise that is not resolved has the slot of its session, and that slot is
    the only one. *)
Theorem serial_calls_not_lost opts cl :
  quiet_filters -> serial_reachable opts cl ->
  lost_ cl = ∅ /\
  (forall k s, works cl !! k = Some (mk_work unresolved s) -> rpc_slots_ cl !! s = Some k) /\
  (forall s k s' k', rpc_slots_ cl !! s = Some k -> rpc_slots_ cl !! s' = Some k' -> s' = s /\ k' = k).
Proof.
  intros Qf R. pose proof (serial_busy opts cl Qf R) as [_ B L]. pose proof (serial_one_open opts cl R) as O.
  destruct (reachable_client_inv in_filters_ out_filters_ opts cl) as [Is _]; [by apply serial_reachable_client|].
  split; [done|]. split.
  { intros k s W. apply (si_waiting _ Is); [done|]. rewrite L. apply not_elem_of_empty. }
  assert (forall s k, rpc_slots_ cl !! s = Some k -> k = next_request cl - 1) as Last.
  { intros s k E. destruct (B s k E) as (st & Q & Aw). destruct (O k st Q) as [[r ->]|]; [|done].
    by destruct Aw as [|[? ?]]. }
  intros s k s' k' E E'. pose proof (Last _ _ E). pose proof (Last _ _ E'). assert (k' = k) as -> by lia.
  apply (si_slots _ Is) in E, E'. split; congruence.
Qed.

(** An outgoing filter that throws leaves the slot of its request behind: the
    caller gets the exception, but the slot stays, with a promise that nobody
    waits for. *)
Lemma throwing_filter_keeps_slot k s e ex cl :
  requests cl !! k = Some (q_outgoing e) -> rpc_slots_ cl !! s = Some k ->
  rpc_filter_apply out_filters_ e = Failed ex ->
  exists cl', client_run in_filters_ out_filters_ [ce_request k; ce_request k] cl = Some cl' /\
    requests cl' !! k = Some (q_done (Failed ex)) /\ rpc_slots_ cl' !! s = Some k /\ works cl' = works cl.
Proof.
  intros Q S F. eexists. split; [|split_and!].
  - simpl. rewrite Q. simpl. rewrite F. simpl. rewrite lookup_insert_eq. done.
  - simpl. by rewrite lookup_insert_eq.
  - done.
  - done.
Qed.
End serial.

(** ** Witness *)
Module SerialWitness.
Import Demo ClientDemo.

(** A call that was answered, and a second one on its way. *)
Definition w_call (k : Z) : list client_event :=
  [ce_send d_envelope; ce_request k] ++ repeat (ce_write k) 5 ++ repeat (ce_reader 0) 3 ++ repeat (ce_request k) 3.
Definition w_serial : list client_event :=
  [ce_connect; d_connected (frame (d_reply 1)) false] ++ w_call 0 ++ [ce_send d_envelope].
Definition w_run (evs : list client_event) : option client := serial_run [] [] evs (rpc_client_make d_opts).
Definition w_state (evs : list client_event) : client := default (rpc_client_make d_opts) (w_run evs).

Lemma w_reachable evs : d_ran (w_run evs) = true -> serial_reachable [] [] d_opts (w_state evs).
Proof.
  unfold w_state. intros E. destruct (w_run evs) as [cl|] eqn:R; [|done]. by eapply serial_run_rtc.
Qed.

Lemma serial_calls_not_lost_witness : rpc_slots_ (w_state w_serial) !! 2 = Some 1 /\ lost_ (w_state w_serial) = ∅.
Proof.
  destruct (serial_calls_not_lost [] [] d_opts (w_state w_serial)) as (L & S & _).
  - by intros e ex.
  - apply w_reachable. vm_refl.
  - split; [|exact L]. apply S. vm_refl.
Defined.
End SerialWitness.
