(* ===== verification/ClientServe.v ===== *)
(** * A call of the client

    The two halves of one call of the client of Client.v when nothing fails:
    the request is written as one frame, and the response of its session is
    delivered to its caller. *)

From Stdlib Require Import ZArith Lia.
From stdpp Require Import base gmap list numbers strings.
From coqutil Require Import Byte.
From S2P Require Import Prelude Header Seastar Letter Connection RecvContext Wire Filters Client ClientInv ClientLife ClientProps.

Section call.
Context `{Build, GeneratedHeader, Xxhash, Seastar}.
Variable in_filters_ : list (rpc_recv_context -> outcome rpc_recv_context).
Variable out_filters_ : list (rpc_envelope -> outcome rpc_envelope).
Implicit Types cl : client.

Abbreviation exec := (client_exec in_filters_ out_filters_).
Abbreviation run := (client_run in_filters_ out_filters_).
Abbreviation reachable := (client_reachable in_filters_ out_filters_).

(** ** The reader *)

Section read.
Variables (k id : Z) (c : client_conn).

Lemma reader_exec_loop cl :
  readers cl !! k = Some (mk_reader r_loop true) -> conn_ cl = Some id -> connections cl !! id = Some c ->
  is_valid (cc_conn c) = true -> quiescent (cc_conn c) ->
  exec (ce_reader k) cl =
    Some (set_reader k (r_header id) (upd_cconn id (fun _ => with_parsers 1 (cc_conn c)) cl)).
Proof.
  intros R C Cc V Q. unfold client_exec. rewrite R. unfold reader_step. cbn [r_stage].
  unfold is_conn_valid. rewrite C, Cc, V. simpl negb. cbv iota. unfold parse_header_begin, DLOG_THROW_IF.
  rewrite !Q. by destruct NDEBUG; simpl; rewrite ?Q.
Qed.

Lemma reader_exec_header b i hdr cl :
  readers cl !! k = Some (mk_reader (r_header id) true) -> connections cl !! id = Some c ->
  read_exactly (c_istream (cc_conn c)) kHeaderSize = Some (b, i) -> blen b = kHeaderSize ->
  check_header (header_of_bytes b) = Some hdr ->
  exec (ce_reader k) cl =
    Some (set_reader k (r_payload id hdr) (upd_cconn id (fun _ =>
      with_parsers (u32 (istream_active_parser (cc_conn c) - 1)) (with_istream i (cc_conn c))) cl)).
Proof.
  intros R Cc Rd L Ch. unfold client_exec. rewrite R. unfold reader_step. cbn [r_stage].
  rewrite Cc, Rd. unfold parse_header_resume. by rewrite L, Z.eqb_refl, Ch.
Qed.

Lemma reader_exec_payload b i hdr ctx w s cl :
  readers cl !! k = Some (mk_reader (r_payload id hdr) true) -> connections cl !! id = Some c ->
  read_exactly (c_istream (cc_conn c)) (hsize hdr) = Some (b, i) ->
  check_payload (remote_address (cc_conn c)) hdr b = Ready (Some ctx) ->
  0 < read_counter_ cl -> u16 (ctx_session ctx) = s -> rpc_slots_ cl !! s = Some w ->
  works cl !! w = Some (mk_work unresolved s) ->
  exec (ce_reader k) cl =
    Some (set_reader k r_loop (upd_rpc_slots (delete s) (upd_works (insert w (mk_work (set_value (Some ctx)) s))
      (upd_read_counter (fun n => u64 (n - 1)) (upd_cconn id (fun _ => with_istream i (cc_conn c)) cl))))).
Proof.
  intros R Cc Rd Cp Rc Us Sl W. unfold client_exec. rewrite R. unfold reader_step. cbn [r_stage].
  rewrite Cc, Rd. unfold parse_payload_resume. rewrite Cp. cbn [mbind outcome_bind].
  unfold process_payload, DLOG_THROW_IF. simpl read_counter_. rewrite (proj2 (Z.leb_gt _ _) Rc).
  simpl rpc_slots_. rewrite Us, Sl. unfold resolve. simpl works. rewrite W. by destruct NDEBUG.
Qed.
End read.

(** ** The request and its write *)

Section write.
Variables (k id : Z) (e : rpc_envelope) (c : client_conn).

Lemma exec_units cl s :
  writes cl !! k = Some (w_units e) ->
  sem_wait (resources_available (limits_ cl)) (rpc_envelope_size e) = Some s ->
  exec (ce_write k) cl = Some (set_write k (w_lock e) (upd_limits (fun l =>
    mk_limits _ (max_memory l) (max_body_parsing_duration l) s) cl)).
Proof. intros W Sw. unfold client_exec. rewrite W. unfold write_step. by rewrite Sw. Qed.

Lemma exec_lock cl s :
  writes cl !! k = Some (w_lock e) -> sem_wait (serialize_writes_ cl) 1 = Some s ->
  exec (ce_write k) cl = Some (set_write k (w_header e) (upd_serialize_writes (fun _ => s) cl)).
Proof. intros W Sw. unfold client_exec. rewrite W. unfold write_step. by rewrite Sw. Qed.

Lemma exec_send_header cl o :
  writes cl !! k = Some (w_header e) -> conn_ cl = Some id -> connections cl !! id = Some c -> sendable e ->
  owrite (c_ostream (cc_conn c)) (header_to_bytes (lheader (letter e))) = Ready o ->
  exec (ce_write k) cl = Some (set_write k (w_body id e) (upd_cconn id (with_ostream o) cl)).
Proof.
  intros W C Cc Se O. unfold client_exec. rewrite W. unfold write_step.
  by rewrite C, Cc, send_checks_sendable, O by done.
Qed.

Lemma exec_send_body cl o :
  writes cl !! k = Some (w_body id e) -> connections cl !! id = Some c ->
  owrite (c_ostream (cc_conn c)) (body (letter e)) = Ready o ->
  exec (ce_write k) cl = Some (set_write k (w_flush id e) (upd_cconn id (with_ostream o) cl)).
Proof. intros W Cc O. unfold client_exec. rewrite W. unfold write_step. by rewrite Cc, O. Qed.

Lemma exec_flush cl o :
  writes cl !! k = Some (w_flush id e) -> connections cl !! id = Some c ->
  oflush (c_ostream (cc_conn c)) = Ready o ->
  exec (ce_write k) cl = Some (write_end k e (upd_cconn id (with_ostream o) cl)).
Proof. intros W Cc O. unfold client_exec. rewrite W. unfold write_step. by rewrite Cc, O. Qed.
End write.

Lemma exec_send e cl g :
  gate_enter (dispatch_gate_ cl) = Ready g -> is_conn_valid cl = true ->
  rpc_slots_ cl !! u16 (session_idx_ cl + 1) = None ->
  let s := u16 (session_idx_ cl + 1) in
  exec (ce_send e) cl = Some (add_request (q_outgoing (map_header (mutate_session s) e))
    (upd_rpc_slots (insert s (next_request cl)) (upd_works (insert (next_request cl) (mk_work unresolved s))
      (upd_read_counter (fun n => u64 (n + 1)) (upd_session_idx (fun _ => s)
        (upd_dispatch_gate (fun _ => g) cl)))))).
Proof.
  intros G V Sl s. unfold client_exec, client_send. rewrite G. unfold raw_send. unfold is_conn_valid in *. simpl.
  rewrite V, Sl. simpl. unfold DLOG_THROW_IF. by destruct NDEBUG.
Qed.

Lemma exec_outgoing w e e' g cl :
  requests cl !! w = Some (q_outgoing e) -> rpc_filter_apply out_filters_ e = Ready e' ->
  gate_enter (dispatch_gate_ cl) = Ready g ->
  exec (ce_request w) cl = Some (set_request w q_wait (add_write (w_units e')
    (upd_dispatch_gate (fun _ => g) (conn_limits cl)))).
Proof.
  intros Q F G. unfold client_exec. rewrite Q. unfold request_step. rewrite F. unfold dispatch_write.
  by rewrite G.
Qed.

Lemma sem_wait_enough s n : n <= sem_count s -> exists s', sem_wait s n = Some s'.
Proof.
  intros L. destruct (sem_wait s n) as [s'|] eqn:E; [by exists s'|].
  apply sem_wait_refused in E. lia.
Qed.

(** ** Properties *)

(** A request is sent.  On a valid connection with an open gate, a free
    session number, enough memory units and the write lock free, a call of
    [send] whose outgoing filters succeed takes the next session number for
    this caller, stamps it on the envelope before the filters run, and its
    write adds exactly one frame to the connection's output; afterwards the
    caller waits for its session, and the units and the lock are back. *)
Theorem request_sent opts cl id c e e' :
  0 <= memory_avail_for_client opts < 2 ^ 63 -> reachable opts cl -> healthy ->
  gate_is_closed (dispatch_gate_ cl) = false -> conn_ cl = Some id -> connections cl !! id = Some c ->
  is_valid (cc_conn c) = true -> rpc_slots_ cl !! u16 (session_idx_ cl + 1) = None ->
  rpc_filter_apply out_filters_ (map_header (mutate_session (u16 (session_idx_ cl + 1))) e) = Ready e' ->
  sendable e' -> rpc_envelope_size e' <= client_available cl -> sem_count (serialize_writes_ cl) = 1 ->
  exists cl' o, run ([ce_send e; ce_request (next_request cl)] ++ repeat (ce_write (next_write cl)) 5) cl = Some cl' /\
    requests cl' !! next_request cl = Some q_wait /\
    rpc_slots_ cl' = <[u16 (session_idx_ cl + 1) := next_request cl]> (rpc_slots_ cl) /\
    connections cl' !! id = Some (mk_cconn _ (with_ostream o (cc_conn c)) (cc_tls c)) /\
    written o = written (c_ostream (cc_conn c)) ++ frame e' /\
    writes cl' = writes cl /\ client_available cl' = client_available cl /\
    sem_count (serialize_writes_ cl') = 1 /\
    session_idx_ cl' = u16 (session_idx_ cl + 1) /\ works cl' !! next_request cl = Some (mk_work unresolved (session_idx_ cl')) /\
    conn_ cl' = Some id /\ readers cl' = readers cl /\ read_counter_ cl' = u64 (read_counter_ cl + 1) /\
    gate_is_closed (dispatch_gate_ cl') = false.
Proof.
  intros M R [Hw Hf] G C Cc V Sl Fi Se Av Lk. set (w := next_request cl). set (k := next_write cl).
  destruct (reachable_client_inv in_filters_ out_filters_ opts cl R) as [_ Il].
  destruct (gate_enter_open _ G) as (g1 & E1 & _ & G1). destruct (gate_enter_open _ G1) as (g2 & E2 & _ & G2).
  destruct (sem_wait_enough _ _ Av) as [u Eu]. destruct (sem_wait_enough (serialize_writes_ cl) 1) as [l El]; [lia|].
  destruct (Hw (c_ostream (cc_conn c)) (header_to_bytes (lheader (letter e')))) as [o1 O1].
  destruct (Hw o1 (body (letter e'))) as [o2 O2]. destruct (Hf o2) as [o3 O3].
  assert (is_conn_valid cl = true) as Vc by (unfold is_conn_valid; by rewrite C, Cc).
  eexists _, o3. split.
  { unfold client_run, repeat, app. erewrite exec_send by done.
    erewrite (exec_outgoing w); [|simpl; by rewrite lookup_insert_eq|exact Fi|exact E2].
    erewrite (exec_units k e'); [|simpl; by rewrite lookup_insert_eq|exact Eu].
    erewrite (exec_lock k e'); [|simpl; by rewrite lookup_insert_eq|exact El].
    erewrite (exec_send_header k id e' c); [|simpl; by rewrite lookup_insert_eq|exact C|exact Cc|done|exact O1].
    erewrite (exec_send_body k id e'); [|simpl; by rewrite lookup_insert_eq|simpl; by rewrite lookup_alter_eq, Cc|exact O2].
    erewrite (exec_flush k id e'); [|simpl; by rewrite lookup_insert_eq
      |simpl; by rewrite !lookup_alter_eq, Cc|exact O3]. reflexivity. }
  assert (written o3 = written (c_ostream (cc_conn c)) ++ frame e') as Wr.
  { apply oflush_written in O3. apply owrite_written in O1, O2. unfold frame. by rewrite O3, O2, O1, <- app_assoc. }
  simpl. split_and!; try done.
  - by rewrite lookup_insert_eq.
  - by rewrite !lookup_alter_eq, Cc.
  - rewrite !insert_insert_eq. apply delete_insert_id, Il. unfold k. lia.
  - unfold client_available in *. simpl. apply sem_wait_signal; [done|].
    pose proof (client_units in_filters_ out_filters_ opts cl M R) as (A & N). unfold fits_s. unfold client_available in *. lia.
  - apply (sem_wait_signal _ _ _) in El; [|rewrite Lk; unfold fits_s; lia]. by rewrite El.
  - by rewrite lookup_insert_eq.
  - by rewrite (proj2 (gate_leave_spec _)).
Qed.

(** A response is delivered.  When the frame of a response to an
    outstanding request is pending on a valid connection and the incoming
    filters accept it, six events hand exactly this response to the caller of
    this request, consume exactly its frame, free its session number, and leave
    every other promise as it was. *)
Theorem response_delivered opts cl k id c e r w ctx' :
  reachable opts cl -> readers cl !! k = Some (mk_reader r_loop true) ->
  conn_ cl = Some id -> connections cl !! id = Some c -> is_valid (cc_conn c) = true -> quiescent (cc_conn c) ->
  pending (c_istream (cc_conn c)) = frame e ++ r -> framed e -> 0 < read_counter_ cl ->
  rpc_slots_ cl !! session (lheader (letter e)) = Some w -> requests cl !! w = Some q_wait ->
  rpc_filter_apply in_filters_ (received (remote_address (cc_conn c)) e) = Ready ctx' ->
  compression (ctx_header ctx') = flag_value compression_flags_none ->
  exists cl' i, run (repeat (ce_reader k) 3 ++ repeat (ce_request w) 3) cl = Some cl' /\
    requests cl' !! w = Some (q_done (Ready (Some ctx'))) /\
    connections cl' !! id = Some (mk_cconn _ (with_istream i (cc_conn c)) (cc_tls c)) /\ pending i = r /\
    finished i = finished (c_istream (cc_conn c)) /\ eof i = eof (c_istream (cc_conn c)) /\
    rpc_slots_ cl' = delete (session (lheader (letter e))) (rpc_slots_ cl) /\
    (forall w', w' <> w -> works cl' !! w' = works cl !! w') /\
    conn_ cl' = Some id /\ readers cl' !! k = Some (mk_reader r_loop true) /\ writes cl' = writes cl /\
    read_counter_ cl' = u64 (read_counter_ cl - 1) /\ session_idx_ cl' = session_idx_ cl /\
    serialize_writes_ cl' = serialize_writes_ cl /\
    gate_is_closed (dispatch_gate_ cl') = gate_is_closed (dispatch_gate_ cl).
Proof.
  intros R Rd C Cc V Q P F Rc Sl Rq Fi Cz.
  destruct (reachable_client_inv in_filters_ out_filters_ opts cl R) as [Is _].
  pose proof (si_slots _ Is _ _ Sl) as W. set (s := session (lheader (letter e))) in *.
  unfold frame in P. rewrite <- app_assoc in P. pose proof F as [Wf Sz [Rg1 Rg2] Ck Ck0 Mt Bf [f Cf]].
  destruct (read_exactly_app _ _ _ P) as (i1 & R1 & P1 & F1 & E1). rewrite header_to_bytes_blen in R1.
  destruct (read_exactly_app _ _ _ P1) as (i2 & R2 & P2 & F2 & E2).
  set (hdr := received_header (lheader (letter e))).
  destruct (received_header_frame (lheader (letter e))) as (Hs & _ & _ & _ & Hss). fold hdr in Hs, Hss.
  assert (check_header (header_of_bytes (header_to_bytes (lheader (letter e)))) = Some hdr) as Ch.
  { rewrite <- (app_nil_r (header_to_bytes _)), header_of_to_bytes by done.
    apply (check_header_framed _ f); try done. lia. }
  eexists _, i2. split.
  { unfold client_run, repeat, app. rewrite (reader_exec_loop k id c) by done.
    erewrite (reader_exec_header k id); [|simpl; by rewrite lookup_alter_eq, Rd|simpl; by rewrite lookup_alter_eq, Cc
      |exact R1|apply header_to_bytes_blen|exact Ch].
    erewrite (reader_exec_payload k id); [|simpl; by rewrite !lookup_alter_eq, Rd|simpl; by rewrite !lookup_alter_eq, Cc
      |simpl; by rewrite Hs, Sz|by apply check_payload_framed|done| |exact Sl|exact W].
    2: { unfold ctx_session. simpl. fold hdr. rewrite Hss. apply wrap_u_small, Wf. }
    unfold client_exec at 1. simpl requests. rewrite Rq. unfold request_step at 1. simpl works.
    rewrite lookup_insert_eq. unfold client_exec at 1. simpl requests. rewrite lookup_insert_eq. unfold request_step at 1.
    simpl cc_conn. rewrite Fi. cbn [mbind outcome_bind]. rewrite Cz, Z.eqb_refl. cbn [negb LOG_THROW_IF mbind outcome_bind].
    unfold client_exec. simpl requests. rewrite lookup_insert_eq. unfold request_step. reflexivity. }
  simpl. split_and!; try done.
  - by rewrite lookup_insert_eq.
  - rewrite !lookup_alter_eq, Cc. simpl. do 2 f_equal. unfold with_istream, with_parsers. simpl. by rewrite Q.
  - congruence.
  - congruence.
  - intros w' N. by rewrite lookup_insert_ne.
  - by rewrite !lookup_alter_eq, Rd.
  - by rewrite (proj2 (gate_leave_spec _)).
Qed.
End call.

Module ClientServeWitness.
Import Demo ClientDemo.
Definition w_reply : rpc_envelope := d_reply 1.
Definition w_evs : list client_event := [ce_connect; d_connected (frame w_reply ++ [Byte.x01]) false].
Definition w_cconn : client_conn := mk_cconn _ (demo_conn (frame w_reply ++ [Byte.x01]) false) true.
Definition w_request : rpc_envelope := map_header (mutate_session 1) d_envelope.

Lemma d_healthy : healthy.
Proof. split; eauto. Qed.

Lemma request_sent_witness :
  exists cl' o, client_run [] [] ([ce_send d_envelope; ce_request 0] ++ repeat (ce_write 0) 5) (d_state w_evs) =
      Some cl' /\ requests cl' !! 0 = Some q_wait /\ rpc_slots_ cl' !! 1 = Some 0 /\ written o = frame w_request.
Proof.
  destruct (request_sent [] [] d_opts (d_state w_evs) 0 w_cconn d_envelope w_request)
    as (cl' & o & R & Q & S & _ & W & _).
  - vm_decide.
  - apply d_reachable. vm_refl.
  - apply d_healthy.
  - vm_refl.
  - vm_refl.
  - vm_refl.
  - vm_refl.
  - vm_refl.
  - vm_refl.
  - split; vm_decide.
  - vm_decide.
  - vm_refl.
  - exists cl', o. split; [exact R|]. split; [exact Q|]. rewrite S. split; [vm_refl|exact W].
Defined.

Definition w_all : list client_event :=
  w_evs ++ [ce_send d_envelope; ce_request 0] ++ repeat (ce_write 0) 5.
Definition w_conn_sent : client_conn :=
  default w_cconn (connections (d_state w_all) !! 0).

Lemma response_delivered_witness :
  exists cl', client_run [] [] (repeat (ce_reader 0) 3 ++ repeat (ce_request 0) 3) (d_state w_all) = Some cl' /\
    requests cl' !! 0 = Some (q_done (Ready (Some (received demo_addr w_reply)))).
Proof.
  destruct (response_delivered [] [] d_opts (d_state w_all) 0 0 w_conn_sent w_reply [Byte.x01] 0
    (received demo_addr w_reply)) as (cl' & i & R & Q & _).
  - apply d_reachable. vm_refl.
  - vm_refl.
  - vm_refl.
  - apply d_default. vm_refl.
  - vm_refl.
  - unfold quiescent; vm_refl.
  - vm_refl.
  - apply (WireWitness.w_framed [Byte.x2b] 200 1); vm_refl.
  - vm_decide.
  - vm_refl.
  - vm_refl.
  - vm_refl.
  - vm_refl.
  - exists cl'. split; [exact R|exact Q].
Defined.
End ClientServeWitness.
