(* ===== verification/ClientRefine.v ===== *)
(** * The client as a table of calls

    What the client promises to its callers, as an abstract machine: a table of
    the calls that wait for an answer, and the answers given so far.  Every
    execution of the client of Client.v, whatever the interleaving of its
    requests, writes, readers, timeouts and reconnections, is an execution of
    this machine. *)

From Stdlib Require Import ZArith Lia.
From stdpp Require Import base gmap list numbers strings.
From coqutil Require Import Byte.
From S2P Require Import Prelude Header Seastar Letter Connection RecvContext Wire Filters Client ClientInv ClientLife ClientProps.

(** ** The abstract machine *)

(** [waiting] maps a session to the caller that waits for it. *)
Record call_table := mk_table { waiting : gmap Z Z; answers : gmap Z promise }.
Definition empty_table : call_table := mk_table ∅ ∅.

Section table.
Context `{Build}.

Inductive table_step : call_table -> call_table -> Prop :=
| ts_call t s w :
    answers t !! w = None -> waiting t !! s = None ->
    table_step t (mk_table (<[s := w]> (waiting t)) (<[w := unresolved]> (answers t)))
| ts_call_taken t s w :              (* release builds: the session is in use, the caller will wait for ever *)
    NDEBUG = true -> answers t !! w = None -> is_Some (waiting t !! s) ->
    table_step t (mk_table (waiting t) (<[w := unresolved]> (answers t)))
| ts_answer t s w ctx :
    waiting t !! s = Some w -> u16 (ctx_session ctx) = s ->
    table_step t (mk_table (delete s (waiting t)) (<[w := set_value (Some ctx)]> (answers t)))
| ts_fail t a :
    (forall s w, waiting t !! s = Some w -> a !! w = Some (set_exception remote_connection_error)) ->
    (forall w, (forall s, waiting t !! s <> Some w) -> a !! w = answers t !! w) ->
    table_step t (mk_table ∅ a).

(** Callers that wait have no answer yet, and wait for one session each. *)
Definition table_ok (t : call_table) : Prop :=
  (forall s w, waiting t !! s = Some w -> answers t !! w = Some unresolved) /\
  (forall s s' w, waiting t !! s = Some w -> waiting t !! s' = Some w -> s = s').

Lemma table_ok_step t t' : table_step t t' -> table_ok t -> table_ok t'.
Proof.
  intros S [A B]. destruct S as [t s w N Ns|t s w Nd N Ns|t s w ctx Ws Es|t a F1 F2]; split; simpl.
  - intros s' w' [[<- <-]|[_ W]]%lookup_insert_Some; [apply lookup_insert_eq|]. apply A in W.
    rewrite lookup_insert_ne; [done|congruence].
  - intros s1 s2 w' [[<- <-]|[_ W1]]%lookup_insert_Some [[<- E]|[_ W2]]%lookup_insert_Some; try done.
    + apply A in W2. congruence.
    + apply A in W1. congruence.
    + by eapply B.
  - intros s' w' W. rewrite lookup_insert. case_decide; [done|]. by eapply A.
  - done.
  - intros s' w' [N W]%lookup_delete_Some. rewrite lookup_insert_ne; [by eapply A|].
    intros <-. destruct N. by eapply B.
  - intros s1 s2 w' [_ W1]%lookup_delete_Some [_ W2]%lookup_delete_Some. by eapply B.
  - done.
  - done.
Qed.

(** An answer is final. *)
Lemma answer_final t t' w p :
  table_step t t' -> table_ok t -> p <> unresolved -> answers t !! w = Some p -> answers t' !! w = Some p.
Proof.
  intros S [A B] N P. destruct S as [t s v F Ns|t s v Nd F Ns|t s v ctx Ws Es|t a F1 F2]; simpl.
  - rewrite lookup_insert_ne; [done|]. congruence.
  - rewrite lookup_insert_ne; [done|]. congruence.
  - rewrite lookup_insert_ne; [done|]. intros <-. apply A in Ws. congruence.
  - rewrite F2; [done|]. intros s W. apply A in W. congruence.
Qed.

Lemma answers_final t t' w p :
  rtc table_step t t' -> table_ok t -> p <> unresolved -> answers t !! w = Some p -> answers t' !! w = Some p.
Proof.
  intros R. induction R as [|a b c S R IH]; intros Ok N P; [done|].
  apply IH; [by eapply table_ok_step|done|by eapply answer_final].
Qed.

(** A caller that has no session is never answered. *)
Lemma dropped_for_ever t t' w :
  rtc table_step t t' -> answers t !! w = Some unresolved -> (forall s, waiting t !! s <> Some w) ->
  answers t' !! w = Some unresolved /\ (forall s, waiting t' !! s <> Some w).
Proof.
  intros R. induction R as [|t t1 t2 S R IH]; intros A N; [done|].
  apply IH; destruct S as [t s v F Ns|t s v Nd F Ns|t s v ctx Ws Es|t a F1 F2]; simpl in *.
  - rewrite lookup_insert_ne; [done|congruence].
  - rewrite lookup_insert_ne; [done|congruence].
  - rewrite lookup_insert_ne; [done|]. intros <-. by apply (N s).
  - by rewrite F2.
  - intros s' [[_ <-]|[_ W]]%lookup_insert_Some; [congruence|by apply (N s')].
  - done.
  - intros s' [_ W]%lookup_delete_Some. by apply (N s').
  - done.
Qed.
End table.

(** ** The client implements it *)

Section refine.
Context `{Build, GeneratedHeader, Xxhash, Seastar}.
Variable in_filters_ : list (rpc_recv_context -> outcome rpc_recv_context).
Variable out_filters_ : list (rpc_envelope -> outcome rpc_envelope).
Implicit Types cl : client.

Abbreviation exec := (client_exec in_filters_ out_filters_).
Abbreviation reachable := (client_reachable in_filters_ out_filters_).

Definition table_of cl : call_table := mk_table (rpc_slots_ cl) (pr <$> works cl).
Definition refines cl cl' : Prop := rtc table_step (table_of cl) (table_of cl').

#[local] Instance refines_preorder : PreOrder refines.
Proof. split; [intros cl; apply rtc_refl|]. unfold refines. intros a b c ? ?. by etransitivity. Qed.

(** [cl'] has the slots and work items of [cl]. *)
Lemma refines_same cl0 cl cl' :
  works cl' = works cl -> rpc_slots_ cl' = rpc_slots_ cl -> refines cl0 cl -> refines cl0 cl'.
Proof. intros W S R. unfold refines, table_of. by rewrite W, S. Qed.
Ltac refines_as c := apply (refines_same _ c); [done|done|].

Lemma table_of_ok cl : slots_inv cl -> table_ok (table_of cl).
Proof.
  intros I. split; simpl.
  - intros s w W. rewrite lookup_fmap. by rewrite (si_slots _ I _ _ W).
  - intros s s' w W W'. apply (si_slots _ I) in W, W'. congruence.
Qed.

Lemma refines_fail cl0 cl : slots_inv cl -> refines cl0 cl -> refines cl0 (fail_outstanding_futures cl).
Proof.
  intros I R. rewrite fail_outstanding_spec by done. destruct (disable_conn_frame cl) as [W S].
  eapply rtc_r; [exact R|]. apply ts_fail; simpl; rewrite W.
  - intros s w Sw. pose proof (si_slots _ I _ _ Sw) as Ww. rewrite lookup_fmap, map_lookup_imap, Ww. simpl.
    unfold fail_work. simpl. by rewrite bool_decide_eq_true_2.
  - intros w N. rewrite !lookup_fmap, map_lookup_imap. destruct (works cl !! w) as [x|]; [|done]. simpl.
    unfold fail_work. rewrite bool_decide_eq_false_2; [done|apply N].
Qed.

Lemma refines_refuse cl0 id msg cl : slots_inv cl -> refines cl0 cl -> refines cl0 (refuse id msg cl).
Proof.
  intros I R. apply refines_fail; [by apply (slots_inv_same cl); simpl; lia || done|by refines_as cl].
Qed.

Lemma refines_exception cl0 k r cl : slots_inv cl -> refines cl0 cl -> refines cl0 (reader_exception k r cl).
Proof.
  intros I R. unfold reader_exception. case_goal; [|by refines_as cl].
  refines_as (fail_outstanding_futures cl). by apply refines_fail.
Qed.

Lemma refines_next cl0 k r cl : refines cl0 cl -> refines cl0 (reader_next k r cl).
Proof. intros R. unfold reader_next. case_goal; by refines_as cl. Qed.

Lemma refines_send e cl : slots_inv cl -> refines cl (client_send e cl).
Proof.
  intros I. unfold client_send. destruct (gate_enter _) as [g|ex|]; [|by refines_as cl|done].
  unfold raw_send. case_goal; [by refines_as cl|].
  set (s := session_idx_ _). set (taken := bool_decide _).
  assert (pr <$> works cl !! next_request cl = None) as Fr by (rewrite (si_fresh _ I) by lia; done).
  rewrite <- lookup_fmap in Fr. unfold DLOG_THROW_IF, LOG_THROW_IF.
  destruct NDEBUG eqn:Nd, taken eqn:T; try by refines_as cl.
  - apply bool_decide_eq_true in T. eapply rtc_r; [apply rtc_refl|].
    pose proof (ts_call_taken (table_of cl) s (next_request cl) Nd Fr T) as St. unfold table_of in *. simpl in *.
    by rewrite fmap_insert.
  - apply bool_decide_eq_false in T. eapply rtc_r; [apply rtc_refl|].
    pose proof (ts_call (table_of cl) s (next_request cl) Fr) as St. unfold table_of in *. simpl in *.
    rewrite fmap_insert. apply St. by apply eq_None_not_Some.
  - apply bool_decide_eq_false in T. eapply rtc_r; [apply rtc_refl|].
    pose proof (ts_call (table_of cl) s (next_request cl) Fr) as St. unfold table_of in *. simpl in *.
    rewrite fmap_insert. apply St. by apply eq_None_not_Some.
Qed.

Lemma refines_process cl0 id opt cl cl' :
  process_payload id opt cl = Ready cl' -> slots_inv cl -> refines cl0 cl -> refines cl0 cl'.
Proof.
  unfold process_payload. intros P I R. apply outcome_bind_Ready in P as (_ & _ & P).
  destruct opt as [ctx|]; [|injection P as <-; by apply refines_refuse].
  destruct (rpc_slots_ cl !! u16 (ctx_session ctx)) as [k|] eqn:S; injection P as <-; [|by apply refines_refuse].
  destruct (slots_inv_resolve ctx k cl (upd_read_counter (fun n => u64 (n - 1)) cl) I S) as [-> _]; try done.
  eapply rtc_r; [exact R|]. unfold table_of. simpl. rewrite fmap_insert.
  by apply (ts_answer (table_of cl) (u16 (ctx_session ctx)) k ctx).
Qed.

Lemma refines_reader k r cl cl' : slots_inv cl -> reader_step k r cl = Some cl' -> refines cl cl'.
Proof.
  intros I E. unfold reader_step in E. destruct (r_stage r) as [|id|id hdr].
  - repeat case_hyp E; simplify_eq; first [by refines_as cl | by apply refines_exception].
  - destruct (connections cl !! id) as [c|]; [|done].
    destruct (read_exactly _ _) as [[b i]|]; [|done]. unfold parse_header_resume in E.
    repeat case_hyp E; simplify_eq; first [by refines_as cl | apply refines_next, refines_refuse;
      [by apply (slots_inv_same cl); simpl; lia || done|by refines_as cl]].
  - destruct (connections cl !! id) as [c|]; [|done].
    destruct (read_exactly _ _) as [[b i]|]; [|done].
    destruct (parse_payload_resume hdr b i (cc_conn c)) as [[opt c']|ex|]; [| |done].
    + set (cl1 := upd_cconn id (fun _ => c') cl) in *.
      assert (slots_inv cl1) as I1 by (by apply (slots_inv_same cl); simpl; lia || done).
      assert (refines cl cl1) as R1 by (by refines_as cl).
      destruct (process_payload id opt cl1) as [cl2|ex|] eqn:P; [| |done]; injection E as <-.
      * by eapply refines_next, refines_process.
      * by apply refines_exception.
    + injection E as <-. by apply refines_exception.
Qed.

Lemma refines_write k st cl cl' : slots_inv cl -> write_step k st cl = Some cl' -> refines cl cl'.
Proof.
  intros I E. unfold write_step in E. destruct st; repeat case_hyp E; simplify_eq;
    first [by refines_as cl | refines_as (fail_outstanding_futures cl); by apply refines_fail].
Qed.

Lemma refines_request k st cl cl' : request_step in_filters_ out_filters_ k st cl = Some cl' -> refines cl cl'.
Proof.
  intros E. unfold request_step, dispatch_write in E. destruct st; repeat case_hyp E; simplify_eq;
    try by refines_as cl.
  all: match goal with X : _ ≫= _ = Ready ?c |- _ =>
         apply outcome_bind_Ready in X as (g & _ & [= <-]); by refines_as cl end.
Qed.

Lemma refines_stop cl0 cl cl' : slots_inv cl -> refines cl0 cl -> client_stop cl = Some cl' -> refines cl0 cl'.
Proof.
  intros I R E. unfold client_stop in E. case_hyp E; simplify_eq.
  refines_as (fail_outstanding_futures cl). by apply refines_fail.
Qed.

(** Every event is simulated by steps of the table. *)
Lemma refines_step ev cl cl' : slots_inv cl -> exec ev cl = Some cl' -> refines cl cl'.
Proof.
  intros I E. destruct ev; simpl in E.
  - injection E as <-. by apply refines_send.
  - case_hyp E; [|done]. by eapply refines_request.
  - case_hyp E; [|done]. by eapply refines_write.
  - case_hyp E; [|done]. by eapply refines_reader.
  - unfold reader_failed in E. repeat case_hyp E; simplify_eq; apply refines_exception;
      try (by apply (slots_inv_same cl); simpl; lia || done); by refines_as cl.
  - unfold reader_timeout in E. repeat case_hyp E; simplify_eq;
      match goal with |- refines _ (add_reader _ ?c) => refines_as c end; by apply refines_exception.
  - repeat case_hyp E; simplify_eq. by refines_as cl.
  - unfold client_connect in E. case_hyp E; simplify_eq. by refines_as cl.
  - unfold client_connected in E. repeat case_hyp E; simplify_eq; by refines_as cl.
  - unfold client_connect_failed in E. repeat case_hyp E; simplify_eq; by refines_as cl.
  - by eapply refines_stop.
  - unfold client_reconnect in E. destruct (client_stop _) as [cl1|] eqn:S; [|done]. injection E as <-.
    refines_as cl1. eapply refines_stop; [by apply slots_inv_fail|by apply refines_fail|done].
  - unfold client_reconnected, client_connect in E. repeat case_hyp E; simplify_eq; by refines_as cl.
Qed.

Lemma refines_rtc cl cl' :
  slots_inv cl -> rtc (client_step in_filters_ out_filters_) cl cl' -> refines cl cl'.
Proof.
  intros I R. induction R as [|a b c [ev E] R IH]; [done|]. etransitivity; [by eapply refines_step|].
  apply IH. by eapply slots_inv_step.
Qed.

(** A request without a slot. *)
Lemma lost_for_ever cl cl' k :
  slots_inv cl -> rtc (client_step in_filters_ out_filters_) cl cl' ->
  pr <$> works cl !! k = Some unresolved -> (forall s, rpc_slots_ cl !! s <> Some k) ->
  pr <$> works cl' !! k = Some unresolved /\ (forall s, rpc_slots_ cl' !! s <> Some k).
Proof.
  intros I R W N. rewrite <- !lookup_fmap in *. eapply (dropped_for_ever (table_of cl) (table_of cl'));
    [by apply refines_rtc|done|done].
Qed.

(** Sending under a session that is in use, in a release build. *)
Lemma taken_send e old cl :
  NDEBUG = true -> slots_inv cl -> is_conn_valid cl = true -> gate_is_closed (dispatch_gate_ cl) = false ->
  rpc_slots_ cl !! u16 (session_idx_ cl + 1) = Some old ->
  rpc_slots_ (client_send e cl) = rpc_slots_ cl /\
  works (client_send e cl) !! old = Some (mk_work unresolved (u16 (session_idx_ cl + 1))) /\
  works (client_send e cl) !! next_request cl = Some (mk_work unresolved (u16 (session_idx_ cl + 1))) /\
  old <> next_request cl /\ (forall s, rpc_slots_ cl !! s <> Some (next_request cl)).
Proof.
  intros Nd Is V G Sl. pose proof (si_slots _ Is _ _ Sl) as Wo.
  pose proof (si_fresh _ Is (next_request cl) ltac:(lia)) as Fr.
  assert (old <> next_request cl) as No by (intros ->; congruence).
  destruct (gate_enter_open _ G) as (g & Eg & _). unfold client_send. rewrite Eg. unfold raw_send.
  unfold is_conn_valid in V |- *. simpl. rewrite V. simpl. unfold DLOG_THROW_IF. rewrite Nd.
  rewrite bool_decide_eq_true_2 by (rewrite Sl; eauto). simpl.
  rewrite lookup_insert_ne, lookup_insert_eq by done. split_and!; try done.
  intros s E. apply (si_slots _ Is) in E. congruence.
Qed.

(** C9: the client is a table of calls.  Every execution of the client is an
    execution of the abstract machine from the empty table: a call enters the
    table under a free session; an answer of that session removes it and goes
    to its caller; a failure answers every waiting caller and empties the
    table; in a release build, and only there, a call can also be made under a
    session that is in use, and it gets no entry; and nothing else changes the
    table.  Hence an answer, once given, is final, and a call without an entry
    is never answered. *)
Theorem client_refines_table opts cl ev cl' :
  reachable opts cl -> exec ev cl = Some cl' ->
  rtc table_step empty_table (table_of cl) /\ rtc table_step (table_of cl) (table_of cl') /\
  (forall w p, p <> unresolved -> answers (table_of cl) !! w = Some p -> answers (table_of cl') !! w = Some p) /\
  (forall w, answers (table_of cl) !! w = Some unresolved -> (forall s, waiting (table_of cl) !! s <> Some w) ->
     answers (table_of cl') !! w = Some unresolved /\ (forall s, waiting (table_of cl') !! s <> Some w)).
Proof.
  intros R E.
  assert (refines (rpc_client_make opts) cl) as Rf.
  { apply (proj2 (A := client_inv cl)). revert R. apply (client_reachable_inv in_filters_ out_filters_ opts
      (fun c => client_inv c /\ refines (rpc_client_make opts) c)).
    - split; [apply (reachable_client_inv in_filters_ out_filters_ opts), rtc_refl|done].
    - intros e c c' [I J] S. split; [by eapply client_inv_step|]. etransitivity; [exact J|].
      eapply refines_step; [apply I|done]. }
  destruct (reachable_client_inv in_filters_ out_filters_ opts cl R) as [Is _].
  pose proof (refines_step ev cl cl' Is E) as St. split_and!; [exact Rf|exact St| |].
  - intros w p N P. eapply answers_final; [exact St|by apply table_of_ok|done|done].
  - intros w. by apply dropped_for_ever.
Qed.

(** C27: a request whose session number is still in use is lost in a release
    build, and the answer is given to the wrong caller: the promise of the new
    request gets no slot and stays unresolved in every later state of the
    client, whatever happens to it; and a response to the new request resolves
    the promise of the old one. *)
Theorem session_reuse_misdelivers (opts : rpc_client_opts) cl e old ctx id :
  NDEBUG = true -> reachable opts cl -> is_conn_valid cl = true ->
  gate_is_closed (dispatch_gate_ cl) = false ->
  rpc_slots_ cl !! u16 (session_idx_ cl + 1) = Some old ->
  ctx_session ctx = u16 (session_idx_ cl + 1) ->
  (forall cl', rtc (client_step in_filters_ out_filters_) (client_send e cl) cl' ->
     pr <$> works cl' !! next_request cl = Some unresolved /\
     (forall s, rpc_slots_ cl' !! s <> Some (next_request cl))) /\
  exists cl', process_payload id (Some ctx) (client_send e cl) = Ready cl' /\
    works cl' !! old = Some (mk_work (set_value (Some ctx)) (u16 (session_idx_ cl + 1))) /\
    works cl' !! next_request cl = Some (mk_work unresolved (u16 (session_idx_ cl + 1))) /\
    (forall s, rpc_slots_ cl' !! s <> Some (next_request cl)).
Proof.
  intros Nd R V G Sl Cx. destruct (reachable_client_inv in_filters_ out_filters_ opts cl R) as [Is I].
  destruct (taken_send e old cl Nd Is V G Sl) as (So & Wo & Wn & No & Nw). split.
  - intros cl' Rt. eapply (lost_for_ever (client_send e cl)); [by apply slots_inv_send|done|by rewrite Wn|].
    rewrite So. exact Nw.
  - set (s := u16 (session_idx_ cl + 1)) in *. assert (u16 s = s) as Us by apply wrap_u_idemp.
    unfold process_payload, DLOG_THROW_IF. rewrite Nd. simpl. rewrite Cx, Us, So, Sl. unfold resolve. simpl. rewrite Wo.
    eexists. split; [reflexivity|]. simpl. rewrite So.
    split_and!; [apply lookup_insert_eq|by rewrite lookup_insert_ne|].
    intros s' E. apply lookup_delete_Some in E as [_ E]. by apply (Nw s').
Qed.
End refine.

Module RefineWitness.
Import Demo ClientDemo ClientWitness.

Lemma client_refines_table_witness :
  exists cl', client_exec [] [] (ce_reader 0) (d_state (w_sent ++ [ce_reader 0; ce_reader 0])) = Some cl' /\
    rtc table_step (table_of (d_state (w_sent ++ [ce_reader 0; ce_reader 0]))) (table_of cl').
Proof.
  destruct (client_exec [] [] (ce_reader 0) (d_state (w_sent ++ [ce_reader 0; ce_reader 0]))) as [cl'|] eqn:E.
  - destruct (client_refines_table [] [] d_opts (d_state (w_sent ++ [ce_reader 0; ce_reader 0])) (ce_reader 0) cl')
      as (_ & S & _); [apply d_reachable; vm_refl|exact E|]. exists cl'. split; [reflexivity|exact S].
  - assert (d_ran (client_exec [] [] (ce_reader 0) (d_state (w_sent ++ [ce_reader 0; ce_reader 0]))) = true) as X
      by vm_refl. by rewrite E in X.
Defined.

(** A request is never answered while 65536 others are sent. *)
Lemma session_reuse_misdelivers_witness :
  exists cl old, rpc_slots_ cl !! 1 = Some old /\
    (forall cl', rtc (client_step [] []) (client_send d_envelope cl) cl' ->
       pr <$> works cl' !! next_request cl = Some unresolved) /\
    exists cl', process_payload 0 (Some (received demo_addr (d_reply 1))) (client_send d_envelope cl) = Ready cl' /\
      works cl' !! old = Some (mk_work (set_value (Some (received demo_addr (d_reply 1)))) 1).
Proof.
  destruct (sends_use_sessions [] [] d_opts d_envelope (d_state [ce_connect; d_connected [] false])
    (Z.to_nat (2 ^ 16))) as (cl & R & V & G & S & Sl);
    [reflexivity|apply d_reachable; vm_refl|vm_refl|vm_refl|vm_refl|].
  rewrite Z2Nat.id in S, Sl by (vm_compute; discriminate).
  destruct (Sl 1) as [old O]; [lia|lia|].
  assert (u16 (session_idx_ cl + 1) = 1) as E by (rewrite S; reflexivity).
  destruct (session_reuse_misdelivers [] [] d_opts cl d_envelope old (received demo_addr (d_reply 1)) 0)
    as (Lo & cl' & P & W & _); [reflexivity|exact R|exact V|exact G|by rewrite E|by rewrite E|].
  exists cl, old. split; [exact O|]. split; [intros cl2 Rt; apply (Lo cl2 Rt)|]. exists cl'. split; [exact P|]. rewrite E in W. exact W.
Defined.
End RefineWitness.
