(* ===== verification/System.v ===== *)
(** * A client and a server on one connection

    The client of Client.v and the server of Server.v joined by a TCP
    connection: the bytes one end writes arrive at the other in order, in
    pieces, after any delay, until the stream ends.  The server has other
    connections, which interleave.  The theorem is what a user of the library
    relies on: a call that completes was refused, or failed, or has the answer
    of the remote procedure. *)

From Stdlib Require Import ZArith Lia.
From stdpp Require Import base gmap list numbers strings.
From coqutil Require Import Byte.
From S2P Require Import Prelude Header Seastar Letter Connection RecvContext Wire Streams Filters Router Server ServerInv ServerWrites ServerWire Client ClientInv ClientLife ClientWrites ClientWire.

(** The client, the server, the bytes on the way in both directions, and the
    calls that were made: the session and the envelope of each request. *)
Record system `{Seastar} := mk_system {
  s_cl : client;
  s_sv : server;
  s_up : list byte;
  s_down : list byte;
  s_calls : gmap Z (Z * rpc_envelope)
}.

Section system.
Context `{Build, GeneratedHeader, Xxhash, Seastar}.

(** The filters of the client, the configuration of the server, the id of the
    connection at the server, and the addresses the ends report. *)
Variable in_filters_ : list (rpc_recv_context -> outcome rpc_recv_context).
Variable out_filters_ : list (rpc_envelope -> outcome rpc_envelope).
Variable cfg : server_config.
Variable sid : Z.
Variables saddr caddr : socket_address.

Implicit Types s : system.

(** The connection and the reader of a client that connected once. *)
Definition cid : Z := 0.
Definition rk : Z := 0.

(** ** Executions *)

Inductive sys_event :=
| se_send (e : rpc_envelope)                (* a call of the client *)
| se_client (ev : client_event)             (* a fiber of the client runs *)
| se_server (ev : event)                    (* an event of the server *)
| se_up (n : nat) (i : istream)             (* [n] bytes reach the server *)
| se_down (n : nat) (i : istream).          (* [n] bytes reach the client *)

(** The call a [send] started, when it was not refused. *)
Definition record_call (e : rpc_envelope) (cl cl' : client) (calls : gmap Z (Z * rpc_envelope)) :
    gmap Z (Z * rpc_envelope) :=
  match works cl' !! next_request cl with
  | Some w => <[next_request cl := (w_session w, e)]> calls
  | None => calls
  end.

(** The stream after [bs] arrived: it was open, and may have ended. *)
Definition arrives (i0 i : istream) (bs : list byte) : bool :=
  negb (finished i0) && bool_decide (pending i = pending i0 ++ bs).

Definition sys_exec (ev : sys_event) s : option system :=
  let '(mk_system _ cl sv up down calls) := s in
  match ev with
  | se_send e =>
      let cl' := client_send e cl in Some (mk_system _ cl' sv up down (record_call e cl cl' calls))
  | se_client ev =>
      if local_event ev then
        match client_exec in_filters_ out_filters_ ev cl with
        | Some cl' => Some (mk_system _ cl' sv (up ++ new_sent cid cl cl') down calls)
        | None => None
        end
      else None
  | se_server ev =>
      if elsewhere sid ev sv then
        match exec cfg ev sv with
        | Some sv' => Some (mk_system _ cl sv' up (down ++ new_output sid sv sv') calls)
        | None => None
        end
      else None
  | se_up n i =>
      match conns sv !! sid with
      | Some c =>
          if arrives (c_istream (conn c)) i (take n up) then
            match exec cfg (ev_arrive sid i) sv with
            | Some sv' => Some (mk_system _ cl sv' (drop n up) down calls)
            | None => None
            end
          else None
      | None => None
      end
  | se_down n i =>
      match connections cl !! cid with
      | Some c =>
          if arrives (c_istream (cc_conn c)) i (take n down) then
            match client_exec in_filters_ out_filters_ (ce_arrive cid i) cl with
            | Some cl' => Some (mk_system _ cl' sv up (drop n down) calls)
            | None => None
            end
          else None
      | None => None
      end
  end.

(** The outgoing filters make a frame of the envelope and keep its session. *)
Definition call_ok (e : rpc_envelope) : Prop :=
  forall sess e1, rpc_filter_apply out_filters_ (map_header (mutate_session sess) e) = Ready e1 ->
  framed e1 /\ session (lheader (letter e1)) = u16 sess.

Definition sys_step s s' : Prop :=
  exists ev, (forall e, ev = se_send e -> call_ok e) /\ sys_exec ev s = Some s'.

Fixpoint sys_run (evs : list sys_event) s : option system :=
  match evs with
  | [] => Some s
  | ev :: evs => match sys_exec ev s with Some s => sys_run evs s | None => None end
  end.

(** A new client connects, and the server, in any state, accepts. *)
Definition sys_start (opts : rpc_client_opts) (args : rpc_server_args) s : Prop :=
  exists ic oc isv osv sv0,
    client_run in_filters_ out_filters_ [ce_connect; ce_connected caddr ic oc] (rpc_client_make opts) = Some (s_cl s) /\
    reachable cfg args sv0 /\ u64 (connection_idx_ sv0 + 1) = sid /\
    exec cfg (ev_accept saddr isv osv) sv0 = Some (s_sv s) /\
    pending ic = [] /\ pending isv = [] /\ s_up s = [] /\ s_down s = [] /\ s_calls s = ∅.

Definition sys_reachable (opts : rpc_client_opts) (args : rpc_server_args) s : Prop :=
  exists s0, sys_start opts args s0 /\ rtc sys_step s0 s.

Lemma sys_run_app evs evs' s :
  sys_run (evs ++ evs') s = match sys_run evs s with Some s1 => sys_run evs' s1 | None => None end.
Proof.
  revert s. induction evs as [|ev evs IH]; intros s; [done|].
  change ((ev :: evs) ++ evs') with (ev :: (evs ++ evs')). unfold sys_run; fold sys_run.
  destruct (sys_exec ev s); [apply IH|done].
Qed.

Lemma sys_run_step evs s s' :
  (forall e, se_send e ∈ evs -> call_ok e) -> sys_run evs s = Some s' -> rtc sys_step s s'.
Proof.
  revert s. induction evs as [|ev evs IH]; intros s Ok R; [by injection R as <-|].
  unfold sys_run in R; fold sys_run in R. destruct (sys_exec ev s) as [s1|] eqn:E; [|done].
  eapply rtc_l; [exists ev; split; [|done]|apply IH; [|done]].
  - intros e ->. apply Ok. left.
  - intros e Hin. apply Ok. by right.
Qed.

(** ** The specification *)

(** The remote procedure call, as a function of the envelope: the filters of
    the client, the server's handling of the request, and the filters again. *)
Definition remote_call (sess : Z) (e : rpc_envelope) : option rpc_recv_context :=
  e1 ← ready (rpc_filter_apply out_filters_ (map_header (mutate_session sess) e));
  e2 ← answer cfg (received saddr e1);
  ctx ← ready (rpc_filter_apply in_filters_ (received caddr e2));
  if compression (ctx_header ctx) =? flag_value compression_flags_none then Some ctx else None.

(** Handlers and outgoing filters of the server make frames with the session of
    the request. *)
Definition replies_ok : Prop :=
  forall e1 e2, framed e1 -> answer cfg (received saddr e1) = Some e2 ->
  framed e2 /\ session (lheader (letter e2)) = session (lheader (letter e1)).

(** ** The invariant *)

Section calls.
Variable calls : gmap Z (Z * rpc_envelope).

(** An envelope the client may write. *)
Definition asked (e1 : rpc_envelope) : Prop :=
  exists k sess e, calls !! k = Some (sess, e) /\ call_ok e /\ 0 <= sess < 65536 /\
    rpc_filter_apply out_filters_ (map_header (mutate_session sess) e) = Ready e1.

(** The response that belongs to call [k]. *)
Definition answers (k : Z) (ctx : rpc_recv_context) : Prop :=
  exists sess e e1 e2, calls !! k = Some (sess, e) /\
    rpc_filter_apply out_filters_ (map_header (mutate_session sess) e) = Ready e1 /\
    answer cfg (received saddr e1) = Some e2 /\ ctx = received caddr e2.

(** The result of call [k]. *)
Definition result_ok (k : Z) (r : outcome (option rpc_recv_context)) : Prop :=
  (exists ex, r = Failed ex) \/
  exists sess e ctx, r = Ready (Some ctx) /\ calls !! k = Some (sess, e) /\ remote_call sess e = Some ctx.

Definition request_ok (k : Z) (st : request_stage) : Prop :=
  match st with
  | q_outgoing e' => exists sess e, calls !! k = Some (sess, e) /\ e' = map_header (mutate_session sess) e
  | q_wait => True
  | q_incoming ctx => answers k ctx
  | q_end r | q_done r => result_ok k r
  end.

Lemma asked_framed e1 : asked e1 -> framed e1.
Proof. intros (k & sess & e & _ & Ok & _ & F). by apply (Ok sess). Qed.
End calls.

(** Sessions did not wrap, and no write of the server to the connection failed. *)
Definition good s : Prop := next_request (s_cl s) < 65536 /\ sid ∉ broken_ (s_sv s).

(** Where everything in the client comes from. *)
Record provenance s : Prop := mk_provenance {
  pv_calls : forall k sess e, s_calls s !! k = Some (sess, e) ->
    call_ok e /\ 0 <= sess <= session_idx_ (s_cl s) /\ k < next_request (s_cl s);
  pv_inj : forall k k' sess e e', s_calls s !! k = Some (sess, e) -> s_calls s !! k' = Some (sess, e') -> k' = k;
  pv_idx : 0 <= session_idx_ (s_cl s) <= next_request (s_cl s);
  pv_works : forall k w, works (s_cl s) !! k = Some w -> exists e, s_calls s !! k = Some (w_session w, e);
  pv_values : forall k sess ctx, works (s_cl s) !! k = Some (mk_work (set_value (Some ctx)) sess) ->
    answers (s_calls s) k ctx;
  pv_requests : forall k st, requests (s_cl s) !! k = Some st -> request_ok (s_calls s) k st;
  pv_writes : forall k st, writes (s_cl s) !! k = Some st -> asked (s_calls s) (w_env st)
}.

(** What is on the way: requests up, replies down. *)
Definition core s : Prop :=
  exists t_up t_down, half_sent (s_cl s) t_up /\ half_reply sid (s_sv s) t_down /\
    session_aligned sid (asked (s_calls s)) (s_up s ++ t_up) (s_sv s) /\
    dispatches_ok cfg sid (asked (s_calls s)) saddr (s_sv s) /\
    reader_aligned cid rk (reply_to cfg (asked (s_calls s)) saddr) (s_down s ++ t_down) (s_cl s).

Record sys_inv opts args s : Prop := mk_sys_inv {
  iv_client : client_reachable in_filters_ out_filters_ opts (s_cl s);
  iv_server : reachable cfg args (s_sv s);
  iv_single : single cid rk (s_cl s);
  iv_peer : forall c, conns (s_sv s) !! sid = Some c -> remote_address (conn c) = saddr;
  iv_cpeer : forall c, connections (s_cl s) !! cid = Some c -> remote_address (cc_conn c) = caddr;
  iv_prov : good s -> provenance s;
  iv_core : good s -> is_conn_valid (s_cl s) = true -> core s
}.
End system.

(** ** Who keeps the contracts *)

Section contracts.
Context `{Build, GeneratedHeader, Xxhash, Seastar}.

Lemma framed_session sess e : framed e -> framed (map_header (mutate_session sess) e).
Proof. intros [W Sz R Ck Kp Mt Bf Cf]. constructor; try done. simpl. by apply mutate_session_wf. Qed.

(** An envelope that is framed without filters. *)
Lemma call_ok_framed e : framed e -> call_ok [] e.
Proof. intros F sess e1 [= <-]. split; [by apply framed_session|done]. Qed.

(** Generated services: the generated lambda stamps the session of the request
    on what the raw method returns. *)
Lemma generated_replies_ok cfg saddr (svcs : list (string * Z * list generated_method)) :
  routes cfg = map (fun '(n, i, ms) => generated_service n i ms) svcs ->
  (forall ctx ctx1, rpc_filter_apply (in_filters cfg) ctx = Ready ctx1 -> ctx_session ctx1 = ctx_session ctx) ->
  (forall n i ms m e1 ctx1 e, (n, i, ms) ∈ svcs -> m ∈ ms -> framed e1 ->
     rpc_filter_apply (in_filters cfg) (received saddr e1) = Ready ctx1 -> gm_raw m ctx1 = Ready e -> framed e) ->
  (forall e e2, framed e -> rpc_filter_apply (out_filters cfg) e = Ready e2 ->
     framed e2 /\ session (lheader (letter e2)) = session (lheader (letter e))) ->
  replies_ok cfg saddr.
Proof.
  intros Rt Fi Raw Fo e1 e2 F1 An. destruct (answer_inv cfg _ _ An) as (h & ctx1 & e & _ & G & In & _ & Ap & Ou).
  rewrite Rt in G. clear Rt An. induction svcs as [|[[n i] ms] svcs IH]; [done|]. simpl in G.
  destruct (generated_switch i ms _) as [h'|] eqn:Sw.
  2: { apply IH; [|done]. intros n' i' ms' m ? ? ? Hin. eapply Raw. by right. }
  injection G as ->. apply generated_switch_Some in Sw as (m & Hm & _ & ->). simpl in Ap.
  apply outcome_bind_Ready in Ap as (e0 & Er & [= <-]).
  assert (framed e0) as F0 by (eapply Raw; [by left|done..]).
  destruct (Fo _ _ (framed_session (ctx_session ctx1) e0 F0) Ou) as [F2 Se]. split; [done|].
  rewrite Se. simpl. rewrite (Fi _ _ In). unfold ctx_session, received. simpl.
  destruct (received_header_frame (lheader (letter e1))) as (_ & _ & _ & _ & ->).
  apply wrap_u_small, F1.
Qed.
End contracts.

(** A demo system: the echo server of [ServerDemo] and a client without filters. *)
Module SystemDemo.
Import Demo ServerDemo.

Definition y_opts : rpc_client_opts := mk_opts false 60000 1000.
Definition y_args : rpc_server_args := mk_args 60000 1000.
Definition y_call : rpc_envelope := demo_envelope [Byte.x2a] (client_request_id 9 5) 0.

Definition y_client : client :=
  default (rpc_client_make y_opts) (client_run [] []
    [ce_connect; ce_connected demo_addr (demo_stream [] false) ([] : @ostream demo_seastar)] (rpc_client_make y_opts)).
Definition y_start : system :=
  mk_system _ y_client (demo_state 1000 [ev_start; demo_accept [] false]) [] [] ∅.

Definition y_run (evs : list sys_event) : option system := sys_run [] [] demo_config 1 evs y_start.
Definition y_state (evs : list sys_event) : system := default y_start (y_run evs).

Lemma y_replies_ok : replies_ok demo_config demo_addr.
Proof.
  apply (generated_replies_ok demo_config demo_addr [("Storage", 9, [mk_method 5 demo_echo])]); [done|..].
  - by intros ctx ctx1 [= <-].
  - intros n i ms m e1 ctx1 e [= -> -> ->]%list_elem_of_singleton ->%list_elem_of_singleton F [= <-] [= <-].
    destruct F as [W Sz R Ck Kp Mt Bf Cf].
    apply (WireWitness.w_framed (body (letter e1)) 200 0); [by apply bool_decide_eq_true|apply bool_decide_eq_false|done].
    unfold not. by rewrite <- Ck.
  - by intros e e2 F [= <-].
Qed.

Lemma y_call_ok : call_ok [] y_call.
Proof. apply call_ok_framed, WireWitness.w_framed; vm_refl. Qed.

Lemma y_started : sys_start [] [] demo_config 1 demo_addr demo_addr y_opts y_args y_start.
Proof.
  exists (demo_stream [] false), ([] : @ostream demo_seastar), (demo_stream [] false), ([] : @ostream demo_seastar),
    (demo_state 1000 [ev_start]).
  split; [apply ran_default; vm_refl|]. split; [apply demo_reachable; vm_refl|]. split; [vm_refl|].
  split; [apply (demo_step 1000 [ev_start] (demo_accept [] false)); vm_refl|]. repeat split.
Qed.

Definition y_sends (evs : list sys_event) : list rpc_envelope :=
  omap (fun ev => match ev with se_send e => Some e | _ => None end) evs.

Lemma y_reachable evs n :
  ran (y_run evs) = true -> y_sends evs = repeat y_call n ->
  sys_reachable [] [] demo_config 1 demo_addr demo_addr y_opts y_args (y_state evs).
Proof.
  intros R Sn. exists y_start. split; [apply y_started|].
  assert (forall e, se_send e ∈ evs -> e = y_call) as Ok.
  { intros e Hin. assert (e ∈ y_sends evs) as Hs.
    { unfold y_sends. apply list_elem_of_omap. by exists (se_send e). }
    rewrite Sn in Hs. apply list_elem_of_In in Hs. by eapply repeat_spec. }
  unfold y_state, y_run in *. destruct (sys_run [] [] demo_config 1 evs y_start) as [s'|] eqn:E; [|done].
  eapply sys_run_step; [|exact E]. intros e Hin. rewrite (Ok e Hin). apply y_call_ok.
Qed.
End SystemDemo.
