(* ===== verification/SystemSafety.v ===== *)
(** * Calls complete with the answer of the remote procedure

    The invariant of System.v is kept by every step: requests and replies stay
    on frame boundaries in both directions, every reply belongs to a request,
    and sessions tell the calls apart. *)

From Stdlib Require Import ZArith Lia.
From stdpp Require Import base gmap list numbers strings.
From coqutil Require Import Byte.
From S2P Require Import Prelude Header Seastar Letter Connection RecvContext Wire Streams Filters Router Server ServerInv ServerWrites ServerWire Client ClientInv ClientLife ClientWrites ClientWire System.

Section safety.
Context `{Build, GeneratedHeader, Xxhash, Seastar}.
Variable in_filters_ : list (rpc_recv_context -> outcome rpc_recv_context).
Variable out_filters_ : list (rpc_envelope -> outcome rpc_envelope).
Variable cfg : server_config.
Variable sid : Z.
Variables saddr caddr : socket_address.
Hypothesis replies : replies_ok cfg saddr.
Implicit Types s : system.

Abbreviation provenance := (provenance in_filters_ out_filters_ cfg saddr caddr).
Abbreviation core := (core out_filters_ cfg sid saddr).
Abbreviation sys_inv := (sys_inv in_filters_ out_filters_ cfg sid saddr caddr).
Abbreviation asked := (asked out_filters_).
Abbreviation answers := (answers out_filters_ cfg saddr caddr).
Abbreviation result_ok := (result_ok in_filters_ out_filters_ cfg saddr caddr).
Abbreviation request_ok := (request_ok in_filters_ out_filters_ cfg saddr caddr).
Abbreviation call_ok := (call_ok out_filters_).
Abbreviation reply := (fun calls => reply_to cfg (asked calls) saddr).

(** ** More calls *)

Section grow.
Variables calls calls' : gmap Z (Z * rpc_envelope).
Hypothesis Sub : calls ⊆ calls'.

Lemma asked_grow e : asked calls e -> asked calls' e.
Proof. intros (k & sess & e0 & E & ?). exists k, sess, e0. split; [by eapply lookup_weaken|done]. Qed.

Lemma answers_grow k ctx : answers calls k ctx -> answers calls' k ctx.
Proof. intros (sess & e & e1 & e2 & E & ?). exists sess, e, e1, e2. split; [by eapply lookup_weaken|done]. Qed.

Lemma request_grow k st : request_ok calls k st -> request_ok calls' k st.
Proof.
  assert (forall r, result_ok calls k r -> result_ok calls' k r) as R.
  { intros r [?|(sess & e & ctx & Er & E & Rc)]; [by left|right]. exists sess, e, ctx.
    split_and!; [done|by eapply lookup_weaken|done]. }
  destruct st; simpl; try done; [|by apply answers_grow|by apply R..].
  intros (sess & e0 & E & ->). exists sess, e0. split; [by eapply lookup_weaken|done].
Qed.

Lemma reply_grow e : reply calls e -> reply calls' e.
Proof. apply reply_to_mono, asked_grow. Qed.
End grow.

Lemma reply_framed calls e : reply calls e -> framed e.
Proof. intros (ctx & (e1 & A & ->) & Sv). apply (replies e1); [by eapply asked_framed|done]. Qed.

(** A step that neither makes a call nor moves a session. *)
Lemma provenance_keep s s' :
  s_calls s' = s_calls s -> next_request (s_cl s') = next_request (s_cl s) ->
  session_idx_ (s_cl s') = session_idx_ (s_cl s) ->
  (forall k w, works (s_cl s') !! k = Some w -> works (s_cl s) !! k = Some w \/
     exists w0, works (s_cl s) !! k = Some w0 /\ w_session w = w_session w0 /\
     forall ctx, pr w = set_value (Some ctx) -> answers (s_calls s) k ctx) ->
  (forall k st, requests (s_cl s') !! k = Some st -> requests (s_cl s) !! k = Some st \/ request_ok (s_calls s) k st) ->
  (forall k st, writes (s_cl s') !! k = Some st -> asked (s_calls s) (w_env st)) ->
  provenance s -> provenance s'.
Proof.
  intros Ec En Es W Q Wr [A B C D E F G]. constructor; rewrite ?Ec, ?En, ?Es; try done.
  - intros k w Hk. destruct (W k w Hk) as [Hk'|(w0 & Hk' & -> & _)]; by apply D.
  - intros k sess ctx Hk. destruct (W _ _ Hk) as [Hk'|(w0 & Hk' & _ & V)]; [by eapply E|by apply V].
  - intros k st Hk. destruct (Q k st Hk) as [Hk'|Ok]; [by apply F|done].
Qed.

(** ** Calls *)

Lemma provenance_send e s :
  client_inv (s_cl s) -> call_ok e -> next_request (s_cl s) + 1 < 65536 -> provenance s ->
  let cl' := client_send e (s_cl s) in
  provenance (mk_system _ cl' (s_sv s) (s_up s) (s_down s) (record_call e (s_cl s) cl' (s_calls s))) /\
  s_calls s ⊆ record_call e (s_cl s) cl' (s_calls s).
Proof.
  intros [Is Li] Ok Bd Pv cl'. destruct (send_cases e (s_cl s)) as [_ _ _ Wr Nx Ca]. fold cl' in Wr, Nx, Ca.
  destruct s as [cl sv up down calls]; simpl in *.
  assert (calls !! next_request cl = None) as Fr.
  { destruct (calls !! next_request cl) as [[sess e0]|] eqn:E; [|done].
    apply (pv_calls _ _ _ _ _ _ Pv) in E as (_ & _ & ?). simpl in *. lia. }
  pose proof (si_fresh _ Is (next_request cl) ltac:(lia)) as Fw.
  assert (calls ⊆ record_call e cl cl' calls) as Sub.
  { unfold record_call. case_goal; [by apply insert_subseteq|done]. }
  split; [|done]. destruct Pv as [A B C D E F G]; simpl in *.
  destruct Ca as [(st & Rf & Rq & Wk & Ss)|(Ss & Rq & Wk)].
  - assert (record_call e cl cl' calls = calls) as -> by (unfold record_call; by rewrite Wk, Fw).
    assert (session_idx_ cl <= session_idx_ cl' <= next_request cl') as Sb.
    { destruct Ss as [->| ->]; [lia|]. rewrite wrap_u_small by (unfold fits_u; lia). lia. }
    constructor; simpl; rewrite ?Wk, ?Wr; try done.
    + intros k sess e0 Hk. destruct (A k sess e0 Hk) as (? & ? & ?). split_and!; [done|lia..].
    + lia.
    + intros k st'. rewrite Rq, lookup_insert_Some. intros [[<- <-]|[_ Hk]]; [|by apply F].
      destruct Rf as [ex [->| ->]]; left; eauto.
  - assert (session_idx_ cl' = session_idx_ cl + 1) as Si by (rewrite Ss; apply wrap_u_small; unfold fits_u; lia).
    unfold record_call in *. rewrite Wk, lookup_insert_eq in *. simpl in *.
    constructor; simpl.
    + intros k sess e0. rewrite lookup_insert_Some. intros [[<- [= <- <-]]|[_ Hk]].
      * split_and!; [done|lia..].
      * destruct (A k sess e0 Hk) as (? & ? & ?). split_and!; [done|lia..].
    + intros k k' sess e0 e0'. rewrite !lookup_insert_Some.
      intros [[<- E0]|[_ Hk]] [[<- E1]|[_ Hk']]; [done| | |by eapply B].
      * apply A in Hk' as (_ & ? & _). injection E0 as <- _. lia.
      * apply A in Hk as (_ & ? & _). injection E1 as <- _. lia.
    + lia.
    + intros k w. rewrite Wk, lookup_insert_Some. intros [[<- <-]|[Nk Hk]].
      * exists e. by rewrite lookup_insert_eq.
      * destruct (D k w Hk) as [e0 He]. exists e0. by rewrite lookup_insert_ne.
    + intros k sess ctx. rewrite Wk, lookup_insert_Some. intros [[<- ?]|[Nk Hk]]; [done|].
      eapply answers_grow; [done|]. by eapply E.
    + intros k st. rewrite Rq, lookup_insert_Some. intros [[<- <-]|[Nk Hk]].
      * simpl. exists (session_idx_ cl'), e. by rewrite lookup_insert_eq.
      * eapply request_grow; [done|]. by apply F.
    + intros k st. rewrite Wr. intros Hk. eapply asked_grow; [done|]. by eapply G.
Qed.

(** ** The client runs *)

(** The response that resolves a promise is the answer to its call. *)
Lemma response_answers s k sess ctx e :
  next_request (s_cl s) < 65536 -> provenance s -> reply (s_calls s) e -> ctx = received caddr e ->
  sess = u16 (ctx_session ctx) -> works (s_cl s) !! k = Some (mk_work unresolved sess) ->
  answers (s_calls s) k ctx.
Proof.
  intros Bd Pv (ctx0 & (e1 & A & ->) & Sv) -> -> Wk.
  pose proof (asked_framed _ _ _ A) as Fr. destruct (replies e1 e Fr Sv) as [_ Se].
  destruct A as (k1 & sess1 & e0 & Ck & Ok & Sr & Fo). destruct (Ok sess1 e1 Fo) as [_ S1].
  assert (u16 (ctx_session (received caddr e)) = sess1) as Es.
  { unfold ctx_session, received. simpl. destruct (received_header_frame (lheader (letter e))) as (_ & _ & _ & _ & ->).
    rewrite Se, S1, !wrap_u_small; unfold fits_u; try lia; rewrite ?wrap_u_small; unfold fits_u; lia. }
  rewrite Es in Wk. destruct (pv_works _ _ _ _ _ _ Pv k _ Wk) as [e0' Ck']. simpl in Ck'.
  pose proof (pv_inj _ _ _ _ _ _ Pv _ _ _ _ _ Ck Ck') as ->.
  exists sess1, e0, e1, e. by split_and!.
Qed.

Lemma provenance_asks k s cl' :
  client_inv (s_cl s) -> provenance s -> asks_on in_filters_ out_filters_ k (s_cl s) cl' ->
  forall up, next_request (s_cl s) < 65536 -> provenance (mk_system _ cl' (s_sv s) up (s_down s) (s_calls s)).
Proof.
  intros [Is Li] Pv A up Bd.
  assert (forall st cl0, cl0 = s_cl s -> request_ok (s_calls s) k st -> forall k' st',
    <[k := st]> (requests cl0) !! k' = Some st' -> requests (s_cl s) !! k' = Some st' \/ request_ok (s_calls s) k' st') as Rq.
  { intros st cl0 -> Ok k' st'. rewrite lookup_insert_Some. intros [[<- <-]|[_ ?]]; [by right|by left]. }
  assert (forall k' w, works (s_cl s) !! k' = Some w -> works (s_cl s) !! k' = Some w \/
     exists w0, works (s_cl s) !! k' = Some w0 /\ w_session w = w_session w0 /\
     forall ctx, pr w = set_value (Some ctx) -> answers (s_calls s) k' ctx) as Wk by (by left).
  destruct A as [e e' g Q F|ex|sess Q W|ctx sess Q W|ctx ctx' Q F C|r Q];
    (eapply (provenance_keep s); [done|done|done|exact Wk|simpl; eapply Rq; [done|]|simpl|done]);
    try (intros k' st'; apply (pv_writes _ _ _ _ _ _ Pv)).
  - done.
  - intros k' st'. rewrite lookup_insert_Some. intros [[_ <-]|[_ Hk]]; [|by eapply (pv_writes _ _ _ _ _ _ Pv)].
    destruct (pv_requests _ _ _ _ _ _ Pv k _ Q) as (sess & e0 & Ck & ->). simpl.
    destruct (pv_calls _ _ _ _ _ _ Pv k sess e0 Ck) as (Ok & ? & ?).
    exists k, sess, e0. pose proof (pv_idx _ _ _ _ _ _ Pv). split_and!; try done; lia.
  - left. eauto.
  - destruct (si_values _ Is k None sess W) as (ctx & ? & _). done.
  - by eapply (pv_values _ _ _ _ _ _ Pv).
  - right. destruct (pv_requests _ _ _ _ _ _ Pv k _ Q) as (sess & e & e1 & e2 & Ck & Fo & Sv & ->).
    exists sess, e, ctx'. split_and!; [done|done|]. unfold remote_call. rewrite Fo. cbn [ready mbind option_bind].
    rewrite Sv. cbn [ready mbind option_bind]. rewrite F. cbn [ready mbind option_bind]. by rewrite C, Z.eqb_refl.
  - apply (pv_requests _ _ _ _ _ _ Pv k _ Q).
Qed.

Lemma provenance_local ev s cl' up :
  client_inv (s_cl s) -> single cid rk (s_cl s) -> (forall c, connections (s_cl s) !! cid = Some c -> remote_address (cc_conn c) = caddr) ->
  next_request (s_cl s) < 65536 -> local_event ev = true ->
  client_exec in_filters_ out_filters_ ev (s_cl s) = Some cl' ->
  (is_conn_valid (s_cl s) = true -> core s) -> provenance s ->
  provenance (mk_system _ cl' (s_sv s) up (s_down s) (s_calls s)).
Proof.
  intros I Sg Pe Bd Lo E Co Pv. pose proof (pv_writes _ _ _ _ _ _ Pv) as Wr.
  destruct (local_cases in_filters_ out_filters_ ev (s_cl s) cl' I) as [[k X]|[[k X]|[(k & r & Er & X)|X]]]; try done.
  - intros k r. apply (single_dead cid rk); [apply I|done].
  - by eapply provenance_asks.
  - eapply (provenance_keep s); try (by destruct X); [by destruct X; left|by destruct X; left|].
    intros k' st' Hk. destruct X; simpl in Hk; try (apply lookup_insert_Some in Hk as [[<- <-]|[_ Hk]];
      [match goal with Y : writes _ !! _ = Some _ |- _ => exact (Wr _ _ Y) end|by eapply Wr]);
      apply lookup_delete_Some in Hk as [_ Hk]; by eapply Wr.
  - destruct X as [id c St C Cc V|id c b i hdr St Cc Rb Lb Ch|id c b i hdr ctx w St Cc Rb Cp Sl W].
    + eapply (provenance_keep s); try done; by left.
    + eapply (provenance_keep s); try done; by left.
    + destruct (le_slots _ (proj2 I)) as [V _]; [intros E0; by rewrite E0 in Sl|].
      destruct (Co V) as (t_up & t_down & _ & _ & _ & _ & Al).
      assert (live r = true) as Lr.
      { destruct (live r) eqn:L; [done|]. by rewrite (single_dead cid rk (s_cl s) k r) in V by (apply I || done). }
      destruct (aligned_response cid rk _ (reply_framed (s_calls s)) _ k r (s_cl s) id c b i hdr ctx Sg Al Er Lr St Cc Rb Cp)
        as [(e2 & Re & Ec) _].
      assert (remote_address (cc_conn c) = caddr) as Ra.
      { assert (id = cid) as -> by (by apply (sg_reads _ _ _ Sg k r); rewrite ?St).
        by apply Pe. }
      rewrite Ra in Ec. pose proof (response_answers s w _ ctx e2 Bd Pv Re Ec eq_refl W) as An.
      unfold reader_next. rewrite Lr. eapply (provenance_keep s); try done; [|by left].
      intros k' w'. simpl. rewrite lookup_insert_Some. intros [[<- <-]|[_ Hk]]; [right|by left].
      eexists. split_and!; [exact W|done|]. by intros ctx0 [= <-].
  - eapply (provenance_keep s); try apply X; try done.
    + intros k' w Hk. destruct (fo_works _ _ X k' w Hk) as [?|(ex & -> & Hw)]; [by left|right].
      eexists. by split_and!.
    + intros k' st. simpl. rewrite (fo_requests _ _ X). by left.
    + intros k' st Hk. simpl in *. apply (fo_writes _ _ X) in Hk. by eapply Wr.
Qed.

(** ** The bytes on the way *)

Lemma core_send e s calls' :
  s_calls s ⊆ calls' -> core s ->
  core (mk_system _ (client_send e (s_cl s)) (s_sv s) (s_up s) (s_down s) calls').
Proof.
  intros Sub (t_up & t_down & Hs & Hr & Sa & Do & Ra).
  destruct (send_cases e (s_cl s)) as [_ Cn Rd Wr _ _].
  exists t_up, t_down. simpl. split_and!; [by eapply half_sent_same|done|..].
  - by eapply session_aligned_mono; [apply asked_grow|].
  - by eapply dispatches_ok_mono; [apply asked_grow|].
  - eapply reader_aligned_same; [done|by rewrite Cn; eauto|].
    by eapply reader_aligned_mono; [apply reply_grow|].
Qed.

Lemma core_local ev s cl' :
  client_inv (s_cl s) -> lock_inv (s_cl s) -> single cid rk (s_cl s) -> provenance s ->
  local_event ev = true -> client_exec in_filters_ out_filters_ ev (s_cl s) = Some cl' ->
  is_conn_valid cl' = true -> core s ->
  core (mk_system _ cl' (s_sv s) (s_up s ++ new_sent cid (s_cl s) cl') (s_down s) (s_calls s)).
Proof.
  intros I Lk Sg Pv Lo E V' (t_up & t_down & Hs & Hr & Sa & Do & Ra).
  pose proof (local_valid _ _ cid rk ev (s_cl s) cl' I Sg Lo E V') as V.
  destruct (local_wire _ _ cid rk (asked (s_calls s)) ev (s_cl s) cl' t_up I Lk Sg Lo E V')
    as (t_up' & es & Hs' & Fes & Ee); [|done|].
  { intros k e W. exact (pv_writes _ _ _ _ _ _ Pv _ _ W). }
  exists t_up', t_down. simpl. split_and!; try done.
  - rewrite <- app_assoc, Ee, app_assoc. by apply session_aligned_grow.
  - eapply (reader_aligned_local _ _ cid rk); [|exact I|..]; try done. by apply reply_framed.
Qed.

Lemma core_server ev s sv' :
  live_inv (s_sv s) -> write_inv (s_sv s) -> elsewhere sid ev (s_sv s) = true ->
  (forall c, conns (s_sv s) !! sid = Some c -> remote_address (conn c) = saddr) ->
  exec cfg ev (s_sv s) = Some sv' -> sid ∉ broken_ sv' -> core s ->
  core (mk_system _ (s_cl s) sv' (s_up s) (s_down s ++ new_output sid (s_sv s) sv') (s_calls s)).
Proof.
  intros L W El Pe E Nb (t_up & t_down & Hs & Hr & Sa & Do & Ra).
  destruct (output_step cfg sid (reply (s_calls s)) ev (s_sv s) sv' t_down L W El E Nb)
    as (t_down' & es & Hr' & Fes & Ee); [|done|].
  { intros tid d e D Ed St. specialize (Do tid d D Ed). by rewrite St in Do. }
  exists t_up, t_down'. simpl. split_and!; try done.
  - eapply session_aligned_step; try done. by apply asked_framed.
  - eapply dispatches_ok_step; try done. by apply asked_framed.
  - rewrite <- app_assoc, Ee, app_assoc. by apply reader_aligned_grow.
Qed.

Lemma arrives_spec i0 i bs : arrives i0 i bs = true -> finished i0 = false /\ pending i = pending i0 ++ bs.
Proof. unfold arrives. rewrite andb_true_iff, negb_true_iff, bool_decide_eq_true. done. Qed.

Lemma core_up n i s c sv' :
  conns (s_sv s) !! sid = Some c -> arrives (c_istream (conn c)) i (take n (s_up s)) = true ->
  exec cfg (ev_arrive sid i) (s_sv s) = Some sv' -> core s ->
  core (mk_system _ (s_cl s) sv' (drop n (s_up s)) (s_down s) (s_calls s)).
Proof.
  intros C Ar E (t_up & t_down & Hs & Hr & Sa & Do & Ra). apply arrives_spec in Ar.
  exists t_up, t_down. simpl. split_and!; try done.
  - eapply half_reply_same; [|done]. apply (quiet_step cfg _ _ _ E).
  - eapply session_aligned_arrive; [done| |by rewrite app_assoc, take_drop].
    intros c0 C0. rewrite C in C0. by injection C0 as <-.
  - eapply dispatches_ok_same; [|done]. apply (quiet_step cfg _ _ _ E).
Qed.

Lemma core_down n i s c cl' :
  connections (s_cl s) !! cid = Some c -> arrives (c_istream (cc_conn c)) i (take n (s_down s)) = true ->
  client_exec in_filters_ out_filters_ (ce_arrive cid i) (s_cl s) = Some cl' -> core s ->
  core (mk_system _ cl' (s_sv s) (s_up s) (drop n (s_down s)) (s_calls s)).
Proof.
  intros C Ar E (t_up & t_down & Hs & Hr & Sa & Do & Ra). apply arrives_spec in Ar.
  exists t_up, t_down. simpl. split_and!; try done.
  - eapply half_sent_same; [|done]. simpl in E. by repeat case_hyp E; simplify_eq.
  - eapply reader_aligned_arrive; [done| |by rewrite app_assoc, take_drop].
    intros c0 C0. rewrite C in C0. by injection C0 as <-.
Qed.

(** ** Every step *)

Lemma client_peer_kept cl cl' :
  client_extends cid cl cl' ->
  (forall c, connections cl !! cid = Some c -> remote_address (cc_conn c) = caddr) ->
  forall c, connections cl' !! cid = Some c -> remote_address (cc_conn c) = caddr.
Proof. intros X A c C. destruct (X c C) as (c0 & C0 & -> & _). by apply A. Qed.

Abbreviation sys_step := (sys_step in_filters_ out_filters_ cfg sid).

Lemma sys_inv_send opts args e s :
  call_ok e -> sys_inv opts args s ->
  let cl' := client_send e (s_cl s) in
  sys_inv opts args (mk_system _ cl' (s_sv s) (s_up s) (s_down s) (record_call e (s_cl s) cl' (s_calls s))).
Proof.
  intros Ok [Rc Rs Sg Pe Cp Pv Co] cl'. pose proof (reachable_client_inv _ _ _ _ Rc) as I.
  assert (client_exec in_filters_ out_filters_ (ce_send e) (s_cl s) = Some cl') as E by done.
  pose proof (send_cases e (s_cl s)) as Sn.
  assert (forall x, good sid (mk_system _ cl' (s_sv s) (s_up s) (s_down s) x) ->
    next_request (s_cl s) + 1 < 65536 /\ good sid s) as Gd.
  { intros x [G1 G2]. simpl in *. unfold cl' in G1. rewrite (sn_next _ _ _ Sn) in G1. split; [done|split; [lia|done]]. }
  constructor; simpl; try done.
  - eapply rtc_r; [done|by exists (ce_send e)].
  - by eapply (single_step _ _ cid rk (ce_send e)).
  - eapply client_peer_kept; [|exact Cp]. by eapply (client_extends_step in_filters_ out_filters_ cid (ce_send e)); [apply I|..].
  - intros G. destruct (Gd _ G) as [Bd G0]. by apply (provenance_send e s I Ok Bd (Pv G0)).
  - intros G V. destruct (Gd _ G) as [Bd G0]. apply core_send.
    + by apply (provenance_send e s I Ok Bd (Pv G0)).
    + apply Co; [done|]. unfold is_conn_valid, cl' in *.
      by rewrite (sn_conn _ _ _ Sn), (sn_connections _ _ _ Sn) in V.
Qed.

Lemma sys_inv_local opts args ev s cl' :
  local_event ev = true -> client_exec in_filters_ out_filters_ ev (s_cl s) = Some cl' -> sys_inv opts args s ->
  sys_inv opts args (mk_system _ cl' (s_sv s) (s_up s ++ new_sent cid (s_cl s) cl') (s_down s) (s_calls s)).
Proof.
  intros Lo E [Rc Rs Sg Pe Cp Pv Co]. pose proof (reachable_client_inv _ _ _ _ Rc) as I.
  assert (session_event ev = true) as Se by (by destruct ev).
  assert (forall x, good sid (mk_system _ cl' (s_sv s) x (s_down s) (s_calls s)) -> good sid s) as Gd.
  { intros x [G1 G2]. split; [|done]. simpl in *.
    enough (next_request cl' = next_request (s_cl s)) by lia.
    destruct (local_cases in_filters_ out_filters_ ev (s_cl s) cl' I) as [[k X]|[[k X]|[(k & r & Er & X)|X]]]; try done.
    - intros k r. apply (single_dead cid rk); [apply I|done].
    - by destruct X.
    - by destruct X.
    - destruct X; try done. unfold reader_next. by case_goal.
    - apply X. }
  constructor; simpl; try done.
  - eapply rtc_r; [done|by exists ev].
  - by eapply (single_step _ _ cid rk ev).
  - eapply client_peer_kept; [|exact Cp]. by eapply (client_extends_step in_filters_ out_filters_ cid ev); [apply I|..].
  - intros G. specialize (Gd _ G). eapply provenance_local; try done; [apply Gd|by apply Co|by apply Pv].
  - intros G V'. specialize (Gd _ G). eapply core_local; try done; [by eapply reachable_lock|by apply Pv|].
    apply Co; [done|]. by eapply local_valid.
Qed.

Lemma sys_inv_server opts args ev s sv' :
  elsewhere sid ev (s_sv s) = true -> exec cfg ev (s_sv s) = Some sv' -> sys_inv opts args s ->
  sys_inv opts args (mk_system _ (s_cl s) sv' (s_up s) (s_down s ++ new_output sid (s_sv s) sv') (s_calls s)).
Proof.
  intros El E [Rc Rs Sg Pe Cp Pv Co].
  assert (forall x, good sid (mk_system _ (s_cl s) sv' (s_up s) x (s_calls s)) -> good sid s) as Gd.
  { intros x [G1 G2]. split; [done|]. intros B. by apply G2; eapply broken_step. }
  constructor; simpl; try done.
  - eapply rtc_r; [done|by exists ev].
  - intros c C. destruct (extends_step cfg sid ev (s_sv s) sv' El E c C) as (c0 & C0 & -> & _). by apply Pe.
  - intros G. specialize (Gd _ G). destruct (Pv Gd). by constructor.
  - intros G V. eapply core_server; try done; [by eapply reachable_live|by eapply reachable_writes|apply G|].
    apply Co; [by eapply Gd|done].
Qed.

Lemma sys_inv_up opts args n i s c sv' :
  conns (s_sv s) !! sid = Some c -> arrives (c_istream (conn c)) i (take n (s_up s)) = true ->
  exec cfg (ev_arrive sid i) (s_sv s) = Some sv' -> sys_inv opts args s ->
  sys_inv opts args (mk_system _ (s_cl s) sv' (drop n (s_up s)) (s_down s) (s_calls s)).
Proof.
  intros C Ar E [Rc Rs Sg Pe Cp Pv Co].
  assert (good sid (mk_system _ (s_cl s) sv' (drop n (s_up s)) (s_down s) (s_calls s)) -> good sid s) as Gd.
  { intros [G1 G2]. split; [done|]. simpl in G2. by rewrite (sw_broken _ _ (quiet_step cfg _ _ _ E)) in G2. }
  constructor; simpl; try done.
  - eapply rtc_r; [done|by exists (ev_arrive sid i)].
  - intros c' C'. simpl in E. rewrite C in E. case_hyp E; simplify_eq. simpl in C'.
    rewrite lookup_alter_eq, C in C'. injection C' as <-. by apply (Pe c).
  - intros G. destruct (Pv (Gd G)). by constructor.
  - intros G V. eapply core_up; try done. by apply Co; [apply Gd|].
Qed.

Lemma sys_inv_down opts args n i s c cl' :
  connections (s_cl s) !! cid = Some c -> arrives (c_istream (cc_conn c)) i (take n (s_down s)) = true ->
  client_exec in_filters_ out_filters_ (ce_arrive cid i) (s_cl s) = Some cl' -> sys_inv opts args s ->
  sys_inv opts args (mk_system _ cl' (s_sv s) (s_up s) (drop n (s_down s)) (s_calls s)).
Proof.
  intros C Ar E [Rc Rs Sg Pe Cp Pv Co]. pose proof (reachable_client_inv _ _ _ _ Rc) as I.
  assert (exists i', cl' = upd_cconn cid (with_istream i') (s_cl s) /\ eof i' = eof (c_istream (cc_conn c))) as (i' & Ei & Ee).
  { simpl in E. rewrite C in E. destruct (_ && _) eqn:G; [|done]. injection E as <-.
    exists i. apply andb_true_iff in G as [_ G]. by apply bool_decide_eq_true in G. }
  assert (good sid (mk_system _ cl' (s_sv s) (s_up s) (drop n (s_down s)) (s_calls s)) -> good sid s) as Gd
    by (by rewrite Ei).
  constructor; simpl; try done.
  - eapply rtc_r; [done|by exists (ce_arrive cid i)].
  - by eapply (single_step _ _ cid rk (ce_arrive cid i)).
  - eapply client_peer_kept; [|exact Cp]. by eapply (client_extends_step in_filters_ out_filters_ cid (ce_arrive cid i)); [apply I|..].
  - intros G. destruct (Pv (Gd G)). rewrite Ei. by constructor.
  - intros G V. eapply core_down; try done. apply Co; [by apply Gd|]. rewrite Ei, valid_upd_cconn in V; [done|].
    intros c0 C0. rewrite C in C0. injection C0 as <-. unfold is_valid, has_error. simpl. by rewrite Ee.
Qed.

Lemma sys_inv_step opts args s s' : sys_step s s' -> sys_inv opts args s -> sys_inv opts args s'.
Proof.
  intros (ev & Ok & E) I. destruct s as [cl sv up down calls]. destruct ev; simpl in E.
  - injection E as <-. apply (sys_inv_send opts args e (mk_system _ cl sv up down calls)); [by apply Ok|done].
  - destruct (local_event ev) eqn:Lo; [|done]. destruct (client_exec _ _ ev cl) as [cl'|] eqn:Ec; [|done].
    injection E as <-. by apply (sys_inv_local opts args ev (mk_system _ cl sv up down calls)).
  - destruct (elsewhere sid ev sv) eqn:El; [|done]. destruct (exec cfg ev sv) as [sv'|] eqn:Es; [|done].
    injection E as <-. by apply (sys_inv_server opts args ev (mk_system _ cl sv up down calls)).
  - destruct (conns sv !! sid) as [c|] eqn:C; [|done]. destruct (arrives _ _ _) eqn:Ar; [|done].
    case_hyp E; [|done]. injection E as <-.
    eapply (sys_inv_up opts args n i (mk_system _ cl sv up down calls) c); try done.
    simpl. rewrite C. by case_goal; simplify_eq.
  - destruct (connections cl !! cid) as [c|] eqn:C; [|done]. destruct (arrives _ _ _) eqn:Ar; [|done].
    case_hyp E; [|done]. injection E as <-.
    eapply (sys_inv_down opts args n i (mk_system _ cl sv up down calls) c); try done.
    simpl. rewrite C. by case_goal; simplify_eq.
Qed.

(** ** The start *)

(** The client after its first connect. *)
Lemma connected_client opts ic oc cl :
  client_run in_filters_ out_filters_ [ce_connect; ce_connected caddr ic oc] (rpc_client_make opts) = Some cl ->
  client_reachable in_filters_ out_filters_ opts cl /\ conn_ cl = Some cid /\
  connections cl = {[cid := mk_cconn _ (rpc_connection_make caddr ic oc) (credentials opts)]} /\
  readers cl = {[rk := mk_reader r_loop true]} /\ works cl = ∅ /\ requests cl = ∅ /\ writes cl = ∅ /\
  next_request cl = 0 /\ session_idx_ cl = 0.
Proof.
  intros R. split; [by eapply client_run_rtc|].
  simpl in R. unfold client_connected in R. case_hyp R; [|done]. simpl in R.
  destruct (gate_enter_open gate_new (proj2 gate_new_spec)) as (g & Eg & _). rewrite Eg in R. by injection R as <-.
Qed.

Lemma sys_inv_start opts args s :
  sys_start in_filters_ out_filters_ cfg sid saddr caddr opts args s -> sys_inv opts args s.
Proof.
  intros (ic & oc & isv & osv & sv0 & Rc & Rs & Ei & Ea & Pc & Ps & Eu & Ed & Ec).
  destruct (connected_client opts ic oc (s_cl s) Rc) as (Rc' & Cn & Cs & Rd & Wk & Rq & Wr & Nx & Sx).
  assert (reachable cfg args (s_sv s)) as Rs' by (eapply rtc_r; [done|by eexists]).
  pose proof (reachable_live cfg args sv0 Rs) as L. simpl in Ea. unfold server_accept in Ea. rewrite Ei in Ea.
  destruct (_ && _) eqn:G; [|done]. rewrite !andb_true_iff, !bool_decide_eq_true in G. destruct G as [[[_ Nc] _] _].
  assert (forall tid d, dispatches (s_sv s) !! tid = Some d -> d_conn d <> sid) as Nd.
  { injection Ea as <-. simpl. intros tid d D E. destruct (li_dispatches _ L tid d D) as [c C]. rewrite E, Nc in C. done. }
  assert (conns (s_sv s) !! sid = Some (mk_sconn _ (rpc_connection_make saddr isv osv) (sem_make 1))) as Cv
    by (injection Ea as <-; apply lookup_insert_eq).
  constructor; try done.
  - constructor; rewrite ?Rd, ?Wr; try done.
    + intros k r id [<- <-]%lookup_singleton_Some. done.
    + by intros k r [<- <-]%lookup_singleton_Some.
  - intros c C. rewrite Cv in C. by injection C as <-.
  - rewrite Cs. by intros c [_ <-]%lookup_singleton_Some.
  - intros _. constructor; rewrite ?Ec, ?Wk, ?Rq, ?Wr, ?Nx, ?Sx; done.
  - intros _ _. exists [], []. rewrite Eu, Ed. split_and!.
    + right. by rewrite Wr.
    + right. split; [|done]. intros tid d D E. by destruct (Nd tid d D).
    + intros c st C St. rewrite Cv in C. injection C as <-. injection Ea as Ea. rewrite <- Ea in St. simpl in St.
      rewrite lookup_insert_eq in St. injection St as <-. simpl. case_goal; [|done].
      exists []. rewrite Ps. split; [done|]. apply frames_of_nil.
    + intros tid d D E. by destruct (Nd tid d D).
    + intros r c. rewrite Rd, Cs. intros [_ <-]%lookup_singleton_Some [_ <-]%lookup_singleton_Some. simpl.
      exists []. rewrite Pc. split; [done|]. apply frames_of_nil.
Qed.

Lemma reachable_sys_inv opts args s :
  sys_reachable in_filters_ out_filters_ cfg sid saddr caddr opts args s -> sys_inv opts args s.
Proof.
  intros (s0 & St & R). apply sys_inv_start in St. revert St.
  induction R as [s|s s1 s2 Sp R IH]; [done|]. intros I. by eapply IH, sys_inv_step.
Qed.
End safety.

(** ** Properties *)

(** C1: calls complete with the answer of the remote procedure.  A client and
    a server run on one connection, in any interleaving, with bytes delivered
    in any pieces and the stream ending at any time, while the server works on
    other connections.  Two contracts are assumed: what the client's outgoing
    filters make of an envelope that is sent is a frame with its session
    ([call_ok], part of [sys_reachable]), and what the handlers and outgoing
    filters of the server make of a request is a frame with the session of the
    request ([replies_ok]).  As long as fewer than 2^16 calls were made, so that
    no session number is used twice, and no write of the server to the connection
    failed ([good]), a call that has completed has failed with an exception, or
    has exactly the result of its own envelope: the client's outgoing filters,
    the handler that the server routes it to between the server's filters, and
    the client's incoming filters. *)
Theorem calls_answered `{Build, GeneratedHeader, Xxhash, Seastar} in_filters_ out_filters_ cfg sid saddr caddr
    opts args s k r :
  replies_ok cfg saddr -> sys_reachable in_filters_ out_filters_ cfg sid saddr caddr opts args s -> good sid s ->
  requests (s_cl s) !! k = Some (q_done r) ->
  (exists ex, r = Failed ex) \/
  exists sess e ctx, r = Ready (Some ctx) /\ s_calls s !! k = Some (sess, e) /\
    remote_call in_filters_ out_filters_ cfg saddr caddr sess e = Some ctx.
Proof.
  intros Ok R G Q. pose proof (reachable_sys_inv _ _ _ _ _ _ Ok opts args s R) as I.
  exact (pv_requests _ _ _ _ _ _ (iv_prov _ _ _ _ _ _ _ _ _ I G) k _ Q).
Qed.

Module SafetyWitness.
Import Demo ServerDemo SystemDemo.

(** Two calls on the way at the same time; the second is served first. *)
Definition y_bytes (k : Z) : list byte := frame (map_header (mutate_session k) y_call).
Definition y_reply (k : Z) : list byte := frame (map_header (mutate_session k) (demo_envelope [Byte.x2a] 200 0)).
Definition y_two : list sys_event :=
  [se_send y_call; se_send y_call; se_client (ce_request 0); se_client (ce_request 1)]
  ++ repeat (se_client (ce_write 1)) 5 ++ repeat (se_client (ce_write 0)) 5
  ++ [se_up 20 (demo_stream (take 20 (y_bytes 2 ++ y_bytes 1)) false)]
  ++ repeat (se_server (ev_session 1)) 4 ++ repeat (se_server (ev_dispatch 0)) 9
  ++ [se_down 17 (demo_stream (y_reply 2) false)]
  ++ repeat (se_client (ce_reader 0)) 3 ++ repeat (se_client (ce_request 1)) 3.

Lemma calls_answered_witness :
  exists sess e ctx, s_calls (y_state y_two) !! 1 = Some (sess, e) /\
    remote_call [] [] demo_config demo_addr demo_addr sess e = Some ctx /\ payload ctx = [Byte.x2a].
Proof.
  destruct (calls_answered [] [] demo_config 1 demo_addr demo_addr y_opts y_args (y_state y_two) 1
    (Ready (Some (received demo_addr (map_header (mutate_session 2) (demo_envelope [Byte.x2a] 200 0))))))
    as [[ex E]|(sess & e & ctx & E & C & R)].
  - exact y_replies_ok.
  - apply (y_reachable y_two 2); vm_refl.
  - split; [vm_decide|]. apply (bool_decide_eq_false_1 (1 ∈ broken_ (s_sv (y_state y_two)))). vm_refl.
  - vm_refl.
  - discriminate E.
  - exists sess, e, ctx. split; [exact C|]. split; [exact R|]. injection E as <-. reflexivity.
Defined.
End SafetyWitness.
