(* ===== verification/SystemLive.v ===== *)
(** * A call completes

    The other half of System.v: a call that can be answered is answered.  The
    halves of one call are lemmas of ClientServe.v (the request is sent, the
    response is delivered) and ServerServe.v (the request is served); here they
    run on the two ends of one connection. *)

From Stdlib Require Import ZArith Lia.
From stdpp Require Import base gmap list numbers strings.
From coqutil Require Import Byte.
From S2P Require Import Prelude Header Seastar Letter Connection RecvContext Wire Streams Filters Router Server ServerInv ServerUnits ServerWrites ServerServe ServerWire Client ClientInv ClientLife ClientWrites ClientProps ClientServe ClientWire System SystemSafety.

(** Pieces of a growing output. *)
Lemma drop_pieces {A} (l0 l1 l2 : list A) :
  l0 `prefix_of` l1 -> l1 `prefix_of` l2 ->
  drop (length l0) l1 ++ drop (length l1) l2 = drop (length l0) l2.
Proof.
  intros [x ->] [y ->]. rewrite drop_app_length, <- app_assoc, drop_app_length.
  by rewrite app_assoc, drop_app_length.
Qed.

Section live.
Context `{Build, GeneratedHeader, Xxhash, Seastar}.
Variable in_filters_ : list (rpc_recv_context -> outcome rpc_recv_context).
Variable out_filters_ : list (rpc_envelope -> outcome rpc_envelope).
Variable cfg : server_config.
Variable sid : Z.
Variables saddr caddr : socket_address.
Implicit Types s : system.

Abbreviation sys_run := (sys_run in_filters_ out_filters_ cfg sid).
Abbreviation sys_step := (sys_step in_filters_ out_filters_ cfg sid).
Abbreviation call_ok := (call_ok out_filters_).

(** ** Runs of one end *)

Lemma client_run_sys evs cl cl' sv up down calls :
  client_inv cl -> single cid rk cl -> forallb local_event evs = true ->
  client_run in_filters_ out_filters_ evs cl = Some cl' ->
  client_out cid cl `prefix_of` client_out cid cl' /\
  sys_run (map se_client evs) (mk_system _ cl sv up down calls) =
    Some (mk_system _ cl' sv (up ++ new_sent cid cl cl') down calls).
Proof.
  revert cl up. induction evs as [|ev evs IH]; intros cl up I Sg Lo R.
  { injection R as <-. rewrite new_sent_same by done. by rewrite app_nil_r. }
  simpl in Lo. apply andb_true_iff in Lo as [Le Lo].
  unfold client_run in R; fold (client_run in_filters_ out_filters_) in R.
  destruct (client_exec in_filters_ out_filters_ ev cl) as [cl1|] eqn:E; [|done].
  assert (session_event ev = true) as Se by (by destruct ev).
  pose proof (client_inv_step _ _ _ _ _ E I) as I1. pose proof (single_step _ _ cid rk ev cl cl1 I Se E Sg) as Sg1.
  destruct (IH cl1 (up ++ new_sent cid cl cl1) I1 Sg1 Lo R) as [P1 R1].
  assert (client_out cid cl `prefix_of` client_out cid cl1) as P0.
  { destruct (le_conn _ (proj2 I1) cid (sg_conn _ _ _ Sg1)) as [c1 C1].
    destruct (client_extends_step in_filters_ out_filters_ cid ev cl cl1 (proj1 I) Se E c1 C1) as (c & C & _ & P).
    unfold client_out. by rewrite C1, C. }
  split; [by etransitivity|]. simpl map. unfold System.sys_run; fold sys_run. simpl sys_exec. rewrite Le, E.
  rewrite R1. do 2 f_equal. rewrite <- app_assoc. f_equal. unfold new_sent. by apply drop_pieces.
Qed.

(** Events of the fibers of the server. *)
Definition fiber_event (ev : event) : bool :=
  match ev with ev_session _ | ev_dispatch _ => true | _ => false end.

Lemma server_run_sys evs cl sv sv' c' up down calls :
  forallb fiber_event evs = true -> run cfg evs sv = Some sv' -> conns sv' !! sid = Some c' ->
  (exists c, conns sv !! sid = Some c) /\ server_out sid sv `prefix_of` server_out sid sv' /\
  sys_run (map se_server evs) (mk_system _ cl sv up down calls) =
    Some (mk_system _ cl sv' up (down ++ new_output sid sv sv') calls).
Proof.
  revert sv down. induction evs as [|ev evs IH]; intros sv down Lo R C'.
  { injection R as <-. split_and!; [eauto|done|]. unfold new_output. by rewrite drop_ge, app_nil_r. }
  simpl in Lo. apply andb_true_iff in Lo as [Le Lo]. unfold run in R; fold (run cfg) in R.
  destruct (exec cfg ev sv) as [sv1|] eqn:E; [|done].
  destruct (IH sv1 (down ++ new_output sid sv sv1) Lo R C') as ([c1 C1] & P1 & R1).
  assert (elsewhere sid ev sv = true) as El by (by destruct ev).
  destruct (extends_step cfg sid ev sv sv1 El E c1 C1) as (c & C & _ & P).
  assert (server_out sid sv `prefix_of` server_out sid sv1) as P0 by (unfold server_out; by rewrite C, C1).
  split_and!; [eauto|by etransitivity|]. simpl map. unfold System.sys_run; fold sys_run. simpl sys_exec.
  rewrite El, E, R1. do 2 f_equal. rewrite <- app_assoc. f_equal. unfold new_output. by apply drop_pieces.
Qed.

(** ** Between two calls *)

(** The network delivers what was written. *)
Definition delivers : Prop :=
  forall i0 bs, exists i, pending i = pending i0 ++ bs /\ finished i = finished i0 /\ eof i = eof i0.

Definition at_rest (c : rpc_connection) : Prop :=
  is_valid c = true /\ quiescent c /\ pending (c_istream c) = [] /\ finished (c_istream c) = false.

Record idle_client (c : client_conn) (cl : client) : Prop := mk_idle_client {
  ic_conn : connections cl !! cid = Some c;
  ic_rest : at_rest (cc_conn c);
  ic_gate : gate_is_closed (dispatch_gate_ cl) = false;
  ic_reader : readers cl !! rk = Some (mk_reader r_loop true);
  ic_slots : rpc_slots_ cl = ∅;
  ic_writes : writes cl = ∅;
  ic_lock : sem_count (serialize_writes_ cl) = 1;
  ic_counter : read_counter_ cl = 0
}.

Record idle_server (c : rpc_server_connection) (sv : server) : Prop := mk_idle_server {
  is_conn : conns sv !! sid = Some c;
  is_rest : at_rest (conn c);
  is_session : sessions sv !! sid = Some s_loop;
  is_gate : gate_is_closed (reply_gate_ sv) = false;
  is_lock : sem_count (serialize_writes c) = 1
}.

(** No call is under way and nothing is on the way. *)
Definition idle s : Prop :=
  (exists c, idle_client c (s_cl s)) /\ (exists c, idle_server c (s_sv s)) /\ s_up s = [] /\ s_down s = [].

Lemma framed_sendable e : framed e -> sendable e.
Proof. intros [W Sz [R _] _ Ck _ _ _]. split; [lia|done]. Qed.

Lemma remote_call_inv sess e ctx :
  remote_call in_filters_ out_filters_ cfg saddr caddr sess e = Some ctx -> exists e1 e2,
    rpc_filter_apply out_filters_ (map_header (mutate_session sess) e) = Ready e1 /\
    answer cfg (received saddr e1) = Some e2 /\
    rpc_filter_apply in_filters_ (received caddr e2) = Ready ctx /\
    compression (ctx_header ctx) = flag_value compression_flags_none.
Proof.
  unfold remote_call. intros A.
  destruct (rpc_filter_apply out_filters_ _) as [e1|ex|] eqn:F1; [|done..]. cbn [ready mbind option_bind] in A.
  destruct (answer cfg _) as [e2|] eqn:An; [|done]. cbn [mbind option_bind] in A.
  destruct (rpc_filter_apply in_filters_ _) as [c|ex|] eqn:F2; [|done..]. cbn [ready mbind option_bind] in A.
  destruct (_ =? _) eqn:C; [|done]. apply Z.eqb_eq in C. injection A as <-. exists e1, e2. by split_and!.
Qed.

(** ** The three parts of a call *)

(** Bytes on the way arrive at the server, or at the client. *)
Lemma deliver_up cl sv bs down calls c :
  delivers -> idle_server c sv -> exists i sv',
    sys_run [se_up (length bs) i] (mk_system _ cl sv bs down calls) = Some (mk_system _ cl sv' [] down calls) /\
    exec cfg (ev_arrive sid i) sv = Some sv' /\ sv' = Server.upd_conn sid (with_istream i) sv /\
    pending i = bs /\ finished i = false /\ eof i = eof (c_istream (conn c)).
Proof.
  intros Dl [C (V & Q & Pe & Fi) St G Lk]. destruct (Dl (c_istream (conn c)) bs) as (i & Pi & Fi' & Ei).
  rewrite Pe in Pi. simpl in Pi. exists i, (Server.upd_conn sid (with_istream i) sv).
  assert (exec cfg (ev_arrive sid i) sv = Some (Server.upd_conn sid (with_istream i) sv)) as E.
  { simpl. rewrite C, Pe, Ei. rewrite !bool_decide_eq_true_2; [done|done|apply prefix_nil]. }
  split_and!; try done; [|congruence]. unfold System.sys_run, sys_exec. rewrite C.
  unfold arrives. rewrite Fi, take_ge, Pe by done. simpl app. rewrite bool_decide_eq_true_2 by done.
  cbn [negb andb]. rewrite E. by rewrite drop_ge.
Qed.

Lemma deliver_down cl sv up bs calls c :
  delivers -> connections cl !! cid = Some c -> at_rest (cc_conn c) -> exists i cl',
    sys_run [se_down (length bs) i] (mk_system _ cl sv up bs calls) = Some (mk_system _ cl' sv up [] calls) /\
    client_exec in_filters_ out_filters_ (ce_arrive cid i) cl = Some cl' /\
    cl' = upd_cconn cid (with_istream i) cl /\
    pending i = bs /\ finished i = false /\ eof i = eof (c_istream (cc_conn c)).
Proof.
  intros Dl C (V & Q & Pe & Fi). destruct (Dl (c_istream (cc_conn c)) bs) as (i & Pi & Fi' & Ei).
  rewrite Pe in Pi. simpl in Pi. exists i, (upd_cconn cid (with_istream i) cl).
  assert (client_exec in_filters_ out_filters_ (ce_arrive cid i) cl = Some (upd_cconn cid (with_istream i) cl)) as E.
  { simpl. rewrite C, Pe, Ei. rewrite !bool_decide_eq_true_2; [done|done|apply prefix_nil]. }
  split_and!; try done; [|congruence]. unfold System.sys_run, sys_exec. rewrite C.
  unfold arrives. rewrite Fi, take_ge, Pe by done. simpl app. rewrite bool_decide_eq_true_2 by done.
  cbn [negb andb]. rewrite E. by rewrite drop_ge.
Qed.

Section call.
Variables (opts : rpc_client_opts) (args : rpc_server_args).
Hypothesis Mc : 0 <= memory_avail_for_client opts < 2 ^ 63.
Hypothesis Ms : 0 <= memory_avail_per_core args < 2 ^ 63.
Hypothesis Hh : healthy.

(** The client sends. *)
Lemma call_sent cl sv e e1 c calls :
  client_reachable in_filters_ out_filters_ opts cl -> single cid rk cl -> idle_client c cl ->
  rpc_filter_apply out_filters_ (map_header (mutate_session (u16 (session_idx_ cl + 1))) e) = Ready e1 ->
  framed e1 -> rpc_envelope_size e1 <= memory_avail_for_client opts ->
  exists evs cl' o calls',
    sys_run (se_send e :: map se_client evs) (mk_system _ cl sv [] [] calls) =
      Some (mk_system _ cl' sv (frame e1) [] calls') /\
    connections cl' !! cid = Some (mk_cconn _ (with_ostream o (cc_conn c)) (cc_tls c)) /\
    requests cl' !! next_request cl = Some q_wait /\
    rpc_slots_ cl' = {[u16 (session_idx_ cl + 1) := next_request cl]} /\
    conn_ cl' = Some cid /\ readers cl' !! rk = Some (mk_reader r_loop true) /\ read_counter_ cl' = 1 /\
    writes cl' = ∅ /\ sem_count (serialize_writes_ cl') = 1 /\ gate_is_closed (dispatch_gate_ cl') = false.
Proof.
  intros R Sg [C (V & Q & Pe & Fi) G Rd Sl Wr Lk Ct] Fo Fr Sz.
  destruct (client_units in_filters_ out_filters_ opts cl Mc R) as [Av _]. rewrite Wr, msum_empty in Av.
  destruct (request_sent in_filters_ out_filters_ opts cl cid c e e1)
    as (cl' & o & Rn & Rq & Ss & Cc & Wo & Ws & _ & Lk' & _ & _ & Cn & Rd' & Ct' & G'); try done.
  { apply Sg. } { by rewrite Sl. } { by apply framed_sendable. } { lia. }
  set (evs := ce_request (next_request cl) :: repeat (ce_write (next_write cl)) 5).
  assert (client_run in_filters_ out_filters_ evs (client_send e cl) = Some cl') as Rn' by exact Rn.
  pose proof (reachable_client_inv _ _ _ _ R) as I.
  assert (client_exec in_filters_ out_filters_ (ce_send e) cl = Some (client_send e cl)) as E0 by done.
  destruct (client_run_sys evs (client_send e cl) cl' sv [] [] (record_call e cl (client_send e cl) calls)) as [_ Sr]; try done.
  { by eapply client_inv_step. } { by eapply (single_step _ _ cid rk (ce_send e)). }
  exists evs, cl', o, (record_call e cl (client_send e cl) calls). split_and!; try done.
  - etransitivity; [exact Sr|]. do 2 f_equal. simpl. unfold new_sent, client_out. rewrite Cc. simpl.
    rewrite (sn_connections _ _ _ (send_cases e cl)), C, Wo. by rewrite drop_app_length.
  - rewrite Ss, Sl. done.
  - by rewrite Rd'.
  - by rewrite Ct', Ct.
  - by rewrite Ws.
Qed.

(** The server serves. *)
Lemma call_served cl sv e1 e2 c calls :
  reachable cfg args sv -> idle_server c sv -> remote_address (conn c) = saddr -> delivers ->
  framed e1 -> answer cfg (received saddr e1) = Some e2 -> framed e2 -> blen (body (letter e1)) <= available sv ->
  exists evs sv' c',
    sys_run evs (mk_system _ cl sv (frame e1) [] calls) = Some (mk_system _ cl sv' [] (frame e2) calls) /\
    (forall e, se_send e ∉ evs) /\ idle_server c' sv' /\ available sv' = available sv.
Proof.
  intros R Id Ra Dl F1 An F2 Av. pose proof Id as [C (V & Q & _ & Fi) St G Lk].
  destruct (deliver_up cl sv (frame e1) [] calls c Dl Id) as (i & sv1 & R1 & E1 & S1 & Pi & Fi1 & Ei).
  destruct (answer_inv cfg _ _ An) as (h & ctx1 & e & _ & Gh & In & Cz & Ap & Ou).
  set (c1 := mk_sconn _ (with_istream i (conn c)) (serialize_writes c)).
  assert (conns sv1 !! sid = Some c1) as C1 by (rewrite S1; simpl; by rewrite lookup_alter_eq, C).
  assert (is_valid (conn c1) = true) as V1 by (unfold is_valid, has_error in *; simpl; by rewrite Ei).
  destruct (request_served cfg args sid c1 e1 h ctx1 e e2 [] sv1)
    as (sv2 & c2 & R2 & C2 & Wo & P2 & V2 & St2 & _ & Av2 & _ & _ & G2 & Q2 & Lk2 & Fi2 & Ei2); try done.
  { eapply rtc_r; [exact R|by eexists]. } { by rewrite S1. } { by rewrite app_nil_r. } { by rewrite S1. }
  { by rewrite S1. }
  { unfold request_id in Gh. simpl in Gh.
    by destruct (received_header_frame (lheader (letter e1))) as (_ & _ & _ & <- & _). }
  { simpl. by rewrite Ra. } { by apply framed_sendable. }
  set (evs := repeat (ev_session sid) 4 ++ repeat (ev_dispatch (next_dispatch sv1)) 9) in *.
  destruct (server_run_sys evs cl sv1 sv2 c2 [] [] calls) as (_ & _ & Sr); [done|done|done|].
  exists ([se_up (length (frame e1)) i] ++ map se_server evs), sv2, c2. split_and!.
  - rewrite sys_run_app, R1, Sr. do 2 f_equal. simpl. unfold new_output, server_out. rewrite C1, C2, Wo.
    by rewrite drop_app_length.
  - intros e'. rewrite elem_of_app, list_elem_of_singleton. intros [?|Hin]; [done|].
    by apply list_elem_of_fmap in Hin as (? & ? & _).
  - constructor; try done. split_and!; try done. by rewrite Fi2.
  - rewrite Av2, S1. done.
Qed.

(** The client receives. *)
Lemma call_received cl sv e2 ctx c w calls :
  client_reachable in_filters_ out_filters_ opts cl -> single cid rk cl ->
  connections cl !! cid = Some c -> at_rest (cc_conn c) -> remote_address (cc_conn c) = caddr -> delivers ->
  framed e2 -> rpc_filter_apply in_filters_ (received caddr e2) = Ready ctx ->
  compression (ctx_header ctx) = flag_value compression_flags_none ->
  requests cl !! w = Some q_wait -> rpc_slots_ cl = {[session (lheader (letter e2)) := w]} ->
  readers cl !! rk = Some (mk_reader r_loop true) -> read_counter_ cl = 1 -> writes cl = ∅ ->
  sem_count (serialize_writes_ cl) = 1 -> gate_is_closed (dispatch_gate_ cl) = false ->
  exists evs cl' c',
    sys_run evs (mk_system _ cl sv [] (frame e2) calls) = Some (mk_system _ cl' sv [] [] calls) /\
    (forall e, se_send e ∉ evs) /\ idle_client c' cl' /\ requests cl' !! w = Some (q_done (Ready (Some ctx))).
Proof.
  intros R Sg C Re Ra Dl F2 In Cz Rq Sl Rd Ct Wr Lk G.
  destruct (deliver_down cl sv [] (frame e2) calls c Dl C Re) as (i & cl1 & R1 & E1 & S1 & Pi & Fi1 & Ei).
  destruct Re as (V & Q & _ & Fi). set (c1 := mk_cconn _ (with_istream i (cc_conn c)) (cc_tls c)).
  assert (connections cl1 !! cid = Some c1) as C1 by (rewrite S1; simpl; by rewrite lookup_alter_eq, C).
  assert (client_reachable in_filters_ out_filters_ opts cl1) as Rc1 by (eapply rtc_r; [exact R|by eexists]).
  assert (is_valid (cc_conn c1) = true) as V1 by (unfold is_valid, has_error in *; simpl; by rewrite Ei).
  assert (conn_ cl1 = Some cid) as Cn by (rewrite S1; apply Sg).
  assert (single cid rk cl1) as Sg1 by (rewrite S1; by apply (single_same cid rk cl)).
  destruct (response_delivered in_filters_ out_filters_ opts cl1 rk cid c1 e2 [] w ctx)
    as (cl2 & i2 & R2 & Rq2 & C2 & P2 & Fi2 & Ei2 & Sl2 & _ & _ & Rd2 & Wr2 & Ct2 & _ & Lk2 & G2); try done.
  { by rewrite S1. } { by rewrite app_nil_r. } { rewrite S1. simpl. lia. }
  { rewrite S1. simpl. rewrite Sl. by apply lookup_singleton_eq. } { by rewrite S1. } { simpl. by rewrite Ra. }
  set (evs := repeat (ce_reader rk) 3 ++ repeat (ce_request w) 3) in *.
  destruct (client_run_sys evs cl1 cl2 sv [] [] calls) as [_ Sr]; [by eapply reachable_client_inv|done|done|done|].
  exists ([se_down (length (frame e2)) i] ++ map se_client evs), cl2, (mk_cconn _ (with_istream i2 (cc_conn c1)) (cc_tls c1)).
  split_and!; try done.
  - rewrite sys_run_app, R1, Sr. do 2 f_equal. unfold new_sent, client_out. rewrite C1, C2. simpl. by rewrite drop_ge.
  - intros e'. rewrite elem_of_app, list_elem_of_singleton. intros [?|Hin]; [done|].
    by apply list_elem_of_fmap in Hin as (? & ? & _).
  - constructor; try done.
    + split_and!; [|done|done|simpl; by rewrite Fi2]. unfold is_valid, has_error in *. simpl in *. by rewrite Ei2.
    + by rewrite G2, S1.
    + rewrite Sl2, S1. simpl. rewrite Sl. apply delete_singleton_eq.
    + by rewrite Wr2, S1.
    + by rewrite Lk2, S1.
    + by rewrite Ct2, S1; simpl; rewrite Ct.
Qed.
End call.
End live.

(** One call, from one idle state to the next, with what is sent in both directions. *)
Lemma call_goes_through `{Build, GeneratedHeader, Xxhash, Seastar} in_filters_ out_filters_ cfg sid saddr caddr
    opts args s e e1 e2 ctx :
  0 <= memory_avail_for_client opts < 2 ^ 63 -> 0 <= memory_avail_per_core args < 2 ^ 63 ->
  healthy -> delivers -> replies_ok cfg saddr -> call_ok out_filters_ e ->
  sys_reachable in_filters_ out_filters_ cfg sid saddr caddr opts args s -> idle sid s ->
  rpc_filter_apply out_filters_ (map_header (mutate_session (u16 (session_idx_ (s_cl s) + 1))) e) = Ready e1 ->
  answer cfg (received saddr e1) = Some e2 ->
  rpc_filter_apply in_filters_ (received caddr e2) = Ready ctx ->
  compression (ctx_header ctx) = flag_value compression_flags_none ->
  rpc_envelope_size e1 <= memory_avail_for_client opts -> blen (body (letter e1)) <= available (s_sv s) ->
  exists evs s', sys_run in_filters_ out_filters_ cfg sid evs s = Some s' /\
    sys_reachable in_filters_ out_filters_ cfg sid saddr caddr opts args s' /\ idle sid s' /\
    available (s_sv s') = available (s_sv s) /\
    requests (s_cl s') !! next_request (s_cl s) = Some (q_done (Ready (Some ctx))).
Proof.
  intros Mc Ms Hh Dl Ro Co R ([c Ic] & [c' Is] & Eu & Ed) Fo An In Cz Fc Fs.
  pose proof (reachable_sys_inv _ _ _ _ _ _ Ro opts args s R) as [Rcl Rsv Sg Pe Cp _ _].
  destruct s as [cl sv up down calls]. simpl in *. subst up down.
  destruct (Co _ _ Fo) as [F1 Se1]. destruct (Ro _ _ F1 An) as [F2 Se2].
  destruct (call_sent in_filters_ out_filters_ cfg sid opts Mc Hh cl sv e e1 c calls Rcl Sg Ic Fo F1 Fc)
    as (evs1 & cl1 & o & calls1 & R1 & Cc & Rq & Sl & _ & Rd & Ct & Wr & Lk & G).
  destruct (call_served in_filters_ out_filters_ cfg sid saddr args Ms Hh cl1 sv e1 e2 c' calls1 Rsv Is
    (Pe _ (is_conn _ _ _ Is)) Dl F1 An F2 Fs) as (evs2 & sv2 & c2 & R2 & N2 & Is2 & Av).
  assert (forall evs s s', (forall e0, se_send e0 ∈ evs -> e0 = e) -> sys_run in_filters_ out_filters_ cfg sid evs s = Some s' ->
    sys_reachable in_filters_ out_filters_ cfg sid saddr caddr opts args s ->
    sys_reachable in_filters_ out_filters_ cfg sid saddr caddr opts args s') as Go.
  { intros evs s s' Ok Rn (s0 & St & Rt). exists s0. split; [done|]. etransitivity; [exact Rt|].
    eapply sys_run_step; [|exact Rn]. intros e0 Hin. by rewrite (Ok e0 Hin). }
  assert (sys_reachable in_filters_ out_filters_ cfg sid saddr caddr opts args (mk_system _ cl1 sv2 [] (frame e2) calls1)) as Rm.
  { eapply (Go evs2); [by intros e0 Hin; destruct (N2 e0)|exact R2|]. eapply Go; [|exact R1|exact R].
    intros e0. rewrite elem_of_cons. intros [[= ->]|Hin]; [done|]. by apply list_elem_of_fmap in Hin as (? & ? & _). }
  pose proof (reachable_sys_inv _ _ _ _ _ _ Ro opts args _ Rm) as [Rcl1 _ Sg1 _ Cp1 _ _]. simpl in Rcl1, Sg1, Cp1.
  destruct (call_received in_filters_ out_filters_ cfg sid caddr opts cl1 sv2 e2 ctx _ (next_request cl) calls1 Rcl1 Sg1 Cc)
    as (evs3 & cl3 & c3 & R3 & N3 & Ic3 & Rq3); try done.
  { apply (ic_rest _ _ Ic). } { by apply (Cp1 _ Cc). }
  { by rewrite Se2, Se1, wrap_u_idemp. }
  exists ((se_send e :: map se_client evs1) ++ evs2 ++ evs3), (mk_system _ cl3 sv2 [] [] calls1).
  split_and!; try done.
  - by rewrite sys_run_app, R1, sys_run_app, R2.
  - eapply (Go evs3); [by intros e0 Hin; destruct (N3 e0)|exact R3|done].
  - split_and!; [by eexists|by eexists|done|done].
Qed.

(** ** Properties *)

(** C2: a call completes.  Between two calls, on a connection that works at
    both ends, a call whose envelope the filters and the handler accept, for
    which both ends have memory, completes: there is an execution in which the
    request is written, served and answered, the caller gets exactly the
    context of the remote procedure call, and the system is between two calls
    again, with the memory of the server given back, so that calls can go on. *)
Theorem call_completes `{Build, GeneratedHeader, Xxhash, Seastar} in_filters_ out_filters_ cfg sid saddr caddr
    opts args s e ctx :
  0 <= memory_avail_for_client opts < 2 ^ 63 -> 0 <= memory_avail_per_core args < 2 ^ 63 ->
  healthy -> delivers -> replies_ok cfg saddr -> call_ok out_filters_ e ->
  sys_reachable in_filters_ out_filters_ cfg sid saddr caddr opts args s -> idle sid s ->
  remote_call in_filters_ out_filters_ cfg saddr caddr (u16 (session_idx_ (s_cl s) + 1)) e = Some ctx ->
  (forall e1, rpc_filter_apply out_filters_ (map_header (mutate_session (u16 (session_idx_ (s_cl s) + 1))) e) = Ready e1 ->
     rpc_envelope_size e1 <= memory_avail_for_client opts /\ blen (body (letter e1)) <= available (s_sv s)) ->
  exists evs s', sys_run in_filters_ out_filters_ cfg sid evs s = Some s' /\
    sys_reachable in_filters_ out_filters_ cfg sid saddr caddr opts args s' /\ idle sid s' /\
    available (s_sv s') = available (s_sv s) /\
    requests (s_cl s') !! next_request (s_cl s) = Some (q_done (Ready (Some ctx))).
Proof.
  intros Mc Ms Hh Dl Ro Co R Id Rc Fit.
  destruct (remote_call_inv _ _ _ _ _ _ _ _ Rc) as (e1 & e2 & Fo & An & In & Cz). destruct (Fit e1 Fo) as [Fc Fs].
  by eapply (call_goes_through in_filters_ out_filters_ cfg sid saddr caddr opts args s e e1 e2 ctx).
Qed.

Module LiveWitness.
Import Demo ServerDemo SystemDemo.

Definition y_ctx : rpc_recv_context :=
  received demo_addr (map_header (mutate_session 1) (demo_envelope [Byte.x2a] 200 0)).
Definition y_cconn : client_conn := mk_cconn _ (demo_conn [] false) false.
Definition y_sconn : rpc_server_connection := mk_sconn _ (demo_conn [] false) 1.

Lemma y_delivers : delivers.
Proof. intros [b f e] bs. by exists (mk_stream (b ++ bs) f e). Qed.

Lemma y_idle : idle 1 y_start.
Proof.
  split_and!; [exists y_cconn|exists y_sconn|done|done].
  - constructor; [vm_refl| |vm_refl..|vm_refl]. split_and!; [vm_refl|unfold quiescent; vm_refl|vm_refl|vm_refl].
  - constructor; [vm_refl| |vm_refl..]. split_and!; [vm_refl|unfold quiescent; vm_refl|vm_refl|vm_refl].
Qed.

Lemma call_completes_witness :
  exists evs s', sys_run [] [] demo_config 1 evs y_start = Some s' /\
    requests (s_cl s') !! 0 = Some (q_done (Ready (Some y_ctx))).
Proof.
  destruct (call_completes [] [] demo_config 1 demo_addr demo_addr y_opts y_args y_start y_call y_ctx)
    as (evs & s' & R & _ & _ & _ & Q).
  - vm_decide.
  - vm_decide.
  - split; eauto.
  - exact y_delivers.
  - exact y_replies_ok.
  - exact y_call_ok.
  - apply (y_reachable [] 0); vm_refl.
  - exact y_idle.
  - vm_refl.
  - intros e1 [= <-]. split; vm_decide.
  - exists evs, s'. split; [exact R|exact Q].
Defined.
End LiveWitness.
