(* ===== verification/SystemTyped.v ===== *)
(** * Typed calls

    The whole path of a call of a generated client method to a generated
    service: the table of the argument is packed, framed, compressed by the
    client, decompressed by the server, routed by its request id to the method,
    and the table of the result comes back the same way.  This file puts the
    filters (Filters), the generated code (Router, Wire) and the two state
    machines (SystemSafety, SystemLive) together. *)

From Stdlib Require Import ZArith Lia.
From stdpp Require Import base gmap list numbers strings.
From coqutil Require Import Byte.
From S2P Require Import Prelude Header Seastar Letter Connection RecvContext Wire Codec Filters Router Server ServerInv ServerUnits ServerWire Client System SystemSafety SystemLive.

(** A body that passes the checks of the receiver. *)
Definition wire_body `{Xxhash} (b : list byte) : Prop :=
  0 < blen b <= max_flatbuffers_size /\ rpc_checksum_payload b (blen b) <> 0.

(** A body that can be sent by a sender with the codec [c], compressed or not. *)
Definition transferable `{Xxhash, Zstd, Lz4} (c : option (codec_type * Z)) (b : list byte) : Prop :=
  wire_body b /\
  match c with
  | Some (t, _) => compressible (compressor_of t) b /\
      forall z, codec_compress (compressor_of t) b = Ready z -> wire_body z
  | None => True
  end.

(** The codec of the sender is one of those of the receiver. *)
Definition understood (c : option (codec_type * Z)) (ts : list codec_type) : Prop :=
  match c with Some (t, _) => t ∈ ts | None => True end.

(** ** One direction *)

Section transfer.
Context `{GeneratedHeader, Xxhash, ZstdSpec, Lz4Spec}.

Lemma compressed_framed t z e : framed e -> wire_body z -> framed (compressed_as t z e).
Proof.
  intros [W S R K Kp M B C] [Rz Kz]. unfold max_flatbuffers_size in *.
  assert (u32 (blen z) = blen z) as Sz by (apply wrap_u_small; unfold fits_u; lia).
  assert (u32 (rpc_checksum_payload z (blen z)) = rpc_checksum_payload z (blen z)) as Kb
    by apply wrap_u_small, checksum_fits.
  constructor; simpl; rewrite ?Sz, ?Kb; try done.
  - apply checksum_rpc_wf. destruct W as (_ & ? & ? & ? & ? & ?). split_and!; try done.
    simpl. destruct t; vm_compute; intuition discriminate.
  - by exists (flag_of t).
Qed.

(** An uncompressed envelope arrives: the sender's filter makes a frame of the
    same session and request id, from which the receiver's filters restore the
    envelope. *)
Lemma transfer c ts e addr :
  understood c ts -> framed e -> compression_ (lheader (letter e)) = flag_value compression_flags_none ->
  transferable c (body (letter e)) ->
  exists e1, rpc_filter_apply (compression_filters c) e = Ready e1 /\ framed e1 /\
    session (lheader (letter e1)) = session (lheader (letter e)) /\
    meta (lheader (letter e1)) = meta (lheader (letter e)) /\
    rpc_filter_apply (decompression_filters ts) (received addr e1) = Ready (received addr e).
Proof.
  intros Un F C [_ T].
  assert (exists e1, e1 = e /\ framed e1 /\ session (lheader (letter e1)) = session (lheader (letter e)) /\
    meta (lheader (letter e1)) = meta (lheader (letter e)) /\
    rpc_filter_apply (decompression_filters ts) (received addr e1) = Ready (received addr e)) as Plain.
  { exists e. split_and!; try done. by apply undone_plain. }
  destruct c as [[t min]|]; cbn [compression_filters rpc_filter_apply].
  2: { destruct Plain as (e1 & -> & P). by exists e. }
  destruct T as [L Z]. rewrite compression_filter_none by done. case_goal.
  { destruct Plain as (e1 & -> & P). by exists e. }
  destruct (codec_roundtrip_lemma _ _ L) as (z & E & U). rewrite E. exists (compressed_as t z e).
  split_and!; [done|by apply compressed_framed, Z|done|done|]. by apply undone_compressed.
Qed.
End transfer.

(** ** The call *)

Section typed.
Context `{Build, GeneratedHeader, Xxhash, Seastar, ZstdSpec, Lz4Spec}.
(** The tables of the argument and of the result. *)
Context {In Out : FlatTable}.

Definition argument (d : @native_type In) : list byte := native_table_as_buffer d.
Definition result (d : @native_type Out) : list byte := native_table_as_buffer d.

(** The method [mid] of the generated service [svc] answers [d] with [d'] under
    [status], and nothing that is registered before takes its request id. *)
Definition routed_to (r : rpc_handle_router) (svc mid : Z) (d : @native_type In) (d' : @native_type Out) (status : Z) : Prop :=
  exists before name ms after (method : rpc_recv_context -> outcome (@rpc_typed_envelope Out)),
    r = before ++ register_service (generated_service name svc ms) [] ++ after /\
    (forall s, s ∈ before -> method_for_request_id s (client_request_id svc mid) = None) /\
    NoDup (map gm_method_id ms) /\ mk_method mid (generated_raw method) ∈ ms /\
    forall c, payload c = argument d -> method c = Ready (mk_typed Out (set_status status rpc_envelope0) (Some d')).

(** A client with the codec [cc] and the filters of [cts] calls a server with
    the codec [sc] and the filters of [sts]. *)
Record served cfg sts sc cts cc svc mid d d' status : Prop := mk_served {
  sd_in : in_filters cfg = decompression_filters sts;
  sd_out : out_filters cfg = compression_filters sc;
  sd_request : understood cc sts /\ transferable cc (argument d);
  sd_reply : understood sc cts /\ transferable sc (result d');
  sd_id : fits_u 32 (client_request_id svc mid) /\ client_request_id svc mid <> 0;
  sd_status : fits_u 32 status /\ status <> 0;
  sd_routed : routed_to (routes cfg) svc mid d d' status
}.

(** A request is framed and uncompressed, and a reply has the same shape. *)
Lemma typed_frame (T : FlatTable) (d : @native_type T) rid sess :
  wire_body (native_table_as_buffer d) -> fits_u 32 rid -> rid <> 0 ->
  exists e, typed_request d rid sess = Ready e /\ framed e /\
    compression_ (lheader (letter e)) = flag_value compression_flags_none /\
    body (letter e) = native_table_as_buffer d /\ meta (lheader (letter e)) = rid /\
    session (lheader (letter e)) = u16 sess.
Proof.
  intros [R K] Fr Nr. eexists. split; [done|]. split.
  - eapply (typed_request_framed d rid sess); [done|done|done|by rewrite wrap_u_small].
  - simpl. by rewrite (wrap_u_small 32 rid) by done.
Qed.

(** The client overwrites the session. *)
Lemma typed_restamp (T : FlatTable) (d : @native_type T) rid sess sess' e :
  typed_request d rid sess' = Ready e -> typed_request d rid sess = Ready (map_header (mutate_session sess) e).
Proof. unfold typed_request, serialize_data. simpl. by intros [= <-]. Qed.

(** What the lambda of the generated handle returns is a framed reply. *)
Lemma generated_reply mid method c (d' : @native_type Out) status :
  method c = Ready (mk_typed Out (set_status status rpc_envelope0) (Some d')) ->
  generated_apply (mk_method mid (generated_raw method)) c = typed_request d' status (ctx_session c).
Proof. intros M. unfold generated_apply, generated_raw. simpl. by rewrite M. Qed.

Lemma typed_answer cfg sts sc cts cc svc mid d d' status e e1 saddr :
  served cfg sts sc cts cc svc mid d d' status ->
  framed e -> compression_ (lheader (letter e)) = flag_value compression_flags_none ->
  body (letter e) = argument d -> meta (lheader (letter e1)) = client_request_id svc mid ->
  rpc_filter_apply (decompression_filters sts) (received saddr e1) = Ready (received saddr e) ->
  answer cfg (received saddr e1) =
    (e3 ← ready (typed_request d' status (session (lheader (letter e))));
     ready (rpc_filter_apply (compression_filters sc) e3)).
Proof.
  intros [Fi Fo _ _ [_ Ni] _ (b & nm & ms & a & method & Rt & Bo & Nd & Hin & An)] F C Bd Mt Dec.
  destruct (received_header_frame (lheader (letter e1))) as (_ & _ & _ & M1 & _).
  destruct (received_header_frame (lheader (letter e))) as (_ & _ & _ & _ & S).
  destruct (received_compression e compression_flags_none saddr C) as [_ Ce]; [done|].
  unfold answer, handled, filtered, routed, request_id. simpl. rewrite M1, Mt, (proj2 (Z.eqb_neq _ _) Ni).
  rewrite Rt, get_handle_app, (get_handle_none b) by done. simpl.
  rewrite (generated_switch_hit svc ms (mk_method mid (generated_raw method))) by done. simpl.
  rewrite Fi, Fo, Dec. simpl in Ce |- *. rewrite Ce. simpl.
  rewrite (generated_reply mid method _ d' status) by by apply An.
  unfold ctx_session. simpl. by rewrite S.
Qed.

(** The call as a function: what is sent, what is answered, what arrives. *)
Lemma typed_remote_call cfg sts sc cts cc svc mid d d' status saddr caddr sess sess' e :
  served cfg sts sc cts cc svc mid d d' status ->
  typed_request d (client_request_id svc mid) sess' = Ready e ->
  exists e1 e2 ctx,
    rpc_filter_apply (compression_filters cc) (map_header (mutate_session sess) e) = Ready e1 /\
    answer cfg (received saddr e1) = Some e2 /\
    rpc_filter_apply (decompression_filters cts) (received caddr e2) = Ready ctx /\
    compression (ctx_header ctx) = flag_value compression_flags_none /\
    payload ctx = result d' /\ RecvContext.status ctx = status /\ ctx_session ctx = u16 sess.
Proof.
  intros Sd T. pose proof Sd as [_ _ [Uc Tc] [Us Ts] [Fi Ni] [Fs Ns] _].
  destruct (typed_frame In d (client_request_id svc mid) sess (proj1 Tc) Fi Ni) as (e0 & T0 & F0 & C0 & B0 & M0 & S0).
  rewrite (typed_restamp In d _ sess sess' e T) in T0. injection T0 as ->.
  destruct (transfer cc sts e0 saddr Uc F0 C0) as (e1 & E1 & F1 & S1 & M1 & D1); [by rewrite B0|].
  destruct (typed_frame Out d' status (session (lheader (letter e0))) (proj1 Ts) Fs Ns) as (e3 & T3 & F3 & C3 & B3 & M3 & S3).
  destruct (transfer sc cts e3 caddr Us F3 C3) as (e2 & E2 & F2 & S2 & M2 & D2); [by rewrite B3|].
  exists e1, e2, (received caddr e3). split; [done|].
  rewrite (typed_answer cfg sts sc cts cc svc mid d d' status e0 e1 saddr) by (done || congruence).
  rewrite T3. cbn [ready mbind option_bind]. rewrite E2. split; [done|]. split; [done|].
  destruct (received_compression e3 compression_flags_none caddr C3) as [R3 Cz]; [done|].
  split; [done|]. rewrite R3. unfold RecvContext.status, ctx_session. simpl. rewrite M3, S3, S0.
  split_and!; [done|done|]. by rewrite wrap_u_idemp.
Qed.

(** The envelope of a generated client method keeps the contract of the calls. *)
Lemma typed_call_ok cfg sts sc cts cc svc mid d d' status sess' e :
  served cfg sts sc cts cc svc mid d d' status ->
  typed_request d (client_request_id svc mid) sess' = Ready e -> call_ok (compression_filters cc) e.
Proof.
  intros [_ _ [Uc Tc] _ [Fi Ni] _ _] T sess e1 E1.
  destruct (typed_frame In d (client_request_id svc mid) sess (proj1 Tc) Fi Ni) as (e0 & T0 & F0 & C0 & B0 & M0 & S0).
  rewrite (typed_restamp In d _ sess sess' e T) in T0. injection T0 as Ee. rewrite Ee in E1.
  destruct (transfer cc sts e0 (mk_addr 0 0) Uc F0 C0) as (e1' & E1' & F1 & S1 & _); [by rewrite B0|].
  rewrite E1 in E1'. injection E1' as <-. split; [done|]. congruence.
Qed.

(** ** Properties *)

(** C3: typed calls, end to end.  A generated client method was called with [d],
    and the server has a generated method for it, which answers [d] with [d']; client
    and server may compress with lz4 or zstd, as long as the other side has the
    filter.  Then, in every execution of the two on a connection in which fewer than
    2^16 calls were made and no write of the server to the connection failed
    ([good]), with other calls on the way at the same time, and with handlers and
    filters that keep frames and sessions ([replies_ok], and [call_ok] for what is
    sent), the call completes only with an exception or with the bytes of [d'] and
    the status of the method. *)
Theorem typed_call_answered cfg sts sc cts cc svc mid d d' status sid saddr caddr opts args s k sess sess' e r :
  served cfg sts sc cts cc svc mid d d' status ->
  typed_request d (client_request_id svc mid) sess' = Ready e ->
  replies_ok cfg saddr ->
  sys_reachable (decompression_filters cts) (compression_filters cc) cfg sid saddr caddr opts args s -> good sid s ->
  s_calls s !! k = Some (sess, e) -> requests (s_cl s) !! k = Some (q_done r) ->
  (exists ex, r = Failed ex) \/
  exists ctx, r = Ready (Some ctx) /\ payload ctx = result d' /\ RecvContext.status ctx = status.
Proof.
  intros Sd T Ok R G Ck Q. pose proof (reachable_sys_inv _ _ _ _ _ _ Ok opts args s R) as I.
  destruct (pv_requests _ _ _ _ _ _ (iv_prov _ _ _ _ _ _ _ _ _ I G) k _ Q)
    as [[ex ->]|(sess0 & e0 & ctx & -> & Ck0 & Rc)]; [left; by exists ex|]. right.
  rewrite Ck in Ck0. injection Ck0 as <- <-.
  destruct (remote_call_inv _ _ _ _ _ _ _ _ Rc) as (e1 & e2 & Fo & An & In' & _).
  destruct (typed_remote_call _ _ _ _ _ _ _ _ _ _ saddr caddr sess sess' e Sd T)
    as (e1' & e2' & ctx' & Fo' & An' & In2 & _ & P & St & _).
  rewrite Fo in Fo'. injection Fo' as <-. rewrite An in An'. injection An' as <-.
  rewrite In' in In2. injection In2 as <-. by exists ctx.
Qed.

(** C4: a typed call completes.  Between two calls, on a connection that works at
    both ends and with enough memory, the call of a generated client method with
    [d] has an execution in which its caller gets the bytes of [d'] and the
    status of the method, after which the next call can be made. *)
Theorem typed_call_completes cfg sts sc cts cc svc mid d d' status sid saddr caddr opts args s sess' e :
  served cfg sts sc cts cc svc mid d d' status ->
  typed_request d (client_request_id svc mid) sess' = Ready e ->
  0 <= memory_avail_for_client opts < 2 ^ 63 -> 0 <= memory_avail_per_core args < 2 ^ 63 ->
  healthy -> delivers -> replies_ok cfg saddr ->
  sys_reachable (decompression_filters cts) (compression_filters cc) cfg sid saddr caddr opts args s -> idle sid s ->
  (forall e1, rpc_filter_apply (compression_filters cc)
       (map_header (mutate_session (u16 (session_idx_ (s_cl s) + 1))) e) = Ready e1 ->
     rpc_envelope_size e1 <= memory_avail_for_client opts /\ blen (body (letter e1)) <= available (s_sv s)) ->
  exists evs s' ctx,
    sys_run (decompression_filters cts) (compression_filters cc) cfg sid evs s = Some s' /\
    sys_reachable (decompression_filters cts) (compression_filters cc) cfg sid saddr caddr opts args s' /\ idle sid s' /\
    requests (s_cl s') !! next_request (s_cl s) = Some (q_done (Ready (Some ctx))) /\
    payload ctx = result d' /\ RecvContext.status ctx = status.
Proof.
  intros Sd T Mc Ms Hh Dl Ro R Id Fit. pose proof (typed_call_ok _ _ _ _ _ _ _ _ _ _ _ _ Sd T) as Co.
  destruct (typed_remote_call _ _ _ _ _ _ _ _ _ _ saddr caddr (u16 (session_idx_ (s_cl s) + 1)) sess' e Sd T)
    as (e1 & e2 & ctx & Fo & An & In' & Cz & P & St & _).
  destruct (Fit e1 Fo) as [Fc Fs].
  destruct (call_goes_through _ _ cfg sid saddr caddr opts args s e e1 e2 ctx Mc Ms Hh Dl Ro Co R Id Fo An In' Cz Fc Fs)
    as (evs & s' & Rn & R' & Id' & _ & Q).
  by exists evs, s', ctx.
Qed.
End typed.

(** ** Witnesses *)

(** A client that compresses with zstd calls a service that decompresses zstd
    and answers without compression, as a load generator and the demo server. *)
Module TypedWitness.
Import Demo ServerDemo SystemDemo CodecDemo.

Definition t_method (c : rpc_recv_context) : outcome (@rpc_typed_envelope demo_table) :=
  Ready (mk_typed demo_table (set_status 200 rpc_envelope0) (Some [Byte.x2b; Byte.x2c])).
Definition t_config : server_config :=
  mk_config [generated_service "Storage" 9 [mk_method 4 (generated_raw t_method); mk_method 5 (generated_raw t_method)]]
    (decompression_filters [codec_zstd]) (compression_filters None).
Definition t_in := decompression_filters [codec_zstd].
Definition t_out := compression_filters (Some (codec_zstd, 0)).
Definition t_call : rpc_envelope := demo_envelope [Byte.x2a] (client_request_id 9 5) 0.
Definition t_sent : rpc_envelope := compressed_as codec_zstd [Byte.x2a] (map_header (mutate_session 1) t_call).
Definition t_reply : rpc_envelope := demo_envelope [Byte.x2b; Byte.x2c] 200 1.

Definition t_server (evs : list event) : option server := run t_config evs (rpc_server_make y_args).
Definition t_client : option client :=
  client_run t_in t_out [ce_connect; ce_connected demo_addr (demo_stream [] false) ([] : @ostream demo_seastar)]
    (rpc_client_make y_opts).
Definition t_start : system :=
  mk_system _ (default (rpc_client_make y_opts) t_client)
    (default (rpc_server_make y_args) (t_server [ev_start; demo_accept [] false])) [] [] ∅.
Definition t_state (evs : list sys_event) : system := default t_start (sys_run t_in t_out t_config 1 evs t_start).

(** The call, from the client to its caller. *)
Definition t_events : list sys_event :=
  [se_send t_call; se_client (ce_request 0)] ++ repeat (se_client (ce_write 0)) 5
  ++ [se_up 17 (demo_stream (frame t_sent) false)]
  ++ repeat (se_server (ev_session 1)) 4 ++ repeat (se_server (ev_dispatch 0)) 9
  ++ [se_down 18 (demo_stream (frame t_reply) false)]
  ++ repeat (se_client (ce_reader 0)) 3 ++ repeat (se_client (ce_request 0)) 3.

Lemma t_served : served (In := demo_table) (Out := demo_table) t_config [codec_zstd] None [codec_zstd] (Some (codec_zstd, 0))
  9 5 [Byte.x2a] [Byte.x2b; Byte.x2c] 200.
Proof.
  constructor; [done|done|..].
  - split; [by left|]. split; [split; vm_decide|]. split; [vm_decide|]. intros z [= <-]. split; vm_decide.
  - split; [done|]. split; [split; vm_decide|done].
  - split; vm_decide.
  - split; vm_decide.
  - exists [], "Storage", [mk_method 4 (generated_raw t_method); mk_method 5 (generated_raw t_method)], [], t_method.
    split_and!; [done| |by apply (bool_decide_unpack _)|right; by left|done]. intros s Hin. by apply elem_of_nil in Hin.
Qed.
Lemma t_same_session ctx ctx1 : rpc_filter_apply t_in ctx = Ready ctx1 -> ctx_session ctx1 = ctx_session ctx.
Proof.
  unfold t_in. cbn [decompression_filters map rpc_filter_apply decompression_filter]. unfold zstd_decompression_filter.
  case_goal; [|by intros [= <-]]. intros E. apply outcome_bind_Ready in E as (c & E & [= <-]).
  by apply outcome_bind_Ready in E as (b & _ & [= <-]).
Qed.

Lemma t_replies_ok : replies_ok t_config demo_addr.
Proof.
  apply (generated_replies_ok t_config demo_addr
    [("Storage", 9, [mk_method 4 (generated_raw t_method); mk_method 5 (generated_raw t_method)])]); [done|exact t_same_session|..].
  - intros n i ms m e1 ctx1 e [= -> -> ->]%list_elem_of_singleton Hm _ _ E.
    assert (e = demo_envelope [Byte.x2b; Byte.x2c] 200 0) as ->.
    { apply elem_of_cons in Hm as [->|Hm]; [|apply list_elem_of_singleton in Hm as ->]; by injection E as <-. }
    apply WireWitness.w_framed; vm_refl.
  - by intros e e2 F [= <-].
Qed.

Lemma t_last evs ev sv0 :
  ran (run t_config (evs ++ [ev]) sv0) = true ->
  exec t_config ev (default sv0 (run t_config evs sv0)) = Some (default sv0 (run t_config (evs ++ [ev]) sv0)).
Proof.
  rewrite run_app. destruct (run t_config evs sv0) as [sv|]; [|done]. simpl. by destruct (exec t_config ev sv).
Qed.

Lemma t_started : sys_start t_in t_out t_config 1 demo_addr demo_addr y_opts y_args t_start.
Proof.
  exists (demo_stream [] false), ([] : @ostream demo_seastar), (demo_stream [] false), ([] : @ostream demo_seastar),
    (default (rpc_server_make y_args) (t_server [ev_start])).
  unfold t_start, t_client, t_server. cbn [s_cl s_sv s_up s_down s_calls].
  split; [apply ran_default; vm_refl|]. split; [apply (run_rtc t_config [ev_start]), ran_default; vm_refl|].
  split; [vm_refl|]. split; [|repeat split]. apply (t_last [ev_start] (demo_accept [] false)). vm_refl.
Qed.

Lemma t_reachable :
  sys_reachable t_in t_out t_config 1 demo_addr demo_addr y_opts y_args (t_state t_events).
Proof.
  exists t_start. split; [apply t_started|]. unfold t_state. apply (sys_run_step _ _ _ _ t_events).
  2: { apply ran_default. vm_refl. }
  intros e Hin. assert (e ∈ y_sends t_events) as Hs by (apply list_elem_of_omap; by exists (se_send e)).
  assert (y_sends t_events = [t_call]) as Es by done. rewrite Es in Hs. apply list_elem_of_singleton in Hs as ->.
  by eapply (typed_call_ok _ _ _ _ _ _ _ _ _ _ 0); [exact t_served|].
Qed.

Lemma typed_call_answered_witness :
  requests (s_cl (t_state t_events)) !! 0 = Some (q_done (Ready (Some (received demo_addr t_reply)))) /\
  payload (received demo_addr t_reply) = [Byte.x2b; Byte.x2c].
Proof.
  destruct (typed_call_answered (In := demo_table) (Out := demo_table) t_config [codec_zstd] None [codec_zstd]
    (Some (codec_zstd, 0)) 9 5 [Byte.x2a] [Byte.x2b; Byte.x2c] 200 1 demo_addr demo_addr y_opts y_args (t_state t_events)
    0 1 0 t_call (Ready (Some (received demo_addr t_reply)))) as [[ex E]|(ctx & E & P & _)].
  - exact t_served.
  - reflexivity.
  - exact t_replies_ok.
  - exact t_reachable.
  - split; [vm_decide|]. apply (bool_decide_eq_false_1 (1 ∈ broken_ (s_sv (t_state t_events)))). vm_refl.
  - vm_refl.
  - vm_refl.
  - discriminate E.
  - split; [vm_refl|]. injection E as <-. exact P.
Defined.

Lemma t_idle : idle 1 t_start.
Proof.
  split_and!; [exists LiveWitness.y_cconn|exists LiveWitness.y_sconn|done|done].
  - constructor; [vm_refl| |vm_refl..|vm_refl]. split_and!; [vm_refl|unfold quiescent; vm_refl|vm_refl|vm_refl].
  - constructor; [vm_refl| |vm_refl..]. split_and!; [vm_refl|unfold quiescent; vm_refl|vm_refl|vm_refl].
Qed.

Lemma typed_call_completes_witness :
  exists evs s' ctx, sys_run t_in t_out t_config 1 evs t_start = Some s' /\
    requests (s_cl s') !! 0 = Some (q_done (Ready (Some ctx))) /\ payload ctx = [Byte.x2b; Byte.x2c].
Proof.
  destruct (typed_call_completes (In := demo_table) (Out := demo_table) t_config [codec_zstd] None [codec_zstd]
    (Some (codec_zstd, 0)) 9 5 [Byte.x2a] [Byte.x2b; Byte.x2c] 200 1 demo_addr demo_addr y_opts y_args t_start 0 t_call)
    as (evs & s' & ctx & R & _ & _ & Q & P & _).
  - exact t_served.
  - reflexivity.
  - vm_decide.
  - vm_decide.
  - split; eauto.
  - exact LiveWitness.y_delivers.
  - exact t_replies_ok.
  - exists t_start. split; [exact t_started|reflexivity].
  - exact t_idle.
  - intros e1 [= <-]. split; vm_decide.
  - exists evs, s', ctx. split; [exact R|]. split; [exact Q|exact P].
Defined.
End TypedWitness.
