(* ===== verification/Reconnect.v ===== *)
(** * The reconnecting client

    src/src/include/smf/reconnect_client.h: the backoff and the background
    retries.  [reconnect_client<T>] is a template over any client: what it uses
    of [T] are [is_conn_valid] and the outcome of [reconnect], which here are
    decided by the environment at every step. *)

From Stdlib Require Import ZArith Lia.
From stdpp Require Import base gmap list numbers strings.
From S2P Require Import Prelude Seastar.

(** [enum class reconnect_backoff : uint16_t]. *)
Inductive reconnect_backoff :=
| none | wait_1_sec | wait_3_sec | wait_5_sec | wait_10_sec | wait_20_sec | wait_30_sec | wait_60_sec
| wait_300_sec | wait_600_sec | wait_1800_sec.
#[global] Instance reconnect_backoff_eq_dec : EqDecision reconnect_backoff.
Proof. solve_decision. Defined.

(** The underlying values. *)
Definition backoff_value (b : reconnect_backoff) : Z :=
  match b with
  | none => 0 | wait_1_sec => 1 | wait_3_sec => 3 | wait_5_sec => 5 | wait_10_sec => 10 | wait_20_sec => 20
  | wait_30_sec => 30 | wait_60_sec => 60 | wait_300_sec => 300 | wait_600_sec => 600 | wait_1800_sec => 1800
  end.

(** The clamp table. *)
Definition clamp_table : list reconnect_backoff :=
  [none; wait_1_sec; wait_3_sec; wait_5_sec; wait_10_sec; wait_20_sec; wait_30_sec; wait_60_sec;
   wait_300_sec; wait_600_sec; wait_1800_sec].

(** The loop over the table: the first entry that is not below the value. *)
Fixpoint clamp (b : Z) (arr : list reconnect_backoff) : reconnect_backoff :=
  match arr with
  | [] => wait_1800_sec
  | x :: arr => if b <=? backoff_value x then x else clamp b arr
  end.

(** [operator++]; [as_num + 1] is converted to [uint16_t]. *)
Definition next_backoff (b : reconnect_backoff) : reconnect_backoff :=
  clamp (u16 (backoff_value b + 1)) clamp_table.

(** Where a call of [connect] is: inside [client_->reconnect()], where it holds
    [entries] entries of the gate (its own, and that of the sleep it was started
    by), or asleep for [ms] milliseconds before the next attempt. *)
Inductive retry_stage :=
| reconnecting (entries : Z)
| sleeping (ms : Z).

(** [class reconnect_client]: [valid] is what [client_->is_conn_valid()] says. *)
Record reconnect_client `{Seastar} := mk_reconnect_client {
  valid : bool;
  bo_ : reconnect_backoff;
  reconnect_gate_ : gate;
  retries : gmap Z retry_stage;
  next_retry : Z
}.

Section reconnect.
Context `{Seastar}.
Implicit Types rc : reconnect_client.

Definition reconnect_client_make : reconnect_client := mk_reconnect_client _ false none gate_new ∅ 0.

Definition set_valid (b : bool) rc : reconnect_client :=
  mk_reconnect_client _ b (bo_ rc) (reconnect_gate_ rc) (retries rc) (next_retry rc).
Definition set_backoff (b : reconnect_backoff) rc : reconnect_client :=
  mk_reconnect_client _ (valid rc) b (reconnect_gate_ rc) (retries rc) (next_retry rc).
Definition set_gate (g : gate) rc : reconnect_client :=
  mk_reconnect_client _ (valid rc) (bo_ rc) g (retries rc) (next_retry rc).
Definition add_retry (st : retry_stage) rc : reconnect_client :=
  mk_reconnect_client _ (valid rc) (bo_ rc) (reconnect_gate_ rc) (<[next_retry rc := st]> (retries rc))
    (next_retry rc + 1).
Definition end_retry (k : Z) rc : reconnect_client :=
  mk_reconnect_client _ (valid rc) (bo_ rc) (reconnect_gate_ rc) (delete k (retries rc)) (next_retry rc).

Fixpoint leave (n : nat) (g : gate) : gate := match n with O => g | S n => gate_leave (leave n g) end.

(** [connect] up to its suspension, called from outside ([held] = 0) or after a
    sleep, whose entry of the gate it then holds ([held] = 1). *)
Definition connect (held : Z) rc : option reconnect_client :=
  if valid rc || gate_is_closed (reconnect_gate_ rc) then
    Some (set_gate (leave (Z.to_nat held) (reconnect_gate_ rc)) rc)
  else
    match gate_enter (reconnect_gate_ rc) with
    | Ready g => Some (add_retry (reconnecting (held + 1)) (set_gate g rc))
    | _ => None
    end.

(** [client_->reconnect()] succeeded. *)
Definition reconnect_done (k : Z) rc : option reconnect_client :=
  match retries rc !! k with
  | Some (reconnecting n) =>
      Some (set_gate (leave (Z.to_nat n) (reconnect_gate_ rc)) (set_backoff none (set_valid true (end_retry k rc))))
  | _ => None
  end.

(** [sleep(secs)] with the jitter of [rand_.next()]. *)
Definition sleep_ms (rand : Z) (b : reconnect_backoff) : Z := rand mod 100 + 1000 * backoff_value b.

(** It failed: the next attempt sleeps in the background, inside the gate; when
    the gate is closed [with_gate] throws before the backoff is increased. *)
Definition reconnect_failed (k rand : Z) rc : option reconnect_client :=
  match retries rc !! k with
  | Some (reconnecting n) =>
      let rc := end_retry k rc in
      match gate_enter (reconnect_gate_ rc) with
      | Ready g =>
          let rc := set_backoff (next_backoff (bo_ rc)) (set_gate g rc) in
          let rc := add_retry (sleeping (sleep_ms rand (bo_ rc))) rc in
          Some (set_gate (leave (Z.to_nat n) (reconnect_gate_ rc)) rc)
      | Failed _ => Some (set_gate (leave (Z.to_nat n) (reconnect_gate_ rc)) rc)
      | Undefined => None
      end
  | _ => None
  end.

(** The sleep is over: [connect] is called again. *)
Definition wake (k : Z) rc : option reconnect_client :=
  match retries rc !! k with
  | Some (sleeping _) => connect 1 (end_retry k rc)
  | _ => None
  end.

(** [stop]: the gate is closed; closing it twice is undefined. *)
Definition stop rc : option reconnect_client :=
  if gate_is_closed (reconnect_gate_ rc) then None
  else Some (set_gate (gate_close (reconnect_gate_ rc)) rc).

Inductive reconnect_event :=
| re_connect
| re_done (k : Z)
| re_failed (k rand : Z)
| re_wake (k : Z)
| re_validity (b : bool)                 (* the connection is lost, or made by someone else *)
| re_stop.

Definition reconnect_exec (ev : reconnect_event) rc : option reconnect_client :=
  match ev with
  | re_connect => connect 0 rc
  | re_done k => reconnect_done k rc
  | re_failed k rand => reconnect_failed k rand rc
  | re_wake k => wake k rc
  | re_validity b => Some (set_valid b rc)
  | re_stop => stop rc
  end.

Definition reconnect_step rc rc' : Prop := exists ev, reconnect_exec ev rc = Some rc'.
Definition reconnect_reachable rc : Prop := rtc reconnect_step reconnect_client_make rc.

(** ** The backoff *)

Definition rank (b : reconnect_backoff) : nat :=
  match b with
  | none => 0 | wait_1_sec => 1 | wait_3_sec => 2 | wait_5_sec => 3 | wait_10_sec => 4 | wait_20_sec => 5
  | wait_30_sec => 6 | wait_60_sec => 7 | wait_300_sec => 8 | wait_600_sec => 9 | wait_1800_sec => 10
  end%nat.

Lemma next_backoff_rank b : rank (next_backoff b) = Nat.min 10 (S (rank b)).
Proof. by destruct b. Qed.

Lemma rank_inj a b : rank a = rank b -> a = b.
Proof. by destruct a, b. Qed.

Lemma backoff_value_mono a b : (rank a < rank b)%nat -> backoff_value a < backoff_value b.
Proof. destruct a, b; simpl; lia. Qed.

Lemma iter_backoff_rank n b : rank (Nat.iter n next_backoff b) = Nat.min 10 (n + rank b).
Proof. induction n as [|n IH]; [by destruct b|]. rewrite Nat.iter_succ, next_backoff_rank, IH. lia. Qed.

Lemma sleep_ms_bounds rand b : 1000 <= sleep_ms rand (next_backoff b) < 1800100.
Proof.
  assert (1 <= backoff_value (next_backoff b) <= 1800) by (destruct b; vm_compute; split; congruence).
  unfold sleep_ms. pose proof (Z.mod_pos_bound rand 100). lia.
Qed.

(** The backoff.  [++] always gives one of the values of the enumeration,
    the smallest one above the current value; it stays at 1800 seconds once
    there, and ten increments lead there from any value, so that every delay is
    at most 1800 seconds and a jitter below 100 milliseconds. *)
Theorem backoff_escalates b rand n :
  (b <> wait_1800_sec -> backoff_value b < backoff_value (next_backoff b) /\
     forall c, backoff_value b < backoff_value c -> backoff_value (next_backoff b) <= backoff_value c) /\
  next_backoff wait_1800_sec = wait_1800_sec /\
  ((10 <= n)%nat -> Nat.iter n next_backoff b = wait_1800_sec) /\
  1000 <= sleep_ms rand (next_backoff b) < 1800100.
Proof.
  split_and!.
  - intros N. split; [destruct b; (done || vm_compute; reflexivity)|].
    intros c. destruct b; try done; destruct c; vm_compute; intros; (done || congruence).
  - done.
  - intros L. apply rank_inj. rewrite iter_backoff_rank. change (rank wait_1800_sec) with 10%nat. lia.
  - by apply sleep_ms_bounds.
  - by apply sleep_ms_bounds.
Qed.

(** ** The retries *)

Definition entries_held (st : retry_stage) : Z := match st with reconnecting n => n | sleeping _ => 1 end.
Definition stage_ok (st : retry_stage) : Prop :=
  match st with reconnecting n => 1 <= n <= 2 | sleeping ms => 1000 <= ms < 1800100 end.

Record retry_inv rc : Prop := mk_retry_inv {
  ri_gate : gate_count (reconnect_gate_ rc) = msum entries_held (retries rc);
  ri_stages : map_Forall (fun _ => stage_ok) (retries rc);
  ri_fresh : forall k, next_retry rc <= k -> retries rc !! k = None
}.

Lemma leave_count n g : gate_count (leave n g) = gate_count g - Z.of_nat n /\
  gate_is_closed (leave n g) = gate_is_closed g.
Proof.
  induction n as [|n [IH1 IH2]]; [simpl; split; [lia|done]|]. cbn [leave].
  destruct (gate_leave_spec (leave n g)) as [-> ->]. rewrite IH1, IH2. split; [lia|done].
Qed.

Lemma gate_enter_count g g' : gate_enter g = Ready g' ->
  gate_count g' = gate_count g + 1 /\ gate_is_closed g = false /\ gate_is_closed g' = false.
Proof.
  intros E. destruct (gate_is_closed g) eqn:C; [by rewrite gate_enter_closed in E|].
  destruct (gate_enter_open g C) as (g1 & E1 & ? & ?). rewrite E1 in E. by simplify_eq.
Qed.

(** A call of [connect] that holds [held] entries besides those of the retries. *)
Lemma connect_inv held rc rc' :
  0 <= held <= 1 -> gate_count (reconnect_gate_ rc) = msum entries_held (retries rc) + held ->
  map_Forall (fun _ => stage_ok) (retries rc) -> (forall k, next_retry rc <= k -> retries rc !! k = None) ->
  connect held rc = Some rc' -> retry_inv rc'.
Proof.
  intros Hd G S F. unfold connect. case_goal.
  - intros [= <-]. destruct (leave_count (Z.to_nat held) (reconnect_gate_ rc)) as [L _].
    constructor; simpl; [rewrite L, G; lia|done|done].
  - destruct (gate_enter (reconnect_gate_ rc)) as [g| |] eqn:E; try done. intros [= <-].
    apply gate_enter_count in E as (E & _ & _).
    assert (retries rc !! next_retry rc = None) as N by (apply F; lia).
    constructor; simpl.
    + rewrite msum_insert by done. simpl. lia.
    + apply map_Forall_insert_2; [simpl; lia|done].
    + intros k Hk. rewrite lookup_insert_ne by lia. apply F. lia.
Qed.

Lemma retry_inv_step ev rc rc' : retry_inv rc -> reconnect_exec ev rc = Some rc' -> retry_inv rc'.
Proof.
  intros [G S F] E. destruct ev as [|k|k rand|k|b|]; simpl in E.
  - eapply (connect_inv 0); [lia|by rewrite Z.add_0_r|done|done|done].
  - unfold reconnect_done in E. destruct (retries rc !! k) as [[n|]|] eqn:K; simplify_eq.
    pose proof (S _ _ K) as Hn. simpl in Hn. pose proof (msum_delete entries_held _ _ _ K) as D. simpl in D.
    destruct (leave_count (Z.to_nat n) (reconnect_gate_ rc)) as [L _].
    constructor; simpl; [rewrite L; lia|by apply map_Forall_delete|].
    intros j Hj. rewrite lookup_delete_None. right. by apply F.
  - unfold reconnect_failed in E. destruct (retries rc !! k) as [[n|]|] eqn:K; try done.
    pose proof (S _ _ K) as Hn. simpl in Hn. pose proof (msum_delete entries_held _ _ _ K) as D. simpl in D.
    simpl in E. destruct (gate_enter (reconnect_gate_ rc)) as [g| |] eqn:Eg; simplify_eq.
    + apply gate_enter_count in Eg as (Eg & _ & _). destruct (leave_count (Z.to_nat n) g) as [L _].
      assert (delete k (retries rc) !! next_retry rc = None) as N.
      { rewrite lookup_delete_None. right. apply F. lia. }
      constructor; simpl.
      * rewrite L, msum_insert by done. simpl. lia.
      * apply map_Forall_insert_2; [apply sleep_ms_bounds|by apply map_Forall_delete].
      * intros j Hj. rewrite lookup_insert_ne, lookup_delete_None by lia. right. apply F. lia.
    + destruct (leave_count (Z.to_nat n) (reconnect_gate_ rc)) as [L _].
      constructor; simpl; [rewrite L; lia|by apply map_Forall_delete|].
      intros j Hj. rewrite lookup_delete_None. right. by apply F.
  - unfold wake in E. destruct (retries rc !! k) as [[|ms]|] eqn:K; try done.
    pose proof (msum_delete entries_held _ _ _ K) as D. simpl in D.
    eapply (connect_inv 1); [lia| | | |exact E]; simpl; [lia|by apply map_Forall_delete|].
    intros j Hj. rewrite lookup_delete_None. right. by apply F.
  - simplify_eq. by constructor.
  - unfold stop in E. case_hyp E; simplify_eq. destruct (gate_close_spec (reconnect_gate_ rc)) as [C _].
    constructor; simpl; [by rewrite C|done|done].
Qed.

Lemma reachable_retry_inv rc : reconnect_reachable rc -> retry_inv rc.
Proof.
  intros R. assert (retry_inv reconnect_client_make) as I.
  { constructor; simpl; [rewrite msum_empty; apply gate_new_spec|apply map_Forall_empty|done]. }
  revert I. unfold reconnect_reachable in R. induction R as [|a b c [ev E] _ IH]; intros I; [done|].
  apply IH. by eapply retry_inv_step.
Qed.

(** A retry that ends is followed by another one, unless the connection is valid
    or the client was stopped. *)
Lemma retry_step_persists ev rc rc' :
  reconnect_exec ev rc = Some rc' -> retries rc <> ∅ ->
  retries rc' <> ∅ \/ valid rc' = true \/ gate_is_closed (reconnect_gate_ rc') = true.
Proof.
  intros E N. assert (forall held c c', connect held c = Some c' ->
    (retries c' <> ∅ /\ gate_is_closed (reconnect_gate_ c') = false) \/
    (retries c' = retries c /\ (valid c' = true \/ gate_is_closed (reconnect_gate_ c') = true))) as Cn.
  { intros held c c'. unfold connect. case_goal.
    - intros [= <-]. right. split; [done|]. simpl. rewrite (proj2 (leave_count _ _)). by apply orb_true_iff.
    - destruct (gate_enter (reconnect_gate_ c)) as [g| |] eqn:Eg; try done. intros [= <-]. left. simpl.
      apply gate_enter_count in Eg as (_ & _ & ?). split; [apply insert_non_empty|done]. }
  destruct ev as [|k|k rand|k|b|]; simpl in E.
  - destruct (Cn _ _ _ E) as [[? _]|[-> ?]]; [by left|by right].
  - unfold reconnect_done in E. destruct (retries rc !! k) as [[n|]|]; simplify_eq. right. by left.
  - unfold reconnect_failed in E. destruct (retries rc !! k) as [[n|]|]; try done. simpl in E.
    destruct (gate_enter (reconnect_gate_ rc)) as [g| |] eqn:Eg; simplify_eq; simpl.
    + left. apply insert_non_empty.
    + right. right. rewrite (proj2 (leave_count _ _)). destruct (gate_is_closed (reconnect_gate_ rc)) eqn:C; [done|].
      destruct (gate_enter_open _ C) as (? & E1 & _). congruence.
  - unfold wake in E. destruct (retries rc !! k) as [[|ms]|]; try done.
    destruct (Cn _ _ _ E) as [[? _]|[_ ?]]; [by left|by right].
  - simplify_eq. by left.
  - unfold stop in E. case_hyp E; simplify_eq. by left.
Qed.

(** C30: retrying goes on.  In every reachable state the gate counts exactly the
    entries of the calls in progress, so that [stop] waits for all of them and
    for nothing else, and every sleep lasts between 1 second and 1800 seconds
    and 100 milliseconds; and whatever happens next, a retry in progress is
    followed by another one until the connection is valid or the client is
    stopped. *)
Theorem retry_goes_on rc ev rc' :
  reconnect_reachable rc -> reconnect_exec ev rc = Some rc' ->
  gate_count (reconnect_gate_ rc) = msum entries_held (retries rc) /\
  (forall k ms, retries rc !! k = Some (sleeping ms) -> 1000 <= ms < 1800100) /\
  (retries rc <> ∅ -> retries rc' <> ∅ \/ valid rc' = true \/ gate_is_closed (reconnect_gate_ rc') = true).
Proof.
  intros R E. destruct (reachable_retry_inv rc R) as [G S F]. split_and!; [done| |intros N; by apply (retry_step_persists ev rc)].
  intros k ms K. apply (S _ _ K).
Qed.
End reconnect.

Module ReconnectWitness.
#[local] Existing Instance seastar_model.

Definition w_rc (rcs : list reconnect_event) : reconnect_client :=
  foldl (fun rc ev => default rc (reconnect_exec ev rc)) reconnect_client_make rcs.

(** The first attempt failed: the second one sleeps. *)
Definition w_failed : reconnect_client := w_rc [re_connect; re_failed 0 1234].

Lemma w_reach rc ev : match reconnect_exec ev rc with Some _ => true | None => false end = true ->
  reconnect_reachable rc -> reconnect_reachable (default rc (reconnect_exec ev rc)).
Proof.
  intros E R. eapply rtc_r; [exact R|]. exists ev. by destruct (reconnect_exec ev rc).
Qed.

Lemma retry_goes_on_witness :
  exists rc', reconnect_exec (re_wake 1) w_failed = Some rc' /\ retries w_failed !! 1 = Some (sleeping 1034) /\
    (retries rc' <> ∅ \/ valid rc' = true \/ gate_is_closed (reconnect_gate_ rc') = true).
Proof.
  destruct (reconnect_exec (re_wake 1) w_failed) as [rc'|] eqn:E.
  - destruct (retry_goes_on w_failed (re_wake 1) rc') as (_ & _ & P).
    + unfold w_failed, w_rc. cbn [foldl]. apply w_reach; [vm_refl|]. apply w_reach; [vm_refl|]. apply rtc_refl.
    + exact E.
    + exists rc'. split; [reflexivity|]. split; [vm_refl|]. apply P. intros Em.
      assert (retries w_failed !! 1 = None) as N by (rewrite Em; apply lookup_empty).
      assert (retries w_failed !! 1 = Some (sleeping 1034)) as M by vm_refl. congruence.
  - assert (match reconnect_exec (re_wake 1) w_failed with Some _ => true | None => false end = true) as X by vm_refl.
    by rewrite E in X.
Defined.
End ReconnectWitness.
