(* ===== verification/TypedContext.v ===== *)
(** * Typed views of a received payload

    src/src/include/smf/rpc_recv_typed_context.h and fbs_typed_buf.h: a buffer
    together with a pointer to the FlatBuffers table inside it. *)

From Stdlib Require Import ZArith Lia.
From stdpp Require Import base list numbers strings.
From coqutil Require Import Byte.
From S2P Require Import Prelude Header Seastar Letter Connection RecvContext Wire.

(** FlatBuffers: [GetMutableRoot] reads a 32-bit offset at the start of the
    buffer and gives the position of the table; [Verify] checks the table at a
    position of a buffer. *)
Class FlatRoot := {
  GetMutableRoot : list byte -> outcome Z;
  VerifyTable : Z -> list byte -> bool;
  GetMutableRoot_long b : 4 <= blen b -> exists p, GetMutableRoot b = Ready p;
  GetMutableRoot_short b : blen b < 4 -> GetMutableRoot b = Undefined
}.

(** [rpc_recv_typed_context<T>]: [cache_] is the position of the table, or null. *)
Record rpc_recv_typed_context := mk_typed_ctx {
  ctx : option rpc_recv_context;
  cache_ : option Z
}.

(** [fbs_typed_buf<T>]. *)
Record fbs_typed_buf := mk_typed_buf {
  buf_ : list byte;
  buf_cache_ : option Z
}.

Section typed.
Context `{Build, FlatRoot}.

Definition rpc_recv_typed_context0 : rpc_recv_typed_context := mk_typed_ctx None None.

Definition rpc_recv_typed_context_make (t : option rpc_recv_context) : outcome rpc_recv_typed_context :=
  match t with
  | None => Ready (mk_typed_ctx None None)
  | Some c => p ← GetMutableRoot (payload c); Ready (mk_typed_ctx (Some c) (Some p))
  end.

(** [operator->] and [get]. *)
Definition get (t : rpc_recv_typed_context) : option Z := cache_ t.

(** [operator bool]. *)
Definition typed_bool (t : rpc_recv_typed_context) : bool := bool_decide (is_Some (ctx t)).

(** What the move constructor of [rpc_recv_context] leaves: the payload is gone. *)
Definition moved_from (c : rpc_recv_context) : rpc_recv_context := mk_ctx (ctx_address c) (ctx_header c) [].

(** [move_to_lw_shared], with the new object first and then the one it was
    called on: the table is looked up again, the optional stays engaged and the
    pointer stays; [value] of an empty optional throws. *)
Definition move_to_lw_shared (t : rpc_recv_typed_context) :
    outcome (rpc_recv_typed_context * rpc_recv_typed_context) :=
  match ctx t with
  | None => Failed (runtime_error "bad_optional_access")
  | Some c =>
      r ← rpc_recv_typed_context_make (Some c);
      Ready (r, mk_typed_ctx (Some (moved_from c)) (cache_ t))
  end.

(** The move constructor, with the object moved from: the optional stays engaged
    and the pointer is copied. *)
Definition typed_move (t : rpc_recv_typed_context) : rpc_recv_typed_context * rpc_recv_typed_context :=
  (t, mk_typed_ctx (moved_from <$> ctx t) (cache_ t)).

(** [operator=(&&)]: the two objects afterwards; [same] is whether they are one. *)
Definition typed_assign (same : bool) (t o : rpc_recv_typed_context) : rpc_recv_typed_context * rpc_recv_typed_context :=
  if same then (t, t) else typed_move o.

Definition verify_fbs (t : rpc_recv_typed_context) : outcome bool :=
  match ctx t with
  | None => Ready false
  | Some c => match get t with Some p => Ready (VerifyTable p (payload c)) | None => Undefined end
  end.

(** The constructor of [fbs_typed_buf]. *)
Definition fbs_typed_buf_make (b : list byte) : outcome fbs_typed_buf :=
  DLOG_THROW_IF (blen b =? 0) "Empty flatbuffers buffer" ;;
  p ← GetMutableRoot b;
  Ready (mk_typed_buf b (Some p)).

(** [operator->], [operator*] and [get]; following a null pointer is undefined. *)
Definition buf_get (t : fbs_typed_buf) : option Z := buf_cache_ t.
Definition buf_deref (t : fbs_typed_buf) : outcome Z := match buf_cache_ t with Some p => Ready p | None => Undefined end.

(** Moving, with the object moved from: its buffer is gone, its pointer is not. *)
Definition buf_move (t : fbs_typed_buf) : fbs_typed_buf * fbs_typed_buf := (t, mk_typed_buf [] (buf_cache_ t)).
Definition buf_assign (same : bool) (t o : fbs_typed_buf) : fbs_typed_buf * fbs_typed_buf :=
  if same then (t, t) else buf_move o.

(** [move_buf], with the buffer taken by the caller: the pointer leaves with it. *)
Definition move_buf (t : fbs_typed_buf) : list byte * fbs_typed_buf := (buf_ t, mk_typed_buf [] None).

(** ** The pointer is the table of the buffer *)

Definition typed_wf (t : rpc_recv_typed_context) : Prop :=
  match ctx t with
  | None => cache_ t = None
  | Some c => exists p, cache_ t = Some p /\ GetMutableRoot (payload c) = Ready p
  end.

Lemma typed_make_wf t r : rpc_recv_typed_context_make t = Ready r -> typed_wf r /\ ctx r = t.
Proof.
  destruct t as [c|]; simpl; [|by intros [= <-]]. intros E. apply outcome_bind_Ready in E as (p & P & E).
  injection E as <-. split; [|done]. by exists p.
Qed.

(** The views a program gets: the empty one, one of a context, and one moved
    out of another, by [move_to_lw_shared], the move constructor or an assignment. *)
Inductive typed_view : rpc_recv_typed_context -> Prop :=
| view_empty : typed_view rpc_recv_typed_context0
| view_made t r : rpc_recv_typed_context_make t = Ready r -> typed_view r
| view_moved v r src : typed_view v -> move_to_lw_shared v = Ready (r, src) -> typed_view r
| view_move v : typed_view v -> typed_view (typed_move v).1
| view_assign same t v : typed_view t -> typed_view v -> typed_view (typed_assign same t v).1.

Lemma move_made v r src :
  move_to_lw_shared v = Ready (r, src) -> rpc_recv_typed_context_make (ctx v) = Ready r.
Proof.
  unfold move_to_lw_shared. destruct (ctx v) as [c|]; [|done].
  intros E. apply outcome_bind_Ready in E as (r' & P & E). by injection E as -> _.
Qed.

Lemma typed_view_is_wf v : typed_view v -> typed_wf v.
Proof.
  induction 1 as [|t r M|v r src _ _ M|v _ IH|same t v _ IH _ IH']; [done| |apply move_made in M|done|by destruct same];
    by apply typed_make_wf in M as [].
Qed.

Lemma moved_from_not_wf c p : ~ typed_wf (mk_typed_ctx (Some (moved_from c)) p).
Proof. intros (q & _ & Q). by rewrite GetMutableRoot_short in Q. Qed.

(** A buffer and its pointer: after moves as after construction the object that
    has the buffer has its table; the object moved from has a pointer to a table
    that it does not hold, while [move_buf] leaves none. *)
Definition buf_wf (t : fbs_typed_buf) : Prop := exists p, buf_cache_ t = Some p /\ GetMutableRoot (buf_ t) = Ready p.

Lemma typed_buf_moves b t :
  fbs_typed_buf_make b = Ready t ->
  buf_wf t /\ buf_ t = b /\ buf_wf (buf_move t).1 /\ is_Some (buf_get (buf_move t).2) /\ ~ buf_wf (buf_move t).2 /\
  (move_buf t).1 = b /\ buf_deref (move_buf t).2 = Undefined.
Proof.
  unfold fbs_typed_buf_make. intros E. apply outcome_bind_Ready in E as ([] & _ & E).
  apply outcome_bind_Ready in E as (p & P & E). injection E as <-. split_and!; try done; [by exists p|by exists p|].
  intros (q & _ & Q). by rewrite GetMutableRoot_short in Q.
Qed.

(** C32: the typed view of a payload.  In every view the pointer is null exactly
    when there is no payload and is the table of that payload otherwise, so
    that [operator bool] guards [get] and [verify_fbs] never follows a null
    pointer.  Moving a view throws exactly when it is empty; the new view has
    the same payload and the same table.  The object moved from still says
    that it holds a payload, but its pointer is no longer a table of it; the move
    constructor does the same. *)
Theorem typed_view_wf v :
  typed_view v ->
  typed_wf v /\ (typed_bool v = false <-> get v = None) /\
  (exists b, verify_fbs v = Ready b) /\
  (typed_bool v = true -> typed_bool (typed_move v).2 = true /\ ~ typed_wf (typed_move v).2) /\
  match move_to_lw_shared v with
  | Ready (r, src) => typed_wf r /\ ctx r = ctx v /\ get r = get v /\ typed_bool src = true /\ ~ typed_wf src
  | Failed _ => typed_bool v = false
  | Undefined => False
  end.
Proof.
  intros V%typed_view_is_wf. split; [done|].
  unfold typed_move, typed_wf, typed_bool, verify_fbs, move_to_lw_shared, get in *. simpl.
  destruct (ctx v) as [c|]; simpl.
  - destruct V as (p & P & R). rewrite P, R. simpl.
    split_and!; [by split|by eexists|intros _; split; [done|apply (moved_from_not_wf c (Some p))]|by exists p|done|done|done|].
    apply (moved_from_not_wf c (Some p)).
  - rewrite V. split; [by split|split; [by eexists|done]].
Qed.
End typed.

(** A request whose body has one to three bytes passes every check of the
    receiver, and the typed view that a generated handler makes of it reads
    beyond the payload. *)
Theorem short_payload_undefined `{FlatRoot, Build, GeneratedHeader, Xxhash} addr e :
  framed e -> blen (body (letter e)) < 4 ->
  check_payload addr (received_header (lheader (letter e))) (body (letter e)) = Ready (Some (received addr e)) /\
  rpc_recv_typed_context_make (Some (received addr e)) = Undefined.
Proof.
  intros F L. split; [by apply check_payload_framed|]. unfold rpc_recv_typed_context_make.
  by rewrite GetMutableRoot_short.
Qed.

Module TypedWitness.
(** A model of FlatBuffers in which the table is where the first byte says. *)
#[export] #[refine] Instance demo_root : FlatRoot := {|
  GetMutableRoot b := if blen b <? 4 then Undefined else Ready (byte.unsigned (default Byte.x00 (head b)));
  VerifyTable p b := p <? blen b
|}.
Proof.
  - intros b L. rewrite (proj2 (Z.ltb_ge _ _)) by done. by eexists.
  - intros b L. by rewrite (proj2 (Z.ltb_lt _ _)).
Defined.

Definition demo_context : rpc_recv_context :=
  mk_ctx (mk_addr 2130706433 11225) header0 [Byte.x04; Byte.x00; Byte.x00; Byte.x00; Byte.x07].

Definition demo_view : rpc_recv_typed_context := mk_typed_ctx (Some demo_context) (Some 4).

Lemma typed_view_wf_witness : typed_bool demo_view = true /\ exists b, verify_fbs demo_view = Ready b.
Proof.
  split; [reflexivity|].
  assert (rpc_recv_typed_context_make (Some demo_context) = Ready demo_view) as M by reflexivity.
  destruct (typed_view_wf demo_view (view_made _ _ M)) as (_ & _ & V & _). exact V.
Defined.
End TypedWitness.
