(* ===== verification/Printer.v ===== *)
(** * The template printer of smfc

    src/src/smfc/smf_printer.h: the substitution loop of [print(vars, t)], the
    indentation loop of [print(s)], and the indentation counter.  The loops are
    translated with fuel; the substitution loop does not always stop, so its
    fuel is an argument of everything that prints a template. *)

From Stdlib Require Import ZArith Lia Ascii String.
From stdpp Require Import base gmap list numbers strings.
From S2P Require Import Prelude.

#[global] Arguments String.append : simpl nomatch.

(** ** Characters and strings *)

Definition nl : string := String "010"%char EmptyString.
Definition dq : string := String "034"%char EmptyString.
Definition line (s : string) : string := s +:+ nl.

(** [s.find(c)] as the text before and after the first [c]. *)
Fixpoint find_char (c : ascii) (s : string) : option (string * string) :=
  match s with
  | EmptyString => None
  | String a s =>
      if Ascii.eqb a c then Some (EmptyString, s)
      else match find_char c s with
           | Some (before, after) => Some (String a before, after)
           | None => None
           end
  end.

(** What [s.c_str()] is as a C string. *)
Definition c_str (s : string) : string :=
  match find_char "000"%char s with Some (before, _) => before | None => s end.

Definition is_empty (s : string) : bool := match s with EmptyString => true | _ => false end.

(** [std::string(n, c)]. *)
Fixpoint replicate_char (n : nat) (c : ascii) : string :=
  match n with O => EmptyString | S n => String c (replicate_char n c) end.

(** Every character satisfies [P]. *)
Fixpoint str_all (P : ascii -> bool) (s : string) : bool :=
  match s with EmptyString => true | String a s => P a && str_all P s end.

(** The number of occurrences of a character. *)
Fixpoint str_count (c : ascii) (s : string) : nat :=
  match s with
  | EmptyString => 0
  | String a s => (if Ascii.eqb a c then 1 else 0) + str_count c s
  end%nat.

(** ** The printer *)

Definition var_map := gmap string string.

Record smf_printer := mk_printer {
  out_ : string;
  indent_ : Z;
  indent_char_ : ascii;
  indent_step_ : Z;
  escape_char : ascii
}.

Definition smf_printer_make (escape : ascii) : smf_printer :=
  mk_printer EmptyString 0 " "%char 2 escape.

Definition set_indent_char (i : ascii) (p : smf_printer) : smf_printer :=
  mk_printer (out_ p) (indent_ p) i (indent_step_ p) (escape_char p).
Definition set_indent_step (step : Z) (p : smf_printer) : smf_printer :=
  mk_printer (out_ p) (indent_ p) (indent_char_ p) (u16 step) (escape_char p).
Definition with_out (s : string) (p : smf_printer) : smf_printer :=
  mk_printer s (indent_ p) (indent_char_ p) (indent_step_ p) (escape_char p).
Definition with_indent (i : Z) (p : smf_printer) : smf_printer :=
  mk_printer (out_ p) i (indent_char_ p) (indent_step_ p) (escape_char p).
Definition contents (p : smf_printer) : string := out_ p.

(** One pass of the loop of [print(vars, t)]; [None]: [break]. *)
Definition subst_step (esc : ascii) (vars : var_map) (s : string) : option string :=
  match find_char esc s with
  | None => None
  | Some (before, rest) =>
      match find_char esc rest with
      | None => None
      | Some (name, after) =>
          match vars !! name with
          | None => None
          | Some v => Some (before +:+ v +:+ after)
          end
      end
  end.

(** The loop; [None]: still running after [fuel] passes. *)
Fixpoint subst_loop (fuel : nat) (esc : ascii) (vars : var_map) (s : string) : option string :=
  match fuel with
  | O => None
  | S fuel =>
      match subst_step esc vars s with
      | None => Some s
      | Some s => subst_loop fuel esc vars s
      end
  end.

(** The loop of [print(s)]. *)
Fixpoint print_loop (fuel : nat) (pad out s : string) : option string :=
  match fuel with
  | O => None
  | S fuel =>
      let out := out +:+ pad in
      match find_char "010"%char s with
      | Some (l, rest) =>
          let out := out +:+ line l in
          if is_empty rest then Some out else print_loop fuel pad out rest
      | None => Some (out +:+ s)
      end
  end.

(** Something that prints. *)
Definition printing := smf_printer -> outcome smf_printer.

(** [print(s)].  The width of the indentation is computed as an [int] and
    converted to [size_t]: inserting a negative number of characters throws. *)
Definition print (s : string) : printing := fun p =>
  let width := indent_ p * indent_step_ p in
  if negb (bool_decide (fits_s 32 width)) then Undefined
  else if width <? 0 then Failed (runtime_error "length_error")
  else
    match print_loop (S (String.length s)) (replicate_char (Z.to_nat width) (indent_char_ p)) (out_ p) s with
    | Some out => Ready (with_out out p)
    | None => Undefined
    end.

(** [print(vars, t)], followed for [fuel] passes of its loop. *)
Definition print_vars (fuel : nat) (vars : var_map) (t : string) : printing := fun p =>
  match subst_loop fuel (escape_char p) vars t with
  | Some s => print (c_str s) p
  | None => Undefined
  end.

Definition indent : printing := fun p =>
  if bool_decide (fits_s 32 (indent_ p + 1)) then Ready (with_indent (indent_ p + 1) p) else Undefined.

(** [outdent]; the [assert] is there in debug builds only, and aborts. *)
Definition outdent `{Build} : printing := fun p =>
  let i := indent_ p - 1 in
  if negb (bool_decide (fits_s 32 i)) then Undefined
  else if negb NDEBUG && (i <? 0) then Failed (runtime_error "assert(indent_ >= 0)")
  else Ready (with_indent i p).

(** Statements in sequence, and a [for] over a range. *)
Definition seqp (a b : printing) : printing := fun p => p ← a p; b p.
Definition skipp : printing := fun p => Ready p.
Fixpoint for_each {A} (f : A -> printing) (l : list A) : printing :=
  match l with [] => skipp | x :: l => seqp (f x) (for_each f l) end.

Declare Scope printing_scope.
Delimit Scope printing_scope with printing.
Notation "a ;> b" := (seqp a b) (at level 100, right associativity, only parsing) : printing_scope.
Bind Scope printing_scope with printing.

(** ** Reference definitions *)

(** A template cut at its escape characters, and put together again. *)
Fixpoint pieces (c : ascii) (s : string) : list string :=
  match s with
  | EmptyString => [EmptyString]
  | String a s =>
      if Ascii.eqb a c then EmptyString :: pieces c s
      else match pieces c s with p :: ps => String a p :: ps | [] => [String a EmptyString] end
  end.
Fixpoint join_char (c : ascii) (ps : list string) : string :=
  match ps with
  | [] => EmptyString
  | p :: ps => match ps with [] => p | _ => p +:+ String c (join_char c ps) end
  end.

(** The expansion of a template read once from left to right: text and
    placeholders alternate; the first placeholder that is not closed or not
    known ends the expansion. *)
Fixpoint expand (c : ascii) (vars : var_map) (ps : list string) : string :=
  match ps with
  | text :: name :: ((_ :: _) as rest) =>
      match vars !! name with
      | Some v => text +:+ v +:+ expand c vars rest
      | None => join_char c ps
      end
  | _ => join_char c ps
  end.

(** A text whose lines are indented by [pad]. *)
Fixpoint indented (pad s : string) : string :=
  match s with
  | EmptyString => EmptyString
  | String a s =>
      String a (if Ascii.eqb a "010"%char then (if is_empty s then EmptyString else pad +:+ indented pad s)
                else indented pad s)
  end.

(** A string without the character [c]; a map of variables without it. *)
Definition lacks (c : ascii) (s : string) : Prop := str_count c s = 0%nat.
Definition vars_lack (c : ascii) (vars : var_map) : Prop := map_Forall (fun _ v => lacks c v) vars.

#[global] Instance lacks_dec c s : Decision (lacks c s) := decide (str_count c s = 0%nat).

(** ** Strings *)

Lemma str_app_assoc s t r : (s +:+ t) +:+ r = s +:+ t +:+ r.
Proof. induction s as [|a s IH]; simpl; [done|by rewrite IH]. Qed.

Lemma str_app_nil s : s +:+ EmptyString = s.
Proof. induction s as [|a s IH]; simpl; [done|by rewrite IH]. Qed.

Lemma str_app_cancel s t r : s +:+ t = s +:+ r -> t = r.
Proof. induction s as [|a s IH]; simpl; [done|]. intros [= E]. by apply IH. Qed.

Lemma str_app_length s t : String.length (s +:+ t) = (String.length s + String.length t)%nat.
Proof. induction s as [|a s IH]; simpl; [done|by rewrite IH]. Qed.

Lemma str_count_app c s t : str_count c (s +:+ t) = (str_count c s + str_count c t)%nat.
Proof. induction s as [|a s IH]; simpl; [done|rewrite IH; lia]. Qed.

Lemma str_count_length c s : (str_count c s <= String.length s)%nat.
Proof. induction s as [|a s IH]; simpl; [done|]. case_goal; lia. Qed.

Lemma lacks_nil c : lacks c EmptyString.
Proof. done. Qed.

Lemma lacks_app c s t : lacks c (s +:+ t) <-> lacks c s /\ lacks c t.
Proof. unfold lacks. rewrite str_count_app. lia. Qed.

Lemma lacks_cons c a s : lacks c (String a s) <-> a <> c /\ lacks c s.
Proof.
  unfold lacks. simpl. destruct (Ascii.eqb_spec a c); simpl; split; intros; (done || tauto || lia).
Qed.

Lemma find_char_Some c s before after :
  find_char c s = Some (before, after) <-> s = before +:+ String c after /\ lacks c before.
Proof.
  revert before. induction s as [|a s IH]; intros before; simpl.
  - split; [done|]. intros [E _]. by destruct before.
  - destruct (Ascii.eqb_spec a c) as [->|N].
    + split; [intros [= <- <-]; by split|]. intros [E L]. destruct before as [|b before].
      * by injection E as ->.
      * injection E as -> E. by apply lacks_cons in L as [? _].
    + destruct (find_char c s) as [[b r]|] eqn:F.
      * split.
        -- intros [= <- <-]. destruct (proj1 (IH b)) as [-> ?]; [done|]. split; [done|]. by apply lacks_cons.
        -- intros [E L]. destruct before as [|b' before]; [by injection E|]. injection E as -> E.
           apply lacks_cons in L as [_ L]. pose proof (proj2 (IH before) (conj E L)) as F'. congruence.
      * split; [done|]. intros [E L]. destruct before as [|b' before]; [by injection E|]. injection E as -> E.
        apply lacks_cons in L as [_ L]. pose proof (proj2 (IH before) (conj E L)). congruence.
Qed.

Lemma find_char_None c s : find_char c s = None <-> lacks c s.
Proof.
  induction s as [|a s IH]; simpl; [done|]. rewrite lacks_cons.
  destruct (Ascii.eqb_spec a c) as [->|N]; [split; [done|by intros [? _]]|].
  destruct (find_char c s) as [[b r]|]; split; try done.
  - intros [_ L]. by apply IH in L.
  - intros _. split; [done|by apply IH].
Qed.

Lemma find_char_app c before after : lacks c before -> find_char c (before +:+ String c after) = Some (before, after).
Proof. intros L. by apply find_char_Some. Qed.

Lemma pieces_length c s : length (pieces c s) = S (str_count c s).
Proof.
  induction s as [|a s IH]; simpl; [done|]. case_goal; simpl; [by rewrite IH|].
  destruct (pieces c s); simpl in *; [done|]. lia.
Qed.

Lemma pieces_lack c s : Forall (lacks c) (pieces c s).
Proof.
  induction s as [|a s IH]; simpl; [by repeat constructor|].
  destruct (Ascii.eqb_spec a c) as [->|N]; [by constructor|].
  destruct (pieces c s) as [|p ps]; [constructor; [by apply lacks_cons|done]|].
  apply Forall_cons in IH as [Lp Lps]. constructor; [by apply lacks_cons|done].
Qed.

Lemma join_pieces c s : join_char c (pieces c s) = s.
Proof.
  induction s as [|a s IH]; simpl; [done|]. pose proof (pieces_length c s) as L.
  destruct (Ascii.eqb_spec a c) as [->|N]; destruct (pieces c s) as [|p ps]; try done; simpl in *.
  - by rewrite IH.
  - destruct ps; [by rewrite IH|]. simpl. by rewrite <- IH.
Qed.

(** ** The substitution loop *)

Section subst.
Variables (c : ascii) (vars : var_map).

Lemma subst_step_hit before name after v :
  lacks c before -> lacks c name -> vars !! name = Some v ->
  subst_step c vars (before +:+ String c (name +:+ String c after)) = Some (before +:+ v +:+ after).
Proof. intros L N V. unfold subst_step. by rewrite !find_char_app, V by done. Qed.

Lemma subst_loop_mono n m s r :
  (n <= m)%nat -> subst_loop n c vars s = Some r -> subst_loop m c vars s = Some r.
Proof.
  revert m s. induction n as [|n IH]; intros m s Le; [done|]. destruct m as [|m]; [lia|]. simpl.
  case_goal; [|done]. apply IH. lia.
Qed.

(** The text before the first escape character is not looked at again. *)
Lemma subst_loop_pieces fuel ps before :
  vars_lack c vars -> Forall (lacks c) ps -> lacks c before -> ps <> [] -> (length ps <= 2 * fuel)%nat ->
  subst_loop fuel c vars (before +:+ join_char c ps) = Some (before +:+ expand c vars ps).
Proof.
  intros V. revert ps before. induction fuel as [|fuel IH]; intros ps before Lp Lb Ne Len;
    [destruct ps; simpl in *; [done|lia]|].
  destruct ps as [|t [|n [|q ps]]]; [done| | |].
  - apply Forall_cons in Lp as [Lt _]. simpl. unfold subst_step.
    by rewrite (proj2 (find_char_None c (before +:+ t))) by by apply lacks_app.
  - apply Forall_cons in Lp as [Lt Lp]. apply Forall_cons in Lp as [Ln _]. simpl. unfold subst_step.
    rewrite <- str_app_assoc, find_char_app by by apply lacks_app.
    by rewrite (proj2 (find_char_None c n)).
  - apply Forall_cons in Lp as [Lt Lp]. apply Forall_cons in Lp as [Ln Lp].
    change (join_char c (t :: n :: q :: ps)) with (t +:+ String c (n +:+ String c (join_char c (q :: ps)))).
    rewrite <- str_app_assoc. cbn [subst_loop expand]. destruct (vars !! n) as [v|] eqn:Vn.
    + rewrite (subst_step_hit _ _ _ v) by (done || by apply lacks_app).
      rewrite <- str_app_assoc, IH; simpl in *; try done; [by rewrite !str_app_assoc| |lia].
      rewrite !lacks_app. split_and!; try done. by apply (V n).
    + unfold subst_step. rewrite !find_char_app, Vn by (done || by apply lacks_app). by rewrite str_app_assoc.
Qed.

Lemma subst_loop_total fuel t :
  vars_lack c vars -> (S (str_count c t) <= 2 * fuel)%nat ->
  subst_loop fuel c vars t = Some (expand c vars (pieces c t)).
Proof.
  intros V Len. rewrite <- (join_pieces c t) at 1. rewrite <- (pieces_length c t) in Len.
  apply (subst_loop_pieces fuel (pieces c t) EmptyString); [done|apply pieces_lack|done| |done].
  intros E. pose proof (pieces_length c t) as L. by rewrite E in L.
Qed.
End subst.

(** ** The indentation loop *)

Lemma indented_app pad l rest :
  lacks "010"%char l ->
  indented pad (l +:+ String "010"%char rest) =
    line l +:+ (if is_empty rest then EmptyString else pad +:+ indented pad rest).
Proof.
  intros L. induction l as [|a l IH]; [done|]. apply lacks_cons in L as [N L]. simpl.
  rewrite (proj2 (Ascii.eqb_neq _ _) N), IH by done. done.
Qed.

Lemma indented_single pad l : lacks "010"%char l -> indented pad l = l.
Proof.
  induction l as [|a l IH]; intros L; [done|]. apply lacks_cons in L as [N L]. simpl.
  by rewrite (proj2 (Ascii.eqb_neq _ _) N), IH.
Qed.

Lemma print_loop_total fuel pad out s :
  (String.length s < fuel)%nat -> print_loop fuel pad out s = Some (out +:+ pad +:+ indented pad s).
Proof.
  revert out s. induction fuel as [|fuel IH]; intros out s Len; [lia|]. cbn [print_loop].
  destruct (find_char "010"%char s) as [[l rest]|] eqn:F.
  - apply find_char_Some in F as [-> L]. rewrite indented_app by done. rewrite str_app_length in Len. simpl in Len.
    destruct (is_empty rest) eqn:E; [by rewrite str_app_nil, str_app_assoc|].
    rewrite IH by lia. by rewrite !str_app_assoc.
  - apply find_char_None in F. by rewrite indented_single, str_app_assoc.
Qed.

(** ** Printing code

    [moves i j m m']: from indentation [i], [m] and [m'] (the same code with two
    bounds on the substitution loop) return normally with the same result, only
    add text, and leave indentation [j]. *)
Definition max_step : Z := 2 ^ 16.
Definition max_depth : Z := 2 ^ 14.

Record printer_ok (p : smf_printer) : Prop := mk_printer_ok {
  po_step : 0 <= indent_step_ p < max_step;
  po_indent : 0 <= indent_ p <= max_depth;
  po_escape : escape_char p = "$"%char
}.

Definition moves (i j : Z) (m m' : printing) : Prop :=
  forall p, printer_ok p -> indent_ p = i ->
    exists t p', m p = Ready p' /\ m' p = Ready p' /\ printer_ok p' /\ indent_ p' = j /\ out_ p' = out_ p +:+ t.

Lemma print_ok s p :
  printer_ok p -> print s p =
    Ready (with_out (out_ p +:+ (let pad := replicate_char (Z.to_nat (indent_ p * indent_step_ p)) (indent_char_ p) in
                                 pad +:+ indented pad s)) p).
Proof.
  intros [St In _]. unfold print. unfold max_step, max_depth in *.
  assert (fits_s 32 (indent_ p * indent_step_ p)) as F by (unfold fits_s; nia).
  rewrite (bool_decide_eq_true_2 _ F). simpl negb. cbv iota.
  rewrite (proj2 (Z.ltb_ge _ _)) by nia. by rewrite print_loop_total by lia.
Qed.

Lemma moves_print i s : moves i i (print s) (print s).
Proof.
  intros p Ok E. rewrite print_ok by done. do 2 eexists. split; [done|]. split; [done|].
  split_and!; try done. by destruct Ok.
Qed.

Lemma moves_print_vars n k vars t i :
  vars_lack "$"%char vars -> (S (str_count "$"%char t) <= 2 * n)%nat -> (S (str_count "$"%char t) <= 2 * k)%nat ->
  moves i i (print_vars n vars t) (print_vars k vars t).
Proof.
  intros V Ln Lk p Ok E. unfold print_vars. rewrite (po_escape _ Ok), !subst_loop_total by done.
  by apply moves_print.
Qed.

Lemma moves_indent i : i < max_depth -> moves i (i + 1) indent indent.
Proof.
  intros Lt p [St In Es] E. unfold indent. unfold max_depth in *.
  rewrite bool_decide_eq_true_2 by (unfold fits_s; lia). exists EmptyString. eexists. split; [done|]. split; [done|].
  rewrite str_app_nil. split_and!; simpl; try done; [|lia]. constructor; simpl; unfold max_depth; (done || lia).
Qed.

Lemma moves_outdent `{Build} i : 0 <= i -> moves (i + 1) i outdent outdent.
Proof.
  intros Lt p [St In Es] E. unfold outdent. unfold max_depth in *.
  rewrite bool_decide_eq_true_2 by (unfold fits_s; lia). simpl negb. cbv iota.
  rewrite (proj2 (Z.ltb_ge _ _)), andb_false_r by lia. exists EmptyString. eexists. split; [done|]. split; [done|].
  rewrite str_app_nil. split_and!; simpl; try done; [|lia]. constructor; simpl; unfold max_depth; (done || lia).
Qed.

Lemma moves_seq i j k a b a' b' : moves i j a a' -> moves j k b b' -> moves i k (seqp a b) (seqp a' b').
Proof.
  intros A B p Ok E. destruct (A p Ok E) as (t1 & p1 & E1 & E1' & Ok1 & I1 & O1).
  destruct (B p1 Ok1 I1) as (t2 & p2 & E2 & E2' & Ok2 & I2 & O2).
  exists (t1 +:+ t2), p2. unfold seqp. rewrite E1, E1'. simpl. split_and!; try done.
  by rewrite O2, O1, str_app_assoc.
Qed.

Lemma moves_skip i : moves i i skipp skipp.
Proof. intros p Ok E. exists EmptyString, p. by rewrite str_app_nil. Qed.

Lemma moves_for_each {A} i (f f' : A -> printing) l :
  (forall x, x ∈ l -> moves i i (f x) (f' x)) -> moves i i (for_each f l) (for_each f' l).
Proof.
  induction l as [|x l IH]; intros F; [apply moves_skip|]. simpl.
  eapply moves_seq; [apply F; left|]. apply IH. intros y Hy. apply F. by right.
Qed.

Lemma moves_if i j (b : bool) x y x' y' :
  moves i j x x' -> moves i j y y' -> moves i j (if b then x else y) (if b then x' else y').
Proof. by destruct b. Qed.

(** ** Properties *)

(** Every placeholder of the template is closed and known. *)
Fixpoint all_known (vars : var_map) (ps : list string) : bool :=
  match ps with
  | [] => false
  | [_] => true
  | _ :: name :: rest => bool_decide (is_Some (vars !! name)) && all_known vars rest
  end.

Lemma expand_lacks c vars ps :
  vars_lack c vars -> Forall (lacks c) ps -> all_known vars ps = true -> lacks c (expand c vars ps).
Proof.
  intros V. remember (length ps) as k eqn:Ek. assert (length ps <= k)%nat as Lk by lia. clear Ek.
  revert ps Lk. induction k as [|k IH]; intros [|t [|n [|q ps]]] Lk L K; cbn [all_known] in K; simpl in Lk; try done; try lia.
  - by apply Forall_cons in L as [? _].
  - apply andb_true_iff in K as [[v Vn]%bool_decide_eq_true_1 K].
    apply Forall_cons in L as [Lt L]. apply Forall_cons in L as [_ L].
    change (lacks c (match vars !! n with Some v => t +:+ v +:+ expand c vars (q :: ps) | None => join_char c (t :: n :: q :: ps) end)).
    rewrite Vn, !lacks_app. split_and!; [done|by apply (V n)|]. apply IH; simpl; (done || lia).
Qed.

(** C33: the substitution loop, which starts again from the beginning of the
    string after every replacement, prints what one pass over the template
    prints, when no value contains the escape character; when moreover every
    placeholder is closed and known, no escape character is left. *)
Theorem substitution_is_one_pass fuel vars t p :
  vars_lack (escape_char p) vars -> (S (str_count (escape_char p) t) <= 2 * fuel)%nat ->
  print_vars fuel vars t p = print (c_str (expand (escape_char p) vars (pieces (escape_char p) t))) p /\
  (all_known vars (pieces (escape_char p) t) = true ->
     lacks (escape_char p) (expand (escape_char p) vars (pieces (escape_char p) t))).
Proof.
  intros V Len. split; [unfold print_vars; by rewrite subst_loop_total|].
  apply expand_lacks; [done|apply pieces_lack].
Qed.

(** C34: when the substitution stops.  It stops within one pass per placeholder
    when no value contains the escape character; when the value of the first
    placeholder of the template has the same placeholder as its own first one, it
    never stops. *)
Theorem substitution_stops c vars t :
  (vars_lack c vars ->
     exists s, forall fuel, (S (str_count c t) <= 2 * fuel)%nat -> subst_loop fuel c vars t = Some s) /\
  (forall before name after b a, t = before +:+ String c (name +:+ String c after) ->
     lacks c before -> lacks c name -> lacks c b -> vars !! name = Some (b +:+ String c (name +:+ String c a)) ->
     forall fuel, subst_loop fuel c vars t = None).
Proof.
  split; [intros V; eexists; intros fuel Len; by apply subst_loop_total|].
  intros before name after b a -> Lb Ln Lv V fuel. revert before after Lb.
  induction fuel as [|fuel IH]; intros before after Lb; [done|]. cbn [subst_loop].
  rewrite (subst_step_hit _ _ _ _ _ _ Lb Ln V).
  assert (before +:+ (b +:+ String c (name +:+ String c a)) +:+ after =
          (before +:+ b) +:+ String c (name +:+ String c (a +:+ after))) as ->.
  { rewrite !str_app_assoc. simpl. by rewrite !str_app_assoc. }
  apply IH. by apply lacks_app.
Qed.

Module PrinterWitness.
Definition w_vars : var_map := <["Service" := "Storage"]> (<["ClientName" := "StorageClient"]> ∅).
Definition w_template : string := "class $ClientName$; // of $Service$".

Lemma w_vars_lack : vars_lack "$"%char w_vars.
Proof. unfold w_vars. repeat (apply map_Forall_insert_2; [unfold lacks; vm_refl|]). apply map_Forall_empty. Qed.

Lemma substitution_is_one_pass_witness :
  print_vars 3 w_vars w_template (smf_printer_make "$"%char) =
    print "class StorageClient; // of Storage" (smf_printer_make "$"%char) /\
  lacks "$"%char "class StorageClient; // of Storage".
Proof.
  destruct (substitution_is_one_pass 3 w_vars w_template (smf_printer_make "$"%char)) as [P L];
    [exact w_vars_lack|apply Nat.leb_le; vm_refl|].
  split; [exact P|]. apply L. vm_refl.
Defined.

(** A value that names itself, and a template that starts with it. *)
Definition w_loop : var_map := <["x" := "my $x$"]> ∅.

Lemma substitution_stops_witness :
  (exists s, subst_loop 3 "$"%char w_vars w_template = Some s) /\
  (forall fuel, subst_loop fuel "$"%char w_loop "a $x$ b" = None).
Proof.
  destruct (substitution_stops "$"%char w_vars w_template) as [Stops _].
  destruct (substitution_stops "$"%char w_loop "a $x$ b") as [_ Loops]. split.
  - destruct (Stops w_vars_lack) as [s S]. exists s. apply S. apply Nat.leb_le. vm_refl.
  - apply (Loops "a " "x" " b" "my " EmptyString); [reflexivity|unfold lacks; vm_refl..|vm_refl].
Defined.

(** An unknown placeholder before it ends the substitution. *)
Example unknown_placeholder_stops : subst_loop 1 "$"%char w_loop "$y$ $x$" = Some "$y$ $x$".
Proof. vm_refl. Qed.
End PrinterWitness.
