(* ===== verification/Schema.v ===== *)
(** * What smfc reads, and what its generators share

    src/src/smfc/language.h, crc.h, smf_method.h, smf_service.h and generator.h.
    The FlatBuffers schema parser, boost and the file system are not part of the
    repository: the records hold what the sources read of a parsed schema, the
    classes name the functions that are called with the documented behaviour
    that is relied on. *)

From Stdlib Require Import ZArith Lia Ascii String DecimalString DecimalPos DecimalN.
From stdpp Require Import base gmap list numbers strings.
From S2P Require Import Prelude Printer.

(** [enum class language]. *)
Inductive language := lang_none | lang_cpp | lang_go | lang_python | lang_all.
#[global] Instance language_eq_dec : EqDecision language.
Proof. solve_decision. Defined.

(** ** The parsed schema: [flatbuffers::StructDef], [RPCCall], [ServiceDef] and
    [Parser], the fields that are read. *)
Record struct_def := mk_struct { sd_name : string; sd_components : list string }.
Record rpc_call := mk_call { call_name : string; call_request : struct_def; call_response : struct_def }.
Record service_def := mk_service_def {
  sv_name : string;
  sv_components : list string;
  sv_calls : list rpc_call;
  sv_generated : bool
}.
Record fbs_parser := mk_parser {
  services_vec : list service_def;
  included_files_ : list string;
  current_namespace_ : list string;
  error_ : string
}.

(** ** The libraries *)
Class Libraries := {
  (** [boost::crc_32_type] over a buffer. *)
  crc_32 : string -> Z;
  crc_32_fits s : fits_u 32 (crc_32 s);
  (** [boost::algorithm::join]. *)
  join : string -> list string -> string;
  join_nil sep : join sep [] = EmptyString;
  join_one sep s : join sep [s] = s;
  join_cons sep s t l : join sep (s :: t :: l) = s +:+ sep +:+ join sep (t :: l);
  (** [flatbuffers::StripPath], [StripExtension] and [StripFileName] return a
      part of the file name. *)
  StripPath : string -> string;
  StripExtension : string -> string;
  StripFileName : string -> string;
  StripPath_part c s : lacks c s -> lacks c (StripPath s);
  StripExtension_part c s : lacks c s -> lacks c (StripExtension s);
  (** [Namespace::GetFullyQualifiedName] of the components and a name. *)
  GetFullyQualifiedName : list string -> string -> string
}.

(** [boost::filesystem] and [flatbuffers::SaveFile]; [fs_file] is the contents of
    a file. *)
Class FileSystem := {
  fs : Type;
  fs_file : fs -> string -> option string;
  exists_ : fs -> string -> bool;
  remove : fs -> string -> outcome fs;
  SaveFile : fs -> string -> string -> bool * fs;
  create_directories : fs -> string -> outcome fs;
  remove_spec f n f' : remove f n = Ready f' ->
    fs_file f' n = None /\ forall m, m <> n -> fs_file f' m = fs_file f m;
  SaveFile_true f n c f' : SaveFile f n c = (true, f') ->
    fs_file f' n = Some c /\ forall m, m <> n -> fs_file f' m = fs_file f m;
  SaveFile_false f n c f' : SaveFile f n c = (false, f') ->
    forall m, m <> n -> fs_file f' m = fs_file f m;
  create_directories_spec f d f' : create_directories f d = Ready f' ->
    forall m, fs_file f' m = fs_file f m
}.

(** [std::to_string] of an unsigned value. *)
Definition to_string (n : Z) : string := NilZero.string_of_uint (N.to_uint (Z.to_N n)).

(** [toupper], [tolower], [isupper], [isalnum] of the C locale. *)
Definition in_range (lo hi c : ascii) : bool :=
  (N_of_ascii lo <=? N_of_ascii c)%N && (N_of_ascii c <=? N_of_ascii hi)%N.
Definition isupper (c : ascii) : bool := in_range "A" "Z" c.
Definition islower (c : ascii) : bool := in_range "a" "z" c.
Definition isdigit (c : ascii) : bool := in_range "0" "9" c.
Definition isalnum (c : ascii) : bool := isupper c || islower c || isdigit c.
Definition toupper (c : ascii) : ascii := if islower c then ascii_of_N (N_of_ascii c - 32) else c.
Definition tolower (c : ascii) : ascii := if isupper c then ascii_of_N (N_of_ascii c + 32) else c.

(** [s[0] = toupper(s[0])]; of an empty string this writes its final NUL. *)
Definition upper_first (s : string) : string :=
  match s with EmptyString => EmptyString | String a s => String (toupper a) s end.

Section schema.
Context `{Libraries}.

(** [crc32]. *)
Definition crc32 (data : string) : Z := crc_32 data.

(** ** smf_method.h *)

Record smf_method := mk_smf_method {
  method_ : rpc_call;
  service_name_ : string;
  service_id_ : Z;
  id_ : Z
}.

Definition type (sd : struct_def) (lang : language) : outcome string :=
  match lang with
  | lang_cpp => Ready (join "::" (sd_components sd ++ [sd_name sd]))
  | lang_go => Ready (sd_name sd)
  | lang_python => Ready (join "." (sd_components sd ++ [sd_name sd] ++ [sd_name sd]))
  | _ => Failed (runtime_error "Unknown language for the method.h")
  end.

Definition call_input_type (c : rpc_call) (l : language) : outcome string := type (call_request c) l.
Definition call_output_type (c : rpc_call) (l : language) : outcome string := type (call_response c) l.

(** The constructor. *)
Definition smf_method_make (method : rpc_call) (service_name : string) (service_id : Z) : outcome smf_method :=
  i ← call_input_type method lang_cpp;
  o ← call_output_type method lang_cpp;
  let method_id_str := call_name method +:+ ":" +:+ i +:+ ":" +:+ o in
  Ready (mk_smf_method method service_name service_id (crc32 method_id_str)).

Definition method_name (m : smf_method) : string := call_name (method_ m).
Definition method_id (m : smf_method) : Z := id_ m.
Definition input_type_name (m : smf_method) (l : language) : outcome string := call_input_type (method_ m) l.
Definition output_type_name (m : smf_method) (l : language) : outcome string := call_output_type (method_ m) l.

(** ** smf_service.h *)

Record smf_service := mk_smf_service {
  service_ : service_def;
  sid_ : Z;
  methods_ : list smf_method
}.

Fixpoint make_methods (calls : list rpc_call) (name : string) (sid : Z) : outcome (list smf_method) :=
  match calls with
  | [] => Ready []
  | c :: calls =>
      m ← smf_method_make c name sid;
      ms ← make_methods calls name sid;
      Ready (m :: ms)
  end.

Definition smf_service_make (s : service_def) : outcome smf_service :=
  let sid := crc32 (sv_name s) in
  ms ← make_methods (sv_calls s) (sv_name s) sid;
  Ready (mk_smf_service s sid ms).

Definition smf_service_name (s : smf_service) : string := sv_name (service_ s).
Definition smf_service_id (s : smf_service) : Z := sid_ s.

(** ** generator.h *)

Record generator := mk_generator {
  g_parser : fbs_parser;
  input_filename : string;
  output_dir : string;
  services_ : list smf_service
}.

(** The loop of the constructor: services of included files are left out. *)
Fixpoint make_services (l : list service_def) : outcome (list smf_service) :=
  match l with
  | [] => Ready []
  | s :: l =>
      if sv_generated s then make_services l
      else srv ← smf_service_make s; rest ← make_services l; Ready (srv :: rest)
  end.

Definition generator_make (p : fbs_parser) (ifname out_dir : string) : outcome generator :=
  l ← make_services (services_vec p);
  Ready (mk_generator p ifname out_dir l).

Definition package (g : generator) : string :=
  GetFullyQualifiedName (current_namespace_ (g_parser g)) EmptyString.
Definition package_parts (g : generator) : list string := current_namespace_ (g_parser g).
Definition input_filename_without_path (g : generator) : string := StripPath (input_filename g).
Definition input_filename_without_ext (g : generator) : string :=
  StripExtension (input_filename_without_path g).

(** [save_conents_to_file]: the message of a failure, [None] for success. *)
Definition save_conents_to_file `{FileSystem} (outname : string) (contents : string) (f : fs) :
    outcome (option string * fs) :=
  f ← (if exists_ f outname then remove f outname else Ready f);
  let '(ok, f) := SaveFile f outname contents in
  Ready (if ok then None else Some ("Could not create filename: " +:+ outname), f).

(** A value that may fail to be computed, used by printing code. *)
Definition bindp {A} (o : outcome A) (k : A -> printing) : printing := fun p => x ← o; k x p.
End schema.

(** ** Names without the escape character

    The names of a schema are identifiers, so that no value handed to the
    printer contains its escape character; file names are assumed not to. *)

Abbreviation esc := "$"%char.
Definition struct_ok (sd : struct_def) : Prop := lacks esc (sd_name sd) /\ Forall (lacks esc) (sd_components sd).
Definition call_ok (c : rpc_call) : Prop :=
  lacks esc (call_name c) /\ struct_ok (call_request c) /\ struct_ok (call_response c).
Definition service_def_ok (s : service_def) : Prop :=
  lacks esc (sv_name s) /\ Forall (lacks esc) (sv_components s) /\ Forall call_ok (sv_calls s).
Definition parser_ok (p : fbs_parser) : Prop :=
  Forall service_def_ok (services_vec p) /\ Forall (lacks esc) (included_files_ p) /\
  Forall (lacks esc) (current_namespace_ p).

(** The value of a decimal literal. *)
Definition decimal (s : string) : option Z :=
  match NilZero.uint_of_string s with Some d => Some (Z.of_N (N.of_uint d)) | None => None end.

Lemma decimal_to_string n : 0 <= n -> decimal (to_string n) = Some n.
Proof.
  intros N. unfold decimal, to_string. rewrite NilZero.usu.
  - rewrite DecimalN.Unsigned.of_to. f_equal. lia.
  - destruct (Z.to_N n); [done|]. apply DecimalPos.Unsigned.to_uint_nonnil.
Qed.

Lemma digits_lack c d : isdigit c = false -> lacks c (NilEmpty.string_of_uint d).
Proof.
  intros D. induction d; simpl; try (apply lacks_cons; split; [intros <-; by vm_compute in D|done]). done.
Qed.

Lemma to_string_no c n : isdigit c = false -> lacks c (to_string n).
Proof.
  intros D. unfold to_string, NilZero.string_of_uint.
  destruct (N.to_uint (Z.to_N n)); try (by apply (digits_lack c)).
  apply lacks_cons. split; [intros <-; by vm_compute in D|done].
Qed.

Lemma to_string_inj a b : 0 <= a -> 0 <= b -> to_string a = to_string b -> a = b.
Proof. intros A B E. apply (f_equal decimal) in E. rewrite !decimal_to_string in E by done. congruence. Qed.

Lemma string_of_uint_lacks d : lacks esc (NilEmpty.string_of_uint d).
Proof. induction d; simpl; try (apply lacks_cons; split; [done|done]). done. Qed.

Lemma to_string_lacks n : lacks esc (to_string n).
Proof. unfold to_string, NilZero.string_of_uint. case_goal; try done; apply string_of_uint_lacks. Qed.

Lemma toupper_esc a : a <> esc -> toupper a <> esc.
Proof. destruct a as [[] [] [] [] [] [] [] []]; vm_compute; congruence. Qed.

Lemma tolower_esc a : a <> esc -> tolower a <> esc.
Proof. destruct a as [[] [] [] [] [] [] [] []]; vm_compute; congruence. Qed.

Lemma upper_first_lacks s : lacks esc s -> lacks esc (upper_first s).
Proof.
  destruct s as [|a s]; [done|]. simpl. rewrite !lacks_cons. intros [? ?].
  split; [by apply toupper_esc|done].
Qed.

Section ok.
Context `{Libraries}.

Lemma join_lacks sep l : lacks esc sep -> Forall (lacks esc) l -> lacks esc (join sep l).
Proof.
  intros Ls. induction l as [|s [|t l] IH]; intros F.
  - by rewrite join_nil.
  - rewrite join_one. by apply Forall_cons in F as [? _].
  - apply Forall_cons in F as [? F]. rewrite join_cons, !lacks_app. split_and!; [done|done|by apply IH].
Qed.

(** The languages that have a generator. *)
Definition generated_language (l : language) : Prop := l = lang_cpp \/ l = lang_go \/ l = lang_python.

Lemma type_ok sd l : struct_ok sd -> generated_language l -> exists t, type sd l = Ready t /\ lacks esc t.
Proof.
  intros [N C] [-> | [-> | -> ] ]; eexists; (split; [done|]); try done;
    apply join_lacks; try done; apply Forall_app; (split; [done|]); by repeat constructor.
Qed.

Definition method_ok (m : smf_method) : Prop := call_ok (method_ m) /\ lacks esc (service_name_ m).
Definition service_ok (s : smf_service) : Prop :=
  lacks esc (smf_service_name s) /\ Forall (lacks esc) (sv_components (service_ s)) /\ Forall method_ok (methods_ s).
Definition generator_ok (g : generator) : Prop :=
  parser_ok (g_parser g) /\ lacks esc (input_filename g) /\ Forall service_ok (services_ g).

(** What the constructors compute. *)
Definition method_of (name : string) (sid : Z) (c : rpc_call) : smf_method :=
  mk_smf_method c name sid (crc32 (call_name c +:+ ":" +:+
    join "::" (sd_components (call_request c) ++ [sd_name (call_request c)]) +:+ ":" +:+
    join "::" (sd_components (call_response c) ++ [sd_name (call_response c)]))).
Definition service_of (s : service_def) : smf_service :=
  mk_smf_service s (crc32 (sv_name s)) (map (method_of (sv_name s) (crc32 (sv_name s))) (sv_calls s)).

Lemma smf_service_make_spec s : smf_service_make s = Ready (service_of s).
Proof.
  unfold smf_service_make, service_of. cbv zeta.
  assert (forall n sid, make_methods (sv_calls s) n sid = Ready (map (method_of n sid) (sv_calls s))) as ->; [|done].
  intros n sid. induction (sv_calls s) as [|c l IH]; [done|]. simpl. rewrite IH. done.
Qed.

Lemma service_of_ok s : service_def_ok s -> service_ok (service_of s).
Proof.
  intros (N & C & F). split_and!; [done|done|]. simpl. apply Forall_map.
  eapply Forall_impl; [exact F|]. intros c Hc. by split.
Qed.

Lemma make_services_spec l :
  make_services l = Ready (map service_of (filter (fun s => sv_generated s = false) l)).
Proof.
  induction l as [|s l IH]; [done|]. simpl. rewrite smf_service_make_spec, IH.
  rewrite filter_cons. by destruct (sv_generated s).
Qed.

Lemma generator_make_spec p ifname out_dir :
  generator_make p ifname out_dir =
    Ready (mk_generator p ifname out_dir (map service_of (filter (fun s => sv_generated s = false) (services_vec p)))).
Proof. unfold generator_make. by rewrite make_services_spec. Qed.

Lemma generator_make_ok p ifname out_dir g :
  parser_ok p -> lacks esc ifname -> generator_make p ifname out_dir = Ready g -> generator_ok g.
Proof.
  rewrite generator_make_spec. intros P L [= <-]. split_and!; [done|done|]. simpl. apply Forall_map.
  apply Forall_forall. intros s [_ I]%list_elem_of_filter. apply service_of_ok.
  destruct P as [P _]. rewrite Forall_forall in P. by apply P.
Qed.

(** ** Printing code over a schema *)

Lemma moves_in_type i j m l k k' :
  method_ok m -> generated_language l -> (forall t, lacks esc t -> moves i j (k t) (k' t)) ->
  moves i j (bindp (input_type_name m l) k) (bindp (input_type_name m l) k').
Proof.
  intros [(_ & I & _) _] L K. destruct (type_ok _ l I L) as (t & E & Lt). intros p.
  unfold bindp, input_type_name, call_input_type. rewrite E. by apply K.
Qed.

Lemma moves_out_type i j m l k k' :
  method_ok m -> generated_language l -> (forall t, lacks esc t -> moves i j (k t) (k' t)) ->
  moves i j (bindp (output_type_name m l) k) (bindp (output_type_name m l) k').
Proof.
  intros [(_ & _ & O) _] L K. destruct (type_ok _ l O L) as (t & E & Lt). intros p.
  unfold bindp, output_type_name, call_output_type. rewrite E. by apply K.
Qed.

Lemma moves_methods i f f' s :
  service_ok s -> (forall m, method_ok m -> moves i i (f m) (f' m)) ->
  moves i i (for_each f (methods_ s)) (for_each f' (methods_ s)).
Proof. intros (_ & _ & F) M. apply moves_for_each. intros m I. apply M. by eapply Forall_forall in F. Qed.

Lemma moves_services i f f' g :
  generator_ok g -> (forall s, service_ok s -> moves i i (f s) (f' s)) ->
  moves i i (for_each f (services_ g)) (for_each f' (services_ g)).
Proof. intros (_ & _ & F) M. apply moves_for_each. intros s I. apply M. by eapply Forall_forall in F. Qed.
End ok.

Lemma vars_lack_empty c : vars_lack c ∅.
Proof. apply map_Forall_empty. Qed.

Lemma vars_lack_insert c k v vars : lacks c v -> vars_lack c vars -> vars_lack c (<[k := v]> vars).
Proof. intros L V. unfold vars_lack. by apply map_Forall_insert_2. Qed.

Create HintDb lacks.
#[export] Hint Resolve to_string_lacks upper_first_lacks lacks_nil vars_lack_empty vars_lack_insert : lacks.
#[export] Hint Extern 1 (lacks _ (_ +:+ _)) => (apply lacks_app; split) : lacks.
#[export] Hint Extern 2 (lacks _ _) => (vm_compute; reflexivity) : lacks.

(** The passes of the substitution loop that every template of the generators
    needs: none has more than nine placeholders. *)
Definition min_fuel : nat := 10.

(** The components of a well-formed method, service or generator. *)
Ltac known_names :=
  repeat match goal with
  | H : method_ok ?m |- _ =>
      lazymatch goal with
      | _ : lacks esc (method_name m) |- _ => fail
      | _ => let H' := fresh in pose proof H as H'; destruct H' as [(? & ? & ?) ?];
             assert (lacks esc (method_name m)) by assumption
      end
  | H : service_ok ?s |- _ =>
      lazymatch goal with
      | _ : lacks esc (smf_service_name s) |- _ => fail
      | _ => let H' := fresh in pose proof H as H'; destruct H' as (? & ? & ?)
      end
  end.

(** One statement of printing code; a call leaves the indentation as it was. *)
Ltac moves_step :=
  lazymatch goal with
  | |- moves _ _ (seqp _ _) _ => eapply moves_seq
  | |- moves _ _ (print _) _ => apply moves_print
  | |- moves _ _ (print_vars _ _ _) _ =>
      apply moves_print_vars;
      [auto 20 with lacks
      |apply (Nat.le_trans _ (2 * min_fuel)); [apply Nat.leb_le; vm_compute; reflexivity|lia]
      |apply (Nat.le_trans _ (2 * min_fuel)); [apply Nat.leb_le; vm_compute; reflexivity|lia]]
  | |- moves _ _ indent _ => apply moves_indent; unfold max_depth; lia
  | |- moves _ _ outdent _ => apply moves_outdent; lia
  | |- moves _ _ skipp _ => apply moves_skip
  | |- moves _ _ (if _ then _ else _) _ => apply moves_if
  | |- moves _ _ (bindp (input_type_name _ _) _) _ =>
      apply moves_in_type; [assumption|unfold generated_language; tauto|intros ? ?; cbv beta zeta]
  | |- moves _ _ (bindp (output_type_name _ _) _) _ =>
      apply moves_out_type; [assumption|unfold generated_language; tauto|intros ? ?; cbv beta zeta]
  | |- moves _ _ (for_each _ (methods_ _)) _ => apply moves_methods; [assumption|intros ? ?; known_names; cbv beta zeta]
  | |- moves _ _ (for_each _ (services_ _)) _ => apply moves_services; [assumption|intros ? ?; known_names; cbv beta zeta]
  | |- moves ?i ?j _ _ => is_evar j; unify j i
  end.
Ltac solve_moves := known_names; cbv beta zeta; repeat moves_step.

(** ** A concrete schema

    Instances on which witnesses evaluate: names are not cut, and a checksum
    that adds up the characters. *)
Module SchemaDemo.

Fixpoint demo_join (sep : string) (l : list string) : string :=
  match l with
  | [] => EmptyString
  | s :: l => match l with [] => s | _ => s +:+ sep +:+ demo_join sep l end
  end.

Fixpoint char_sum (s : string) : Z :=
  match s with EmptyString => 0 | String a s => Z.of_N (N_of_ascii a) + char_sum s end.

Definition demo_libraries : Libraries.
Proof.
  refine {| crc_32 := fun s => u32 (char_sum s); join := demo_join; StripPath := fun s => s;
    StripExtension := fun s => s; StripFileName := fun s => s;
    GetFullyQualifiedName := fun l _ => demo_join "." l |}; try done.
  intros s. apply wrap_u_fits. lia.
Defined.

Definition files := gmap string string.
Definition demo_fs : FileSystem.
Proof.
  refine {| fs := files; fs_file := fun f n => f !! n; exists_ := fun f n => bool_decide (is_Some (f !! n));
    remove := fun f n => Ready (delete n f); SaveFile := fun f n c => (true, <[n := c]> f);
    create_directories := fun f _ => Ready f |}.
  - intros f n f' [= <-]. split; [apply lookup_delete_eq|]. intros m N. by apply lookup_delete_ne.
  - intros f n c f' [= <-]. split; [apply lookup_insert_eq|]. intros m N. by apply lookup_insert_ne.
  - done.
  - by intros f d f' [= <-].
Defined.

Definition demo_call : rpc_call := mk_call "Get" (mk_struct "Request" ["kv"]) (mk_struct "Response" ["kv"]).
Definition demo_service : service_def := mk_service_def "Storage" ["kv"] [demo_call] false.
Definition demo_parser : fbs_parser := mk_parser [demo_service] ["kv.fbs"] ["kv"] EmptyString.

Lemma demo_service_ok : service_def_ok demo_service.
Proof. repeat (constructor || (split; [vm_compute; reflexivity|])); vm_compute; reflexivity. Qed.

Lemma demo_parser_ok : parser_ok demo_parser.
Proof.
  split; [repeat constructor; apply demo_service_ok|].
  split; repeat constructor; vm_compute; reflexivity.
Qed.
End SchemaDemo.
