(* ===== verification/GoGen.v ===== *)
(** * The Go generator

    src/src/smfc/go_generator.cc and go_generator.h.  Each function of the
    source is a definition over the printer; a variable that a loop sets is set
    again in each iteration before it is used. *)

From Stdlib Require Import ZArith Lia Ascii String.
From stdpp Require Import base gmap list numbers strings.
From S2P Require Import Prelude Printer Schema.

Section go.
Context `{Build, Libraries}.
Variable fuel : nat.

Definition go_public_name (s : string) : string := upper_first s.

Definition print_server_method (method : smf_method) : printing :=
  bindp (input_type_name method lang_go) (fun in_type =>
  let interface_name := go_public_name (service_name_ method) in
  let vars : var_map :=
    <["InType" := in_type]> (<["MethodName" := go_public_name (method_name method)]>
    (<["RawMethodName" := "Raw" +:+ go_public_name (method_name method)]>
    (<["MethodID" := to_string (method_id method)]>
    (<["ServiceName" := interface_name +:+ "Service"]> (<["InterfaceName" := interface_name]> ∅))))) in
  print_vars fuel vars (line "func (s *$ServiceName$) $RawMethodName$(ctx context.Context, req []byte) ([]byte, error) {") ;>
  indent ;>
  print_vars fuel vars (line "return s.$InterfaceName$.$MethodName$(ctx, GetRootAs$InType$(req, 0))") ;>
  outdent ;>
  print (line (line "}")))%printing.

Definition print_server_jump_table (service : smf_service) : printing :=
  (let interface_name := go_public_name (smf_service_name service) in
  let vars : var_map :=
    <["ServiceID" := to_string (smf_service_id service)]>
    (<["ServiceName" := interface_name +:+ "Service"]> (<["InterfaceName" := interface_name]> ∅)) in
  print_vars fuel vars (line "func (s *$ServiceName$) MethodHandle(id uint32) smf.RawHandle {") ;>
  indent ;>
  print (line "switch id {") ;>
  for_each (fun m =>
    let vars := <["RawMethodName" := "Raw" +:+ go_public_name (method_name m)]>
      (<["MethodID" := to_string (method_id m)]> vars) in
    print_vars fuel vars (line "case $ServiceID$ ^ $MethodID$:") ;>
    indent ;>
    print_vars fuel vars (line "return s.$RawMethodName$") ;>
    outdent) (methods_ service) ;>
  print (line "default:") ;>
  indent ;>
  print (line "return nil") ;>
  outdent ;>
  print (line "}") ;>
  outdent ;>
  print (line (line "}")))%printing.

Definition print_server (service : smf_service) : printing :=
  (let interface_name := go_public_name (smf_service_name service) in
  let vars : var_map :=
    <["ServiceID" := to_string (smf_service_id service)]>
    (<["ServiceName" := interface_name +:+ "Service"]> (<["InterfaceName" := interface_name]> ∅)) in
  print_vars fuel vars (nl +:+ line "// $InterfaceName$ - $InterfaceName$ Server interface") ;>
  print_vars fuel vars (line "type $InterfaceName$ interface {") ;>
  indent ;>
  for_each (fun m =>
    bindp (input_type_name m lang_go) (fun in_type =>
    let vars := <["InType" := in_type]> (<["MethodName" := go_public_name (method_name m)]> vars) in
    print_vars fuel vars (line "$MethodName$(context.Context, *$InType$) ([]byte, error)"))) (methods_ service) ;>
  outdent ;>
  print (line (line "}")) ;>
  print_vars fuel vars (line "type $ServiceName$ struct {") ;>
  indent ;>
  print_vars fuel vars (line "$InterfaceName$") ;>
  outdent ;>
  print (line (line "}")) ;>
  print_vars fuel vars (line "func New$ServiceName$(s $InterfaceName$) *$ServiceName$ {") ;>
  indent ;>
  print_vars fuel vars (line "return &$ServiceName${$InterfaceName$: s}") ;>
  outdent ;>
  print (line (line "}")) ;>
  print_vars fuel vars (line "func (s *$ServiceName$) ServiceName() string {") ;>
  indent ;>
  print_vars fuel vars (line ("return " +:+ dq +:+ "$InterfaceName$" +:+ dq)) ;>
  outdent ;>
  print (line (line "}")) ;>
  print_vars fuel vars (line "func (s *$ServiceName$) ServiceID() uint32 {") ;>
  indent ;>
  print_vars fuel vars (line "return $ServiceID$") ;>
  outdent ;>
  print (line (line "}")) ;>
  print_server_jump_table service ;>
  for_each print_server_method (methods_ service))%printing.

Definition print_client_method (method : smf_method) : printing :=
  bindp (output_type_name method lang_go) (fun out_type =>
  let interface_name := go_public_name (service_name_ method) in
  let vars : var_map :=
    <["OutputType" := out_type]> (<["MethodName" := go_public_name (method_name method)]>
    (<["RawMethodName" := "Raw" +:+ go_public_name (method_name method)]>
    (<["ServiceID" := to_string (service_id_ method)]> (<["MethodID" := to_string (method_id method)]>
    (<["ClientName" := interface_name +:+ "Client"]> (<["InterfaceName" := interface_name]> ∅)))))) in
  print_vars fuel vars (line "func (s *$ClientName$) $MethodName$(ctx context.Context, req []byte) (*$OutputType$, error) {") ;>
  indent ;>
  print_vars fuel vars (line "res, err := s.$RawMethodName$(ctx, req)" +:+ line "if err != nil {") ;>
  indent ;>
  print (line "return nil, err") ;>
  outdent ;>
  print (line "}") ;>
  print_vars fuel vars (line "return GetRootAs$OutputType$(res, 0), nil") ;>
  outdent ;>
  print (line (line "}")) ;>
  print_vars fuel vars (line "func (s *$ClientName$) $RawMethodName$(ctx context.Context, req []byte) ([]byte, error) {") ;>
  indent ;>
  print_vars fuel vars (line "return s.Client.SendRecv(req, $ServiceID$^$MethodID$)") ;>
  outdent ;>
  print (line "}"))%printing.

Definition print_client (service : smf_service) : printing :=
  (let interface_name := go_public_name (smf_service_name service) in
  let vars : var_map :=
    <["ServiceID" := to_string (smf_service_id service)]>
    (<["ClientName" := interface_name +:+ "Client"]> (<["InterfaceName" := interface_name]> ∅)) in
  print (line "// Client") ;>
  print_vars fuel vars (line "type $ClientName$ struct {") ;>
  indent ;>
  print_vars fuel vars (line "*smf.Client") ;>
  outdent ;>
  print (line (line "}")) ;>
  print_vars fuel vars (line "func New$ClientName$(c *smf.Client) *$ClientName$ {") ;>
  indent ;>
  print_vars fuel vars (line "return &$ClientName${Client: c}") ;>
  outdent ;>
  print (line (line "}")) ;>
  for_each print_client_method (methods_ service))%printing.

(** [package_parts().back()] of no parts is undefined. *)
Definition generate_header_prologue (g : generator) : printing :=
  (match last (package_parts g) with
  | None => fun _ => Undefined
  | Some package =>
      let vars : var_map := <["package" := package]> (<["filename" := input_filename g]> ∅) in
      print (line "// Generated by smfc.") ;>
      print (line "// Any local changes WILL BE LOST.") ;>
      print_vars fuel vars (line "// source: $filename$") ;>
      print_vars fuel vars (line (line "package $package$"))
  end)%printing.

Definition generate_header_includes : printing :=
  (print (line "import (") ;>
  indent ;>
  print (line (dq +:+ "context" +:+ dq) +:+ line (dq +:+ "github.com/smfrpc/smf-go/src/smf" +:+ dq)) ;>
  outdent ;>
  print (line ")"))%printing.

Definition generate_header_services (g : generator) : printing :=
  (for_each print_server (services_ g) ;> for_each print_client (services_ g))%printing.

(** [output_filename]: the directory, then the parts of the package. *)
Definition go_output_filename (g : generator) : string :=
  output_dir g +:+ "/" +:+ foldr (fun part s => part +:+ "/" +:+ s) EmptyString (package_parts g) +:+
  input_filename_without_ext g +:+ ".smf.fb.go".

(** [gen] up to the contents. *)
Definition go_print (g : generator) : printing :=
  (generate_header_prologue g ;> generate_header_includes ;> generate_header_services g)%printing.

Definition go_printer : smf_printer := set_indent_step 1 (set_indent_char "009"%char (smf_printer_make esc)).

Definition go_gen `{FileSystem} (g : generator) (f : fs) : outcome (option string * fs) :=
  p ← go_print g go_printer;
  f ← create_directories f (join "/" (package_parts g));
  save_conents_to_file (go_output_filename g) (contents p) f.

End go.

(** ** Indentation *)

Section go_moves.
Context `{Build, Libraries}.
Variables fuel fuel' : nat.
Hypothesis fuel_ok : (min_fuel <= fuel)%nat.
Hypothesis fuel_ok' : (min_fuel <= fuel')%nat.

Lemma go_public_name_lacks s : lacks esc s -> lacks esc (go_public_name s).
Proof. apply upper_first_lacks. Qed.
#[local] Hint Resolve go_public_name_lacks : lacks.

Lemma go_server_method_moves i m : 0 <= i <= 100 -> method_ok m -> moves i i (print_server_method fuel m) (print_server_method fuel' m).
Proof. intros I M. unfold print_server_method. solve_moves. Qed.

Lemma go_jump_table_moves i s : 0 <= i <= 100 -> service_ok s -> moves i i (print_server_jump_table fuel s) (print_server_jump_table fuel' s).
Proof. intros I M. unfold print_server_jump_table. solve_moves. Qed.

Lemma go_server_moves i s : 0 <= i <= 100 -> service_ok s -> moves i i (print_server fuel s) (print_server fuel' s).
Proof.
  intros I M. unfold print_server. solve_moves; [by apply go_jump_table_moves|by apply go_server_method_moves].
Qed.

Lemma go_client_method_moves i m : 0 <= i <= 100 -> method_ok m -> moves i i (print_client_method fuel m) (print_client_method fuel' m).
Proof. intros I M. unfold print_client_method. solve_moves. Qed.

Lemma go_client_moves i s : 0 <= i <= 100 -> service_ok s -> moves i i (print_client fuel s) (print_client fuel' s).
Proof. intros I M. unfold print_client. solve_moves. by apply go_client_method_moves. Qed.

Lemma go_print_moves i g :
  0 <= i <= 100 -> generator_ok g -> package_parts g <> [] -> moves i i (go_print fuel g) (go_print fuel' g).
Proof.
  intros I G P. destruct (last (package_parts g)) as [pk|] eqn:L; [|by apply last_None in L].
  assert (lacks esc pk).
  { destruct G as [(_ & _ & F) _]. rewrite Forall_forall in F. apply F. by apply last_Some_elem_of. }
  assert (lacks esc (input_filename g)) by apply G.
  unfold go_print, generate_header_prologue, generate_header_includes, generate_header_services. rewrite L.
  solve_moves; [by apply go_server_moves|by apply go_client_moves].
Qed.
End go_moves.
