(* ===== verification/PythonGen.v ===== *)
(** * The Python generator

    src/src/smfc/python_generator.cc and python_generator.h. *)

From Stdlib Require Import ZArith Lia Ascii String.
From stdpp Require Import base gmap list numbers strings.
From S2P Require Import Prelude Printer Schema.

(** [s.substr(0, s.rfind(c))]. *)
Fixpoint before_last (c : ascii) (s : string) : option string :=
  match s with
  | EmptyString => None
  | String a s =>
      match before_last c s with
      | Some b => Some (String a b)
      | None => if Ascii.eqb a c then Some EmptyString else None
      end
  end.

(** [std::set<std::string>::insert], on the sorted list of the elements. *)
Fixpoint set_insert (x : string) (l : list string) : list string :=
  match l with
  | [] => [x]
  | y :: l =>
      match String.compare x y with
      | Lt => x :: y :: l
      | Eq => y :: l
      | Gt => y :: set_insert x l
      end
  end.

Section python.
Context `{Build, Libraries}.
Variable fuel : nat.

Definition python_public_name (s : string) : string := upper_first s.

Definition print_client_method (method : smf_method) : printing :=
  bindp (output_type_name method lang_python) (fun out_type =>
  let vars : var_map :=
    <["RequestID" := to_string (Z.lxor (service_id_ method) (method_id method))]>
    (<["OutType" := out_type]> (<["ServiceID" := to_string (service_id_ method)]>
    (<["MethodID" := to_string (method_id method)]>
    (<["MethodName" := python_public_name (method_name method)]> ∅)))) in
  print_vars fuel vars (line "async def $MethodName$(self, x):") ;>
  indent ;>
  print_vars fuel vars (line "# request id = $ServiceID$ ^ $MethodID$") ;>
  print_vars fuel vars (line "buf, status = await self._conn.call(x, $RequestID$)") ;>
  print_vars fuel vars (line "return $OutType$.GetRootAsPutResponse(buf, 0), status") ;>
  outdent)%printing.

(** The loop over the methods: a blank line between two of them. *)
Fixpoint print_client_methods (l : list smf_method) : printing :=
  match l with
  | [] => skipp
  | m :: l =>
      (indent ;>
      print_client_method m ;>
      outdent ;>
      (match l with [] => skipp | _ => print nl end) ;>
      print_client_methods l)%printing
  end.

Definition print_client (service : smf_service) : printing :=
  (let interface_name := python_public_name (smf_service_name service) in
  let vars : var_map :=
    <["ServiceID" := to_string (smf_service_id service)]>
    (<["ClientName" := interface_name +:+ "Client"]> (<["InterfaceName" := interface_name]> ∅)) in
  print_vars fuel vars (line "class $ClientName$:") ;>
  indent ;>
  print (line "def __init__(self, conn):") ;>
  indent ;>
  print (line (line "self._conn = conn")) ;>
  outdent ;>
  outdent ;>
  print_client_methods (methods_ service))%printing.

Definition generate_header_prologue (g : generator) : printing :=
  (let vars : var_map := <["filename" := input_filename g]> ∅ in
  print (line "# Generated by smfc.") ;>
  print (line "# Any local changes WILL BE LOST.") ;>
  print_vars fuel vars (line (line "# source: $filename$")))%printing.

(** The module that holds a type; a type without a point is fatal. *)
Definition import_of (m : smf_method) : outcome string :=
  type ← output_type_name m lang_python;
  match before_last "."%char type with
  | Some module => Ready module
  | None => Failed (runtime_error "Invalid type")
  end.

Fixpoint collect_imports (ms : list smf_method) (imports : list string) : outcome (list string) :=
  match ms with
  | [] => Ready imports
  | m :: ms => i ← import_of m; collect_imports ms (set_insert i imports)
  end.

Definition generate_header_includes (g : generator) : printing :=
  bindp (collect_imports (concat (map methods_ (services_ g))) []) (fun imports =>
  for_each (fun import => print "import " ;> print (c_str import) ;> print nl) imports ;>
  print nl)%printing.

Definition generate_header_services (g : generator) : printing := for_each print_client (services_ g).

Definition python_output_filename (g : generator) : string :=
  output_dir g +:+ "/" +:+ foldr (fun part s => part +:+ "/" +:+ s) EmptyString (package_parts g) +:+
  input_filename_without_ext g +:+ "_smf_client.py".

Definition python_print (g : generator) : printing :=
  (generate_header_prologue g ;> generate_header_includes g ;> generate_header_services g)%printing.

Definition python_printer : smf_printer := set_indent_step 4 (set_indent_char " "%char (smf_printer_make esc)).

Definition python_gen `{FileSystem} (g : generator) (f : fs) : outcome (option string * fs) :=
  p ← python_print g python_printer;
  f ← create_directories f (join "/" (package_parts g));
  save_conents_to_file (python_output_filename g) (contents p) f.

End python.

(** ** Indentation *)

Section python_moves.
Context `{Build, Libraries}.
Variables fuel fuel' : nat.
Hypothesis fuel_ok : (min_fuel <= fuel)%nat.
Hypothesis fuel_ok' : (min_fuel <= fuel')%nat.

Lemma python_public_name_lacks s : lacks esc s -> lacks esc (python_public_name s).
Proof. apply upper_first_lacks. Qed.
#[local] Hint Resolve python_public_name_lacks : lacks.

Lemma python_client_method_moves i m : 0 <= i <= 100 -> method_ok m -> moves i i (print_client_method fuel m) (print_client_method fuel' m).
Proof. intros I M. unfold print_client_method. solve_moves. Qed.

Lemma python_client_methods_moves i ms : 0 <= i < 100 -> Forall method_ok ms -> moves i i (print_client_methods fuel ms) (print_client_methods fuel' ms).
Proof.
  intros I. induction ms as [|m ms IH]; intros F; [apply moves_skip|]. apply Forall_cons in F as [M F].
  cbn [print_client_methods]. solve_moves; [apply python_client_method_moves; (lia || done)| |by apply IH].
  destruct ms; solve_moves.
Qed.

Lemma python_client_moves i s : 0 <= i < 100 -> service_ok s -> moves i i (print_client fuel s) (print_client fuel' s).
Proof. intros I M. unfold print_client. solve_moves. by apply python_client_methods_moves. Qed.

(** Every Python type has a point. *)
Lemma before_last_app c s t : lacks c t -> before_last c (s +:+ String c t) = Some s.
Proof.
  intros L. induction s as [|a s IH]; simpl.
  - assert (before_last c t = None) as ->; [|by rewrite Ascii.eqb_refl].
    induction t as [|b t IH]; [done|]. apply lacks_cons in L as [N L]. simpl.
    by rewrite IH, (proj2 (Ascii.eqb_neq _ _) N).
  - by rewrite IH.
Qed.

Lemma before_last_some c s : ~ lacks c s -> exists b, before_last c s = Some b.
Proof.
  induction s as [|a s IH]; intros N; [by destruct N|]. simpl.
  destruct (decide (lacks c s)) as [L|L].
  - destruct (before_last c s) as [b|]; [by eexists|]. destruct (Ascii.eqb_spec a c) as [->|Ne]; [by eexists|].
    destruct N. by apply lacks_cons.
  - destruct (IH L) as [b ->]. by eexists.
Qed.

Lemma join_point (l : list string) s t : ~ lacks "."%char (join "." (l ++ [s; t])).
Proof.
  induction l as [|x [|y l] IH]; simpl in *.
  - rewrite join_cons, !lacks_app. intros (_ & L & _). by vm_compute in L.
  - rewrite join_cons, !lacks_app. intros (_ & L & _). by vm_compute in L.
  - rewrite join_cons, !lacks_app. intros (_ & L & _). by vm_compute in L.
Qed.

Lemma import_of_ready m : exists i, import_of m = Ready i.
Proof.
  unfold import_of, output_type_name, call_output_type, type. simpl.
  destruct (before_last_some "."%char (join "." (sd_components (call_response (method_ m)) ++
    [sd_name (call_response (method_ m)); sd_name (call_response (method_ m))]))) as [b ->]; [|by eexists].
  apply join_point.
Qed.

Lemma collect_imports_ready ms l : exists r, collect_imports ms l = Ready r.
Proof.
  revert l. induction ms as [|m ms IH]; intros l; [by eexists|]. simpl.
  destruct (import_of_ready m) as [i ->]. simpl. apply IH.
Qed.

Lemma python_print_moves i g : 0 <= i < 100 -> generator_ok g -> moves i i (python_print fuel g) (python_print fuel' g).
Proof.
  intros I G. assert (lacks esc (input_filename g)) by apply G.
  unfold python_print, generate_header_prologue, generate_header_includes, generate_header_services.
  destruct (collect_imports_ready (concat (map methods_ (services_ g))) []) as [r E]. unfold bindp. rewrite E. simpl.
  change (fun p => seqp ?a ?b p) with (seqp a b). solve_moves.
  - apply moves_for_each. intros x _. solve_moves.
  - by apply python_client_moves.
Qed.
End python_moves.
