(* ===== verification/CppGen.v ===== *)
(** * The C++ generator

    src/src/smfc/cpp_generator.cc and cpp_generator.h. *)

From Stdlib Require Import ZArith Lia Ascii String.
From stdpp Require Import base gmap list numbers strings.
From S2P Require Import Prelude Printer Schema.

(** ** Names *)

(** One of the digits of [0123456789abcdef]. *)
Definition hex_digit (n : N) : ascii :=
  ascii_of_N (if (n <? 10)%N then 48 + n else 87 + n).

Fixpoint file_name_identifier (filename : string) : string :=
  match filename with
  | EmptyString => EmptyString
  | String c filename =>
      (if isalnum c then String (toupper c) EmptyString
       else if Ascii.eqb c "_"%char then String c EmptyString
       else String "_"%char (String (hex_digit (N.land (N.shiftr (N_of_ascii c) 4) 15))
              (String (hex_digit (N.land (N_of_ascii c) 15)) EmptyString)))
      +:+ file_name_identifier filename
  end.

Definition is_camel_case (s : string) : bool := negb (str_all (fun c => negb (isupper c)) s).

Fixpoint lower_alnum (s : string) : string :=
  match s with
  | EmptyString => EmptyString
  | String c s => String (if isalnum c then tolower c else c) (lower_alnum s)
  end.
Definition lower_vec (vec : list string) : string := lower_alnum (foldr String.append EmptyString vec).

Definition proper_postfix_token (s postfix : string) : outcome string :=
  if is_empty s && is_empty postfix then Failed (runtime_error "Can't compute postfix token")
  else if is_camel_case s then Ready (upper_first s +:+ upper_first postfix)
  else Ready (lower_vec [s; "_"; postfix]).

Definition proper_prefix_token (prefix s : string) : outcome string :=
  if is_empty s && is_empty prefix then Failed (runtime_error "Can't compute prefix token")
  else if is_camel_case s then Ready (upper_first prefix +:+ upper_first s)
  else Ready (lower_vec [prefix; "_"; s]).

(** A loop that knows the index of the element. *)
Fixpoint for_each_index {A} (f : nat -> A -> printing) (i : nat) (l : list A) : printing :=
  match l with [] => skipp | x :: l => seqp (f i x) (for_each_index f (S i) l) end.

Definition index_string (n : nat) : string := to_string (Z.of_nat n).

Section cpp.
Context `{Build, Libraries}.
Variable fuel : nat.

Definition print_header_service_ctor_dtor (service : smf_service) : printing :=
  (let vars : var_map := <["Service" := smf_service_name service]> ∅ in
  let max := length (methods_ service) in
  print_vars fuel vars (line "virtual ~$Service$() = default;") ;>
  print_vars fuel vars (line "$Service$() : handles_{{") ;>
  indent ;>
  for_each_index (fun i method =>
    bindp (proper_prefix_token "raw" (method_name method)) (fun raw_name =>
    bindp (input_type_name method lang_cpp) (fun in_type =>
    bindp (output_type_name method lang_cpp) (fun out_type =>
    let vars := <["MethodId" := to_string (method_id method)]> (<["OutType" := out_type]>
      (<["InType" := in_type]> (<["RawMethodName" := raw_name]>
      (<["MethodName" := method_name method]> vars)))) in
    print (line "smf::rpc_service_method_handle(") ;>
    indent ;>
    print (line "[this](smf::rpc_recv_context c) -> seastar::future<smf::rpc_envelope> {") ;>
    indent ;>
    print (line "// Session accounting" +:+ line "auto session_id = c.session();") ;>
    print_vars fuel vars (line "return $RawMethodName$(std::move(c)).then([session_id](smf::rpc_envelope e) {") ;>
    indent ;>
    print (line "e.letter.header.mutate_session(session_id);" +:+
           line "return seastar::make_ready_future<smf::rpc_envelope>(std::move(e));") ;>
    outdent ;>
    (if (i <? max - 1)%nat then print (line "});}),") else print (line "});})")) ;>
    outdent ;>
    outdent)))) 0 (methods_ service) ;>
  outdent ;>
  print (line "}} {}"))%printing.

Definition print_header_service_handle_request_id (service : smf_service) : printing :=
  (print (line "virtual smf::rpc_service_method_handle *" +:+
         line "method_for_request_id(uint32_t idx) override final {") ;>
  indent ;>
  print (line "switch(idx){") ;>
  indent ;>
  for_each_index (fun i method =>
    let vars : var_map := <["VectorIdx" := index_string i]> (<["MethodId" := to_string (method_id method)]>
      (<["ServiceID" := to_string (service_id_ method)]> ∅)) in
    print_vars fuel vars (line "case ($ServiceID$ ^ $MethodId$): return &handles_[$VectorIdx$];")) 0 (methods_ service) ;>
  print (line "default: return nullptr;") ;>
  outdent ;>
  print (line "}") ;>
  outdent ;>
  print (line "}"))%printing.

Definition print_header_service_handles (service : smf_service) : printing :=
  (let vars : var_map := <["ServiceHandleSize" := index_string (length (methods_ service))]> ∅ in
  print_vars fuel vars (line "virtual const std::array<smf::rpc_service_method_handle, $ServiceHandleSize$> &" +:+
                        line "methods() final {") ;>
  indent ;>
  print (line "return handles_;") ;>
  outdent ;>
  print (line "}"))%printing.

Definition print_header_service_method (method : smf_method) : printing :=
  bindp (proper_prefix_token "raw" (method_name method)) (fun raw_name =>
  bindp (input_type_name method lang_cpp) (fun in_type =>
  bindp (output_type_name method lang_cpp) (fun out_type =>
  let vars : var_map := <["OutType" := out_type]> (<["InType" := in_type]>
    (<["MethodId" := to_string (method_id method)]> (<["MethodName" := method_name method]>
    (<["RawMethodName" := raw_name]> ∅)))) in
  print_vars fuel vars (line "inline virtual" +:+ line "seastar::future<smf::rpc_typed_envelope<$OutType$>>") ;>
  print_vars fuel vars (line "$MethodName$(smf::rpc_recv_typed_context<$InType$> &&rec) {") ;>
  indent ;>
  print_vars fuel vars (line "using out_type = $OutType$;" +:+
    line "using env_t = smf::rpc_typed_envelope<out_type>;" +:+
    line "env_t data;" +:+
    line "// User should override this method." +:+
    line "//" +:+
    line "// Helpful for clients to set the status." +:+
    line "// Typically follows HTTP style. Not imposed by smf whatsoever." +:+
    line "// i.e. 501 == Method not implemented" +:+
    line "data.envelope.set_status(501);" +:+
    line "return seastar::make_ready_future<env_t>(std::move(data));") ;>
  outdent ;>
  print (line "}") ;>
  print_vars fuel vars (line "inline virtual" +:+ line "seastar::future<smf::rpc_envelope>") ;>
  print_vars fuel vars (line "$RawMethodName$(smf::rpc_recv_context &&c) {") ;>
  indent ;>
  print_vars fuel vars (line "using inner_t = $InType$;" +:+
    line "using input_t = smf::rpc_recv_typed_context<inner_t>;" +:+
    line "using mid_t = smf::rpc_typed_envelope<$OutType$>;" +:+
    line "return $MethodName$(input_t(std::move(c))).then([this](mid_t x) {") ;>
  indent ;>
  print (line "return seastar::make_ready_future<smf::rpc_envelope>(x.serialize_data());") ;>
  outdent ;>
  print (line "});") ;>
  outdent ;>
  print (line "}"))))%printing.

Definition print_header_service (service : smf_service) : printing :=
  (let vars : var_map := <["ServiceHandleSize" := index_string (length (methods_ service))]>
    (<["ServiceID" := to_string (smf_service_id service)]> (<["Service" := smf_service_name service]> ∅)) in
  print_vars fuel vars (line "class $Service$: public smf::rpc_service {") ;>
  print (line " private:") ;>
  print_vars fuel vars (line "  std::array<smf::rpc_service_method_handle, $ServiceHandleSize$> handles_;") ;>
  print (line " public:") ;>
  indent ;>
  print_header_service_ctor_dtor service ;>
  print (line "virtual const char *" +:+ line "service_name() const override final {") ;>
  indent ;>
  print_vars fuel vars (line ("return " +:+ dq +:+ "$Service$" +:+ dq +:+ ";")) ;>
  outdent ;>
  print (line "}") ;>
  print (line "virtual uint32_t" +:+ line "service_id() const override final {") ;>
  indent ;>
  print_vars fuel vars (line "return $ServiceID$;") ;>
  outdent ;>
  print (line "}") ;>
  print (line "virtual std::ostream &" +:+ line "print(std::ostream &o) const override final {") ;>
  indent ;>
  print (line "return o << *this;") ;>
  outdent ;>
  print (line "}") ;>
  print_header_service_handles service ;>
  print_header_service_handle_request_id service ;>
  for_each print_header_service_method (methods_ service) ;>
  outdent ;>
  print_vars fuel vars (line "}; // end of service: $Service$"))%printing.

Definition print_header_client_method (method : smf_method) : printing :=
  bindp (proper_prefix_token "raw" (method_name method)) (fun raw_name =>
  bindp (input_type_name method lang_cpp) (fun in_type =>
  bindp (output_type_name method lang_cpp) (fun out_type =>
  let vars : var_map := <["OutType" := out_type]> (<["InType" := in_type]>
    (<["ServiceName" := service_name_ method]> (<["ServiceID" := to_string (service_id_ method)]>
    (<["MethodID" := to_string (method_id method)]> (<["MethodName" := method_name method]>
    (<["RawMethodName" := raw_name]> ∅)))))) in
  print_vars fuel vars (line "inline virtual" +:+
    line "seastar::future<smf::rpc_recv_typed_context<$OutType$>>" +:+
    line "$MethodName$(smf::rpc_typed_envelope<$InType$> x) {") ;>
  print_vars fuel vars (line "  return $MethodName$(x.serialize_data());") ;>
  print (line "}") ;>
  print_vars fuel vars (line "inline virtual" +:+
    line "seastar::future<smf::rpc_recv_typed_context<$OutType$>>" +:+
    line "$MethodName$(smf::rpc_envelope e) {") ;>
  indent ;>
  print_vars fuel vars (line "/// ServiceID: $ServiceID$" +:+
    line "/// MethodID:  $MethodID$" +:+
    line "e.set_request_id($ServiceID$ ^ $MethodID$);" +:+
    line "return send<$OutType$>(std::move(e));") ;>
  outdent ;>
  print (line "}"))))%printing.

Definition print_header_client (service : smf_service) : printing :=
  bindp (proper_postfix_token (smf_service_name service) "client") (fun client_name =>
  let vars : var_map := <["ServiceID" := to_string (smf_service_id service)]> (<["ClientName" := client_name]> ∅) in
  print_vars fuel vars "class $ClientName$: " ;>
  print (line "public smf::rpc_client {") ;>
  indent ;>
  print (line "public:") ;>
  indent ;>
  print_vars fuel vars (line "explicit $ClientName$(seastar::ipv4_addr server_addr)" +:+
                        line ":smf::rpc_client(std::move(server_addr)) {}") ;>
  print_vars fuel vars (line "explicit $ClientName$(smf::rpc_client_opts o)" +:+
                        line ":smf::rpc_client(std::move(o)) {}") ;>
  print_vars fuel vars (line "$ClientName$($ClientName$ &&o) = default;") ;>
  print_vars fuel vars (line "virtual ~$ClientName$() = default;") ;>
  print (line "virtual const char *name() const final {") ;>
  indent ;>
  print_vars fuel vars (line ("return " +:+ dq +:+ "$ClientName$" +:+ dq +:+ ";")) ;>
  outdent ;>
  print (line "}") ;>
  for_each print_header_client_method (methods_ service) ;>
  outdent ;>
  print_vars fuel vars (line "}; // end of rpc client: $ClientName$") ;>
  outdent)%printing.

Definition print_std_ostream_services (service : smf_service) : printing :=
  (let vars : var_map := <["ServiceHandleSize" := index_string (length (methods_ service))]>
    (<["ServiceID" := to_string (smf_service_id service)]>
    (<["FQDNService" := join "::" (sv_components (service_ service) ++ [smf_service_name service])]> ∅)) in
  print (line "namespace std {") ;>
  indent ;>
  print_vars fuel vars (line "inline ostream& operator<<(ostream &o, const $FQDNService$ &s) {") ;>
  indent ;>
  print_vars fuel vars (line ("o << " +:+ dq +:+ "$FQDNService$={total_handles=$ServiceHandleSize$," +:+ dq +:+ ";")) ;>
  for_each_index (fun i method =>
    (if (i =? 0)%nat then skipp else print (line ("o << " +:+ dq +:+ ", " +:+ dq +:+ ";"))) ;>
    bindp (input_type_name method lang_cpp) (fun in_type =>
    bindp (output_type_name method lang_cpp) (fun out_type =>
    let vars := <["MethodId" := to_string (method_id method)]> (<["OutType" := out_type]>
      (<["InType" := in_type]> (<["MethodName" := method_name method]> vars))) in
    print_vars fuel vars (line ("o << " +:+ dq +:+ "method={id=$MethodId$, fn=$MethodName$($InType$):$OutType$}" +:+ dq +:+ ";")))))
    0 (methods_ service) ;>
  print (line ("return o << " +:+ dq +:+ "}" +:+ dq +:+ ";")) ;>
  outdent ;>
  print (line "}") ;>
  outdent ;>
  print (line "} // namespace std"))%printing.

(** ** The members of [cpp_generator] *)

Definition message_header_ext : string := "_generated.h".

Definition file_vars (g : generator) : var_map :=
  <["filename_identifier" := file_name_identifier (input_filename_without_ext g)]>
  (<["filename" := input_filename g]> ∅).

Definition generate_header_prologue (g : generator) : printing :=
  (let vars := <["message_header_ext" := message_header_ext]>
    (<["filename_base" := input_filename_without_ext g]> (file_vars g)) in
  print (line "// Generated by smfc.") ;>
  print (line "// Any local changes WILL BE LOST.") ;>
  print_vars fuel vars (line "// source: $filename$") ;>
  for_each (fun p =>
    if bool_decide (p = input_filename g) then skipp
    else print_vars fuel (<["header" := p]> vars) (line "// transitive fbs: $header$"))
    (included_files_ (g_parser g)) ;>
  print (line "#pragma once") ;>
  print_vars fuel vars (line "#ifndef SMF_$filename_identifier$_INCLUDED") ;>
  print_vars fuel vars (line (line "#define SMF_$filename_identifier$_INCLUDED")))%printing.

(** The loop variable of the inner loop hides the one of the outer loop. *)
Definition generate_header_prologue_forward_decl_external (g : generator) : printing :=
  (for_each (fun _ => for_each (fun srv => print_std_ostream_services srv) (services_ g)) (services_ g) ;>
  print nl)%printing.

Definition generate_header_prologue_forward_decl (g : generator) : printing :=
  (for_each (fun srv =>
    bindp (proper_postfix_token (smf_service_name srv) "client") (fun client_name =>
    let vars : var_map := <["ClientName" := client_name]> (<["Service" := smf_service_name srv]> ∅) in
    print_vars fuel vars (line "class $Service$;") ;>
    print_vars fuel vars (line "class $ClientName$;"))) (services_ g) ;>
  print nl)%printing.

Definition generate_header_prologue_namespace (g : generator) : printing :=
  (if is_empty (package g) then skipp
  else
    for_each (fun part => print_vars fuel (<["part" := part]> ∅) (line "namespace $part$ {")) (package_parts g) ;>
    print nl)%printing.

Definition headers : list string :=
  ["ostream"; "seastar/core/sstring.hh"; "smf/rpc_service.h"; "smf/rpc_client.h"; "smf/rpc_recv_typed_context.h";
   "smf/rpc_typed_envelope.h"; "smf/log.h"].

Definition generate_header_prologue_includes (g : generator) : printing :=
  (for_each (fun hdr => print_vars fuel (<["header" := hdr]> ∅) (line "#include <$header$>")) headers ;>
  print nl ;>
  print_vars fuel (<["message_header_ext" := message_header_ext]>
      (<["filename_base" := input_filename_without_ext g]> (<["header" := "smf/log.h"]> (file_vars g))))
    (line (line ("#include " +:+ dq +:+ "$filename_base$$message_header_ext$" +:+ dq))))%printing.

Definition generate_header_epilogue_namespace (g : generator) : printing :=
  ((if is_empty (package g) then skipp
  else
    for_each (fun part => print_vars fuel (<["part" := part]> (file_vars g)) (line "}  // namespace $part$"))
      (rev (package_parts g)) ;>
    print_vars fuel (file_vars g) nl) ;>
  print_vars fuel (file_vars g) nl)%printing.

Definition generate_header_epilogue (g : generator) : printing :=
  (print (nl +:+ nl) ;>
  print_vars fuel (file_vars g) (line "#endif  // SMF_$filename_identifier$_INCLUDED"))%printing.

Definition generate_header_services (g : generator) : printing :=
  for_each (fun srv =>
    print_header_service srv ;>
    print nl ;>
    print_header_client srv ;>
    print nl)%printing (services_ g).

Definition cpp_output_filename (g : generator) : string :=
  output_dir g +:+ "/" +:+ input_filename_without_ext g +:+ ".smf.fb.h".

Definition cpp_print (g : generator) : printing :=
  (generate_header_prologue g ;>
  generate_header_prologue_includes g ;>
  generate_header_prologue_namespace g ;>
  generate_header_prologue_forward_decl g ;>
  generate_header_epilogue_namespace g ;>
  generate_header_prologue_forward_decl_external g ;>
  generate_header_prologue_namespace g ;>
  generate_header_services g ;>
  generate_header_epilogue_namespace g ;>
  generate_header_epilogue g)%printing.

Definition cpp_printer : smf_printer := smf_printer_make esc.

Definition cpp_gen `{FileSystem} (g : generator) (f : fs) : outcome (option string * fs) :=
  p ← cpp_print g cpp_printer;
  save_conents_to_file (cpp_output_filename g) (contents p) f.

End cpp.

(** ** Indentation *)

Section cpp_moves.
Context `{Build, Libraries}.
Variables fuel fuel' : nat.
Hypothesis fuel_ok : (min_fuel <= fuel)%nat.
Hypothesis fuel_ok' : (min_fuel <= fuel')%nat.

Lemma lower_alnum_lacks s : lacks esc s -> lacks esc (lower_alnum s).
Proof.
  induction s as [|a s IH]; [done|]. simpl. rewrite !lacks_cons. intros [? ?].
  split; [case_goal; [by apply tolower_esc|done]|by apply IH].
Qed.

Lemma postfix_token_ready s p :
  p <> EmptyString -> lacks esc s -> lacks esc p -> exists t, proper_postfix_token s p = Ready t /\ lacks esc t.
Proof.
  intros N S P. unfold proper_postfix_token. destruct p as [|a p]; [done|]. rewrite andb_false_r. case_goal.
  - eexists. split; [done|]. apply lacks_app. split; by apply upper_first_lacks.
  - eexists. split; [done|]. apply lower_alnum_lacks.
    change (lacks esc (s +:+ "_" +:+ String a p +:+ EmptyString)). rewrite !lacks_app. by split_and!.
Qed.

Lemma prefix_token_ready p s :
  p <> EmptyString -> lacks esc p -> lacks esc s -> exists t, proper_prefix_token p s = Ready t /\ lacks esc t.
Proof.
  intros N P S. unfold proper_prefix_token. destruct p as [|a p]; [done|]. rewrite andb_false_r. case_goal.
  - eexists. split; [done|]. apply lacks_app. split; by apply upper_first_lacks.
  - eexists. split; [done|]. apply lower_alnum_lacks.
    change (lacks esc (String a p +:+ "_" +:+ s +:+ EmptyString)). rewrite !lacks_app. by split_and!.
Qed.

Lemma moves_prefix i j m k k' :
  method_ok m -> (forall t, lacks esc t -> moves i j (k t) (k' t)) ->
  moves i j (bindp (proper_prefix_token "raw" (method_name m)) k) (bindp (proper_prefix_token "raw" (method_name m)) k').
Proof.
  intros [(N & _) _] K p. destruct (prefix_token_ready "raw" (method_name m)) as (t & E & L); [done|done|done|].
  unfold bindp. rewrite E. by apply K.
Qed.

Lemma moves_postfix i j s k k' :
  service_ok s -> (forall t, lacks esc t -> moves i j (k t) (k' t)) ->
  moves i j (bindp (proper_postfix_token (smf_service_name s) "client") k)
    (bindp (proper_postfix_token (smf_service_name s) "client") k').
Proof.
  intros [N _] K p. destruct (postfix_token_ready (smf_service_name s) "client") as (t & E & L); [done|done|done|].
  unfold bindp. rewrite E. by apply K.
Qed.

Lemma moves_for_each_index i f f' n s :
  service_ok s -> (forall k m, method_ok m -> moves i i (f k m) (f' k m)) ->
  moves i i (for_each_index f n (methods_ s)) (for_each_index f' n (methods_ s)).
Proof.
  intros (_ & _ & F) M. revert n. induction F as [|m l Hm F IH]; intros n; [apply moves_skip|].
  simpl. eapply moves_seq; [by apply M|apply IH].
Qed.

Ltac cpp_step :=
  lazymatch goal with
  | |- moves _ _ (bindp (proper_prefix_token _ _) _) _ => apply moves_prefix; [assumption|intros ? ?; cbv beta zeta]
  | |- moves _ _ (bindp (proper_postfix_token _ _) _) _ => apply moves_postfix; [assumption|intros ? ?; cbv beta zeta]
  | |- moves _ _ (for_each_index _ _ (methods_ _)) _ =>
      apply moves_for_each_index; [assumption|intros ? ? ?; known_names; cbv beta zeta]
  | _ => moves_step
  end.
Ltac cpp_moves := known_names; cbv beta zeta; repeat cpp_step.

Lemma index_string_lacks n : lacks esc (index_string n).
Proof. apply to_string_lacks. Qed.
#[local] Hint Resolve index_string_lacks : lacks.

Lemma ctor_dtor_moves i s : 0 <= i <= 100 -> service_ok s -> moves i i (print_header_service_ctor_dtor fuel s) (print_header_service_ctor_dtor fuel' s).
Proof. intros I S. unfold print_header_service_ctor_dtor. cpp_moves. Qed.

Lemma handle_request_id_moves i s : 0 <= i <= 100 -> service_ok s -> moves i i (print_header_service_handle_request_id fuel s) (print_header_service_handle_request_id fuel' s).
Proof. intros I S. unfold print_header_service_handle_request_id. cpp_moves. Qed.

Lemma handles_moves i s : 0 <= i <= 100 -> service_ok s -> moves i i (print_header_service_handles fuel s) (print_header_service_handles fuel' s).
Proof. intros I S. unfold print_header_service_handles. cpp_moves. Qed.

Lemma service_method_moves i m : 0 <= i <= 100 -> method_ok m -> moves i i (print_header_service_method fuel m) (print_header_service_method fuel' m).
Proof. intros I M. unfold print_header_service_method. cpp_moves. Qed.

Lemma service_moves i s : 0 <= i < 100 -> service_ok s -> moves i i (print_header_service fuel s) (print_header_service fuel' s).
Proof.
  intros I S. unfold print_header_service. cpp_moves.
  - apply ctor_dtor_moves; (done || lia).
  - apply handles_moves; (done || lia).
  - apply handle_request_id_moves; (done || lia).
  - apply service_method_moves; (done || lia).
Qed.

Lemma client_method_moves i m : 0 <= i <= 100 -> method_ok m -> moves i i (print_header_client_method fuel m) (print_header_client_method fuel' m).
Proof. intros I M. unfold print_header_client_method. cpp_moves. Qed.

Lemma client_moves i s : 0 <= i < 90 -> service_ok s -> moves i i (print_header_client fuel s) (print_header_client fuel' s).
Proof. intros I S. unfold print_header_client. cpp_moves. apply client_method_moves; (done || lia). Qed.

Lemma ostream_moves i s : 0 <= i < 90 -> service_ok s -> moves i i (print_std_ostream_services fuel s) (print_std_ostream_services fuel' s).
Proof.
  intros I S. unfold print_std_ostream_services.
  assert (lacks esc (join "::" (sv_components (service_ s) ++ [smf_service_name s]))).
  { apply join_lacks; [done|]. apply Forall_app. destruct S as (? & ? & _). split; [done|by repeat constructor]. }
  cpp_moves.
Qed.

Lemma file_name_identifier_chars s :
  str_all (fun c => isalnum c || Ascii.eqb c "_"%char) (file_name_identifier s) = true.
Proof.
  assert (forall t r P, str_all P (t +:+ r) = str_all P t && str_all P r) as App.
  { intros t r P. induction t as [|a t IH]; simpl; [done|]. by rewrite IH, andb_assoc. }
  induction s as [|a s IH]; [done|]. cbn [file_name_identifier]. rewrite App, IH, andb_true_r.
  destruct a as [[] [] [] [] [] [] [] []]; vm_compute; reflexivity.
Qed.

Lemma chars_lack P c s : P c = false -> str_all P s = true -> lacks c s.
Proof.
  intros Pc. induction s as [|a s IH]; [done|]. simpl. intros [Pa Ps]%andb_true_iff.
  apply lacks_cons. split; [congruence|by apply IH].
Qed.

Lemma file_vars_lack g : generator_ok g -> vars_lack esc (file_vars g).
Proof.
  intros (_ & F & _). apply vars_lack_insert; [|by apply vars_lack_insert].
  eapply chars_lack; [|apply file_name_identifier_chars]. done.
Qed.

Lemma base_lack g : generator_ok g -> lacks esc (input_filename_without_ext g).
Proof. intros (_ & F & _). by apply StripExtension_part, StripPath_part. Qed.
#[local] Hint Resolve file_vars_lack base_lack : lacks.

Lemma moves_parts i f f' (l : list string) :
  (forall x, lacks esc x -> moves i i (f x) (f' x)) -> Forall (lacks esc) l -> moves i i (for_each f l) (for_each f' l).
Proof. intros M F. apply moves_for_each. intros x I. apply M. by eapply Forall_forall in F. Qed.

Lemma cpp_prologue_moves i g : 0 <= i < 90 -> generator_ok g ->
  moves i i (generate_header_prologue fuel g) (generate_header_prologue fuel' g) /\ moves i i (generate_header_prologue_includes fuel g) (generate_header_prologue_includes fuel' g).
Proof.
  intros I G. pose proof G as [(_ & Fi & Fn) _]. split.
  - unfold generate_header_prologue. cpp_moves. apply moves_parts; [|done]. intros x L. cpp_moves.
  - unfold generate_header_prologue_includes. cpp_moves.
    apply moves_parts; [|by repeat constructor]. intros x L. cpp_moves.
Qed.

Lemma cpp_namespace_moves i g : 0 <= i < 90 -> generator_ok g ->
  moves i i (generate_header_prologue_namespace fuel g) (generate_header_prologue_namespace fuel' g) /\ moves i i (generate_header_epilogue_namespace fuel g) (generate_header_epilogue_namespace fuel' g).
Proof.
  intros I G. pose proof G as [(_ & Fi & Fn) _]. split.
  - unfold generate_header_prologue_namespace. cpp_moves. apply moves_parts; [|done]. intros x L. cpp_moves.
  - unfold generate_header_epilogue_namespace. cpp_moves. apply moves_parts; [|by apply Forall_rev].
    intros x L. cpp_moves.
Qed.

Lemma cpp_services_moves i g : 0 <= i < 90 -> generator_ok g ->
  moves i i (generate_header_prologue_forward_decl fuel g) (generate_header_prologue_forward_decl fuel' g) /\
  moves i i (generate_header_prologue_forward_decl_external fuel g) (generate_header_prologue_forward_decl_external fuel' g) /\ moves i i (generate_header_services fuel g) (generate_header_services fuel' g).
Proof.
  intros I G. split_and!.
  - unfold generate_header_prologue_forward_decl. cpp_moves.
  - unfold generate_header_prologue_forward_decl_external. cpp_moves. by apply ostream_moves.
  - unfold generate_header_services. cpp_moves; [apply service_moves; (done || lia)|by apply client_moves].
Qed.

Lemma cpp_print_moves i g : 0 <= i < 90 -> generator_ok g -> moves i i (cpp_print fuel g) (cpp_print fuel' g).
Proof.
  intros I G. destruct (cpp_prologue_moves i g I G), (cpp_namespace_moves i g I G), (cpp_services_moves i g I G) as (? & ? & ?).
  unfold cpp_print. cpp_moves; try done. unfold generate_header_epilogue. cpp_moves.
Qed.
End cpp_moves.
