(* ===== verification/Codegen.v ===== *)
(** * The driver of smfc

    src/src/smfc/codegen.cc, codegen.h and main.cc: reading a schema, running
    the generator of each language, and the exit code of the program. *)

From Stdlib Require Import ZArith Lia Ascii String.
From stdpp Require Import base gmap list numbers strings.
From S2P Require Import Prelude Printer Schema GoGen PythonGen CppGen.

(** The parser of flatbuffers and what main.cc calls: [Parse] gives the state of
    the parser and whether it succeeded; [split] and [trim] are the functions of
    boost, and [split] gives at least one token. *)
Class Frontend `{FileSystem} := {
  LoadFile : fs -> string -> option string;
  Parse : fs -> string -> list string -> string -> fbs_parser * bool;
  split : string -> list string;
  split_nonempty s : split s <> [];
  trim : string -> string;
  canonical : fs -> string -> outcome string;
  DirExists : fs -> string -> bool
}.

(** A parser that was given nothing. *)
Definition fbs_parser0 : fbs_parser := mk_parser [] [] [] EmptyString.

(** [class codegen]. *)
Record codegen := mk_codegen {
  cg_input_filename : string;
  cg_output_dir : string;
  languages : list language;
  include_dirs_ : list string;
  parser_ : fbs_parser;
  parsed_ : bool
}.

Section codegen.
Context `{Build, Libraries, Frontend}.
Variable fuel : nat.

(** The constructor; [LOG_IF(FATAL, ...)] aborts. *)
Definition codegen_make (ifname out_dir : string) (includes : list string) (langs : list language) : outcome codegen :=
  LOG_THROW_IF (match langs with [] => true | _ => false end) "No programming langues" ;;
  LOG_THROW_IF (is_empty out_dir) "No place to put generated code" ;;
  let includes :=
    if bool_decide (ifname ∈ includes) then includes else includes ++ [StripFileName ifname] in
  Ready (mk_codegen ifname out_dir langs includes fbs_parser0 false).

Definition service_count (cg : codegen) : Z :=
  if negb (parsed_ cg) then 0 else blen (services_vec (parser_ cg)).

Definition with_parser (p : fbs_parser) (cg : codegen) : codegen :=
  mk_codegen (cg_input_filename cg) (cg_output_dir cg) (languages cg) (include_dirs_ cg) p (parsed_ cg).
Definition set_parsed (cg : codegen) : codegen :=
  mk_codegen (cg_input_filename cg) (cg_output_dir cg) (languages cg) (include_dirs_ cg) (parser_ cg) true.

(** [parse]: the message of a failure, [None] for success. *)
Definition parse (f : fs) (cg : codegen) : option string * codegen :=
  if parsed_ cg then
    if negb (is_empty (error_ (parser_ cg))) then
      (Some ("Parser in error state: " +:+ error_ (parser_ cg)), cg)
    else (None, cg)
  else
    let cg := set_parsed cg in
    match LoadFile f (cg_input_filename cg) with
    | None => (Some ("Could not load file: " +:+ cg_input_filename cg), cg)
    | Some contents =>
        let '(p, ok) := Parse f (c_str contents) (include_dirs_ cg) (cg_input_filename cg) in
        let cg := with_parser p cg in
        if ok then (None, cg) else (Some ("Could not PARSE file: " +:+ error_ p), cg)
    end.

(** One case of the [switch]: the generator of a language is made and run. *)
Definition gen_language (l : language) (cg : codegen) (f : fs) : outcome (option string * fs) :=
  match l with
  | lang_cpp =>
      g ← generator_make (parser_ cg) (cg_input_filename cg) (cg_output_dir cg); CppGen.cpp_gen fuel g f
  | lang_go =>
      g ← generator_make (parser_ cg) (cg_input_filename cg) (cg_output_dir cg); GoGen.go_gen fuel g f
  | lang_python =>
      g ← generator_make (parser_ cg) (cg_input_filename cg) (cg_output_dir cg); PythonGen.python_gen fuel g f
  | _ => Ready (None, f)
  end.

Fixpoint gen_languages (ls : list language) (cg : codegen) (f : fs) : outcome (option string * fs) :=
  match ls with
  | [] => Ready (None, f)
  | l :: ls =>
      '(x, f) ← gen_language l cg f;
      match x with Some x => Ready (Some x, f) | None => gen_languages ls cg f end
  end.

Definition gen (cg : codegen) (f : fs) : outcome (option string * codegen * fs) :=
  let '(x, cg) := parse f cg in
  match x with
  | Some x => Ready (Some x, cg, f)
  | None => '(x, f) ← gen_languages (languages cg) cg f; Ready (x, cg, f)
  end.

(** ** main.cc *)

Definition split_coma (dirs : string) : list string :=
  let retval := split dirs in
  let retval := match retval with [] => if is_empty dirs then [] else [dirs] | _ => retval end in
  map trim retval.

Fixpoint langs_of (l : list string) : list language :=
  match l with
  | [] => []
  | s :: l =>
      if bool_decide (s = "cpp") then lang_cpp :: langs_of l
      else if bool_decide (s = "go") then lang_go :: langs_of l
      else if bool_decide (s = "python") then lang_python :: langs_of l
      else langs_of l
  end.
Definition split_langs (lang : string) : list language := langs_of (split_coma lang).

(** The flags. *)
Record flags := mk_flags {
  FLAGS_filename : string;
  FLAGS_include_dirs : string;
  FLAGS_language : string;
  FLAGS_output_path : string
}.

(** [main]: the exit code and the file system it leaves. *)
Definition main (fl : flags) (f : fs) : outcome (Z * fs) :=
  if is_empty (FLAGS_filename fl) then Ready (1, f)
  else if negb (exists_ f (FLAGS_filename fl)) then Ready (1, f)
  else if is_empty (FLAGS_output_path fl) then Ready (1, f)
  else
    output_path ← canonical f (FLAGS_output_path fl);
    if negb (DirExists f output_path) then Ready (1, f)
    else
      cg ← codegen_make (FLAGS_filename fl) output_path (split_coma (FLAGS_include_dirs fl))
             (split_langs (FLAGS_language fl));
      let '(status, cg) := parse f cg in
      match status with
      | Some _ => Ready (1, f)
      | None =>
          '(status, cg, f) ← gen cg f;
          match status with
          | Some _ => Ready (1, f)
          | None => Ready (0, f)
          end
      end.
End codegen.

(** ** The generator of a language *)

Definition printer_of (l : language) : smf_printer :=
  match l with
  | lang_go => GoGen.go_printer
  | lang_python => PythonGen.python_printer
  | _ => CppGen.cpp_printer
  end.

Section languages.
Context `{Build, Libraries}.

Definition print_language (fuel : nat) (l : language) (g : generator) : printing :=
  match l with
  | lang_go => GoGen.go_print fuel g
  | lang_python => PythonGen.python_print fuel g
  | _ => CppGen.cpp_print fuel g
  end.
Definition output_filename (l : language) (g : generator) : string :=
  match l with
  | lang_go => GoGen.go_output_filename g
  | lang_python => PythonGen.python_output_filename g
  | _ => CppGen.cpp_output_filename g
  end.

(** The names end in different characters. *)
Fixpoint last_char (s : string) : option ascii :=
  match s with
  | EmptyString => None
  | String a s => match last_char s with Some b => Some b | None => Some a end
  end.

Lemma last_char_app s t a : last_char t = Some a -> last_char (s +:+ t) = Some a.
Proof. intros E. induction s as [|b s IH]; simpl; [done|by rewrite IH]. Qed.

Lemma output_filename_inj l l' g :
  generated_language l -> generated_language l' -> output_filename l g = output_filename l' g -> l = l'.
Proof.
  assert (forall l, generated_language l -> last_char (output_filename l g) =
    Some (match l with lang_go => "o" | lang_python => "y" | _ => "h" end)%char) as L.
  { intros k [-> | [-> | -> ] ]; unfold output_filename, GoGen.go_output_filename, PythonGen.python_output_filename,
      CppGen.cpp_output_filename; repeat apply last_char_app; done. }
  intros Gl Gl' E. apply (f_equal last_char) in E. rewrite !L in E by done.
  destruct Gl as [-> | [-> | -> ] ], Gl' as [-> | [-> | -> ] ]; done.
Qed.

(** Printing from the printer of a language. *)
Lemma print_language_moves fuel fuel' l g :
  (min_fuel <= fuel)%nat -> (min_fuel <= fuel')%nat -> generator_ok g -> generated_language l ->
  (l = lang_go -> package_parts g <> []) -> moves 0 0 (print_language fuel l g) (print_language fuel' l g).
Proof.
  intros F F' G [-> | [-> | -> ] ] N; simpl.
  - apply CppGen.cpp_print_moves; (done || lia).
  - apply GoGen.go_print_moves; (done || lia || by apply N).
  - apply PythonGen.python_print_moves; (done || lia).
Qed.

Lemma printer_of_ok l : printer_ok (printer_of l) /\ indent_ (printer_of l) = 0.
Proof. destruct l; (split; [|done]); constructor; simpl; unfold max_step, max_depth, wrap_u; (done || lia). Qed.
End languages.

Section driver.
Context `{Build, Libraries, Frontend}.
Variable fuel : nat.

Lemma save_written n c f f' :
  save_conents_to_file n c f = Ready (None, f') ->
  fs_file f' n = Some c /\ forall m, m <> n -> fs_file f' m = fs_file f m.
Proof.
  unfold save_conents_to_file. intros E. apply outcome_bind_Ready in E as (f1 & E1 & E).
  destruct (SaveFile f1 n c) as [ok f2] eqn:S. destruct ok; simplify_eq.
  apply SaveFile_true in S as [S1 S2]. split; [done|]. intros m N. rewrite S2 by done.
  destruct (exists_ f n); simplify_eq; [|done]. by apply remove_spec in E1 as [_ ->].
Qed.

Lemma gen_language_written l cg f f' :
  generated_language l -> gen_language fuel l cg f = Ready (None, f') ->
  exists g p, generator_make (parser_ cg) (cg_input_filename cg) (cg_output_dir cg) = Ready g /\
    print_language fuel l g (printer_of l) = Ready p /\
    fs_file f' (output_filename l g) = Some (contents p) /\
    forall m, m <> output_filename l g -> fs_file f' m = fs_file f m.
Proof.
  intros L E.
  destruct L as [-> | [-> | -> ] ]; simpl in E; apply outcome_bind_Ready in E as (g & Eg & E);
    apply outcome_bind_Ready in E as (p & Ep & E); exists g, p; (split; [done|]); (split; [done|]).
  - by apply save_written.
  - apply outcome_bind_Ready in E as (f1 & Ed & E). apply save_written in E as [S1 S2].
    split; [done|]. intros m N. rewrite S2 by done. by apply create_directories_spec with (m := m) in Ed.
  - apply outcome_bind_Ready in E as (f1 & Ed & E). apply save_written in E as [S1 S2].
    split; [done|]. intros m N. rewrite S2 by done. by apply create_directories_spec with (m := m) in Ed.
Qed.

(** What a run of [gen_languages] has written for [l]. *)
Definition written_for (l : language) (cg : codegen) (f : fs) : Prop :=
  exists g p, generator_make (parser_ cg) (cg_input_filename cg) (cg_output_dir cg) = Ready g /\
    print_language fuel l g (printer_of l) = Ready p /\ fs_file f (output_filename l g) = Some (contents p).

Lemma gen_language_keeps l l' cg f f' :
  generated_language l -> gen_language fuel l' cg f = Ready (None, f') -> written_for l cg f -> written_for l cg f'.
Proof.
  intros L E (g & p & G & P & W). destruct (decide (generated_language l')) as [L'|N].
  - destruct (gen_language_written l' cg f f' L' E) as (g' & p' & G' & P' & W' & K).
    rewrite G in G'. injection G' as <-.
    exists g, p. split_and!; [done|done|]. destruct (decide (l = l')) as [->|Ne]; [congruence|].
    rewrite K; [done|]. intros Eq. by apply output_filename_inj in Eq.
  - destruct l'; try (destruct N; unfold generated_language; tauto); simpl in E; simplify_eq; by exists g, p.
Qed.

Lemma gen_languages_written ls cg f f' :
  gen_languages fuel ls cg f = Ready (None, f') ->
  (forall l, generated_language l -> l ∈ ls -> written_for l cg f') /\
  (forall l, generated_language l -> written_for l cg f -> written_for l cg f').
Proof.
  revert f. induction ls as [|l ls IH]; intros f E; simpl in E.
  - simplify_eq. split; [|done]. intros l _ I. by apply elem_of_nil in I.
  - apply outcome_bind_Ready in E as ([x f1] & E1 & E). destruct x as [x|]; [done|].
    destruct (IH f1 E) as [I1 I2]. split.
    + intros k K [->|I]%elem_of_cons; [|by apply I1]. apply I2; [done|].
      destruct (gen_language_written l cg f f1 K E1) as (g & p & ? & ? & ? & _). by exists g, p.
    + intros k K W. apply I2; [done|]. by eapply gen_language_keeps.
Qed.

(** A load that failed is reported once: a second [parse] reports success with
    nothing parsed. *)
Lemma parse_forgets_failed_load f cg :
  parsed_ cg = false -> parser_ cg = fbs_parser0 -> LoadFile f (cg_input_filename cg) = None ->
  exists cg', parse f cg = (Some ("Could not load file: " +:+ cg_input_filename cg), cg') /\
    parse f cg' = (None, cg') /\ service_count cg' = 0.
Proof.
  intros P P0 L. eexists. split; [unfold parse; simpl; by rewrite P, L|]. unfold parse, service_count. simpl.
  by rewrite P0.
Qed.
End driver.

(** ** Properties *)

(** C35: the generators.  For a schema whose names are identifiers and a file
    name without the escape character, the generator of each language returns:
    no template loops, the indentation never becomes negative and is back at
    zero at the end; and the text does not depend on how long the substitution
    loops are followed, from ten passes on.  The Go generator moreover needs a
    namespace: without one it reads the last element of an empty vector. *)
Theorem generators_return `{Build, Libraries} p ifname out_dir l :
  parser_ok p -> lacks esc ifname -> generated_language l ->
  exists g, generator_make p ifname out_dir = Ready g /\
    ((l = lang_go -> current_namespace_ p <> []) ->
       exists pr, indent_ pr = 0 /\
         forall fuel, (min_fuel <= fuel)%nat -> print_language fuel l g (printer_of l) = Ready pr) /\
    (l = lang_go -> current_namespace_ p = [] ->
       forall fuel, print_language fuel l g (printer_of l) = Undefined).
Proof.
  intros P F L. rewrite generator_make_spec. eexists. split; [done|].
  assert (generator_ok (mk_generator p ifname out_dir
    (map service_of (filter (fun s => sv_generated s = false) (services_vec p))))) as G.
  { eapply generator_make_ok; [done|done|apply generator_make_spec]. }
  destruct (printer_of_ok l) as [Ok I]. split.
  - intros N. destruct (print_language_moves min_fuel min_fuel l _ (le_n _) (le_n _) G L N _ Ok I)
      as (t & pr & E & _ & _ & J & _).
    exists pr. split; [done|]. intros fuel Le.
    destruct (print_language_moves min_fuel fuel l _ (le_n _) Le G L N _ Ok I) as (t' & pr' & E1 & E2 & _). congruence.
  - intros -> N fuel. simpl. unfold GoGen.go_print, seqp, GoGen.generate_header_prologue, package_parts. simpl.
    by rewrite N.
Qed.

Section main_props.
Context `{Build, Libraries, Frontend}.

Lemma langs_of_generated l : Forall generated_language (langs_of l).
Proof.
  induction l as [|s l IH]; simpl; [constructor|]. unfold generated_language in *.
  repeat case_goal; try done; constructor; try done; tauto.
Qed.

Lemma parse_fresh f cg cg' :
  parsed_ cg = false -> parse f cg = (None, cg') ->
  exists c p, LoadFile f (cg_input_filename cg) = Some c /\
    Parse f (c_str c) (include_dirs_ cg) (cg_input_filename cg) = (p, true) /\
    cg' = with_parser p (set_parsed cg).
Proof.
  unfold parse. intros ->. simpl. destruct (LoadFile f (cg_input_filename cg)) as [c|]; [|done].
  destruct (Parse f (c_str c) (include_dirs_ cg) (cg_input_filename cg)) as [p ok] eqn:P.
  destruct ok; [|done]. intros [= <-]. by exists c, p.
Qed.

Lemma gen_parsed fuel cg f cg' f' :
  parsed_ cg = true -> gen fuel cg f = Ready (None, cg', f') ->
  cg' = cg /\ gen_languages fuel (languages cg) cg f = Ready (None, f').
Proof.
  unfold gen, parse. intros ->. case_goal; [done|]. intros E. apply outcome_bind_Ready in E as ([x f1] & E1 & E).
  by injection E as -> -> ->.
Qed.

(** C36: what success means.  When smfc exits with code 0, at least one language
    was asked for, the schema was loaded and parsed, and for every language
    asked for the file of that language holds exactly the text that its
    generator prints for that schema; no later language overwrote it. *)
Theorem main_success fuel fl f f' :
  main fuel fl f = Ready (0, f') ->
  split_langs (FLAGS_language fl) <> [] /\
  exists out_dir c includes p,
    canonical f (FLAGS_output_path fl) = Ready out_dir /\
    LoadFile f (FLAGS_filename fl) = Some c /\
    Parse f (c_str c) includes (FLAGS_filename fl) = (p, true) /\
    forall l, l ∈ split_langs (FLAGS_language fl) ->
      exists g pr, generator_make p (FLAGS_filename fl) out_dir = Ready g /\
        print_language fuel l g (printer_of l) = Ready pr /\
        fs_file f' (output_filename l g) = Some (contents pr).
Proof.
  unfold main. do 3 (case_goal; [done|]). intros E. apply outcome_bind_Ready in E as (out & Eo & E).
  case_hyp E; [done|]. apply outcome_bind_Ready in E as (cg & Ec & E).
  unfold codegen_make in Ec. apply outcome_bind_Ready in Ec as (? & L1 & Ec). apply LOG_THROW_IF_Ready in L1.
  apply outcome_bind_Ready in Ec as (? & L2 & Ec). injection Ec as <-.
  destruct (parse f _) as [[|] cg1] eqn:P in E; [done|]. apply parse_fresh in P as (c & p & Lf & Pa & ->); [|done].
  apply outcome_bind_Ready in E as ([[r cg2] f2] & G & E). destruct r as [r|]; [done|]. injection E as <-.
  apply gen_parsed in G as [-> G]; [|done]. split; [by destruct (split_langs (FLAGS_language fl))|].
  exists out, c. do 2 eexists. split_and!; [done|done|exact Pa|]. intros l I.
  destruct (proj1 (gen_languages_written fuel _ _ _ _ G) l) as (g & pr & Eg & Ep & Ef); [|done|by exists g, pr].
  pose proof (langs_of_generated (split_coma (FLAGS_language fl))) as F. rewrite Forall_forall in F. by apply F.
Qed.
End main_props.

Module CodegenWitness.
Import SchemaDemo.
#[local] Existing Instance demo_libraries.
#[local] Existing Instance demo_fs.

Definition demo_frontend : @Frontend demo_fs.
Proof.
  refine {| LoadFile := fs_file; Parse := fun _ _ _ _ => (demo_parser, true);
    split := fun s => [s]; trim := fun s => s; canonical := fun _ s => Ready s; DirExists := fun _ _ => true |}.
  done.
Defined.
#[local] Existing Instance demo_frontend.

Lemma generators_return_witness :
  exists g pr, generator_make demo_parser "kv.fbs" "out" = Ready g /\ indent_ pr = 0 /\
    print_language (H := release_build) 10 lang_go g (printer_of lang_go) = Ready pr.
Proof.
  destruct (@generators_return release_build _ demo_parser "kv.fbs" "out" lang_go) as (g & G & R & _).
  - exact demo_parser_ok.
  - vm_compute. reflexivity.
  - right. left. reflexivity.
  - destruct R as (pr & I & R); [discriminate|]. exists g, pr. split; [exact G|]. split; [exact I|].
    apply R. apply Nat.leb_le. vm_refl.
Defined.

Definition w_flags : flags := mk_flags "kv.fbs" "inc" "go" "out".
Definition w_fs : files := <["kv.fbs" := "schema"]> ∅.
Definition w_result : outcome (Z * files) := main (H := release_build) 10 w_flags w_fs.
Definition exit_zero (o : outcome (Z * files)) : bool := match o with Ready (c, _) => c =? 0 | _ => false end.

Lemma exit_zero_Ready o : exit_zero o = true -> exists f, o = Ready (0, f).
Proof. destruct o as [[c f]| |]; simpl; try done. intros ->%Z.eqb_eq. by exists f. Qed.

Lemma main_success_witness :
  exists f' g pr, w_result = Ready (0, f') /\ generator_make demo_parser "kv.fbs" "out" = Ready g /\
    f' !! output_filename lang_go g = Some (contents pr).
Proof.
  destruct (exit_zero_Ready w_result) as [f' E]; [vm_refl|].
  destruct (@main_success release_build demo_libraries demo_fs demo_frontend 10 w_flags w_fs f' E)
    as (_ & out & c & inc & p & O & L & P & W).
  assert (out = "out") as -> by (injection O as <-; reflexivity).
  assert (p = demo_parser) as -> by (injection P as <-; reflexivity).
  destruct (W lang_go) as (g & pr & G & _ & F); [apply list_elem_of_here|].
  exists f', g, pr. split; [exact E|]. split; [exact G|exact F].
Defined.
End CodegenWitness.
