(* ===== verification/RequestIds.v ===== *)
(** * Request ids across the generated languages

    A request id is computed where code is generated: the C++ and Go generators
    print an expression over the ids of the service and of the method, the
    Python generator prints the number.  This file relates what the generators
    of CppGen.v, GoGen.v and PythonGen.v print to the request ids that the
    generated services of Router.v dispatch on. *)

From Stdlib Require Import ZArith Lia Ascii String DecimalString DecimalPos DecimalN.
From stdpp Require Import base gmap list numbers strings.
From S2P Require Import Prelude Printer Schema Router GoGen PythonGen CppGen.

(** ** The value of a printed expression: decimal literals joined by [^] *)

Fixpoint drop_spaces (s : string) : string :=
  match s with
  | EmptyString => EmptyString
  | String a s => if Ascii.eqb a " "%char then drop_spaces s else String a (drop_spaces s)
  end.

Fixpoint xor_all (l : list string) : option Z :=
  match l with
  | [] => Some 0
  | s :: l => match decimal s, xor_all l with Some a, Some b => Some (Z.lxor a b) | _, _ => None end
  end.

Definition expr_value (s : string) : option Z := xor_all (pieces "^"%char (drop_spaces s)).

Lemma drop_spaces_app s t : drop_spaces (s +:+ t) = drop_spaces s +:+ drop_spaces t.
Proof. induction s as [|a s IH]; simpl; [done|]. case_goal; simpl; by rewrite IH. Qed.

Lemma drop_spaces_id s : lacks " "%char s -> drop_spaces s = s.
Proof.
  induction s as [|a s IH]; intros L; [done|]. apply lacks_cons in L as [N L]. simpl.
  by rewrite (proj2 (Ascii.eqb_neq _ _) N), IH.
Qed.

Lemma pieces_single c s : lacks c s -> pieces c s = [s].
Proof.
  induction s as [|a s IH]; intros L; [done|]. apply lacks_cons in L as [N L]. simpl.
  by rewrite (proj2 (Ascii.eqb_neq _ _) N), IH.
Qed.

Lemma pieces_app c s t : lacks c s -> pieces c (s +:+ String c t) = s :: pieces c t.
Proof.
  induction s as [|a s IH]; intros L; simpl; [by rewrite Ascii.eqb_refl|]. apply lacks_cons in L as [N L].
  by rewrite (proj2 (Ascii.eqb_neq _ _) N), IH.
Qed.

Lemma expr_value_number n : 0 <= n -> expr_value (to_string n) = Some n.
Proof.
  intros N. unfold expr_value. rewrite drop_spaces_id, pieces_single by by apply to_string_no.
  simpl. rewrite decimal_to_string by done. by rewrite Z.lxor_0_r.
Qed.

Lemma expr_value_xor sep a b :
  drop_spaces sep = "^" -> 0 <= a -> 0 <= b -> expr_value (to_string a +:+ sep +:+ to_string b) = Some (Z.lxor a b).
Proof.
  intros Sp A B. unfold expr_value. rewrite !drop_spaces_app, Sp, !drop_spaces_id by by apply to_string_no.
  change ("^" +:+ to_string b) with (String "^"%char (to_string b)).
  rewrite pieces_app, pieces_single by by apply to_string_no. simpl. rewrite !decimal_to_string by done.
  by rewrite Z.lxor_0_r.
Qed.

Lemma lxor_fits w a b : 0 <= w -> fits_u w a -> fits_u w b -> fits_u w (Z.lxor a b).
Proof.
  intros W [A1 A2] [B1 B2]. assert (0 <= Z.lxor a b) as N by (apply Z.lxor_nonneg; lia). split; [done|].
  destruct (decide (w = 0)) as [->|Nw]; [assert (a = 0) as -> by lia; assert (b = 0) as -> by lia; done|].
  destruct (decide (Z.lxor a b = 0)) as [->|Nz]; [lia|]. apply Z.log2_lt_pow2; [lia|].
  eapply Z.le_lt_trans; [by apply Z.log2_lxor|]. apply Z.max_lub_lt.
  - destruct (decide (a = 0)) as [->|]; [simpl; lia|]. apply Z.log2_lt_pow2; lia.
  - destruct (decide (b = 0)) as [->|]; [simpl; lia|]. apply Z.log2_lt_pow2; lia.
Qed.

(** ** Printing a given text *)

(** [prints i j m txt]: what [m] adds contains [txt]. *)
Definition prints (i j : Z) (m : printing) (txt : string) : Prop :=
  forall p, printer_ok p -> indent_ p = i ->
    exists before after p', m p = Ready p' /\ printer_ok p' /\ indent_ p' = j /\
      out_ p' = out_ p +:+ before +:+ txt +:+ after.

Lemma prints_left i j k a b txt : prints i j a txt -> moves j k b b -> prints i k (seqp a b) txt.
Proof.
  intros A B p Ok E. destruct (A p Ok E) as (b1 & a1 & p1 & E1 & Ok1 & I1 & O1).
  destruct (B p1 Ok1 I1) as (t & p2 & E2 & _ & Ok2 & I2 & O2).
  exists b1, (a1 +:+ t), p2. unfold seqp. rewrite E1. simpl. split_and!; try done.
  by rewrite O2, O1, !str_app_assoc.
Qed.

Lemma prints_right i j k a b txt : moves i j a a -> prints j k b txt -> prints i k (seqp a b) txt.
Proof.
  intros A B p Ok E. destruct (A p Ok E) as (t & p1 & E1 & _ & Ok1 & I1 & O1).
  destruct (B p1 Ok1 I1) as (b1 & a1 & p2 & E2 & Ok2 & I2 & O2).
  exists (t +:+ b1), a1, p2. unfold seqp. rewrite E1. simpl. split_and!; try done.
  by rewrite O2, O1, !str_app_assoc.
Qed.

Lemma prints_for_each {A} i (f : A -> printing) l x txt :
  (forall y, y ∈ l -> moves i i (f y) (f y)) -> x ∈ l -> prints i i (f x) txt -> prints i i (for_each f l) txt.
Proof.
  intros M I P. induction l as [|y l IH]; [by apply elem_of_nil in I|]. simpl.
  apply elem_of_cons in I as [<-|I].
  - eapply prints_left; [done|]. apply moves_for_each. intros z Hz. apply M. by right.
  - eapply prints_right; [apply M; left|]. apply IH; [|done]. intros z Hz. apply M. by right.
Qed.

Lemma moves_each_index {A} i (f : nat -> A -> printing) n l :
  (forall k y, y ∈ l -> moves i i (f k y) (f k y)) -> moves i i (for_each_index f n l) (for_each_index f n l).
Proof.
  revert n. induction l as [|y l IH]; intros n M; [apply moves_skip|]. simpl.
  eapply moves_seq; [apply M; left|]. apply IH. intros k z Hz. apply M. by right.
Qed.

Lemma prints_for_each_index {A} i (f : nat -> A -> printing) n l k x txt :
  (forall k y, y ∈ l -> moves i i (f k y) (f k y)) -> l !! k = Some x -> prints i i (f (n + k)%nat x) txt ->
  prints i i (for_each_index f n l) txt.
Proof.
  intros M. revert n k. induction l as [|y l IH]; intros n k L P; [done|]. simpl. destruct k as [|k].
  - simplify_eq/=. rewrite Nat.add_0_r in P. eapply prints_left; [done|].
    apply moves_each_index. intros k z Hz. apply M. by right.
  - eapply prints_right; [apply M; left|]. apply (IH) with (k := k); [|done|].
    + intros k' z Hz. apply M. by right.
    + by replace (S n + k)%nat with (n + S k)%nat by lia.
Qed.

(** Indenting does not break a text within a line. *)
Lemma indented_infix pad before txt after :
  lacks "010"%char txt -> txt <> EmptyString ->
  exists b a, indented pad (before +:+ txt +:+ after) = b +:+ txt +:+ a.
Proof.
  intros L N. induction before as [|c before (b & a & IH)]; simpl.
  - exists EmptyString. clear N. induction txt as [|d txt IH]; [by eexists|]. apply lacks_cons in L as [Nd L].
    destruct (IH L) as [a E]. exists a. simpl in *. by rewrite (proj2 (Ascii.eqb_neq _ _) Nd), E.
  - assert (is_empty (before +:+ txt +:+ after) = false) as ->.
    { destruct before; [|done]. by destruct txt. }
    rewrite IH. case_goal; [exists (String c (pad +:+ b)), a|exists (String c b), a]; simpl; by rewrite ?str_app_assoc.
Qed.

Lemma c_str_app s t : lacks "000"%char s -> c_str (s +:+ t) = s +:+ c_str t.
Proof.
  intros L. unfold c_str. induction s as [|a s IH]; [done|]. apply lacks_cons in L as [N L]. simpl.
  rewrite (proj2 (Ascii.eqb_neq _ _) N). specialize (IH L).
  destruct (find_char "000"%char (s +:+ t)) as [[b r]|]; simpl; by rewrite IH.
Qed.

Lemma prints_print_vars fuel vars t i before txt after :
  vars_lack esc vars -> (S (str_count esc t) <= 2 * fuel)%nat ->
  expand esc vars (pieces esc t) = before +:+ txt +:+ after ->
  lacks "000"%char before -> lacks "000"%char txt -> lacks "010"%char txt -> txt <> EmptyString ->
  prints i i (print_vars fuel vars t) txt.
Proof.
  intros V Len E L1 L2 L3 Ne p Ok I. unfold print_vars. rewrite (po_escape _ Ok), subst_loop_total, E by done.
  rewrite c_str_app, c_str_app by done. rewrite print_ok by done. cbv zeta.
  set (pad := replicate_char _ _). destruct (indented_infix pad before txt (c_str after) L3 Ne) as (b & a & ->).
  exists (pad +:+ b), a. eexists. split; [done|]. split; [by destruct Ok|]. split; [done|].
  simpl. by rewrite !str_app_assoc.
Qed.

(** ** What the generators print *)

#[local] Hint Resolve index_string_lacks go_public_name_lacks python_public_name_lacks : lacks.

(** The expansion of a concrete template. *)
Ltac expand_template :=
  simpl; repeat (rewrite lookup_insert_eq || rewrite lookup_insert_ne by done); simpl;
  repeat (rewrite str_app_assoc; simpl); reflexivity.

Lemma cpp_case_expand (sid mid idx : string) :
  expand esc (<["VectorIdx" := idx]> (<["MethodId" := mid]> (<["ServiceID" := sid]> ∅)))
    (pieces esc (line "case ($ServiceID$ ^ $MethodId$): return &handles_[$VectorIdx$];")) =
  EmptyString +:+ ("case (" +:+ (sid +:+ " ^ " +:+ mid) +:+ "): return &handles_[" +:+ idx +:+ "];") +:+ nl.
Proof. expand_template. Qed.

Lemma cpp_client_expand (out_t in_t sn sid mid name raw : string) :
  expand esc (<["OutType" := out_t]> (<["InType" := in_t]> (<["ServiceName" := sn]> (<["ServiceID" := sid]>
      (<["MethodID" := mid]> (<["MethodName" := name]> (<["RawMethodName" := raw]> ∅)))))))
    (pieces esc (line "/// ServiceID: $ServiceID$" +:+ line "/// MethodID:  $MethodID$" +:+
      line "e.set_request_id($ServiceID$ ^ $MethodID$);" +:+ line "return send<$OutType$>(std::move(e));")) =
  (line ("/// ServiceID: " +:+ sid) +:+ line ("/// MethodID:  " +:+ mid)) +:+
  ("e.set_request_id(" +:+ (sid +:+ " ^ " +:+ mid) +:+ ");") +:+ (nl +:+ line ("return send<" +:+ out_t +:+ ">(std::move(e));")).
Proof. unfold line. expand_template. Qed.

Lemma go_case_expand (raw mid sid sn i : string) :
  expand esc (<["RawMethodName" := raw]> (<["MethodID" := mid]>
      (<["ServiceID" := sid]> (<["ServiceName" := sn]> (<["InterfaceName" := i]> ∅)))))
    (pieces esc (line "case $ServiceID$ ^ $MethodID$:")) =
  EmptyString +:+ ("case " +:+ (sid +:+ " ^ " +:+ mid) +:+ ":") +:+ nl.
Proof. expand_template. Qed.

Lemma go_client_expand (out_t name raw sid mid cn i : string) :
  expand esc (<["OutputType" := out_t]> (<["MethodName" := name]> (<["RawMethodName" := raw]>
      (<["ServiceID" := sid]> (<["MethodID" := mid]> (<["ClientName" := cn]> (<["InterfaceName" := i]> ∅)))))))
    (pieces esc (line "return s.Client.SendRecv(req, $ServiceID$^$MethodID$)")) =
  "return s.Client." +:+ ("SendRecv(req, " +:+ (sid +:+ "^" +:+ mid) +:+ ")") +:+ nl.
Proof. expand_template. Qed.

Lemma python_call_expand (rid out_t sid mid name : string) :
  expand esc (<["RequestID" := rid]> (<["OutType" := out_t]> (<["ServiceID" := sid]> (<["MethodID" := mid]>
      (<["MethodName" := name]> ∅)))))
    (pieces esc (line "buf, status = await self._conn.call(x, $RequestID$)")) =
  "buf, status = await " +:+ ("self._conn.call(x, " +:+ rid +:+ ")") +:+ nl.
Proof. expand_template. Qed.

(** A statement before the one that prints the text, and the one that does. *)
Ltac skip_statement := eapply prints_right; [by solve_moves|].
Ltac this_template expansion := eapply prints_print_vars;
  [by auto 20 with lacks
  |apply (Nat.le_trans _ (2 * min_fuel)); [apply Nat.leb_le; vm_compute; reflexivity|lia]
  |apply expansion
  |unfold line; rewrite ?lacks_app; split_and?; try (by apply to_string_no); done
  |rewrite ?lacks_app; split_and?; try (by apply to_string_no); done
  |rewrite ?lacks_app; split_and?; try (by apply to_string_no); done
  |done].

Section printed.
Context `{Build, Libraries}.
Variables (fuel : nat) (i : Z).
Hypothesis fuel_ok : (min_fuel <= fuel)%nat.
Hypothesis i_ok : 0 <= i <= 50.

Lemma cpp_switch_prints s k m :
  service_ok s -> methods_ s !! k = Some m ->
  prints i i (print_header_service_handle_request_id fuel s)
    ("case (" +:+ (to_string (service_id_ m) +:+ " ^ " +:+ to_string (method_id m)) +:+
     "): return &handles_[" +:+ index_string k +:+ "];").
Proof.
  intros S M. unfold print_header_service_handle_request_id. do 4 skip_statement.
  eapply prints_left; [apply (prints_for_each_index _ _ 0 _ k m); [|done|this_template cpp_case_expand]|by solve_moves].
  intros k' m' _. cbv zeta. by solve_moves.
Qed.

Lemma cpp_client_prints m :
  method_ok m ->
  prints i i (print_header_client_method fuel m)
    ("e.set_request_id(" +:+ (to_string (service_id_ m) +:+ " ^ " +:+ to_string (method_id m)) +:+ ");").
Proof.
  intros M. pose proof M as [(N & I & O) Sn]. unfold print_header_client_method.
  destruct (prefix_token_ready "raw" (method_name m)) as (raw & Er & Lr); [done|done|done|].
  destruct (type_ok _ lang_cpp I) as (it & Ei & Li); [by left|].
  destruct (type_ok _ lang_cpp O) as (ot & Eo & Lo); [by left|].
  unfold bindp, input_type_name, output_type_name, call_input_type, call_output_type. rewrite Er, Ei, Eo.
  cbn [mbind outcome_bind]. change (fun p => seqp ?a ?b p) with (seqp a b). assert (lacks esc (method_name m)) by done.
  do 5 skip_statement. eapply prints_left; [this_template cpp_client_expand|by solve_moves].
Qed.

Lemma go_switch_prints s m :
  service_ok s -> m ∈ methods_ s ->
  prints i i (print_server_jump_table fuel s)
    ("case " +:+ (to_string (smf_service_id s) +:+ " ^ " +:+ to_string (method_id m)) +:+ ":").
Proof.
  intros S M. pose proof S as (N & _ & F). unfold print_server_jump_table. cbv zeta. known_names. do 3 skip_statement.
  rewrite Forall_forall in F.
  eapply prints_left; [apply (prints_for_each _ _ _ m); [|done|]|by solve_moves].
  - intros y Hy. pose proof (F y Hy) as My. solve_moves.
  - pose proof (F m M). known_names. eapply prints_left; [this_template go_case_expand|by solve_moves].
Qed.

Lemma go_client_prints m :
  method_ok m ->
  prints i i (GoGen.print_client_method fuel m)
    ("SendRecv(req, " +:+ (to_string (service_id_ m) +:+ "^" +:+ to_string (method_id m)) +:+ ")").
Proof.
  intros M. pose proof M as [(N & _ & O) Sn]. unfold GoGen.print_client_method.
  destruct (type_ok _ lang_go O) as (ot & Eo & Lo); [by right; left|].
  unfold bindp, output_type_name, call_output_type. rewrite Eo. cbn [mbind outcome_bind]. cbv zeta.
  change (fun p => seqp ?a ?b p) with (seqp a b). assert (lacks esc (method_name m)) by done.
  do 12 skip_statement. eapply prints_left; [this_template go_client_expand|by solve_moves].
Qed.

Lemma python_client_prints m :
  method_ok m ->
  prints i i (PythonGen.print_client_method fuel m)
    ("self._conn.call(x, " +:+ to_string (Z.lxor (service_id_ m) (method_id m)) +:+ ")").
Proof.
  intros M. pose proof M as [(N & _ & O) Sn]. unfold PythonGen.print_client_method.
  destruct (type_ok _ lang_python O) as (ot & Eo & Lo); [by right; right|].
  unfold bindp, output_type_name, call_output_type. rewrite Eo. cbn [mbind outcome_bind]. cbv zeta.
  change (fun p => seqp ?a ?b p) with (seqp a b). assert (lacks esc (method_name m)) by done.
  do 3 skip_statement. eapply prints_left; [this_template python_call_expand|by solve_moves].
Qed.
End printed.

(** ** Property *)

(** C18: one request id for every language.  For each call of a service, the
    C++ server (in the case of the handle with the index of the call), the C++
    client, the Go server, the Go client and the Python client print an
    expression of the same value: the request id that the generated services
    of the router dispatch on, a 32-bit number. *)
Theorem request_ids_agree `{Build, Libraries} fuel s k c i :
  (min_fuel <= fuel)%nat -> 0 <= i <= 50 -> service_def_ok s -> sv_calls s !! k = Some c ->
  let srv := service_of s in
  let m := method_of (sv_name s) (smf_service_id srv) c in
  exists spaced unspaced number,
    prints i i (print_header_service_handle_request_id fuel srv)
      ("case (" +:+ spaced +:+ "): return &handles_[" +:+ index_string k +:+ "];") /\
    prints i i (print_header_client_method fuel m) ("e.set_request_id(" +:+ spaced +:+ ");") /\
    prints i i (print_server_jump_table fuel srv) ("case " +:+ spaced +:+ ":") /\
    prints i i (GoGen.print_client_method fuel m) ("SendRecv(req, " +:+ unspaced +:+ ")") /\
    prints i i (PythonGen.print_client_method fuel m) ("self._conn.call(x, " +:+ number +:+ ")") /\
    let id := client_request_id (smf_service_id srv) (method_id m) in
    expr_value spaced = Some id /\ expr_value unspaced = Some id /\ expr_value number = Some id /\ fits_u 32 id.
Proof.
  intros F I S C srv m. pose proof (service_of_ok s S) as So. fold srv in So.
  assert (methods_ srv !! k = Some m) as M.
  { change (methods_ srv) with (map (method_of (sv_name s) (smf_service_id srv)) (sv_calls s)).
    by rewrite list_lookup_fmap, C. }
  assert (method_ok m) as Mo.
  { destruct So as (_ & _ & Fo). rewrite Forall_forall in Fo. apply Fo. by eapply list_elem_of_lookup_2. }
  pose proof (crc_32_fits (sv_name s)) as Fs. change (crc_32 (sv_name s)) with (smf_service_id srv) in Fs.
  assert (fits_u 32 (method_id m)) as Fm by apply crc_32_fits.
  do 3 eexists. split; [apply (cpp_switch_prints fuel i F I srv k m So M)|].
  split; [apply (cpp_client_prints fuel i F I m Mo)|].
  split; [by apply (go_switch_prints fuel i F I srv m So), (list_elem_of_lookup_2 _ k)|].
  split; [apply (go_client_prints fuel i F I m Mo)|]. split; [apply (python_client_prints fuel i F I m Mo)|].
  change (service_id_ m) with (smf_service_id srv). cbv zeta. unfold client_request_id.
  pose proof (lxor_fits 32 _ _ ltac:(lia) Fs Fm) as Fx.
  destruct Fs, Fm. split_and!; [by apply expr_value_xor|by apply expr_value_xor|apply expr_value_number, Fx|done].
Qed.

Module RequestIdsWitness.
Import SchemaDemo.
#[local] Existing Instance demo_libraries.

Lemma request_ids_agree_witness :
  exists number, expr_value number = Some (client_request_id (smf_service_id (service_of demo_service))
    (method_id (method_of "Storage" (smf_service_id (service_of demo_service)) demo_call))).
Proof.
  destruct (@request_ids_agree release_build _ 10 demo_service 0 demo_call 0)
    as (sp & un & num & _ & _ & _ & _ & _ & _ & _ & N & _).
  - apply Nat.leb_le. vm_refl.
  - split; apply Z.leb_le; vm_refl.
  - exact demo_service_ok.
  - reflexivity.
  - exists num. exact N.
Defined.
End RequestIdsWitness.
