(* ===== verification/Logging.v ===== *)
(** * Logging and the macros that throw

    src/src/include/smf/log.h.  A macro is a computation over the state of the
    program and the logger "smf": its arguments and its condition are evaluated
    in the program state, so that a macro that evaluates them differs from one
    that does not.  The formatting library fmt and the logger of Seastar are the
    classes [Fmt] and [SeastarLog]; what the storage of a [fmt::memory_buffer]
    holds behind the text is an argument of the macros that read it as a C
    string. *)

From Stdlib Require Import ZArith Lia Ascii String.
From stdpp Require Import base list numbers strings.
From S2P Require Import Prelude Printer Schema.

(** ** The libraries *)

(** A format string of text and automatic replacement fields. *)
Inductive piece := Text (t : string) | Field.

Fixpoint pattern (ps : list piece) : string :=
  match ps with
  | [] => EmptyString
  | Text t :: ps => t +:+ pattern ps
  | Field :: ps => "{}" +:+ pattern ps
  end.

Fixpoint fields (ps : list piece) : nat :=
  match ps with [] => 0 | Text _ :: ps => fields ps | Field :: ps => S (fields ps) end.

Definition plain (p : piece) : Prop :=
  match p with Text t => lacks "{"%char t /\ lacks "}"%char t | Field => True end.

Fixpoint render {A} (show : A -> string) (ps : list piece) (args : list A) : string :=
  match ps, args with
  | [], _ => EmptyString
  | Text t :: ps, _ => t +:+ render show ps args
  | Field :: ps, a :: args => show a +:+ render show ps args
  | Field :: ps, [] => EmptyString
  end.

Class Fmt := {
  arg : Type;
  str_arg : string -> arg;
  int_arg : Z -> arg;
  show_arg : arg -> string;
  (** [fmt::format_to] and [fmt::sprintf]; both throw when the format is wrong. *)
  fmt_format : string -> list arg -> outcome string;
  fmt_sprintf : string -> list arg -> outcome string;
  show_str s : show_arg (str_arg s) = s;
  show_int n : 0 <= n -> show_arg (int_arg n) = to_string n;
  fmt_format_pieces ps args : Forall plain ps -> (fields ps <= length args)%nat ->
    fmt_format (pattern ps) args = Ready (render show_arg ps args);
  fmt_sprintf_text f args : lacks "%"%char f -> fmt_sprintf f args = Ready f
}.

(** [seastar::log_level], from the most to the least severe. *)
Inductive log_level := error | warn | info | debug | trace.
Definition rank (l : log_level) : nat :=
  match l with error => 0 | warn => 1 | info => 2 | debug => 3 | trace => 4 end.

Class SeastarLog `{Fmt} := {
  logger : Type;
  log_at : log_level -> string -> list arg -> logger -> logger;
  is_enabled : log_level -> logger -> bool;
  set_level : log_level -> logger -> logger;
  (** [global_logger_registry().set_logger_level(name, l)], seen by the logger "smf". *)
  set_logger_level : string -> log_level -> logger -> logger;
  log_disabled l f a g : is_enabled l g = false -> log_at l f a g = g;
  log_keeps_level l f a g l' : is_enabled l' (log_at l f a g) = is_enabled l' g;
  is_enabled_set l g l' : is_enabled l' (set_level l g) = bool_decide (rank l' <= rank l)%nat;
  set_registered l g : set_logger_level "smf" l g = set_level l g
}.

(** ** The name of the file *)

(** [file[i]]: the terminator is at the length. *)
Definition char_at (file : string) (i : nat) : ascii := default zero (String.get i file).

(** [find_last_slash]; the pointer is its offset in [file]. *)
Fixpoint find_last_slash (file : string) (sz : nat) (x : ascii) : nat :=
  match sz with
  | O => O
  | S n => if Ascii.eqb (char_at file sz) x then S sz else find_last_slash file n x
  end.

Fixpoint str_drop (n : nat) (s : string) : string :=
  match n, s with
  | O, _ => s
  | S n, String _ s => str_drop n s
  | S _, EmptyString => EmptyString
  end.

(** [__FILENAME__]: [SMF_ARRAYSIZE(__FILE__) - 1] is the length. *)
Definition FILENAME (file : string) : string :=
  str_drop (find_last_slash file (String.length file) "/"%char) file.

(** Reading storage as a C string; [None]: there is no terminator. *)
Fixpoint c_str (s : string) : option string :=
  match s with
  | EmptyString => None
  | String a s => if Ascii.eqb a zero then Some EmptyString else String a <$> c_str s
  end.

(** ** The macros *)

(** Where a macro is expanded: [__FILE__] and [__LINE__]. *)
Record site := mk_site { FILE : string; LINE : Z }.

Section macros.
Context `{SeastarLog, Build} {St : Type}.

(** The program state and the logger, and computations that may throw. *)
Record world := mk_world { prog : St; log_ : logger }.
Definition M (A : Type) : Type := world -> outcome A * world.

#[global] Instance M_ret : MRet M := fun A a w => (Ready a, w).
#[global] Instance M_bind : MBind M := fun A B k m w =>
  match m w with
  | (Ready a, w) => k a w
  | (Failed e, w) => (Failed e, w)
  | (Undefined, w) => (Undefined, w)
  end.

(** An expression of the program, a future or result, and a call of the logger. *)
Definition eval {A} (f : St -> A * St) : M A := fun w =>
  let '(a, s) := f (prog w) in (Ready a, mk_world s (log_ w)).
Definition lift {A} (o : outcome A) : M A := fun w => (o, w).
Definition call_logger (l : log_level) (f : string) (a : list arg) : M unit := fun w =>
  (Ready tt, mk_world (prog w) (log_at l f a (log_ w))).

(** What all log macros expand to: [prefix format] and the arguments. *)
Definition log_line (l : log_level) (prefix : string) (at_ : site) (format : string)
    (args : St -> list arg * St) : M unit :=
  a ← eval args;
  call_logger l (prefix +:+ format) (str_arg (FILENAME (FILE at_)) :: int_arg (LINE at_) :: a).

(** The first characters of the text, [(#condition)] among them. *)
Definition at_prefix : string := "{}:{}] ".
Definition cond_prefix (text : string) : string := at_prefix +:+ "(" +:+ text +:+ ") ".

Definition LOG_INFO := log_line info at_prefix.
Definition LOG_ERROR := log_line error at_prefix.
Definition LOG_WARN := log_line warn at_prefix.
Definition LOG_DEBUG := log_line debug at_prefix.

(** The arguments are evaluated only when the level is enabled. *)
Definition trace_line (prefix : string) (at_ : site) (format : string) (args : St -> list arg * St) : M unit :=
  fun w => if is_enabled trace (log_ w) then log_line trace prefix at_ format args w else (Ready tt, w).
Definition LOG_TRACE := trace_line at_prefix.

(** [if (condition) { ... }]. *)
Definition when (condition : St -> bool * St) (m : M unit) : M unit :=
  c ← eval condition; if c : bool then m else mret tt.

Definition LOG_INFO_IF (condition : St -> bool * St) (text : string) at_ format args : M unit :=
  when condition (log_line info (cond_prefix text) at_ format args).
Definition LOG_ERROR_IF (condition : St -> bool * St) (text : string) at_ format args : M unit :=
  when condition (log_line error (cond_prefix text) at_ format args).
Definition LOG_DEBUG_IF (condition : St -> bool * St) (text : string) at_ format args : M unit :=
  when condition (log_line debug (cond_prefix text) at_ format args).
Definition LOG_WARN_IF (condition : St -> bool * St) (text : string) at_ format args : M unit :=
  when condition (log_line warn (cond_prefix text) at_ format args).
Definition LOG_TRACE_IF (condition : St -> bool * St) (text : string) at_ format args : M unit :=
  when condition (log_line trace (cond_prefix text) at_ format args).

(** [data()] of the buffer read as a C string: the text, then what [mem] holds. *)
Definition read_data (text mem : string) : outcome string :=
  match c_str (text +:+ mem) with Some s => Ready s | None => Undefined end.

(** The body of the macros that throw.  The text is the format string of the
    line that is logged. *)
Definition throw_line (prefix : string) (at_ : site) (format : string) (args : St -> list arg * St)
    (mem : string) : M unit :=
  a ← eval args;
  text ← lift (fmt_format (prefix +:+ format) (str_arg (FILENAME (FILE at_)) :: int_arg (LINE at_) :: a));
  s ← lift (read_data text mem);
  call_logger error s [] ;;
  lift (Failed (runtime_error s)).

Definition LOG_THROW := throw_line at_prefix.
Definition LOG_THROW_IF (condition : St -> bool * St) (text : string) at_ format args mem : M unit :=
  when condition (throw_line (cond_prefix text) at_ format args mem).

(** [throw_if_null]; a pointer is an [option]. *)
Definition throw_if_null {T} (file : string) (line : Z) (names : string) (t : option T) : M (option T) :=
  match t with
  | None =>
      s ← lift (fmt_sprintf "{}:{}] check_not_null({})" [str_arg file; int_arg line; str_arg names]);
      s ← lift (read_data s (String zero EmptyString));
      call_logger error s [] ;;
      lift (Failed (runtime_error s))
  | Some _ => mret t
  end.

Definition THROW_IFNULL {T} (at_ : site) (val : string) (t : St -> option T * St) : M (option T) :=
  p ← eval t; throw_if_null (FILE at_) (LINE at_) ("'" +:+ val +:+ "' Must be non NULL") p.

(** [noop(args...)]: the arguments are evaluated. *)
Definition noop (condition : St -> bool * St) (args : St -> list arg * St) : M unit :=
  eval condition ;; eval args ;; mret tt.

(** ** The macros of a debug build

    With [NDEBUG] they expand to [((void)0)]. *)
Definition DLOG (m : M unit) : M unit := if NDEBUG then mret tt else m.

Definition debug_prefix : string := "D " +:+ at_prefix.
Definition debug_cond_prefix (text : string) : string := "D " +:+ cond_prefix text.

Definition DTHROW_IFNULL {T} (at_ : site) (val : string) (t : St -> option T * St) : M (option T) :=
  if NDEBUG then eval t
  else p ← eval t; throw_if_null (FILE at_) (LINE at_) ("D '" +:+ val +:+ "' Must be non NULL") p.

Definition DLOG_THROW at_ format args mem : M unit := DLOG (throw_line debug_prefix at_ format args mem).
Definition DLOG_INFO at_ format args : M unit := DLOG (log_line info debug_prefix at_ format args).
Definition DLOG_ERROR at_ format args : M unit := DLOG (log_line error debug_prefix at_ format args).
Definition DLOG_WARN at_ format args : M unit := DLOG (log_line warn debug_prefix at_ format args).
Definition DLOG_DEBUG at_ format args : M unit := DLOG (log_line debug debug_prefix at_ format args).
Definition DLOG_TRACE at_ format args : M unit := DLOG (trace_line debug_prefix at_ format args).
Definition DLOG_INFO_IF condition text at_ format args : M unit :=
  DLOG (when condition (log_line info (debug_cond_prefix text) at_ format args)).
Definition DLOG_ERROR_IF condition text at_ format args : M unit :=
  DLOG (when condition (log_line error (debug_cond_prefix text) at_ format args)).
Definition DLOG_DEBUG_IF condition text at_ format args : M unit :=
  DLOG (when condition (log_line debug (debug_cond_prefix text) at_ format args)).
Definition DLOG_WARN_IF condition text at_ format args : M unit :=
  DLOG (when condition (log_line warn (debug_cond_prefix text) at_ format args)).
Definition DLOG_TRACE_IF condition text at_ format args : M unit :=
  DLOG (when condition (log_line trace (debug_cond_prefix text) at_ format args)).

(** The one macro that still evaluates what it is given. *)
Definition DLOG_THROW_IF condition text at_ format args mem : M unit :=
  if NDEBUG then noop condition args
  else when condition (throw_line (debug_cond_prefix text) at_ format args mem).

(** [app_run_log_level]. *)
Definition app_run_log_level (l : log_level) (g : logger) : logger := set_logger_level "smf" l (set_level l g).
End macros.
Arguments world _ _ _ : clear implicits.
Arguments world {_ _} St.

(** ** Strings *)

Lemma char_at_app_l s t i : (i < String.length s)%nat -> char_at (s +:+ t) i = char_at s i.
Proof.
  unfold char_at. revert i. induction s as [|a s IH]; intros [|i] L; simpl in *; try lia; [done|].
  apply IH. lia.
Qed.

Lemma char_at_app_r s t i : char_at (s +:+ t) (String.length s + i) = char_at t i.
Proof. unfold char_at. induction s as [|a s IH]; simpl; [done|]. apply IH. Qed.

Lemma char_at_end s i : (String.length s <= i)%nat -> char_at s i = zero.
Proof.
  unfold char_at. revert i. induction s as [|a s IH]; intros i L; [by destruct i|].
  destruct i as [|i]; simpl in *; [lia|]. apply IH. lia.
Qed.

Lemma char_at_lacks c s i : c <> zero -> lacks c s -> Ascii.eqb (char_at s i) c = false.
Proof.
  intros Z. unfold char_at. revert i. induction s as [|a s IH]; intros i L.
  - destruct i; apply Ascii.eqb_neq; by intros E.
  - apply lacks_cons in L as [N L]. destruct i as [|i]; simpl; [by apply Ascii.eqb_neq|by apply IH].
Qed.

Lemma str_drop_app s t : str_drop (String.length s) (s +:+ t) = t.
Proof. induction s as [|a s IH]; simpl; [done|]. apply IH. Qed.

(** Characters that are not [x] are passed over. *)
Lemma find_last_slash_skip file x m n :
  (forall i, m < i <= m + n -> Ascii.eqb (char_at file i) x = false)%nat ->
  find_last_slash file (m + n) x = find_last_slash file m x.
Proof.
  induction n as [|n IH]; intros L; [by rewrite Nat.add_0_r|]. rewrite Nat.add_succ_r. simpl.
  rewrite (L (S (m + n))) by lia. apply IH. intros i B. apply L. lia.
Qed.

Lemma find_last_slash_none file x : x <> zero -> lacks x file -> find_last_slash file (String.length file) x = 0%nat.
Proof.
  intros Z L. apply (find_last_slash_skip file x 0). intros i _. by apply char_at_lacks.
Qed.

Lemma find_last_slash_last dir base x :
  x <> zero -> lacks x base ->
  let file := dir +:+ String x base in
  find_last_slash file (String.length file) x =
    if decide (dir = EmptyString) then 0%nat else S (String.length dir).
Proof.
  intros Z L file.
  assert (E : String.length file = (String.length dir + S (String.length base))%nat) by by unfold file; rewrite str_app_length.
  rewrite E, find_last_slash_skip.
  - destruct dir as [|a dir]; [by rewrite decide_True|]. rewrite decide_False by done. simpl find_last_slash.
    change (S (String.length dir)) with (String.length (String a dir)). unfold file.
    rewrite <- (Nat.add_0_r (String.length (String a dir))), char_at_app_r. simpl.
    by rewrite Ascii.eqb_refl, Nat.add_0_r.
  - intros i B. unfold file. replace i with (String.length dir + S (i - String.length dir - 1))%nat by lia.
    rewrite char_at_app_r. unfold char_at. simpl. by apply char_at_lacks.
Qed.

Lemma c_str_skips s t : lacks zero s -> c_str (s +:+ t) = (fun r => s +:+ r) <$> c_str t.
Proof.
  induction s as [|a s IH]; intros L; simpl; [by destruct (c_str t)|]. apply lacks_cons in L as [N L].
  rewrite (proj2 (Ascii.eqb_neq _ _) N), IH by done. by destruct (c_str t).
Qed.

Lemma c_str_terminated s t : lacks zero s -> c_str (s +:+ String zero t) = Some s.
Proof. intros L. rewrite c_str_skips by done. simpl. by rewrite str_app_nil. Qed.

(** The name of the file is what follows the last slash, except that a slash in
    the first position is not found. *)
Theorem FILENAME_base dir base :
  lacks "/"%char base ->
  FILENAME base = base /\
  FILENAME (dir +:+ "/" +:+ base) = if decide (dir = EmptyString) then "/" +:+ base else base.
Proof.
  intros L. split; unfold FILENAME.
  - by rewrite find_last_slash_none.
  - simpl. rewrite (find_last_slash_last dir base) by done. destruct (decide (dir = EmptyString)) as [->|N]; [done|].
    change (dir +:+ String "/" base) with (dir +:+ ("/" +:+ base)).
    rewrite <- str_app_assoc. replace (S (String.length dir)) with (String.length (dir +:+ "/"))
      by (rewrite str_app_length; simpl; lia). apply str_drop_app.
Qed.

(** ** What the macros do *)

Section properties.
Context `{SeastarLog, Build} {St : Type}.
Implicit Types (w : world St) (condition : St -> bool * St) (args : St -> list arg * St).

(** The text that a throwing macro formats. *)
Definition site_text (at_ : site) (lead : string) : string :=
  FILENAME (FILE at_) +:+ ":" +:+ to_string (LINE at_) +:+ "] " +:+ lead.

Lemma format_at at_ lead ps (l : list arg) (before : string) :
  0 <= LINE at_ -> plain (Text before) -> plain (Text lead) -> Forall plain ps -> (fields ps <= length l)%nat ->
  fmt_format (before +:+ at_prefix +:+ lead +:+ pattern ps) (str_arg (FILENAME (FILE at_)) :: int_arg (LINE at_) :: l) =
  Ready (before +:+ site_text at_ lead +:+ render show_arg ps l).
Proof.
  intros N B T P F.
  change (before +:+ at_prefix +:+ lead +:+ pattern ps)
    with (pattern (Text before :: Field :: Text ":" :: Field :: Text "] " :: Text lead :: ps)).
  rewrite fmt_format_pieces.
  - simpl. rewrite show_str, show_int by done. unfold site_text. by rewrite !str_app_assoc.
  - by repeat constructor; try apply T; try apply B.
  - simpl. lia.
Qed.

Lemma cond_prefix_app text f : cond_prefix text +:+ f = at_prefix +:+ ("(" +:+ text +:+ ") ") +:+ f.
Proof. unfold cond_prefix. by rewrite !str_app_assoc. Qed.

Lemma plain_cond text : plain (Text text) -> plain (Text ("(" +:+ text +:+ ") ")).
Proof.
  intros [L R]. split.
  - change (lacks "{"%char ("(" +:+ text +:+ ") ")). by rewrite !lacks_app.
  - change (lacks "}"%char ("(" +:+ text +:+ ") ")). by rewrite !lacks_app.
Qed.

(** The text of a throwing macro, and what becomes of it. *)
Lemma throw_line_spec prefix at_ format args mem w a s msg :
  args (prog w) = (a, s) ->
  fmt_format (prefix +:+ format) (str_arg (FILENAME (FILE at_)) :: int_arg (LINE at_) :: a) = Ready msg ->
  lacks zero msg ->
  throw_line prefix at_ format args mem w =
    match c_str mem with
    | None => (Undefined, mk_world s (log_ w))
    | Some rest =>
        (Failed (runtime_error (msg +:+ rest)), mk_world s (log_at error (msg +:+ rest) [] (log_ w)))
    end.
Proof.
  intros A F L. unfold throw_line, mbind, M_bind, eval, lift. rewrite A, F. simpl.
  unfold read_data. rewrite c_str_skips by done. by destruct (c_str mem).
Qed.

(** C40: [LOG_THROW_IF] throws exactly when its condition holds, and only then
    evaluates its arguments; but the error it throws and logs is not the formatted
    text: [fmt::memory_buffer] does not terminate its text, so the message is
    continued by the bytes of the storage behind it, up to the first zero byte,
    and without one the read runs out of the storage.  The message is the text
    when the byte behind it happens to be zero. *)
Theorem LOG_THROW_IF_message condition text at_ ps args mem w c s a s' :
  0 <= LINE at_ -> plain (Text text) -> Forall plain ps ->
  condition (prog w) = (c, s) -> args s = (a, s') -> (fields ps <= length a)%nat ->
  let msg := site_text at_ ("(" +:+ text +:+ ") ") +:+ render show_arg ps a in
  lacks zero msg ->
  LOG_THROW_IF condition text at_ (pattern ps) args mem w =
    (if c then
       match c_str mem with
       | None => (Undefined, mk_world s' (log_ w))
       | Some rest =>
           (Failed (runtime_error (msg +:+ rest)), mk_world s' (log_at error (msg +:+ rest) [] (log_ w)))
       end
     else (Ready tt, mk_world s (log_ w))) /\
  (forall rest, c_str mem = Some rest ->
     (LOG_THROW_IF condition text at_ (pattern ps) args mem w).1 = Prelude.LOG_THROW_IF c (msg +:+ rest) /\
     (msg +:+ rest = msg <-> exists m, mem = String zero m)).
Proof.
  intros N T P C A F msg L.
  assert (E : LOG_THROW_IF condition text at_ (pattern ps) args mem w =
    if c then throw_line (cond_prefix text) at_ (pattern ps) args mem (mk_world s (log_ w))
    else (Ready tt, mk_world s (log_ w))).
  { unfold LOG_THROW_IF, when, mbind, M_bind, eval. rewrite C. by destruct c. }
  rewrite (throw_line_spec _ _ _ _ _ _ a s' msg) in E; [|done| |done].
  - split; [done|]. intros rest R. rewrite E, R. split; [by destruct c|]. split.
    + intros Eq. rewrite <- (str_app_nil msg) in Eq at 2. apply str_app_cancel in Eq as ->.
      destruct mem as [|b m]; [done|]. exists m. simpl in R. destruct (Ascii.eqb_spec b zero) as [->|]; [done|].
      by destruct (c_str m).
    + intros [m ->]. injection R as <-. apply str_app_nil.
  - rewrite cond_prefix_app. apply (format_at at_ _ ps a EmptyString); try done. by apply plain_cond.
Qed.

(** [THROW_IFNULL] returns a pointer that is not null, and throws otherwise; the
    error is the format string itself, because [fmt::sprintf] knows no braces. *)
Theorem THROW_IFNULL_message {T} at_ val (t : St -> option T * St) w p s :
  t (prog w) = (p, s) ->
  THROW_IFNULL at_ val t w =
    match p with
    | Some _ => (Ready p, mk_world s (log_ w))
    | None =>
        let text := "{}:{}] check_not_null({})" in
        (Failed (runtime_error text), mk_world s (log_at error text [] (log_ w)))
    end.
Proof.
  intros E. unfold THROW_IFNULL, mbind, M_bind, eval. rewrite E. destruct p as [p|]; [done|].
  unfold throw_if_null, mbind, M_bind, lift. by rewrite fmt_sprintf_text.
Qed.

(** In a release build [DLOG_THROW_IF] never throws, but it evaluates its
    condition and, unlike in a debug build, its arguments even if the condition
    does not hold. *)
Lemma DLOG_THROW_IF_release condition text at_ f args mem w c s a s' :
  condition (prog w) = (c, s) -> args s = (a, s') ->
  DLOG_THROW_IF condition text at_ f args mem w =
    if NDEBUG then (Ready tt, mk_world s' (log_ w))
    else when condition (throw_line (debug_cond_prefix text) at_ f args mem) w.
Proof.
  intros C A. unfold DLOG_THROW_IF. destruct NDEBUG; [|done]. unfold noop, mbind, M_bind, eval.
  rewrite C. simpl. by rewrite A.
Qed.

(** After [app_run_log_level(l)] exactly the levels up to [l] are logged. *)
Lemma app_run_log_level_enabled l g l' :
  is_enabled l' (app_run_log_level l g) = bool_decide (rank l' <= rank l)%nat.
Proof. unfold app_run_log_level. by rewrite set_registered, is_enabled_set. Qed.

(** A line of a level that is not enabled leaves the logger as it was. *)
Lemma log_line_disabled l prefix at_ f args w :
  is_enabled l (log_ w) = false ->
  log_line l prefix at_ f args w = (Ready tt, mk_world (args (prog w)).2 (log_ w)).
Proof.
  intros D. unfold log_line, mbind, M_bind, eval, call_logger. destruct (args (prog w)) as [a s]. simpl.
  by rewrite log_disabled.
Qed.
End properties.

(** ** The libraries exist *)

Module LogDemo.

Fixpoint format (f : string) (args : list (string + Z)) : outcome string :=
  match f with
  | EmptyString => Ready EmptyString
  | String "{" (String "}" f) =>
      match args with
      | a :: args =>
          match format f args with
          | Ready r => Ready ((match a with inl s => s | inr z => to_string z end) +:+ r)
          | o => o
          end
      | [] => Failed (user_exception "argument index out of range")
      end
  | String "{" _ | String "}" _ => Failed (user_exception "invalid format string")
  | String c f => match format f args with Ready r => Ready (String c r) | o => o end
  end.

Definition show (a : string + Z) : string := match a with inl s => s | inr z => to_string z end.

Lemma format_char c f args : c <> "{"%char -> c <> "}"%char ->
  format (String c f) args = match format f args with Ready r => Ready (String c r) | o => o end.
Proof. intros A B. destruct c as [[] [] [] [] [] [] [] []]; (reflexivity || done). Qed.

Lemma format_text t f args : plain (Text t) ->
  format (t +:+ f) args = match format f args with Ready r => Ready (t +:+ r) | o => o end.
Proof.
  induction t as [|c t IH]; intros [L R]; [simpl; by destruct (format f args)|].
  change (String c t +:+ f) with (String c (t +:+ f)). apply lacks_cons in L as [NL L], R as [NR R]. rewrite format_char, IH by done. by destruct (format f args).
Qed.

Lemma format_pieces ps args : Forall plain ps -> (fields ps <= length args)%nat ->
  format (pattern ps) args = Ready (render show ps args).
Proof.
  intros P. revert args. induction P as [|[t|] ps p P IH]; intros args F; [done|..].
  - simpl pattern. simpl render. rewrite format_text, IH by done. done.
  - destruct args as [|a args]; simpl in *; [lia|]. by rewrite IH by lia.
Qed.

(** [%v] takes the next argument, [%%] is a percent sign. *)
Fixpoint sprintf (f : string) (args : list (string + Z)) : outcome string :=
  match f with
  | EmptyString => Ready EmptyString
  | String a f =>
      if Ascii.eqb a "%" then
        match f, args with
        | String "%" f, _ => match sprintf f args with Ready r => Ready (String a r) | o => o end
        | String "v" f, b :: args => match sprintf f args with Ready r => Ready (show b +:+ r) | o => o end
        | _, _ => Failed (user_exception "invalid format string")
        end
      else match sprintf f args with Ready r => Ready (String a r) | o => o end
  end.

Lemma sprintf_text f args : lacks "%"%char f -> sprintf f args = Ready f.
Proof.
  induction f as [|a f IH]; intros L; [done|]. apply lacks_cons in L as [N L]. cbn [sprintf].
  by rewrite (proj2 (Ascii.eqb_neq _ _) N), IH.
Qed.

#[export] Instance demo_fmt : Fmt := {|
  arg := string + Z; str_arg := inl; int_arg := inr; show_arg := show; fmt_format := format; fmt_sprintf := sprintf;
  show_str s := eq_refl; show_int n _ := eq_refl; fmt_format_pieces := format_pieces; fmt_sprintf_text := sprintf_text
|}.

(** A logger that keeps the lines it prints. *)
Definition demo_logger : Type := log_level * list (log_level * string * list (string + Z)).
Definition enabled (l : log_level) (g : demo_logger) : bool := bool_decide (rank l <= rank g.1)%nat.

#[export, refine] Instance demo_log : SeastarLog := {|
  logger := demo_logger;
  log_at l f a g := if enabled l g then (g.1, (l, f, a) :: g.2) else g;
  is_enabled := enabled;
  set_level l g := (l, g.2);
  set_logger_level name l g := if String.eqb name "smf" then (l, g.2) else g
|}.
Proof.
  - intros l f a g E. by rewrite E.
  - intros l f a g l'. by destruct (enabled l g).
  - done.
  - done.
Defined.

Definition at_demo : site := mk_site "src/core/rpc_client.cc" 27.

Definition positive (n : Z) : bool * Z := (0 <? n, n).
Definition one_arg (n : Z) : list arg * Z := ([int_arg n], n + 1).
Definition garbage : string := "##" +:+ String zero EmptyString.
Definition at_start : world Z := mk_world 3 ((info, []) : logger).

(** Garbage behind the text is part of the error. *)
Lemma LOG_THROW_IF_message_witness :
  (LOG_THROW_IF positive "n > 0" at_demo (pattern [Text "n is "; Field]) one_arg garbage at_start).1 =
    Failed (runtime_error "rpc_client.cc:27] (n > 0) n is 3##").
Proof.
  rewrite (proj1 (LOG_THROW_IF_message positive "n > 0" at_demo [Text "n is "; Field] one_arg garbage at_start
    true 3 [int_arg 3] 4 ltac:(done) ltac:(vm_decide) ltac:(repeat constructor) eq_refl eq_refl
    ltac:(simpl; lia) ltac:(vm_decide))).
  vm_refl.
Defined.

Lemma THROW_IFNULL_demo :
  (THROW_IFNULL at_demo "ptr" (fun s : Z => (@None Z, s)) at_start).1 =
    Failed (runtime_error "{}:{}] check_not_null({})").
Proof. vm_refl. Qed.
End LogDemo.
