(* ===== verification/Doubles.v ===== *)
(** * Doubles

    What the sources use of [double]: the conversion of an unsigned integer,
    division, multiplication, comparison and conversion back, for values that are
    not negative.  A double is an integer times a power of two; an operation is
    the exact result rounded to 53 bits, to nearest and ties to even.  The
    operands of the sources come from 64-bit integers, so that no exponent is near
    the limits of the format. *)

From Stdlib Require Import ZArith Lia.
From stdpp Require Import base numbers.
From S2P Require Import Prelude.

Record double := mk_double { mant : Z; dexp : Z }.

(** The value is [above d / below d]. *)
Definition above (d : double) : Z := mant d * 2 ^ Z.max 0 (dexp d).
Definition below (d : double) : Z := 2 ^ Z.max 0 (- dexp d).

(** The integer nearest to [a / b]. *)
Definition rne (a b : Z) : Z :=
  let q := a / b in
  let r := a mod b in
  if 2 * r <? b then q else if b <? 2 * r then q + 1 else if Z.even q then q else q + 1.

(** The exponent for which [p / q] has 53 bits before the point. *)
Definition exponent (p q : Z) : Z :=
  let e := Z.log2 p - Z.log2 q - 52 in
  if p * 2 ^ Z.max 0 (- e) <? q * 2 ^ Z.max 0 e * 2 ^ 52 then e - 1 else e.

Definition rnd (p q : Z) : double :=
  let e := exponent p q in
  if p =? 0 then mk_double 0 0
  else mk_double (rne (p * 2 ^ Z.max 0 (- e)) (q * 2 ^ Z.max 0 e)) e.

(** An integer below [2 ^ 53] is a double. *)
Definition double_of (n : Z) : double := if n <? 2 ^ 53 then mk_double n 0 else rnd n 1.
Definition double_div (a b : double) : double := rnd (above a * below b) (below a * above b).
Definition double_mul (a b : double) : double := rnd (above a * above b) (below a * below b).
(** Dividing by a power of two changes the exponent. *)
Definition double_scale (a : double) (k : Z) : double := mk_double (mant a) (dexp a - k).
Definition double_lt (a : double) (n : Z) : bool := above a <? n * below a.
(** Conversion to [uint64_t]: the fraction is dropped. *)
Definition double_trunc (a : double) : Z := u64 (above a / below a).

(** ** Rounding *)

Lemma rne_close a b : 0 < b -> 2 * Z.abs (rne a b * b - a) <= b.
Proof.
  intros B. unfold rne. pose proof (Z.div_mod a b ltac:(lia)). pose proof (Z.mod_pos_bound a b B).
  repeat case_goal; bool_to_prop; nia.
Qed.

Lemma rne_exact n b : 0 < b -> rne (n * b) b = n.
Proof.
  intros B. unfold rne. rewrite Z.div_mul, Z.mod_mul by lia. by replace (2 * 0 <? b) with true by (symmetry; apply Z.ltb_lt; lia).
Qed.

Lemma rne_nonneg a b : 0 <= a -> 0 < b -> 0 <= rne a b.
Proof.
  intros A B. unfold rne. pose proof (Z.div_pos a b A B). repeat case_goal; lia.
Qed.

Lemma pow_pos e : 0 < 2 ^ Z.max 0 e.
Proof. apply Z.pow_pos_nonneg; lia. Qed.

Lemma below_pos d : 0 < below d.
Proof. apply pow_pos. Qed.

Lemma above_nonneg d : 0 <= mant d -> 0 <= above d.
Proof. intros M. unfold above. pose proof (pow_pos (dexp d)). nia. Qed.

(** The scaled quotient for the first guess of the exponent is off by at most one bit. *)
Lemma guess_bounds p q :
  0 < p -> 0 < q ->
  let e := Z.log2 p - Z.log2 q - 52 in
  q * 2 ^ Z.max 0 e * 2 ^ 51 < p * 2 ^ Z.max 0 (- e) < q * 2 ^ Z.max 0 e * 2 ^ 53.
Proof.
  intros P Q e. pose proof (Z.log2_spec p P) as [Pl Pu]. pose proof (Z.log2_spec q Q) as [Ql Qu].
  pose proof (Z.log2_nonneg p). pose proof (Z.log2_nonneg q).
  pose proof (pow_pos e). pose proof (pow_pos (- e)).
  assert (L : 2 ^ Z.succ (Z.log2 q) * 2 ^ Z.max 0 e * 2 ^ 51 = 2 ^ Z.log2 p * 2 ^ Z.max 0 (- e)).
  { rewrite <- !Z.pow_add_r by lia. f_equal. lia. }
  assert (R : 2 ^ Z.log2 q * 2 ^ Z.max 0 e * 2 ^ 53 = 2 ^ Z.succ (Z.log2 p) * 2 ^ Z.max 0 (- e)).
  { rewrite <- !Z.pow_add_r by lia. f_equal. lia. }
  assert (0 < 2 ^ Z.log2 p) by (apply Z.pow_pos_nonneg; lia).
  generalize dependent (2 ^ Z.max 0 e). generalize dependent (2 ^ Z.max 0 (- e)). intros x X y Y L R. nia.
Qed.

(** One less in the exponent doubles the scaled quotient. *)
Lemma exponent_pred p q e :
  (p * 2 ^ Z.max 0 (- (e - 1)) = 2 * (p * 2 ^ Z.max 0 (- e)) /\ q * 2 ^ Z.max 0 (e - 1) = q * 2 ^ Z.max 0 e) \/
  (p * 2 ^ Z.max 0 (- (e - 1)) = p * 2 ^ Z.max 0 (- e) /\ 2 * (q * 2 ^ Z.max 0 (e - 1)) = q * 2 ^ Z.max 0 e).
Proof.
  destruct (decide (e <= 0)); [left|right].
  - replace (Z.max 0 (- (e - 1))) with (Z.succ (Z.max 0 (- e))) by lia. rewrite Z.pow_succ_r by lia.
    replace (Z.max 0 (e - 1)) with (Z.max 0 e) by lia. lia.
  - replace (Z.max 0 e) with (Z.succ (Z.max 0 (e - 1))) by lia. rewrite Z.pow_succ_r by lia.
    replace (Z.max 0 (- (e - 1))) with (Z.max 0 (- e)) by lia. lia.
Qed.

(** The scaled quotient has 53 bits before the point. *)
Lemma exponent_bounds p q :
  0 < p -> 0 < q ->
  let e := exponent p q in
  q * 2 ^ Z.max 0 e * 2 ^ 52 <= p * 2 ^ Z.max 0 (- e) < q * 2 ^ Z.max 0 e * 2 ^ 53.
Proof.
  intros P Q. pose proof (guess_bounds p q P Q) as G. unfold exponent. simpl in *.
  set (e := Z.log2 p - Z.log2 q - 52) in *. case_goal; bool_to_prop; [|lia].
  destruct (exponent_pred p q e) as [[-> ->]|[-> E]]; lia.
Qed.

(** The relative error of a rounded value is at most [2 ^ -53]. *)
Lemma rnd_close p q :
  0 <= p -> 0 < q -> 2 ^ 53 * Z.abs (above (rnd p q) * q - p * below (rnd p q)) <= p * below (rnd p q).
Proof.
  intros P Q. unfold rnd. case_goal; bool_to_prop; [subst; by simpl|].
  pose proof (exponent_bounds p q ltac:(lia) Q) as B. simpl in B. unfold above, below. simpl.
  set (e := exponent p q) in *. pose proof (pow_pos e) as E.
  pose proof (rne_close (p * 2 ^ Z.max 0 (- e)) (q * 2 ^ Z.max 0 e) ltac:(nia)). lia.
Qed.

Lemma rnd_mant p q : 0 <= p -> 0 < q -> 0 <= mant (rnd p q).
Proof.
  intros P Q. unfold rnd. case_goal; [done|]. simpl.
  pose proof (pow_pos (exponent p q)). pose proof (pow_pos (- exponent p q)). apply rne_nonneg; nia.
Qed.

Lemma rnd_zero p q : p = 0 -> above (rnd p q) = 0.
Proof. by intros ->. Qed.

#[export] Hint Resolve below_pos above_nonneg rnd_mant : smf.

(** An integer of 64 bits, converted: an integer again, off by less than [2 ^ 11]. *)
Lemma double_of_close n :
  fits_u 64 n ->
  0 <= mant (double_of n) /\ below (double_of n) = 1 /\ Z.abs (above (double_of n) - n) < 2 ^ 11 /\
  (n < 2 ^ 53 -> above (double_of n) = n).
Proof.
  intros [L U]. unfold double_of. case_goal; bool_to_prop.
  - change (below (mk_double n 0)) with 1. change (above (mk_double n 0)) with (n * 1). cbn [mant]. split_and!; lia.
  - pose proof (rnd_mant n 1 L eq_refl). pose proof (rnd_close n 1 L eq_refl) as C.
    assert (B : below (rnd n 1) = 1).
    { unfold below, rnd. replace (n =? 0) with false by (symmetry; apply Z.eqb_neq; lia). simpl.
      assert (53 <= Z.log2 n) by (apply Z.log2_le_pow2; lia).
      unfold exponent. change (Z.log2 1) with 0. case_goal.
      - replace (Z.max 0 (- (Z.log2 n - 0 - 52 - 1))) with 0 by lia. done.
      - replace (Z.max 0 (- (Z.log2 n - 0 - 52))) with 0 by lia. done. }
    rewrite B in *. change (2 ^ 64) with (2 ^ 53 * 2 ^ 11) in U. split_and!; lia.
Qed.

(** Two roundings in a row, a quotient and its multiple, stay within one of the
    exact value while that is small. *)
Lemma div_mul_close r d k :
  0 <= r -> 0 < d -> 0 < k -> 3 * (k * r) < 2 ^ 53 ->
  let q := rnd r d in
  let m := rnd (above q * k) (below q) in
  Z.abs (above m / below m - k * r / d) <= 1.
Proof.
  intros R D K S q m.
  pose proof (rnd_close r d R D) as Cq. pose proof (rnd_mant r d R D) as Mq.
  fold q in Cq, Mq. pose proof (below_pos q) as Bq. pose proof (above_nonneg q Mq) as Aq.
  pose proof (rnd_close (above q * k) (below q) ltac:(nia) Bq) as Cm. fold m in Cm. pose proof (below_pos m) as Bm.
  generalize dependent (above m). generalize dependent (below m). clear m. intros b' B' a' Cm.
  generalize dependent (above q). generalize dependent (below q). clear Mq q. intros b B a Cq A Cm.
  assert (C1 : 2 ^ 53 * Z.abs (a' * b * d - a * k * b' * d) <= a * k * b' * d).
  { replace (a' * b * d - a * k * b' * d) with ((a' * b - a * k * b') * d) by lia.
    rewrite Z.abs_mul, (Z.abs_eq d) by lia. nia. }
  assert (C2 : 2 ^ 53 * Z.abs (a * d * (k * b') - r * b * (k * b')) <= r * b * (k * b')).
  { replace (a * d * (k * b') - r * b * (k * b')) with ((a * d - r * b) * (k * b')) by lia.
    rewrite Z.abs_mul, (Z.abs_eq (k * b')), Z.mul_assoc by nia. apply Z.mul_le_mono_nonneg_r; [nia|done]. }
  assert (C3 : a * d * (k * b') <= 2 * (r * b * (k * b'))) by lia.
  assert (C4 : 2 ^ 53 * Z.abs (a' * b * d - r * b * (k * b')) <= 3 * (k * r) * (b * b')) by lia.
  assert (C5 : Z.abs (a' * d - k * r * b') * b < b * b').
  { rewrite <- (Z.abs_eq b) at 1 by lia. rewrite <- Z.abs_mul.
    replace ((a' * d - k * r * b') * b) with (a' * b * d - r * b * (k * b')) by lia. nia. }
  assert (C6 : Z.abs (a' * d - k * r * b') < d * b') by nia.
  clear -C6 D B'.
  pose proof (Z.div_mod a' b' ltac:(lia)). pose proof (Z.mod_pos_bound a' b' B').
  pose proof (Z.div_mod (k * r) d ltac:(lia)). pose proof (Z.mod_pos_bound (k * r) d D).
  assert (a' / b' < k * r / d + 2) by nia. assert (k * r / d < a' / b' + 2) by nia. lia.
Qed.
