(* ===== verification/Text.v ===== *)
(** * Printing to streams

    src/src/include/smf/human_bytes.h, time_utils.h, rpc_header_ostream.h and the
    [operator<<] of rpc_connection_limits.h and rpc_handle_router.h.  A
    [std::ostream] is the text written so far and the part of the format state
    that the sources touch. *)

From Stdlib Require Import ZArith Lia Ascii String.
From stdpp Require Import base list numbers strings.
From S2P Require Import Prelude Header Seastar Connection Printer Schema Doubles.

Record std_ostream := mk_std_ostream { written : string; precision : Z; fixed : bool }.

Definition put (s : string) (o : std_ostream) : std_ostream := mk_std_ostream (written o +:+ s) (precision o) (fixed o).
Definition setprecision (p : Z) (o : std_ostream) : std_ostream := mk_std_ostream (written o) p (fixed o).
Definition set_fixed (o : std_ostream) : std_ostream := mk_std_ostream (written o) (precision o) true.

(** Signed integers. *)
Definition show_signed (n : Z) : string := if n <? 0 then "-" +:+ to_string (- n) else to_string n.

Fixpoint zeros (n : nat) : string := match n with O => EmptyString | S n => String "0" (zeros n) end.
Definition pad_to (w : nat) (n : Z) : string := zeros (w - String.length (to_string n)) +:+ to_string n.

(** A decimal number with [p] digits behind the point, in units of [10 ^ -p]. *)
Definition fixed_point (p v : Z) : string :=
  to_string (v / 10 ^ p) +:+ (if p =? 0 then EmptyString else "." +:+ pad_to (Z.to_nat p) (v mod 10 ^ p)).

Section streams.
(** How a stream that is not [fixed] prints a double. *)
Context (general : Z -> double -> string).

Definition put_double (d : double) (o : std_ostream) : std_ostream :=
  put (if fixed o then fixed_point (precision o) (rne (above d * 10 ^ precision o) (below d))
       else general (precision o) d) o.

(** [operator<<(std::ostream &, human_bytes)].  Each comparison divides the data. *)
Definition human_bytes (d : double) (o : std_ostream) : std_ostream :=
  let orig_precision := precision o in
  let o := setprecision 3 (set_fixed o) in
  let o :=
    if double_lt d 1024 then
      let d := if double_lt d 1 then double_of 0 else d in
      put " bytes" (put_double d o)
    else
      let d := double_scale d 10 in
      if double_lt d 1000 then put " KB" (put_double d o)
      else
        let d := double_scale d 10 in
        if double_lt d 1000 then put " MB" (put_double d o)
        else
          let d := double_scale d 10 in
          if double_lt d 1000 then put " GB" (put_double d o) else put " TB" (put_double d o) in
  setprecision orig_precision o.

(** [current()] of a semaphore is not negative. *)
Definition sem_current `{Seastar} (s : semaphore) : Z := Z.max 0 (sem_count s).

(** [operator<<(std::ostream &, const rpc_connection_limits &)]. *)
Definition put_limits `{Seastar} (l : rpc_connection_limits) (o : std_ostream) : std_ostream :=
  let o := human_bytes (double_of (max_memory l)) (put "rpc_connection_limits{max_mem:" o) in
  let o := put (show_signed (max_body_parsing_duration l)) (put ", max_body_parsing_duration: " o) in
  let o := human_bytes (double_of (sem_current (resources_available l))) (put "ms, res_avail:" o) in
  put ")}" (put (to_string (sem_current (resources_available l))) (put " (" o)).
End streams.

(** ** Headers *)

(** [std::bitset<8>], the highest bit first. *)
Definition bit (n i : Z) : string := if Z.testbit n i then "1" else "0".
Definition bitset8 (n : Z) : string :=
  bit n 7 +:+ bit n 6 +:+ bit n 5 +:+ bit n 4 +:+ bit n 3 +:+ bit n 2 +:+ bit n 1 +:+ bit n 0.

(** [operator<<(ostream &, const rpc::header &)]; [EnumName] is generated. *)
Definition put_header `{GeneratedHeader} (EnumName : Z -> string) (h : header) (o : std_ostream) : std_ostream :=
  let o := put (EnumName (compression h)) (put "rpc::header={compression:" o) in
  let o := put (bitset8 (u8 (bitflags h))) (put ", header_bit_flags:" o) in
  let o := put (to_string (session h)) (put ", session:" o) in
  let o := put (to_string (hsize h)) (put ", size:" o) in
  let o := put (to_string (checksum h)) (put ", checksum:" o) in
  put "}" (put (to_string (meta h)) (put ", meta:" o)).

(** [operator<<(std::ostream &, const rpc_handle_router &)]; [print] is generated. *)
Fixpoint put_services {S} (print : S -> std_ostream -> std_ostream) (l : list S) (o : std_ostream) : std_ostream :=
  match l with [] => o | s :: l => put_services print l (print s o) end.
Definition put_router {S} (print : S -> std_ostream -> std_ostream) (services : list S) (o : std_ostream) : std_ostream :=
  put "}" (put_services print services (put "rpc_handle_router{" o)).

(** ** Time *)

(** Clock readings, in nanoseconds since the epoch of the clock. *)
Definition time_now_millis (system_now : Z) : Z := u64 (Z.quot system_now 1000000).
Definition time_now_micros (high_resolution_now : Z) : Z := u64 (Z.quot high_resolution_now 1000).
Definition lowres_time_now_millis (lowres_now : Z) : Z := u64 (Z.quot lowres_now 1000000).

(** [struct tm]. *)
Record tm := mk_tm { tm_year : Z; tm_mon : Z; tm_mday : Z; tm_hour : Z; tm_min : Z; tm_sec : Z }.

(** [time_as_iso_8601]; [localtime] gives [NULL] for a time that it cannot represent. *)
Definition time_as_iso_8601 (localtime : Z -> option tm) (millisecs : Z) : string :=
  match localtime (s64 (millisecs / 1000)) with
  | None => EmptyString
  | Some t =>
      show_signed (tm_year t + 1900) +:+ "-" +:+ show_signed (tm_mon t + 1) +:+ "-" +:+ show_signed (tm_mday t) +:+
      "T" +:+ show_signed (tm_hour t) +:+ ":" +:+ show_signed (tm_min t) +:+ ":" +:+ show_signed (tm_sec t)
  end.

(** ** Bytes *)

(** The unit that is chosen for an integer number of bytes. *)
Definition unit_of (n : Z) : Z * string :=
  if n <? 1024 then (0, " bytes")
  else if n <? 1000 * 1024 then (1, " KB")
  else if n <? 1000 * 1024 ^ 2 then (2, " MB")
  else if n <? 1000 * 1024 ^ 3 then (3, " GB")
  else (3, " TB").

(** [d] is the integer [x] divided by [1024 ^ k]. *)
Definition is_scaled (d : double) (x k : Z) : Prop := above d * 1024 ^ k = x * below d /\ 0 <= k.

Lemma scale_scaled d x k : is_scaled d x k -> is_scaled (double_scale d 10) x (k + 1).
Proof.
  intros [E K]. split; [|lia].
  assert (S : above (double_scale d 10) * 1024 * below d = above d * below (double_scale d 10)).
  { unfold above, below, double_scale. simpl. change 1024 with (2 ^ 10).
    rewrite <- !Z.mul_assoc, <- !Z.pow_add_r by lia. do 2 f_equal. lia. }
  rewrite Z.pow_add_r by lia. pose proof (below_pos d). change (1024 ^ 1) with 1024.
  apply (Z.mul_reg_r _ _ (below d)); [lia|].
  transitivity (above (double_scale d 10) * 1024 * below d * 1024 ^ k); [lia|]. rewrite S.
  transitivity (above d * 1024 ^ k * below (double_scale d 10)); [lia|]. rewrite E. lia.
Qed.

Lemma scaled_lt d x k n : is_scaled d x k -> double_lt d n = (x <? n * 1024 ^ k).
Proof.
  intros [E K]. pose proof (below_pos d). assert (0 < 1024 ^ k) by (apply Z.pow_pos_nonneg; lia).
  unfold double_lt. destruct (Z.ltb_spec (above d) (n * below d)), (Z.ltb_spec x (n * 1024 ^ k)); (done || nia).
Qed.

Lemma scaled_round d x k p :
  is_scaled d x k -> 0 <= p ->
  2 * Z.abs (rne (above d * p) (below d) * 1024 ^ k - p * x) <= 1024 ^ k.
Proof.
  intros [E K] P. pose proof (below_pos d) as B. pose proof (rne_close (above d * p) (below d) B) as C.
  assert (S : 0 < 1024 ^ k) by (apply Z.pow_pos_nonneg; lia).
  generalize dependent (rne (above d * p) (below d)). intros v C.
  assert (2 * Z.abs (v * 1024 ^ k - p * x) * below d <= 1024 ^ k * below d); [|nia].
  rewrite <- (Z.abs_eq (below d)) at 1 by lia. rewrite <- Z.mul_assoc, <- Z.abs_mul.
  replace ((v * 1024 ^ k - p * x) * below d) with ((v * below d - above d * p) * 1024 ^ k) by nia.
  rewrite Z.abs_mul, (Z.abs_eq (1024 ^ k)) by lia. nia.
Qed.

Lemma put_scaled general d x k u o :
  is_scaled d x k ->
  exists v,
    written (put u (put_double general d (setprecision 3 (set_fixed o)))) = written o +:+ fixed_point 3 v +:+ u /\
    2 * Z.abs (v * 1024 ^ k - 1000 * x) <= 1024 ^ k.
Proof.
  intros S. exists (rne (above d * 1000) (below d)). split; [by simpl; rewrite str_app_assoc|].
  by apply scaled_round.
Qed.

(** What [human_bytes] writes for a number of bytes: the number in the unit
    that fits it, correct to half a thousandth of the unit, with three decimals.
    But the largest unit is wrong: from 1000 GB on the number is still divided by
    [1024 ^ 3] only and is called TB, 1024 times too many.  The precision of
    the stream is restored, and [std::fixed] stays. *)
Theorem human_bytes_text general n o :
  fits_u 64 n ->
  let x := above (double_of n) in
  let o' := human_bytes general (double_of n) o in
  exists v,
    written o' = written o +:+ fixed_point 3 v +:+ (unit_of x).2 /\
    2 * Z.abs (v * 1024 ^ (unit_of x).1 - 1000 * x) <= 1024 ^ (unit_of x).1 /\
    Z.abs (x - n) < 2 ^ 11 /\ (n < 2 ^ 53 -> x = n) /\
    precision o' = precision o /\ fixed o' = true.
Proof.
  intros F x o'. destruct (double_of_close n F) as (M & B & C & E). fold x in C, E.
  assert (S0 : is_scaled (double_of n) x 0) by (split; [rewrite B; fold x; lia|done]).
  pose proof (scale_scaled _ _ _ S0) as S1. pose proof (scale_scaled _ _ _ S1) as S2.
  pose proof (scale_scaled _ _ _ S2) as S3.
  pose proof (scaled_lt _ _ _ 1024 S0 : _ = (x <? 1024)) as L0.
  pose proof (scaled_lt _ _ _ 1000 S1 : _ = (x <? 1000 * 1024)) as L1.
  pose proof (scaled_lt _ _ _ 1000 S2 : _ = (x <? 1000 * 1024 ^ 2)) as L2.
  pose proof (scaled_lt _ _ _ 1000 S3 : _ = (x <? 1000 * 1024 ^ 3)) as L3.
  assert (SZ : double_lt (double_of n) 1 = true -> is_scaled (double_of 0) x 0).
  { rewrite (scaled_lt _ _ _ _ S0). intros L. bool_to_prop. pose proof (above_nonneg _ M : 0 <= x).
    split; [|done]. replace x with 0 by lia. done. }
  unfold o', human_bytes, unit_of. rewrite L0, L1, L2, L3.
  assert (Done : forall d k u, is_scaled d x k -> exists v,
    written (setprecision (precision o) (put u (put_double general d (setprecision 3 (set_fixed o))))) =
      written o +:+ fixed_point 3 v +:+ u /\ 2 * Z.abs (v * 1024 ^ k - 1000 * x) <= 1024 ^ k /\
    Z.abs (x - n) < 2 ^ 11 /\ (n < 2 ^ 53 -> x = n) /\ precision o = precision o /\ true = true).
  { intros d k u S. destruct (put_scaled general d x k u o S) as (v & W & A). by exists v. }
  destruct (x <? 1024); [destruct (double_lt (double_of n) 1); [by apply Done, SZ|by apply Done]|].
  destruct (x <? 1000 * 1024); [by apply Done|]. destruct (x <? 1000 * 1024 ^ 2); [by apply Done|].
  destruct (x <? 1000 * 1024 ^ 3); by apply Done.
Qed.

(** One tebibyte is printed as 1024 TB. *)
Lemma human_bytes_text_witness :
  exists v, written (human_bytes (fun _ _ => EmptyString) (double_of (2 ^ 40)) (mk_std_ostream EmptyString 6 false)) =
              fixed_point 3 v +:+ " TB" /\
            2 * Z.abs (v * 1024 ^ 3 - 1000 * 2 ^ 40) <= 1024 ^ 3.
Proof.
  destruct (human_bytes_text (fun _ _ => EmptyString) (2 ^ 40) (mk_std_ostream EmptyString 6 false) ltac:(vm_decide))
    as (v & W & A & _). by exists v.
Defined.

Example human_bytes_tebibyte :
  written (human_bytes (fun _ _ => EmptyString) (double_of (2 ^ 40)) (mk_std_ostream EmptyString 6 false)) = "1024.000 TB".
Proof. vm_refl. Qed.

Example human_bytes_megabyte :
  written (human_bytes (fun _ _ => EmptyString) (double_of 1536000) (mk_std_ostream EmptyString 6 false)) = "1.465 MB".
Proof. vm_refl. Qed.

(** ** Dates *)

(** Two digits, and the format that the comment of [time_as_iso_8601] promises. *)
Definition two_digits (n : Z) : string := if n <? 10 then "0" +:+ show_signed n else show_signed n.
Definition iso_8601 (t : tm) : string :=
  show_signed (tm_year t + 1900) +:+ "-" +:+ two_digits (tm_mon t + 1) +:+ "-" +:+ two_digits (tm_mday t) +:+
  "T" +:+ two_digits (tm_hour t) +:+ ":" +:+ two_digits (tm_min t) +:+ ":" +:+ two_digits (tm_sec t).

Lemma two_digits_length n :
  String.length (two_digits n) = ((if decide (n < 10)%Z then 1 else 0) + String.length (show_signed n))%nat.
Proof.
  unfold two_digits. destruct (decide (n < 10)) as [L|L].
  - by rewrite (proj2 (Z.ltb_lt _ _) L), str_app_length.
  - by rewrite (proj2 (Z.ltb_ge _ _)) by lia.
Qed.

(** [time_as_iso_8601] writes a date of that format exactly when no part of it is
    below ten, because the parts are not padded. *)
Theorem time_as_iso_8601_format localtime ms t :
  localtime (s64 (ms / 1000)) = Some t ->
  time_as_iso_8601 localtime ms = iso_8601 t <->
    10 <= tm_mon t + 1 /\ 10 <= tm_mday t /\ 10 <= tm_hour t /\ 10 <= tm_min t /\ 10 <= tm_sec t.
Proof.
  intros L. unfold time_as_iso_8601, iso_8601. rewrite L. split.
  - intros E. apply (f_equal String.length) in E. rewrite !str_app_length, !two_digits_length in E.
    repeat case_decide; lia.
  - intros (A & B & C & D & F). unfold two_digits.
    by rewrite !(fun x => proj2 (Z.ltb_ge x 10)) by lia.
Qed.

(** ** A printed header determines the header *)

Lemma split_unique c s t s' t' :
  lacks c s -> lacks c s' -> s +:+ String c t = s' +:+ String c t' -> s = s' /\ t = t'.
Proof.
  intros L L' E. apply (f_equal (find_char c)) in E. rewrite !find_char_app in E by done. by injection E.
Qed.

Lemma bitset8_inj a b : fits_u 8 a -> fits_u 8 b -> bitset8 a = bitset8 b -> a = b.
Proof.
  intros A B E. apply Z.bits_inj'. intros i I. destruct (decide (i < 8)) as [L|L].
  - assert (T : forall x y s t, bit a x +:+ s = bit b y +:+ t -> Z.testbit a x = Z.testbit b y /\ s = t).
    { intros x y s t. unfold bit. by destruct (Z.testbit a x), (Z.testbit b y); intros [=]. }
    unfold bitset8 in E. repeat (apply T in E as [? E]).
    rewrite <- (str_app_nil (bit a 0)), <- (str_app_nil (bit b 0)) in E. apply T in E as [? _].
    assert (i = 0 \/ i = 1 \/ i = 2 \/ i = 3 \/ i = 4 \/ i = 5 \/ i = 6 \/ i = 7) as Cs by lia.
    by destruct Cs as [->|[->|[->|[->|[->|[->|[->| ->]]]]]]].
  - assert (Hi : forall x, fits_u 8 x -> Z.testbit x i = false).
    { intros x [X0 X]. destruct (decide (x = 0)) as [->|N]; [apply Z.testbit_0_l|].
      apply Z.bits_above_log2; [lia|]. apply Z.log2_lt_pow2; [lia|].
      apply (Z.lt_le_trans _ (2 ^ 8)); [done|]. apply Z.pow_le_mono_r; lia. }
    by rewrite !Hi.
Qed.

(** The text of a header, the parts joined by commas. *)
Definition header_parts `{GeneratedHeader} (EnumName : Z -> string) (h : header) : string :=
  EnumName (compression h) +:+ String "," (" header_bit_flags:" +:+ bitset8 (u8 (bitflags h)) +:+ String ","
  (" session:" +:+ to_string (session h) +:+ String "," (" size:" +:+ to_string (hsize h) +:+ String ","
  (" checksum:" +:+ to_string (checksum h) +:+ String "," (" meta:" +:+ to_string (meta h) +:+ String "}" EmptyString))))).

Lemma put_header_written `{GeneratedHeader} EnumName h o :
  written (put_header EnumName h o) = written o +:+ "rpc::header={compression:" +:+ header_parts EnumName h.
Proof. unfold put_header, put, header_parts. simpl. by rewrite !str_app_assoc. Qed.

Lemma bitset8_no_comma n : lacks ","%char (bitset8 n).
Proof. unfold bitset8. rewrite !lacks_app. unfold bit. repeat split; by case_goal. Qed.

(** The printed form of a header determines all its fields, the compression up to
    the name that the generated code gives it. *)
Theorem put_header_inj `{GeneratedHeader} EnumName h h' o :
  header_wf h -> header_wf h' -> (forall c, lacks ","%char (EnumName c)) ->
  written (put_header EnumName h o) = written (put_header EnumName h' o) ->
  EnumName (compression h) = EnumName (compression h') /\ bitflags h = bitflags h' /\ session h = session h' /\
  hsize h = hsize h' /\ checksum h = checksum h' /\ meta h = meta h'.
Proof.
  intros (_ & B & S & Z & C & M) (_ & B' & S' & Z' & C' & M') N E.
  rewrite !put_header_written in E. apply str_app_cancel, str_app_cancel in E. unfold header_parts in E.
  apply split_unique in E as [En E]; [|done..]. apply str_app_cancel in E.
  apply split_unique in E as [Eb E]; [|apply bitset8_no_comma..]. apply str_app_cancel in E.
  do 3 (apply split_unique in E as [? E]; [|by apply to_string_no..]; apply str_app_cancel in E).
  apply split_unique in E as [? _]; [|by apply to_string_no..].
  rewrite (wrap_u_small 8 (bitflags h)), (wrap_u_small 8 (bitflags h')) in Eb by done.
  repeat match goal with Hs : to_string _ = to_string _ |- _ => apply to_string_inj in Hs; [|unfold fits_u in *; lia..] end.
  split_and!; try done. by apply bitset8_inj.
Qed.
