(* ===== verification/Histogram.v ===== *)
(** * Histograms

    src/src/core/histogram.cc, histogram.h and unique_histogram_adder.h.  The
    histogram itself is the library HdrHistogram, named by the class [Hdr] with
    its documented behaviour. *)

From Stdlib Require Import ZArith Lia.
From stdpp Require Import base gmap list numbers strings.
From S2P Require Import Prelude.

Class Hdr := {
  hdr : Type;
  (** [hdr_init(lowest, highest, figures)]; [None]: nothing is allocated. *)
  hdr_init : Z -> Z -> Z -> option hdr;
  (** [total_count] of the histogram. *)
  total_count : hdr -> Z;
  (** Recording a value [n] times; [false]: it is out of range and dropped. *)
  hdr_record_values : hdr -> Z -> Z -> bool * hdr;
  hdr_record_corrected_value : hdr -> Z -> Z -> bool * hdr;
  (** [hdr_add(h, from)]: the number of dropped values and the sum. *)
  hdr_add : hdr -> hdr -> Z * hdr;
  hdr_init_total lo hi f h : hdr_init lo hi f = Some h -> total_count h = 0;
  hdr_record_values_total h v n b h' : hdr_record_values h v n = (b, h') ->
    total_count h' = if b then total_count h + n else total_count h;
  hdr_add_total h o d h' : hdr_add h o = (d, h') -> total_count h' = total_count h + total_count o - d;
  (** The logarithmic iteration: [next_level] is the level that the next step
      reports, [cumulative_count] the values counted so far. *)
  hdr_iter : Type;
  hdr_iter_log_init : hdr -> Z -> Z -> hdr_iter;
  hdr_iter_next : hdr_iter -> bool * hdr_iter;
  cumulative_count : hdr_iter -> Z;
  value_iterated_to : hdr_iter -> Z;
  next_level : hdr_iter -> Z;
  iter_base : hdr_iter -> Z;
  iter_total : hdr_iter -> Z;
  hdr_iter_log_init_spec h first base :
    let it := hdr_iter_log_init h first base in
    next_level it = first /\ iter_base it = base /\ iter_total it = total_count h /\
    cumulative_count it = 0 /\ 0 <= total_count h;
  hdr_iter_next_spec it b it' : hdr_iter_next it = (b, it') ->
    cumulative_count it <= iter_total it ->
    iter_base it' = iter_base it /\ iter_total it' = iter_total it /\
    cumulative_count it <= cumulative_count it' <= iter_total it' /\
    (if b then value_iterated_to it' = next_level it /\ next_level it' = next_level it * iter_base it
     else value_iterated_to it' = value_iterated_to it);
  (** The value below which a percentile of the recorded values lies; a
      percentile is in thousandths of a percent.  [value_of_rank h r] is the
      [r]-th smallest recorded value, to the precision of the histogram. *)
  hdr_value_at_percentile : hdr -> Z -> Z;
  value_of_rank : hdr -> Z -> Z;
  hdr_value_at_percentile_rank h p : 0 <= p <= 100000 -> 0 < total_count h ->
    exists r, hdr_value_at_percentile h p = value_of_rank h r /\ 1 <= r <= total_count h /\
      (r = 1 \/ 100000 * (r - 1) <= p * total_count h) /\ p * total_count h <= 100000 * (r + 1);
  (** Statistics, whose type is the floating point number of the library. *)
  hdr_double : Type;
  hdr_mean : hdr -> hdr_double;
  hdr_stddev : hdr -> hdr_double;
  hdr_get_memory_size : hdr -> Z;
  (** [hdr_percentiles_print(h, fp, ticks, 1.0, CLASSIC)]: the text and the status. *)
  hdr_percentiles_print : hdr -> Z -> string * Z
}.

(** [struct hist_t] and the [histogram] that owns it. *)
Record histogram `{Hdr} := mk_histogram {
  hist : hdr;
  sample_count : Z;
  sample_sum : Z
}.

(** [seastar::metrics::histogram]; a bucket is its count and its upper bound. *)
Record metrics_histogram := mk_metrics {
  m_sample_count : Z;
  m_sample_sum : Z;
  buckets : list (Z * Z)
}.

Definition kDefaultHistogramMaxValue : Z := 3600000000.

Section histogram.
Context `{Hdr}.
Implicit Types h : histogram.

(** [make_unique] and [make_lw_shared]: the pointer is only asserted. *)
Definition histogram_make `{Build} (max_value : Z) : outcome histogram :=
  match hdr_init 1 max_value 3 with
  | Some x => Ready (mk_histogram _ x 0 0)
  | None => if NDEBUG then Undefined else Failed (runtime_error "assert(p->hist_->hist)")
  end.

Definition record (v : Z) h : histogram :=
  mk_histogram _ (hdr_record_values (hist h) (s64 v) 1).2 (u64 (sample_count h + 1)) (u64 (sample_sum h + v)).

Definition record_multiple_times (v times : Z) h : histogram :=
  mk_histogram _ (hdr_record_values (hist h) (s64 v) times).2 (u64 (sample_count h + times))
    (u64 (sample_sum h + u64 (v * times))).

Definition record_corrected (v interval : Z) h : histogram :=
  mk_histogram _ (hdr_record_corrected_value (hist h) (s64 v) (s64 interval)).2 (u64 (sample_count h + 1))
    (u64 (sample_sum h + v)).

(** [operator+=], both overloads. *)
Definition histogram_add h (o : histogram) : histogram :=
  mk_histogram _ (hdr_add (hist h) (hist o)).2 (sample_count h) (sample_sum h).

(** [~histogram_measure]: the microseconds between two clock readings, which
    are in nanoseconds. *)
Definition histogram_measure_end (trace : bool) (begin_t now : Z) h : histogram :=
  if trace then record (u64 (Z.quot (now - begin_t) 1000)) h else h.

(** [histogram_measure]: the pointer to the histogram, when the measurement began
    and whether it is recorded. *)
Record histogram_measure := mk_measure { trace_ : bool; measured : bool; begin_t : Z }.
Definition histogram_measure_make (now : Z) : histogram_measure := mk_measure true true now.
Definition set_trace (b : bool) (m : histogram_measure) : histogram_measure := mk_measure b (measured m) (begin_t m).
(** The move constructor: the source has no histogram any more. *)
Definition histogram_measure_move (m : histogram_measure) : histogram_measure * histogram_measure :=
  (mk_measure (trace_ m) (measured m) (begin_t m), mk_measure (trace_ m) false (begin_t m)).
Definition histogram_measure_destroy (m : histogram_measure) (now : Z) h : histogram :=
  if measured m then histogram_measure_end (trace_ m) (begin_t m) now h else h.
Definition auto_measure (now : Z) : histogram_measure := histogram_measure_make now.

(** The accessors. *)
Definition value_at (percentile : Z) h : Z := hdr_value_at_percentile (hist h) percentile.
Definition stddev h : hdr_double := hdr_stddev (hist h).
Definition mean h : hdr_double := hdr_mean (hist h).
Definition memory_size h : Z := hdr_get_memory_size (hist h).
(** [get]: null after a move, which only a debug build notices. *)
Definition get `{Build} (h : option histogram) : outcome hdr :=
  match h with
  | Some h => Ready (hist h)
  | None => if NDEBUG then Undefined else Failed (runtime_error "assert(hist_)")
  end.
(** [print]: what is written to the file, and the status. *)
Definition histogram_print h : string * Z := hdr_percentiles_print (hist h) 5.

(** [unique_histogram_adder::operator()]. *)
Definition adder_add (value : option histogram) (result : histogram) : histogram :=
  match value with Some v => histogram_add result v | None => result end.

(** ** [seastar_histogram_logform] *)

Definition num_buckets : nat := 26.
Definition first_value : Z := 10.
Definition log_base : Z := 2.

(** The loop over the iteration: [hdr_iter_next] is called before the bound is
    tested. *)
Fixpoint fill_buckets (n : nat) (it : hdr_iter) : list (Z * Z) * hdr_iter :=
  match hdr_iter_next it with
  | (false, it) => ([], it)
  | (true, it) =>
      match n with
      | O => ([], it)
      | S n =>
          let '(l, it') := fill_buckets n it in
          ((cumulative_count it, value_iterated_to it) :: l, it')
      end
  end.

(** The loop that pads. *)
Fixpoint pad_buckets (n : nat) (count value : Z) : list (Z * Z) :=
  match n with
  | O => []
  | S n => (count, value) :: pad_buckets n count (s64 (value * log_base))
  end.

Definition seastar_histogram_logform h : metrics_histogram :=
  let it := hdr_iter_log_init (hist h) first_value log_base in
  let '(l, it) := fill_buckets num_buckets it in
  let idx := length l in
  let value :=
    if (idx =? 0)%nat then first_value
    else if (idx <? num_buckets)%nat then s64 (value_iterated_to it * log_base)
    else value_iterated_to it in
  mk_metrics (sample_count h) (sample_sum h) (l ++ pad_buckets (num_buckets - idx) (cumulative_count it) value).

(** ** Buckets *)

(** [l] continues buckets whose next upper bound is [level] and whose last count
    is [c]: bounds double, counts grow and stay below [total]. *)
Fixpoint doubling (level c total : Z) (l : list (Z * Z)) : Prop :=
  match l with
  | [] => True
  | (n, b) :: l => b = level /\ c <= n <= total /\ doubling (level * 2) n total l
  end.

Lemma default_last_cons (c n b : Z) (l : list (Z * Z)) :
  default c (fst <$> last ((n, b) :: l)) = default n (fst <$> last l).
Proof.
  destruct l as [|x l]; [done|]. rewrite last_cons_cons.
  destruct (last (x :: l)) eqn:La; [done|]. by apply last_None in La.
Qed.

Lemma doubling_app level c total l k level' c' :
  doubling level c total l -> level' = level * 2 ^ blen l -> c' = default c (fst <$> last l) ->
  doubling level' c' total k -> doubling level c total (l ++ k).
Proof.
  revert level c. induction l as [|[n b] l IH]; intros level c D E1 E2 K.
  - subst. simpl in K. unfold blen in K. simpl in K. by rewrite Z.mul_1_r in K.
  - destruct D as (-> & N & D). simpl. split_and!; [done|lia|lia|]. apply IH; [done| | |done].
    + rewrite E1. unfold blen. simpl length. rewrite Nat2Z.inj_succ, Z.pow_succ_r by lia. lia.
    + by rewrite E2, default_last_cons.
Qed.

Lemma fill_buckets_spec n it l it' :
  fill_buckets n it = (l, it') -> cumulative_count it <= iter_total it -> iter_base it = 2 ->
  (length l <= n)%nat /\ doubling (next_level it) (cumulative_count it) (iter_total it) l /\
  iter_total it' = iter_total it /\
  default (cumulative_count it) (fst <$> last l) <= cumulative_count it' <= iter_total it /\
  ((length l < n)%nat -> l <> [] -> value_iterated_to it' = next_level it * 2 ^ (blen l - 1)).
Proof.
  revert it l. induction n as [|n IH]; intros it l E C B; simpl in E;
    destruct (hdr_iter_next it) as [b it1] eqn:N; pose proof (hdr_iter_next_spec _ _ _ N C) as (B1 & T1 & C1 & V).
  - destruct b; simplify_eq; simpl; split_and!; try done; lia.
  - destruct b; [|simplify_eq; simpl; split_and!; try done; lia].
    destruct (fill_buckets n it1) as [l1 it2] eqn:F. simplify_eq. destruct V as [V1 V2].
    destruct (IH it1 l1 F) as (L & D & T & Cu & Va); [lia|congruence|].
    rewrite V2, B, T1 in D. rewrite T1 in Cu, T. split_and!.
    + simpl. lia.
    + simpl. split_and!; [done|lia|lia|done].
    + done.
    + rewrite default_last_cons. lia.
    + lia.
    + intros Ll _. simpl in Ll. destruct l1 as [|x l1].
      * simpl. unfold blen. simpl. rewrite Z.mul_1_r.
        assert (value_iterated_to it' = value_iterated_to it1) as ->; [|done].
        destruct n as [|n]; [lia|]. simpl in F. destruct (hdr_iter_next it1) as [b2 it3] eqn:N2.
        pose proof (hdr_iter_next_spec _ _ _ N2) as S2. destruct b2; [by destruct (fill_buckets n it3)|].
        simplify_eq. apply S2. lia.
      * rewrite Va by (done || lia). rewrite V2, B. unfold blen. simpl length.
        replace (Z.of_nat (S (S (length l1))) - 1) with (Z.succ (Z.of_nat (S (length l1)) - 1)) by lia.
        rewrite Z.pow_succ_r by lia. lia.
Qed.

Lemma pad_buckets_spec n count level total :
  0 <= level -> level * 2 ^ Z.of_nat n < 2 ^ 63 -> count <= total ->
  doubling level count total (pad_buckets n count level).
Proof.
  revert level. induction n as [|n IH]; intros level L B C; simpl; [done|].
  rewrite Nat2Z.inj_succ, Z.pow_succ_r in B by lia.
  assert (0 < 2 ^ Z.of_nat n) by (apply Z.pow_pos_nonneg; lia).
  split_and!; [done|lia|done|]. rewrite wrap_s_small; [apply IH; unfold log_base; lia|lia|].
  unfold log_base, fits_s. nia.
Qed.

Lemma pad_buckets_length n count v : length (pad_buckets n count v) = n.
Proof. revert v. induction n as [|n IH]; intros v; simpl; [done|by rewrite IH]. Qed.

Lemma doubling_lookup level c total l i n b :
  doubling level c total l -> l !! i = Some (n, b) -> b = level * 2 ^ Z.of_nat i /\ c <= n <= total.
Proof.
  revert level c i. induction l as [|[n0 b0] l IH]; intros level c i D L; [done|].
  destruct D as (-> & N & D). destruct i as [|i]; [simplify_eq/=; split; [by rewrite Z.mul_1_r|lia]|].
  simpl in L. destruct (IH _ _ _ D L) as [-> K]. split; [|lia].
  rewrite Nat2Z.inj_succ, Z.pow_succ_r by lia. lia.
Qed.

Lemma doubling_mono level c total l i j n b n' b' :
  doubling level c total l -> (i <= j)%nat -> l !! i = Some (n, b) -> l !! j = Some (n', b') -> n <= n'.
Proof.
  revert level c i j. induction l as [|[n0 b0] l IH]; intros level c i j D Le L L'; [done|].
  destruct D as (-> & N & D). destruct i as [|i], j as [|j]; simplify_eq/=; try lia.
  - destruct (doubling_lookup _ _ _ _ _ _ _ D L'). lia.
  - eapply (IH _ _ i j); [done|lia|done|done].
Qed.

Lemma logform_doubling h : length (buckets (seastar_histogram_logform h)) = num_buckets /\
  doubling first_value 0 (total_count (hist h)) (buckets (seastar_histogram_logform h)).
Proof.
  unfold seastar_histogram_logform. set (it := hdr_iter_log_init _ _ _).
  destruct (hdr_iter_log_init_spec (hist h) first_value log_base) as (Nl & Ba & To & Cu & P). fold it in Nl, Ba, To, Cu.
  destruct (fill_buckets num_buckets it) as [l it'] eqn:F.
  destruct (fill_buckets_spec _ _ _ _ F) as (L & D & T & C & V); [lia|done|].
  rewrite Nl, To in *. rewrite Cu in *. simpl buckets. split; [rewrite length_app, pad_buckets_length; lia|].
  apply (doubling_app _ _ _ _ _ (first_value * 2 ^ blen l) (default 0 (fst <$> last l))); [done|done|done|].
  destruct (decide (length l = num_buckets)) as [->|Ne]; [by rewrite Nat.sub_diag|].
  assert (doubling (first_value * 2 ^ blen l) (cumulative_count it') (total_count (hist h))
    (pad_buckets (num_buckets - length l) (cumulative_count it') (first_value * 2 ^ blen l))) as Dp.
  { apply pad_buckets_spec; [unfold first_value; lia| |lia]. unfold blen, first_value.
    rewrite <- Z.mul_assoc, <- Z.pow_add_r by lia.
    replace (Z.of_nat (length l) + Z.of_nat (num_buckets - length l)) with 26 by (unfold num_buckets in *; lia). lia. }
  assert ((if (length l =? 0)%nat then first_value
           else if (length l <? num_buckets)%nat then s64 (value_iterated_to it' * log_base)
           else value_iterated_to it') = first_value * 2 ^ blen l) as ->.
  { destruct l as [|x l]; [done|]. simpl length. rewrite (proj2 (Nat.ltb_lt _ _)) by (simpl in *; lia).
    cbn [Nat.eqb]. rewrite V by (done || simpl in *; lia). unfold log_base.
    replace (blen (x :: l)) with (Z.succ (blen (x :: l) - 1)) at 2 by lia.
    rewrite Z.pow_succ_r by (unfold blen; simpl; lia).
    assert (0 < 2 ^ (blen (x :: l) - 1) <= 2 ^ 26).
    { split; [apply Z.pow_pos_nonneg; unfold blen; simpl; lia|]. apply Z.pow_le_mono_r; [lia|].
      unfold blen, num_buckets in *. simpl in *. lia. }
    rewrite wrap_s_small; [lia|lia|]. unfold fits_s, first_value. lia. }
  destruct (num_buckets - length l)%nat; [done|]. simpl in *. split_and!; try apply Dp; lia.
Qed.

(** Merging leaves the exported counters as they were. *)
Lemma merged_counters_lost h o d x :
  hdr_add (hist h) (hist o) = (d, x) ->
  total_count (hist (histogram_add h o)) = total_count (hist h) + total_count (hist o) - d /\
  m_sample_count (seastar_histogram_logform (histogram_add h o)) = sample_count h /\
  m_sample_sum (seastar_histogram_logform (histogram_add h o)) = sample_sum h.
Proof.
  intros E. assert (hist (histogram_add h o) = x) as Hx by (unfold histogram_add; simpl; by rewrite E).
  rewrite Hx. split; [by eapply hdr_add_total|]. unfold seastar_histogram_logform.
  by destruct (fill_buckets num_buckets (hdr_iter_log_init (hist (histogram_add h o)) first_value log_base)).
Qed.

(** A measurement is recorded once, by the object that it was moved to. *)
Lemma measure_moved_once m now now' h :
  let '(m', old) := histogram_measure_move m in
  histogram_measure_destroy m' now' (histogram_measure_destroy old now h) = histogram_measure_destroy m now' h.
Proof. by destruct m as [tr me b]. Qed.

Lemma measure_records now now' h :
  sample_count (histogram_measure_destroy (auto_measure now) now' h) = u64 (sample_count h + 1) /\
  histogram_measure_destroy (set_trace false (auto_measure now)) now' h = h.
Proof. done. Qed.

(** A percentile below the first value of a small histogram is its smallest value. *)
Lemma value_at_smallest h p :
  0 <= p <= 100000 -> 0 < total_count (hist h) -> p * total_count (hist h) < 100000 ->
  value_at p h = value_of_rank (hist h) 1.
Proof.
  intros P T L. destruct (hdr_value_at_percentile_rank (hist h) p P T) as (r & E & B & R & _).
  unfold value_at. rewrite E. f_equal. lia.
Qed.

(** C39: the exported buckets.  Whatever was recorded, the logarithmic form has
    exactly 26 buckets; the upper bound of the i-th is 10 * 2^i microseconds,
    the last one 335.5 seconds; the counts never decrease and never exceed the
    number of recorded values. *)
Theorem logform_buckets h i j n b n' b' :
  let bs := buckets (seastar_histogram_logform h) in
  length bs = 26%nat /\
  (bs !! i = Some (n, b) -> b = 10 * 2 ^ Z.of_nat i /\ 0 <= n <= total_count (hist h)) /\
  ((i <= j)%nat -> bs !! i = Some (n, b) -> bs !! j = Some (n', b') -> n <= n') /\
  snd <$> bs !! 25%nat = Some 335544320.
Proof.
  intros bs. destruct (logform_doubling h) as [L D]. fold bs in L, D. split_and!.
  - done.
  - intros B. by apply (doubling_lookup _ _ _ _ _ _ _ D).
  - by apply (doubling_mono _ _ _ _ _ _ _ _ _ _ D).
  - destruct (bs !! 25%nat) as [[n0 b0]|] eqn:E.
    + by destruct (doubling_lookup _ _ _ _ _ _ _ D E) as [-> _].
    + apply lookup_ge_None in E. unfold num_buckets in L. lia.
Qed.
End histogram.

(** ** A concrete histogram

    It only counts: the iteration reports three levels, the first of which
    has everything. *)
Module HistogramDemo.
Record demo_iter := mk_demo_iter {
  di_level : Z; di_base : Z; di_total : Z; di_count : Z; di_value : Z; di_left : nat
}.
Definition demo_next (it : demo_iter) : bool * demo_iter :=
  match di_left it with
  | O => (false, it)
  | S n => (true, mk_demo_iter (di_level it * di_base it) (di_base it) (di_total it) (di_total it) (di_level it) n)
  end.
Definition demo_record (h : nat) (v n : Z) : bool * nat := if 0 <=? n then (true, (h + Z.to_nat n)%nat) else (false, h).

Definition demo_hdr : Hdr.
Proof.
  refine {| hdr := nat; hdr_init := fun _ _ _ => Some 0%nat; total_count := Z.of_nat;
    hdr_record_values := demo_record; hdr_record_corrected_value := fun h _ _ => (true, h);
    hdr_add := fun h o => (0, (h + o)%nat); hdr_iter := demo_iter;
    hdr_iter_log_init := fun h first base =>
      mk_demo_iter first base (Z.of_nat h) 0 0 (match h with O => 0 | _ => 3 end)%nat;
    hdr_iter_next := demo_next; cumulative_count := di_count; value_iterated_to := di_value;
    next_level := di_level; iter_base := di_base; iter_total := di_total;
    hdr_value_at_percentile := fun h p => Z.max 1 (p * Z.of_nat h / 100000); value_of_rank := fun _ r => r;
    hdr_double := Z; hdr_mean := fun _ => 0; hdr_stddev := fun _ => 0; hdr_get_memory_size := fun _ => 0;
    hdr_percentiles_print := fun _ _ => ("Value Percentile", 0) |}.
  - by intros _ _ _ h [= <-].
  - intros h v n b h' E. unfold demo_record in E. destruct (0 <=? n) eqn:N; simplify_eq; [|done].
    bool_to_prop. rewrite Nat2Z.inj_add, Z2Nat.id; lia.
  - intros h o d h' [= <- <-]. rewrite Nat2Z.inj_add. lia.
  - intros h first base. simpl. split_and!; try done. lia.
  - intros it b it' E C. unfold demo_next in E. destruct (di_left it); simplify_eq; simpl; split_and!; try done; lia.
  - intros h p P T. exists (Z.max 1 (p * Z.of_nat h / 100000)).
    pose proof (Z.div_mod (p * Z.of_nat h) 100000 ltac:(lia)). pose proof (Z.mod_pos_bound (p * Z.of_nat h) 100000 eq_refl).
    split_and!; [done|lia|apply Z.max_lub; nia|lia|lia].
Defined.
#[local] Existing Instance demo_hdr.

Definition demo_histogram : histogram := record 50 (record 20 (mk_histogram _ 0%nat 0 0)).

Lemma logform_buckets_witness :
  length (buckets (seastar_histogram_logform demo_histogram)) = 26%nat /\
  buckets (seastar_histogram_logform demo_histogram) !! 4%nat = Some (2, 160).
Proof.
  destruct (logform_buckets demo_histogram 4 4 2 160 2 160) as (L & _). split; [exact L|vm_refl].
Defined.
End HistogramDemo.

(** ** Who closes a histogram

    [hist_t] owns the pointer that [hdr_init] sets, and its destructor closes it.
    The heap is the set of open histograms; closing one that is not open is
    undefined. *)
Module Owner.
Record hist_t := mk_hist_t { handle : option Z; count : Z; sum : Z }.
Abbreviation heap := (gset Z).

Definition hist_t_make (p : option Z) : hist_t := mk_hist_t p 0 0.
Definition hist_t_destroy (t : hist_t) (h : heap) : outcome heap :=
  match handle t with
  | Some p => if decide (p ∈ h) then Ready (h ∖ {[p]}) else Undefined
  | None => Ready h
  end.
(** The move constructor of [hist_t], with the source afterwards: [std::move] of
    a pointer copies it, and the counters have their default values. *)
Definition hist_t_move (o : hist_t) : hist_t * hist_t := (mk_hist_t (handle o) 0 0, o).

(** A [histogram] holds a [unique_ptr] to its [hist_t]. *)
Definition histogram_move (o : option hist_t) : option hist_t * option hist_t := (o, None).
Definition histogram_destroy (x : option hist_t) (h : heap) : outcome heap :=
  match x with Some t => hist_t_destroy t h | None => Ready h end.
(** [operator=(histogram &&)]: what was held is destroyed. *)
Definition histogram_assign (x o : option hist_t) (h : heap) : outcome (option hist_t * option hist_t * heap) :=
  h ← histogram_destroy x h; Ready (o, None, h).

(** Moving a [histogram] hands the pointer over, so that it is closed once;
    moving a [hist_t] leaves two owners, and the second destructor closes what
    the first has closed. *)
Theorem moved_owners p n s (h : heap) :
  p ∈ h ->
  let t := mk_hist_t (Some p) n s in
  (let '(x, o) := histogram_move (Some t) in
   h' ← histogram_destroy x h; histogram_destroy o h') = Ready (h ∖ {[p]}) /\
  (let '(x, o) := hist_t_move t in
   h' ← hist_t_destroy x h; hist_t_destroy o h') = Undefined.
Proof.
  intros P. unfold histogram_move, hist_t_move, histogram_destroy, hist_t_destroy, mbind, outcome_bind. simpl.
  rewrite decide_True by done. split; [done|]. rewrite decide_False; [done|].
  intros [_ N]%elem_of_difference. by apply N, elem_of_singleton.
Qed.
End Owner.
