(* ===== verification/Random.v ===== *)
(** * Random strings

    src/src/core/random.cc and random.h.  The generator of the standard library
    is the class [Rng]: a state, and draws from a closed interval. *)

From Stdlib Require Import ZArith Lia Ascii String.
From stdpp Require Import base list numbers strings.
From S2P Require Import Prelude Printer.

Class Rng := {
  rng : Type;
  (** [uniform_int_distribution(lo, hi)(rand)]. *)
  draw : Z -> Z -> rng -> Z * rng;
  draw_range lo hi r : lo <= hi -> lo <= (draw lo hi r).1 <= hi
}.

Section random.
Context `{Rng}.

(** [random::next]. *)
Definition next (r : rng) : Z * rng := draw 0 (2 ^ 64 - 1) r.

(** [randstr], for the [n] characters that are left; the result is built from
    the front.  The distribution is drawn from [0 .. hi]. *)
Fixpoint randstr (dict : string) (hi : Z) (n : nat) (r : rng) : outcome (string * rng) :=
  match n with
  | O => Ready (EmptyString, r)
  | S n =>
      let '(x, r) := draw 0 hi r in
      let size := Z.of_nat (String.length dict) in
      if size =? 0 then Undefined
      else
        match String.get (Z.to_nat (u32 (x mod size))) dict with
        | None => Undefined
        | Some c => '(s, r) ← randstr dict hi n r; Ready (String c s, r)
        end
  end.

Definition kDictAlphanum : string := "abcdefghijklmnopqrstuvwxyzABCDEFGHIJKLMNOPQRSTUVWXYZ1234567890".
Definition kDict : string :=
  kDictAlphanum +:+ "!@#$%^&*()" +:+ "`~-_=+[{]}|;:'" +:+ dq +:+ ",<.>/?".

Definition next_str (size : Z) (r : rng) : outcome (string * rng) :=
  randstr kDict (Z.of_nat (String.length kDict)) (Z.to_nat size) r.
Definition next_alphanum (size : Z) (r : rng) : outcome (string * rng) :=
  randstr kDictAlphanum (Z.of_nat (String.length kDictAlphanum)) (Z.to_nat size) r.

Lemma get_lt n s : (n < String.length s)%nat -> exists c, String.get n s = Some c.
Proof.
  revert n. induction s as [|a s IH]; intros n L; simpl in *; [lia|]. destruct n; [by eexists|]. apply IH. lia.
Qed.

Lemma get_all P n s c : str_all P s = true -> String.get n s = Some c -> P c = true.
Proof.
  revert n. induction s as [|a s IH]; intros n A G; [by destruct n|]. simpl in A. apply andb_true_iff in A as [? ?].
  destruct n; simpl in G; [by simplify_eq|]. by eapply IH.
Qed.

(** [randstr] always returns a string of the requested length, made of
    characters of the dictionary. *)
Theorem randstr_total P dict hi n r :
  dict <> EmptyString -> Z.of_nat (String.length dict) < 2 ^ 32 -> 0 <= hi -> str_all P dict = true ->
  exists s r', randstr dict hi n r = Ready (s, r') /\ String.length s = n /\ str_all P s = true.
Proof.
  intros D B Hi A. revert r. induction n as [|n IH]; intros r; [by eexists _, _|]. cbn [randstr].
  pose proof (draw_range 0 hi r Hi) as Dr. destruct (draw 0 hi r) as [x r1]. simpl in Dr.
  set (size := Z.of_nat (String.length dict)) in *.
  assert (0 < size) as Sz by (unfold size; destruct dict; [done|simpl; lia]).
  rewrite (proj2 (Z.eqb_neq _ _)) by lia. pose proof (Z.mod_pos_bound x size Sz) as M.
  rewrite wrap_u_small by (unfold fits_u; lia).
  destruct (get_lt (Z.to_nat (x mod size)) dict) as [c G]; [unfold size in *; lia|]. rewrite G.
  destruct (IH r1) as (s & r2 & -> & L & Al). simpl. eexists _, _. split; [done|]. simpl.
  split; [by rewrite L|]. rewrite Al, andb_true_r. exact (get_all P _ _ _ A G).
Qed.

(** The distribution includes the length of the dictionary, which stands for its
    first character again: two draws give the first character, one gives each of
    the others. *)
Lemma randstr_bias dict (x : Z) :
  dict <> EmptyString -> let size := Z.of_nat (String.length dict) in
  0 <= x <= size -> (x mod size = 0 <-> x = 0 \/ x = size).
Proof.
  intros D size X. assert (0 < size) by (unfold size; destruct dict; [done|simpl; lia]). split.
  - intros M. destruct (decide (x = size)); [by right|]. left. rewrite Z.mod_small in M by lia. done.
  - intros [->| ->]; [by apply Z.mod_0_l; lia|]. apply Z.mod_same. lia.
Qed.
End random.
