(* ===== verification/LoadGen.v ===== *)
(** * The load generator

    src/src/include/smf/load_generator.h, load_channel.h, load_generator_args.h
    and load_generator_duration.h.  A benchmark is a state machine: the fiber of
    each channel, the semaphore [limit] that the fibers and the end of the
    benchmark share, and the statistics.  The requests, which a generator of the
    caller makes and which may throw, and the results of the calls come from the
    environment. *)

From Stdlib Require Import ZArith Lia.
From stdpp Require Import base gmap list numbers strings.
From coqutil Require Import Byte.
From S2P Require Import Prelude Header Seastar Letter Connection RecvContext Codec Wire Filters Random.

(** [struct load_generator_args], the fields that are used. *)
Record load_generator_args := mk_lg_args {
  num_of_req : Z;
  concurrency : Z;
  memory_per_core : Z;
  args_compression : compression_flags
}.

Definition kMinMemory : Z := 2 ^ 24.

Definition load_generator_args_make (reqs conc mem : Z) (c : compression_flags) : outcome load_generator_args :=
  LOG_THROW_IF ((mem <? kMinMemory) && (1 <? conc)) "Cfg error. memory < 16MB per connection." ;;
  Ready (mk_lg_args reqs conc mem c).

(** [struct load_channel]: its id, and what it configures of its client. *)
Record load_channel := mk_channel {
  channel_id_ : Z;
  channel_memory : Z;
  channel_incoming : list (rpc_recv_context -> outcome rpc_recv_context);
  channel_outgoing : list (rpc_envelope -> outcome rpc_envelope)
}.

Section channels.
Context `{GeneratedHeader, Xxhash, Zstd, Lz4, Rng}.

Definition load_channel_make (id mem : Z) (c : compression_flags) : load_channel :=
  match c with
  | compression_flags_zstd => mk_channel id mem [zstd_decompression_filter] [zstd_compression_filter 1024]
  | compression_flags_lz4 => mk_channel id mem [lz4_decompression_filter] [lz4_compression_filter 1024]
  | _ => mk_channel id mem [] []
  end.

(** The move constructor: the client moves, the id starts again at its default. *)
Definition load_channel_move (o : load_channel) : load_channel :=
  mk_channel 0 (channel_memory o) (channel_incoming o) (channel_outgoing o).

(** The loop of the constructor of [load_generator]. *)
Fixpoint make_channels (n : nat) (args : load_generator_args) (r : rng) : list load_channel * rng :=
  match n with
  | O => ([], r)
  | S n =>
      let '(id, r) := next r in
      let '(l, r) := make_channels n args r in
      (load_channel_make id (memory_per_core args / concurrency args) (args_compression args) :: l, r)
  end.
Definition load_generator_make (args : load_generator_args) (r : rng) : list load_channel :=
  (make_channels (Z.to_nat (concurrency args)) args r).1.
End channels.

(** [std::max<uint32_t>(1, std::ceil(num_of_req / concurrency))]: the division is
    one of integers; dividing by zero and a quotient that does not fit [uint32_t]
    are undefined. *)
Definition reqs_per_channel (args : load_generator_args) : outcome Z :=
  if concurrency args =? 0 then Undefined
  else
    let q := num_of_req args / concurrency args in
    if 2 ^ 32 <=? q then Undefined else Ready (Z.max 1 q).

(** How the loop of a channel ended: it made all its iterations, the generator
    threw, or the callback failed. *)
Inductive loop_end := loop_completed | gen_threw | func_failed.

(** Where the fiber of a channel is: waiting for [limit], about to issue its
    [i]-th request, waiting for the result of it, or done after [i] requests. *)
Inductive channel_stage :=
| ch_wait
| ch_next (i : Z)
| ch_call (i : Z)
| ch_done (i : Z) (why : loop_end).

#[global] Instance loop_end_eq_dec : EqDecision loop_end.
Proof. solve_decision. Defined.

#[global] Instance channel_stage_eq_dec : EqDecision channel_stage.
Proof. solve_decision. Defined.

(** The benchmark: [duration_reqs] is [num_of_req] of the duration that is
    returned, [issued] the requests that were issued. *)
Record benchmark `{Seastar} := mk_benchmark {
  limit : semaphore;
  stages : gmap Z channel_stage;
  duration_reqs : Z;
  total_bytes : Z;
  issued : list rpc_envelope;
  ended : bool
}.

Section benchmark.
Context `{Seastar}.
Implicit Types b : benchmark.

(** The fibers of the [conc] channels. *)
Definition start_stages (conc : Z) : gmap Z channel_stage :=
  list_to_map ((fun k => (Z.of_nat k, ch_wait)) <$> seq 0 (Z.to_nat conc)).

Definition benchmark_make (args : load_generator_args) : outcome benchmark :=
  reqs ← reqs_per_channel args;
  Ready (mk_benchmark _ (sem_make (concurrency args)) (start_stages (concurrency args)) reqs 0 [] false).

Definition set_stage (k : Z) (st : channel_stage) b : benchmark :=
  mk_benchmark _ (limit b) (<[k := st]> (stages b)) (duration_reqs b) (total_bytes b) (issued b) (ended b).
Definition set_limit (s : semaphore) b : benchmark :=
  mk_benchmark _ s (stages b) (duration_reqs b) (total_bytes b) (issued b) (ended b).
Definition add_request (e : rpc_envelope) b : benchmark :=
  mk_benchmark _ (limit b) (stages b) (duration_reqs b) (u64 (total_bytes b + rpc_envelope_size e)) (issued b ++ [e])
    (ended b).
Definition set_ended b : benchmark :=
  mk_benchmark _ (limit b) (stages b) (duration_reqs b) (total_bytes b) (issued b) true.

(** [finally]: the fiber is done, whatever its result. *)
Definition channel_end (k i : Z) (why : loop_end) b : benchmark :=
  set_limit (sem_signal (limit b) 1) (set_stage k (ch_done i why) b).

(** [limit.wait(1)], then [invoke]. *)
Definition channel_start (k : Z) b : option benchmark :=
  match stages b !! k with
  | Some ch_wait =>
      match sem_wait (limit b) 1 with
      | Some s => Some (set_stage k (ch_next 0) (set_limit s b))
      | None => None
      end
  | _ => None
  end.

(** One iteration of [do_for_each]: [gen(opts)] makes the request, which is
    counted, then the callback runs; a generator that throws ends the loop. *)
Definition channel_issue (k : Z) (gen : outcome rpc_envelope) b : option benchmark :=
  match stages b !! k with
  | Some (ch_next i) =>
      match gen with
      | Ready e => Some (set_stage k (ch_call i) (add_request e b))
      | Failed _ => Some (channel_end k i gen_threw b)
      | Undefined => None
      end
  | _ => None
  end.

(** The future of the callback is available; a failure ends the loop. *)
Definition channel_result (k : Z) (ok : bool) b : option benchmark :=
  match stages b !! k with
  | Some (ch_call i) =>
      if ok then
        if i + 1 <? duration_reqs b then Some (set_stage k (ch_next (i + 1)) b)
        else Some (channel_end k (i + 1) loop_completed b)
      else Some (channel_end k (i + 1) func_failed b)
  | _ => None
  end.

(** [limit.wait(concurrency)] after every fiber was started. *)
Definition benchmark_end (conc : Z) b : option benchmark :=
  if bool_decide (map_Forall (fun _ st => st <> ch_wait) (stages b)) && negb (ended b) then
    match sem_wait (limit b) conc with
    | Some s => Some (set_ended (set_limit s b))
    | None => None
    end
  else None.

Inductive bench_event :=
| be_start (k : Z)
| be_issue (k : Z) (gen : outcome rpc_envelope)
| be_result (k : Z) (ok : bool)
| be_end.

Definition bench_exec (conc : Z) (ev : bench_event) b : option benchmark :=
  match ev with
  | be_start k => channel_start k b
  | be_issue k gen => channel_issue k gen b
  | be_result k ok => channel_result k ok b
  | be_end => benchmark_end conc b
  end.

Definition bench_step (args : load_generator_args) b b' : Prop := exists ev, bench_exec (concurrency args) ev b = Some b'.

(** ** Invariant *)

Definition running (st : channel_stage) : Z := match st with ch_next _ | ch_call _ => 1 | _ => 0 end.
Definition requests_of (st : channel_stage) : Z :=
  match st with ch_wait => 0 | ch_next i => i | ch_call i => i + 1 | ch_done i _ => i end.
(** The requests of a loop that ended. *)
Definition ended_ok (reqs i : Z) (why : loop_end) : Prop :=
  match why with loop_completed => i = reqs | gen_threw => 0 <= i < reqs | func_failed => 1 <= i <= reqs end.
Definition stage_ok (reqs : Z) (st : channel_stage) : Prop :=
  match st with
  | ch_wait => True
  | ch_next i | ch_call i => 0 <= i < reqs
  | ch_done i why => ended_ok reqs i why
  end.
Definition sum_sizes (l : list rpc_envelope) : Z := foldr (fun e n => rpc_envelope_size e + n) 0 l.

Record bench_inv (conc reqs : Z) b : Prop := mk_bench_inv {
  bn_reqs : duration_reqs b = reqs;
  bn_size : Z.of_nat (size (stages b)) = conc;
  bn_stages : map_Forall (fun _ => stage_ok reqs) (stages b);
  bn_limit : sem_count (limit b) = if ended b then 0 else conc - msum running (stages b);
  bn_issued : blen (issued b) = msum requests_of (stages b);
  bn_bytes : total_bytes b = u64 (sum_sizes (issued b));
  bn_ended : ended b = true -> map_Forall (fun _ st => exists i why, st = ch_done i why) (stages b)
}.

Lemma running_nonneg (m : gmap Z channel_stage) : map_Forall (fun _ st => 0 <= running st) m.
Proof. intros k st _. destruct st; simpl; lia. Qed.

Lemma msum_const {A} c (m : gmap Z A) : msum (fun _ => c) m = c * Z.of_nat (size m).
Proof.
  induction m as [|i x m N IH] using map_ind; [rewrite msum_empty, map_size_empty; lia|].
  rewrite msum_insert, map_size_insert_None, IH by done. lia.
Qed.

Lemma sum_sizes_app l e : sum_sizes (l ++ [e]) = sum_sizes l + rpc_envelope_size e.
Proof. induction l as [|x l IH]; simpl; [lia|]. rewrite IH. lia. Qed.

(** A fiber that is not done moves from [st] to [st']. *)
Lemma stage_moves conc reqs k st st' b :
  bench_inv conc reqs b -> stages b !! k = Some st -> (forall i why, st <> ch_done i why) ->
  ended b = false /\ msum running (<[k := st']> (stages b)) = msum running (stages b) - running st + running st' /\
  msum requests_of (<[k := st']> (stages b)) = msum requests_of (stages b) - requests_of st + requests_of st' /\
  Z.of_nat (size (<[k := st']> (stages b))) = conc /\ running st <= msum running (stages b).
Proof.
  intros I E N. split_and!.
  - destruct (ended b) eqn:En; [|done]. destruct (bn_ended _ _ _ I En _ _ E) as (i & why & Ei). by destruct (N i why).
  - by apply msum_update.
  - by apply msum_update.
  - rewrite map_size_insert_Some by (by eexists). apply I.
  - by apply (msum_ge running _ k), E; apply running_nonneg.
Qed.

Lemma bench_inv_start conc reqs k b b' :
  0 < reqs -> bench_inv conc reqs b -> channel_start k b = Some b' -> bench_inv conc reqs b'.
Proof.
  intros Rp I E. unfold channel_start in E. destruct (stages b !! k) as [[| | |]|] eqn:K; try done.
  destruct (sem_wait (limit b) 1) as [s|] eqn:W; simplify_eq. apply sem_wait_granted in W as [_ W].
  destruct (stage_moves conc reqs k ch_wait (ch_next 0) b I K) as (En & Ru & Re & Si & _); [done|].
  destruct I as [A B C D F G J]. rewrite En in D. simpl in *.
  constructor; simpl; rewrite ?En; try done; try lia. apply map_Forall_insert_2; [simpl; lia|done].
Qed.

(** A fiber ends and gives its unit back. *)
Lemma bench_inv_channel_end conc reqs k st i why b :
  0 <= conc < 2 ^ 63 -> bench_inv conc reqs b -> stages b !! k = Some st -> running st = 1 ->
  requests_of st = i -> ended_ok reqs i why -> bench_inv conc reqs (channel_end k i why b).
Proof.
  intros Cb I K R1 Ri Ok.
  destruct (stage_moves conc reqs k st (ch_done i why) b I K) as (En & Ru & Re & Si & Rs); [by intros ? ? ->|].
  destruct I as [A B C D F G J]. rewrite En in D. simpl in *.
  constructor; simpl; rewrite ?En; try done; try lia.
  - by apply map_Forall_insert_2.
  - assert (msum running (stages b) <= msum (fun _ => 1) (stages b)) as Le.
    { apply msum_le. intros j st' _. destruct st'; simpl; lia. }
    rewrite msum_const in Le. rewrite sem_signal_count, D, wrap_s_small; [lia|lia|]. unfold fits_s. lia.
Qed.

Lemma bench_inv_issue conc reqs k gen b b' :
  0 <= conc < 2 ^ 63 -> bench_inv conc reqs b -> channel_issue k gen b = Some b' -> bench_inv conc reqs b'.
Proof.
  intros Cb I E. unfold channel_issue in E. destruct (stages b !! k) as [[|i|i|i]|] eqn:K; try done.
  destruct gen as [e|ex|]; simplify_eq.
  2: { eapply bench_inv_channel_end; [done|done|exact K|done|done|]. apply (bn_stages _ _ _ I _ _ K). }
  destruct (stage_moves conc reqs k (ch_next i) (ch_call i) b I K) as (En & Ru & Re & Si & _); [done|].
  pose proof (bn_stages _ _ _ I _ _ K) as Si0. destruct I as [A B C D F G J]. rewrite En in D. simpl in *.
  constructor; simpl; rewrite ?En; try done; try lia.
  - apply map_Forall_insert_2; [simpl; lia|done].
  - rewrite blen_app, F. unfold blen. simpl. lia.
  - by rewrite sum_sizes_app, G, wrap_u_add_l.
Qed.

Lemma bench_inv_result conc reqs k ok b b' :
  0 <= conc < 2 ^ 63 -> bench_inv conc reqs b -> channel_result k ok b = Some b' -> bench_inv conc reqs b'.
Proof.
  intros Cb I E. unfold channel_result in E. destruct (stages b !! k) as [[|i|i|i]|] eqn:K; try done.
  pose proof (bn_stages _ _ _ I _ _ K) as Si0. simpl in Si0. rewrite (bn_reqs _ _ _ I) in E.
  destruct ok; [destruct (i + 1 <? reqs) eqn:O|]; simplify_eq.
  - destruct (stage_moves conc reqs k (ch_call i) (ch_next (i + 1)) b I K) as (En & Ru & Re & Si & _); [done|].
    bool_to_prop. destruct I as [A B C D F G J]. rewrite En in D. simpl in *.
    constructor; simpl; rewrite ?En; try done; try lia. apply map_Forall_insert_2; [simpl; lia|done].
  - bool_to_prop. eapply bench_inv_channel_end; [done|done|exact K|done|done|simpl; lia].
  - eapply bench_inv_channel_end; [done|done|exact K|done|done|simpl; lia].
Qed.

Lemma bench_inv_end conc reqs b b' :
  bench_inv conc reqs b -> benchmark_end conc b = Some b' -> bench_inv conc reqs b'.
Proof.
  intros [A B C D F G J] E. unfold benchmark_end in E. destruct (bool_decide _) eqn:W; [|done].
  apply bool_decide_eq_true in W. destruct (ended b) eqn:En; [done|]. simpl in E.
  destruct (sem_wait (limit b) conc) as [s|] eqn:S; simplify_eq. apply sem_wait_granted in S as [S1 S2].
  pose proof (msum_nonneg running _ (running_nonneg (stages b))) as N.
  constructor; simpl; try done; [lia|]. intros _ k st K.
  pose proof (msum_ge running _ k st (running_nonneg (stages b)) K) as R. pose proof (W _ _ K) as Nw.
  destruct st as [|i|i|i why]; simpl in R; [done|lia|lia|by exists i, why].
Qed.

Lemma bench_inv_step args reqs b b' :
  0 <= concurrency args < 2 ^ 63 -> 0 < reqs -> bench_inv (concurrency args) reqs b -> bench_step args b b' ->
  bench_inv (concurrency args) reqs b'.
Proof.
  intros Cb Rp I [ev E]. destruct ev; simpl in E;
    eauto using bench_inv_start, bench_inv_issue, bench_inv_result, bench_inv_end.
Qed.

Lemma start_stages_spec conc : 0 <= conc ->
  Z.of_nat (size (start_stages conc)) = conc /\ map_Forall (fun _ st => st = ch_wait) (start_stages conc).
Proof.
  intros C. unfold start_stages. set (l := (fun k => (Z.of_nat k, ch_wait)) <$> seq 0 (Z.to_nat conc)).
  assert (NoDup l.*1) as N.
  { unfold l. rewrite <- list_fmap_compose. apply NoDup_fmap_2; [intros x y; simpl; lia|apply NoDup_seq]. }
  split.
  - rewrite map_size_list_to_map by done. unfold l. rewrite length_fmap, length_seq. lia.
  - intros k st K. apply elem_of_list_to_map_2 in K. unfold l in K. apply list_elem_of_fmap in K as (x & [= _ ->] & _). done.
Qed.

Lemma bench_inv_make args b :
  0 <= concurrency args < 2 ^ 63 -> benchmark_make args = Ready b -> bench_inv (concurrency args) (duration_reqs b) b.
Proof.
  intros C E. unfold benchmark_make in E. apply outcome_bind_Ready in E as (reqs & _ & E). injection E as <-. simpl.
  destruct (start_stages_spec (concurrency args)) as [Sz W]; [lia|].
  assert (forall f, f ch_wait = 0 -> msum f (start_stages (concurrency args)) = 0) as Z0.
  { intros f F. pose proof (msum_zero (start_stages (concurrency args))) as M.
    assert (msum f (start_stages (concurrency args)) <= 0 /\ 0 <= msum f (start_stages (concurrency args))); [|lia].
    split; [rewrite <- M; apply msum_le|apply msum_nonneg]; intros k st K; rewrite (W _ _ K), F; lia. }
  constructor; simpl; try done.
  - intros k st K. by rewrite (W _ _ K).
  - rewrite sem_make_count, Z0 by (done || unfold fits_s; lia). lia.
  - by rewrite Z0.
Qed.

Lemma bench_inv_rtc args reqs b b' :
  0 <= concurrency args < 2 ^ 63 -> 0 < reqs -> rtc (bench_step args) b b' -> bench_inv (concurrency args) reqs b ->
  bench_inv (concurrency args) reqs b'.
Proof.
  intros C R S. induction S as [|x y z S _ IH]; intros I; [done|]. apply IH. by eapply bench_inv_step.
Qed.

(** C37: what a benchmark measures.  It ends only when every channel is done: a
    channel has issued exactly [reqs_per_channel] requests, or its generator
    threw before, possibly before the first request, or its callback failed, on
    one of them; the bytes are those of the requests issued.  No more requests are issued than asked for (when there
    are at least as many as channels), the remainder of the division is
    dropped, and the number of requests of the returned duration is the one of
    a single channel. *)
Theorem benchmark_issues args b0 b :
  0 < concurrency args < 2 ^ 63 -> 0 <= num_of_req args -> benchmark_make args = Ready b0 ->
  rtc (bench_step args) b0 b -> ended b = true ->
  duration_reqs b = Z.max 1 (num_of_req args / concurrency args) /\
  (forall k st, stages b !! k = Some st -> exists i why, st = ch_done i why /\
     match why with
     | loop_completed => i = duration_reqs b
     | gen_threw => 0 <= i < duration_reqs b
     | func_failed => 1 <= i <= duration_reqs b
     end) /\
  blen (issued b) <= concurrency args * duration_reqs b /\
  ((forall k i, stages b !! k <> Some (ch_done i gen_threw)) -> concurrency args <= blen (issued b)) /\
  ((forall k i why, stages b !! k = Some (ch_done i why) -> why = loop_completed) ->
     blen (issued b) = concurrency args * duration_reqs b) /\
  (concurrency args <= num_of_req args ->
     concurrency args * duration_reqs b = num_of_req args - num_of_req args mod concurrency args) /\
  total_bytes b = u64 (sum_sizes (issued b)).
Proof.
  intros C N M R En. pose proof (bench_inv_make args b0 ltac:(lia) M) as I0.
  assert (duration_reqs b0 = Z.max 1 (num_of_req args / concurrency args)) as Dr.
  { unfold benchmark_make, reqs_per_channel in M. apply outcome_bind_Ready in M as (q & Q & M). injection M as <-.
    repeat case_hyp Q; by simplify_eq. }
  assert (bench_inv (concurrency args) (duration_reqs b0) b) as I.
  { eapply bench_inv_rtc; [| |exact R|exact I0]; lia. }
  rewrite (bn_reqs _ _ _ I).
  assert (forall k st, stages b !! k = Some st -> exists i why, st = ch_done i why /\ ended_ok (duration_reqs b0) i why) as Dn.
  { intros k st K. destruct (bn_ended _ _ _ I En _ _ K) as (i & why & ->). exists i, why.
    split; [done|apply (bn_stages _ _ _ I _ _ K)]. }
  pose proof (msum_const 1 (stages b)) as S1. pose proof (msum_const (duration_reqs b0) (stages b)) as Sr.
  rewrite (bn_size _ _ _ I) in S1, Sr. rewrite (bn_issued _ _ _ I).
  split_and!; [done|exact Dn| | | | |apply I].
  - assert (msum requests_of (stages b) <= msum (fun _ => duration_reqs b0) (stages b)); [|lia].
    apply msum_le. intros k st K. destruct (Dn k st K) as (i & [] & -> & ?); simpl in *; lia.
  - intros G. assert (msum (fun _ => 1) (stages b) <= msum requests_of (stages b)); [|lia].
    apply msum_le. intros k st K. destruct (Dn k st K) as (i & [] & -> & ?); simpl in *; try lia. by destruct (G k i).
  - intros A. rewrite Z.mul_comm, <- Sr. apply Z.le_antisymm; apply msum_le; intros k st K;
      destruct (Dn k st K) as (i & why & -> & Ok); rewrite (A k i why K) in Ok; simpl in *; lia.
  - intros L. rewrite Dr. pose proof (Z.div_mod (num_of_req args) (concurrency args)) as D.
    assert (1 <= num_of_req args / concurrency args) by (apply Z.div_le_lower_bound; lia). rewrite Z.max_r by lia. lia.
Qed.
End benchmark.

Module LoadGenWitness.
#[local] Existing Instance seastar_model.
Definition w_args : load_generator_args := mk_lg_args 5 2 (2 ^ 24) compression_flags_none.
Definition w_start : benchmark := match benchmark_make w_args with Ready b => b | _ => mk_benchmark _ 0 ∅ 0 0 [] false end.
Definition w_channel (k : Z) : list bench_event :=
  [be_issue k (Ready rpc_envelope0); be_result k true; be_issue k (Ready rpc_envelope0); be_result k true].
Definition w_events : list bench_event := [be_start 0; be_start 1] ++ w_channel 0 ++ w_channel 1 ++ [be_end].
Fixpoint w_run (evs : list bench_event) (b : benchmark) : option benchmark :=
  match evs with
  | [] => Some b
  | ev :: evs => match bench_exec 2 ev b with Some b => w_run evs b | None => None end
  end.
Definition w_end : benchmark := default w_start (w_run w_events w_start).

Lemma w_run_rtc evs b b' : w_run evs b = Some b' -> rtc (bench_step w_args) b b'.
Proof.
  revert b. induction evs as [|ev evs IH]; intros b E; [by injection E as <-|]. cbn [w_run] in E.
  destruct (bench_exec 2 ev b) as [b1|] eqn:X; [|done]. eapply rtc_l; [by exists ev|by apply IH].
Qed.

Lemma w_ended : match w_run w_events w_start with Some _ => true | None => false end = true ->
  rtc (bench_step w_args) w_start w_end.
Proof. unfold w_end. intros E. destruct (w_run w_events w_start) as [b|] eqn:X; [by eapply w_run_rtc|done]. Qed.

(** Five requests over two channels: four are issued. *)
Lemma benchmark_issues_witness : duration_reqs w_end = 2 /\ blen (issued w_end) <= 4.
Proof.
  destruct (benchmark_issues w_args w_start w_end) as (D & _ & L & _).
  - split; [apply Z.ltb_lt; vm_refl|apply Z.ltb_lt; vm_refl].
  - apply Z.leb_le. vm_refl.
  - reflexivity.
  - apply w_ended. vm_refl.
  - vm_refl.
  - change (duration_reqs w_end = 2) in D. rewrite D in L. split; [exact D|exact L].
Defined.

(** The generator of one channel throws at once: the benchmark ends, with no
    request of that channel. *)
Example throwing_generator_ends :
  (fun b => (ended b, blen (issued b), stages b !! 1)) <$>
    w_run ([be_start 0; be_start 1] ++ w_channel 0 ++ [be_issue 1 (Failed (runtime_error "gen")); be_end]) w_start =
  Some (true, 2, Some (ch_done 0 gen_threw)).
Proof. vm_refl. Qed.
End LoadGenWitness.
