(* ===== verification/LoadRun.v ===== *)
(** * The load generator and its clients

    load_generator.h and load_channel.h on top of rpc_client.cc: the benchmark of
    LoadGen.v, where the results of the callback came from the environment, with a
    client of Client.v behind every channel and a callback that calls it.  The
    channels run their callbacks one after the other, so what ClientSerial shows
    of clients that are called serially holds for theirs. *)

From Stdlib Require Import ZArith Lia.
From stdpp Require Import base gmap list numbers strings.
From coqutil Require Import Byte.
From S2P Require Import Prelude Header Seastar Letter Connection RecvContext Wire Codec Filters Random LoadGen Client ClientInv ClientLife ClientProps ClientSerial.

(** What a call returned: a response or an exception. *)
Definition succeeded (r : outcome (option rpc_recv_context)) : bool := match r with Ready _ => true | _ => false end.

(** What a callback [func_t] does with its client: calls, each one made when the
    call before it has returned and depending on what it returned, and in the end
    a future that is ready or failed. *)
Inductive callback :=
| cb_done (ok : bool)
| cb_call (e : rpc_envelope) (next : outcome (option rpc_recv_context) -> callback).

(** The callback of the programs: one call of a generated method, which sets the
    request id. *)
Definition method_callback (id : Z) (e : rpc_envelope) : callback :=
  cb_call (set_request_id id e) (fun r => cb_done (succeeded r)).

Section load.
Context `{Build, GeneratedHeader, Xxhash, Seastar}.
Variable in_filters_ : list (rpc_recv_context -> outcome rpc_recv_context).
Variable out_filters_ : list (rpc_envelope -> outcome rpc_envelope).
(** [method_cb] of the benchmark. *)
Variable func : rpc_envelope -> callback.
(** Whether [args.credentials] is set. *)
Variable tls : bool.

(** [class load_generator]: the benchmark, the clients of [channels_], and what
    the callbacks do once the call they wait for returns. *)
Record load_generator := mk_load {
  bench : benchmark;
  channel_clients : gmap Z client;
  pending_calls : gmap Z (outcome (option rpc_recv_context) -> callback)
}.
Implicit Types l : load_generator.

Definition set_bench l (b : option benchmark) : option load_generator :=
  (fun b => mk_load b (channel_clients l) (pending_calls l)) <$> b.

(** The callback of channel [k] runs up to its next call, or to its end. *)
Definition run_callback (k : Z) (c : callback) l : option load_generator :=
  match c with
  | cb_done ok => set_bench l (channel_result k ok (bench l))
  | cb_call e next =>
      match channel_clients l !! k with
      | Some cl => Some (mk_load (bench l) (<[k := client_send e cl]> (channel_clients l)) (<[k := next]> (pending_calls l)))
      | None => None
      end
  end.

(** [func(client.get(), gen(opts))] of channel [k], [gen] being what the
    generator returned. *)
Definition load_issue (k : Z) (gen : outcome rpc_envelope) l : option load_generator :=
  match channel_issue k gen (bench l), gen with
  | Some b, Ready e => run_callback k (func e) (mk_load b (channel_clients l) (pending_calls l))
  | b, _ => set_bench l b
  end.

(** The future of the last call of channel [k] is available. *)
Definition load_result (k : Z) l : option load_generator :=
  match channel_clients l !! k, pending_calls l !! k with
  | Some cl, Some next =>
      match requests cl !! (next_request cl - 1) with
      | Some (q_done r) => run_callback k (next r) (mk_load (bench l) (channel_clients l) (delete k (pending_calls l)))
      | _ => None
      end
  | _, _ => None
  end.

(** Whatever else happens to the client of channel [k]: connecting, which
    [load_generator::connect] starts for every channel, stopping, and the
    network. *)
Definition load_client (k : Z) (ev : client_event) l : option load_generator :=
  match ev, channel_clients l !! k with
  | ce_send _, _ | _, None => None
  | _, Some cl =>
      match client_exec in_filters_ out_filters_ ev cl with
      | Some cl' => Some (mk_load (bench l) (<[k := cl']> (channel_clients l)) (pending_calls l))
      | None => None
      end
  end.

Inductive load_event :=
| le_start (k : Z)
| le_issue (k : Z) (gen : outcome rpc_envelope)
| le_client (k : Z) (ev : client_event)
| le_result (k : Z)
| le_end.

Definition load_exec (args : load_generator_args) (ev : load_event) l : option load_generator :=
  match ev with
  | le_start k => set_bench l (channel_start k (bench l))
  | le_issue k gen => load_issue k gen l
  | le_client k ev => load_client k ev l
  | le_result k => load_result k l
  | le_end => set_bench l (benchmark_end (concurrency args) (bench l))
  end.
Definition load_step (args : load_generator_args) l l' : Prop := exists ev, load_exec args ev l = Some l'.

Fixpoint load_run (args : load_generator_args) (evs : list load_event) l : option load_generator :=
  match evs with
  | [] => Some l
  | ev :: evs => match load_exec args ev l with Some l => load_run args evs l | None => None end
  end.

(** The options that a channel gives its client, and a generator that is about
    to run its benchmark. *)
Definition channel_opts (args : load_generator_args) : rpc_client_opts :=
  mk_opts tls 60000 (memory_per_core args / concurrency args).
Definition load_make (args : load_generator_args) : outcome load_generator :=
  b ← benchmark_make args;
  Ready (mk_load b ((fun _ => rpc_client_make (channel_opts args)) <$> stages b) ∅).
Definition load_reachable (args : load_generator_args) l : Prop :=
  exists l0, load_make args = Ready l0 /\ rtc (load_step args) l0 l.

(** ** The invariant *)

Lemma client_send_adds e cl : exists st,
  requests (client_send e cl) = <[next_request cl := st]> (requests cl) /\
  next_request (client_send e cl) = next_request cl + 1.
Proof.
  unfold client_send. destruct (gate_is_closed (dispatch_gate_ cl)) eqn:Cl.
  { rewrite gate_enter_closed by done. by eexists. }
  destruct (gate_enter_open _ Cl) as (g & -> & _). unfold raw_send, DLOG_THROW_IF, LOG_THROW_IF.
  repeat case_goal; simplify_eq; by eexists.
Qed.

(** Every callback is one call, and fails when the call does. *)
Definition one_call : Prop := forall e, exists e', func e = cb_call e' (fun r => cb_done (succeeded r)).

(** A client whose calls so far are known. *)
Definition called cl : Prop := forall j, 0 <= j < next_request cl -> is_Some (requests cl !! j).

(** The state of a channel, its client and its callback. *)
Record linked (st : channel_stage) (cl : client) (p : option (outcome (option rpc_recv_context) -> callback)) : Prop :=
  mk_linked {
  lk_dom : called cl;
  lk_calling : is_Some p -> exists i, st = ch_call i;
  lk_waiting : forall i, st = ch_call i -> is_Some p;
  lk_returned : p = None -> map_Forall (fun _ => returned) (requests cl);
  lk_count : one_call -> next_request cl = requests_of st;
  lk_next : one_call -> forall next, p = Some next -> next = (fun r => cb_done (succeeded r));
  lk_failed : one_call -> forall i, st = ch_done i func_failed ->
    exists r, requests cl !! (i - 1) = Some (q_done r) /\ succeeded r = false
}.

Record load_inv (args : load_generator_args) (b0 : benchmark) l : Prop := mk_load_inv {
  ln_bench : rtc (bench_step args) b0 (bench l);
  ln_serial : forall k cl, channel_clients l !! k = Some cl ->
    serial_reachable in_filters_ out_filters_ (channel_opts args) cl;
  ln_linked : forall k, match stages (bench l) !! k, channel_clients l !! k with
    | Some st, Some cl => linked st cl (pending_calls l !! k)
    | None, None => True
    | _, _ => False
    end
}.

(** Channel [k], its client and its callback move together. *)
Lemma load_inv_move args b0 l l' k st cl' p :
  load_inv args b0 l -> rtc (bench_step args) (bench l) (bench l') ->
  stages (bench l') = <[k := st]> (stages (bench l)) -> channel_clients l' = <[k := cl']> (channel_clients l) ->
  pending_calls l' !! k = p -> (forall j, j <> k -> pending_calls l' !! j = pending_calls l !! j) ->
  serial_reachable in_filters_ out_filters_ (channel_opts args) cl' -> linked st cl' p -> load_inv args b0 l'.
Proof.
  intros [B S L] Rt St Cl Pk Pj Se Li. constructor.
  - by etransitivity.
  - intros j cl. rewrite Cl, lookup_insert. case_decide; [by intros [= <-]|]. apply S.
  - intros j. rewrite St, Cl, !lookup_insert. case_decide as J; [subst j; by rewrite Pk|].
    rewrite (Pj j) by done. apply L.
Qed.

Lemma load_linked args b0 l k st :
  load_inv args b0 l -> stages (bench l) !! k = Some st ->
  exists cl, channel_clients l !! k = Some cl /\ linked st cl (pending_calls l !! k).
Proof.
  intros [_ _ L] K. specialize (L k). rewrite K in L. destruct (channel_clients l !! k) as [cl|]; [eauto|done].
Qed.

(** What a channel is when no callback runs: its calls have returned. *)
Record settled (cl : client) : Prop := mk_settled {
  se_called : called cl;
  se_returned : map_Forall (fun _ => returned) (requests cl)
}.

(** The last call, when every callback is one call. *)
Definition counted (n : Z) (cl : client) (c : callback) : Prop :=
  one_call ->
  (next_request cl = n /\ exists e, c = cb_call e (fun r => cb_done (succeeded r))) \/
  (next_request cl = n + 1 /\ exists r, requests cl !! n = Some (q_done r) /\ c = cb_done (succeeded r)).

(** A callback that runs in the [i]-th iteration. *)
Lemma load_inv_callback args b0 l0 l l' k i c cl :
  load_inv args b0 l0 -> rtc (bench_step args) (bench l0) (bench l) ->
  stages (bench l) = <[k := ch_call i]> (stages (bench l0)) -> channel_clients l = channel_clients l0 ->
  pending_calls l !! k = None -> (forall j, j <> k -> pending_calls l !! j = pending_calls l0 !! j) ->
  channel_clients l0 !! k = Some cl -> settled cl -> counted i cl c ->
  run_callback k c l = Some l' -> load_inv args b0 l'.
Proof.
  intros I Rb St Cc Pk Pj C [Ca Re] Co E. pose proof (ln_serial _ _ _ I k cl C) as Se.
  destruct c as [ok|e next]; simpl in E.
  - unfold set_bench in E. apply fmap_Some in E as (b' & E & ->).
    assert (bench_step args (bench l) b') as Sb by (by exists (be_result k ok)).
    assert (forall st, stages b' = <[k := st]> (stages (bench l)) -> stages b' = <[k := st]> (stages (bench l0))) as Ss.
    { intros st ->. by rewrite St, insert_insert_eq. }
    assert (one_call -> next_request cl = i + 1 /\ (ok = false -> exists r, requests cl !! i = Some (q_done r) /\ succeeded r = false)) as Oc.
    { intros O. destruct (Co O) as [[_ [e He]]|(N & r & Q & [= ->])]; [done|]. split; [done|]. intros F. eauto. }
    unfold channel_result in E. rewrite St, lookup_insert_eq in E.
    assert (forall st, (forall i, st <> ch_call i) -> requests_of st = i + 1 ->
      (forall j, st = ch_done j func_failed -> j = i + 1 /\ ok = false) -> linked st cl None) as Li.
    { intros st Nc Rq Ff. constructor; [done|by intros [? ?]|intros j Ej; by destruct (Nc j)|done|
        intros O; rewrite Rq; by apply Oc|done|].
      intros O j Ej. destruct (Ff j Ej) as [-> F]. replace (i + 1 - 1) with i by lia. by apply Oc. }
    destruct ok; [case_hyp E|]; simplify_eq;
      (eapply (load_inv_move args b0 l0); [exact I|by eapply rtc_r|by apply Ss|simpl; by rewrite Cc, insert_id|exact Pk|exact Pj|done|];
       apply Li; [done|done|]; intros j; by intros [= <-]).
  - rewrite Cc, C in E. injection E as <-.
    eapply (load_inv_move args b0 l0); [exact I|exact Rb|done|done|simpl; apply lookup_insert_eq| | |].
    + intros j J. simpl. rewrite lookup_insert_ne by done. by apply Pj.
    + eapply rtc_r; [exact Se|]. exists (ce_send e). split; [|done]. by intros _ _.
    + destruct (client_send_adds e cl) as (st & Q & N). constructor; simpl; try done.
      * intros j. rewrite N, Q, lookup_insert. case_decide; [done|]. intros Hj. apply Ca. lia.
      * eauto.
      * intros O. rewrite N. destruct (Co O) as [[-> _]|(_ & r & _ & ?)]; done.
      * intros O next' [= <-]. by destruct (Co O) as [(_ & e' & [= -> ->])|(_ & r & _ & ?)].
Qed.

Lemma load_inv_start args b0 k l l' :
  set_bench l (channel_start k (bench l)) = Some l' -> load_inv args b0 l -> load_inv args b0 l'.
Proof.
  intros E I. unfold set_bench in E. apply fmap_Some in E as (b' & E & ->).
  assert (bench_step args (bench l) b') as St by (by exists (be_start k)).
  unfold channel_start in E. destruct (stages (bench l) !! k) as [[| | |]|] eqn:K; try done.
  case_hyp E; simplify_eq. destruct (load_linked _ _ _ _ _ I K) as (cl & C & [D Ca W R Co Ne Fa]).
  eapply (load_inv_move args b0 l); [done|by apply rtc_once|done|by rewrite insert_id|done|done|by apply (ln_serial _ _ _ I k)|].
  constructor; try done. intros Hp. by destruct (Ca Hp).
Qed.

Lemma load_inv_issue args b0 k gen l l' : load_issue k gen l = Some l' -> load_inv args b0 l -> load_inv args b0 l'.
Proof.
  intros E I. unfold load_issue in E. destruct (channel_issue k gen (bench l)) as [b'|] eqn:X; [|by destruct gen].
  assert (bench_step args (bench l) b') as St by (by exists (be_issue k gen)).
  unfold channel_issue in X. destruct (stages (bench l) !! k) as [[|i| |]|] eqn:K; try done.
  destruct (load_linked _ _ _ _ _ I K) as (cl & C & [D Ca W R Co Ne Fa]).
  assert (pending_calls l !! k = None) as Pk.
  { destruct (pending_calls l !! k) as [p|]; [|done]. by destruct Ca as [? ?]; [eauto|]. }
  destruct gen as [e|ex|]; simplify_eq.
  - eapply (load_inv_callback args b0 l); [exact I| | | | | |exact C| | |exact E]; [by apply rtc_once|done|done|done|done|..].
    + split; [done|by apply R].
    + intros O. destruct (O e) as [e' ->]. left. split; [by apply Co|eauto].
  - injection E as <-. eapply (load_inv_move args b0 l); [done|by apply rtc_once|done|by rewrite insert_id|done|done| |].
    + by apply (ln_serial _ _ _ I k).
    + simpl. rewrite Pk in *. by constructor.
Qed.

Lemma load_inv_client args b0 k ev l l' : load_client k ev l = Some l' -> load_inv args b0 l -> load_inv args b0 l'.
Proof.
  intros E I. unfold load_client in E. destruct (channel_clients l !! k) as [cl|] eqn:C; [|by destruct ev].
  assert ((forall e, ev <> ce_send e) /\ exists cl', client_exec in_filters_ out_filters_ ev cl = Some cl' /\
    l' = mk_load (bench l) (<[k := cl']> (channel_clients l)) (pending_calls l)) as (Ns & cl' & X & ->).
  { destruct ev; try done; (split; [done|]); case_hyp E; simplify_eq; eauto. }
  pose proof (ln_linked _ _ _ I k) as L. rewrite C in L. destruct (stages (bench l) !! k) as [st|] eqn:K; [|done].
  eapply (load_inv_move args b0 l _ k st cl'); [done|done|simpl; by rewrite insert_id|done|done|done| |].
  { eapply rtc_r; [by apply (ln_serial _ _ _ I k)|]. exists ev. split; [|done]. intros e ->. by destruct (Ns e). }
  destruct L as [D Ca W R Co Ne Fa]. destruct (unsent_requests _ _ _ _ _ X Ns) as [Nx [Q|(j & q & q' & Qk & Nr & Q)]].
  { constructor; unfold called; rewrite ?Nx, ?Q; done. }
  assert (exists p, pending_calls l !! k = Some p) as [p Pk].
  { destruct (pending_calls l !! k) as [p|]; [eauto|]. exfalso. apply Nr. by eapply (R eq_refl). }
  constructor; unfold called; rewrite ?Nx, ?Q; try done.
  - intros j' Hj. rewrite lookup_insert. case_decide; [done|]. by apply D.
  - simpl. by rewrite Pk.
  - intros O i ->. by destruct Ca; [rewrite Pk; eauto|].
Qed.

Lemma load_inv_result args b0 k l l' : load_result k l = Some l' -> load_inv args b0 l -> load_inv args b0 l'.
Proof.
  intros E I. unfold load_result in E. destruct (channel_clients l !! k) as [cl|] eqn:C; [|done].
  destruct (pending_calls l !! k) as [next|] eqn:P; [|done].
  destruct (requests cl !! (next_request cl - 1)) as [[| | | |r]|] eqn:Q; try done.
  pose proof (ln_linked _ _ _ I k) as L. rewrite C, P in L. destruct (stages (bench l) !! k) as [st|] eqn:K; [|done].
  destruct L as [D Ca W R Co Ne Fa]. destruct Ca as [i Ei]; [eauto|]. subst st.
  assert (map_Forall (fun _ => returned) (requests cl)) as Re.
  { intros j q Ej. destruct (serial_one_open _ _ _ cl (ln_serial _ _ _ I k cl C) j q Ej) as [?|Ek]; [done|].
    subst j. rewrite Q in Ej. injection Ej as <-. by exists r. }
  eapply (load_inv_callback args b0 l _ l' k i); [exact I| | | | | |exact C| | |exact E];
    [done|simpl; by rewrite insert_id|done| | |done|].
  - simpl. apply lookup_delete_eq.
  - intros j J. simpl. by rewrite lookup_delete_ne.
  - intros O. right. simpl in Co. rewrite (Co O) in Q |- *. replace (i + 1 - 1) with i in Q by lia.
    split; [done|]. exists r. split; [done|]. by rewrite (Ne O next eq_refl).
Qed.

Lemma load_inv_step args b0 l l' : load_inv args b0 l -> load_step args l l' -> load_inv args b0 l'.
Proof.
  intros I [ev E]. destruct ev; simpl in E;
    [by eapply load_inv_start|by eapply load_inv_issue|by eapply load_inv_client|by eapply load_inv_result|].
  unfold set_bench in E. apply fmap_Some in E as (b' & E & ->).
  assert (bench_step args (bench l) b') as St by (by exists be_end). destruct I as [B S L].
  unfold benchmark_end in E. repeat case_hyp E; simplify_eq. constructor; simpl; [by eapply rtc_r|done|exact L].
Qed.

Lemma reachable_load_inv args l :
  0 <= concurrency args < 2 ^ 63 -> load_reachable args l ->
  exists b0, benchmark_make args = Ready b0 /\ load_inv args b0 l.
Proof.
  intros Cc (l0 & M & R). unfold load_make in M. apply outcome_bind_Ready in M as (b0 & Mb & [= <-]).
  exists b0. split; [done|]. revert R. apply (rtc_ind_r (load_inv args b0)).
  - constructor; simpl; [done| |].
    + intros k cl. rewrite lookup_fmap. destruct (stages b0 !! k); [|done]. intros [= <-]. apply rtc_refl.
    + intros k. rewrite lookup_fmap. destruct (stages b0 !! k) as [st|] eqn:K; [|done]. simpl.
      unfold benchmark_make in Mb. apply outcome_bind_Ready in Mb as (q & _ & [= <-]). simpl in K |- *.
      destruct (start_stages_spec (concurrency args)) as [_ W]; [lia|]. rewrite (W k st K).
      constructor; simpl; try done; [intros j Hj; simpl in Hj; lia|by intros [? ?]].
  - intros x y _ S I. by eapply load_inv_step.
Qed.

(** ** Properties *)

(** C38: a benchmark with its clients, whatever its generator and its callback
    do, as long as a callback makes its calls one after the other.  When it has
    ended, every channel is done and every call that was made on its client has
    returned; a channel whose loop made fewer than [reqs_per_channel] iterations
    stopped because the generator threw or the callback failed.  When the
    callback is one call, as in the programs, the calls of a client are exactly
    the requests of its channel, and a callback that failed did so because its
    call, the last one, failed.  As long as the outgoing filters do not throw, no
    client has lost a request, although the sessions wrap. *)
Theorem benchmark_calls_return args l :
  0 < concurrency args < 2 ^ 63 -> load_reachable args l -> ended (bench l) = true ->
  Z.of_nat (size (stages (bench l))) = concurrency args /\
  forall k st, stages (bench l) !! k = Some st -> exists cl i why,
    channel_clients l !! k = Some cl /\ st = ch_done i why /\ ended_ok (duration_reqs (bench l)) i why /\
    (forall j, 0 <= j < next_request cl -> exists r, requests cl !! j = Some (q_done r)) /\
    (one_call -> next_request cl = i /\
       (why = func_failed -> exists r, requests cl !! (i - 1) = Some (q_done r) /\ succeeded r = false)) /\
    (quiet_filters out_filters_ -> lost_ cl = ∅).
Proof.
  intros Cc R En. destruct (reachable_load_inv args l) as (b0 & M & I); [lia|done|].
  assert (bench_inv (concurrency args) (duration_reqs b0) (bench l)) as Bi.
  { eapply bench_inv_rtc; [lia| |apply I|by apply bench_inv_make; [lia|]].
    unfold benchmark_make, reqs_per_channel in M. apply outcome_bind_Ready in M as (q & Q & [= <-]). simpl.
    repeat case_hyp Q; simplify_eq. lia. }
  split; [apply Bi|]. intros k st K. destruct (bn_ended _ _ _ Bi En _ _ K) as (i & why & ->).
  pose proof (bn_stages _ _ _ Bi _ _ K) as Si. simpl in Si. rewrite (bn_reqs _ _ _ Bi).
  destruct (load_linked _ _ _ _ _ I K) as (cl & C & [D Ca _ Rt Co _ Fa]).
  assert (pending_calls l !! k = None) as Pk.
  { destruct (pending_calls l !! k) as [p|]; [|done]. by destruct Ca as [? ?]; [eauto|]. }
  exists cl, i, why. split_and!; [done|done|done| | |].
  - intros j Hj. destruct (D j Hj) as [q Q]. destruct (Rt Pk j q Q) as [r ->]. by exists r.
  - intros O. split; [by apply Co|]. intros ->. by apply Fa.
  - intros Qf. eapply serial_busy; [exact Qf|by apply (ln_serial _ _ _ I k)].
Qed.
End load.

Lemma method_callback_one_call id : one_call (method_callback id).
Proof. intros e. by eexists. Qed.

(** ** Witness *)
Module LoadWitness.
Import Demo ClientDemo.

Definition l_args : load_generator_args := mk_lg_args 1 1 (2 ^ 24) compression_flags_none.
Definition l_start : load_generator :=
  match load_make false l_args with Ready l => l | _ => mk_load (mk_benchmark _ (sem_make 0) ∅ 0 0 [] false) ∅ ∅ end.

(** One channel, one request: connected, sent, answered. *)
Definition l_events : list load_event :=
  [le_client 0 ce_connect; le_client 0 (d_connected (frame (d_reply 1)) false); le_start 0; le_issue 0 (Ready d_envelope);
   le_client 0 (ce_request 0)]
  ++ repeat (le_client 0 (ce_write 0)) 5 ++ repeat (le_client 0 (ce_reader 0)) 3 ++ repeat (le_client 0 (ce_request 0)) 3
  ++ [le_result 0; le_end].
Definition l_func : rpc_envelope -> callback := method_callback 9.
Definition l_run (evs : list load_event) : option load_generator := load_run [] [] l_func l_args evs l_start.
Definition l_state (evs : list load_event) : load_generator := default l_start (l_run evs).

Lemma load_run_rtc evs l l' : load_run [] [] l_func l_args evs l = Some l' -> rtc (load_step [] [] l_func l_args) l l'.
Proof.
  revert l. induction evs as [|ev evs IH]; intros l E; [by injection E as <-|]. cbn [load_run] in E.
  destruct (load_exec [] [] l_func l_args ev l) as [l1|] eqn:X; [|done]. eapply rtc_l; [by exists ev|by apply IH].
Qed.

Lemma l_reachable evs : d_ran (l_run evs) = true -> load_reachable [] [] l_func false l_args (l_state evs).
Proof.
  unfold l_state. intros E. destruct (l_run evs) as [l|] eqn:R; [|done]. exists l_start. split; [done|].
  by eapply load_run_rtc.
Qed.

Lemma benchmark_calls_return_witness :
  exists cl r, channel_clients (l_state l_events) !! 0 = Some cl /\ next_request cl = 1 /\
    requests cl !! 0 = Some (q_done r) /\ lost_ cl = ∅.
Proof.
  destruct (benchmark_calls_return [] [] l_func false l_args (l_state l_events)) as [_ K].
  - split; [apply Z.ltb_lt; vm_refl|apply Z.ltb_lt; vm_refl].
  - apply l_reachable. vm_refl.
  - vm_refl.
  - destruct (K 0 (ch_done 1 loop_completed)) as (cl & i & why & C & S & _ & R & O & L); [vm_refl|].
    injection S as <- <-. destruct (O (method_callback_one_call 9)) as [N _].
    destruct (R 0) as [r Q]; [rewrite N; split; [reflexivity|reflexivity]|].
    exists cl, r. split; [exact C|]. split; [exact N|]. split; [exact Q|]. apply L. intros e ex F. discriminate F.
Defined.

(** A benchmark all of whose calls fail ends like any other: the futures of the
    channels are discarded.  Two requests were asked for, one was made. *)
Definition f_args : load_generator_args := mk_lg_args 2 1 (2 ^ 24) compression_flags_none.
Definition f_run (evs : list load_event) : option load_generator :=
  match load_make false f_args with Ready l => load_run [] [] l_func f_args evs l | _ => None end.
Example failed_benchmark_ends :
  (fun l => (ended (bench l), blen (issued (bench l)), duration_reqs (bench l))) <$>
    f_run [le_start 0; le_issue 0 (Ready d_envelope); le_client 0 (ce_request 0); le_result 0; le_end] =
  Some (true, 1, 2).
Proof. vm_refl. Qed.

(** A generator that throws: the benchmark ends and its client was never called. *)
Example throwing_generator_calls_nothing :
  (fun l => (ended (bench l), next_request <$> channel_clients l !! 0)) <$>
    f_run [le_start 0; le_issue 0 (Failed (runtime_error "gen")); le_end] = Some (true, Some 0).
Proof. vm_refl. Qed.
End LoadWitness.
