(* ===== verification/Report.v ===== *)
(** * Reports of measurements

    What is printed, written and aggregated: the [operator<<] of histogram.h,
    histogram_seastar_utils.cc and .h, the aggregation of histograms by
    unique_histogram_adder.h, [copy_histogram] of load_generator.h and
    rpc_server.cc, and load_generator_duration.h and load_generator_args.h.  The
    files of Seastar are the class [SeastarFile]. *)

From Stdlib Require Import ZArith Lia String.
From stdpp Require Import base gmap list numbers strings.
From S2P Require Import Prelude Header Printer Schema Doubles Text Histogram Random LoadGen.

(** ** The percentiles of a histogram *)

Section percentiles.
Context `{Hdr}.
Implicit Types h : histogram.

(** [operator<<(std::ostream &, const histogram &)]: the percentiles are given
    as [.5], [.99] and [.999]; the sign for micro is two bytes. *)
Definition micro : string := String (Ascii.ascii_of_nat 206) (String (Ascii.ascii_of_nat 188) EmptyString).
Definition put_histogram h (o : std_ostream) : std_ostream :=
  let o := put (show_signed (value_at 500 h)) (put "smf::histogram={p50=" o) in
  let o := put (show_signed (value_at 990 h)) (put (micro +:+ "s,p99=") o) in
  let o := put (show_signed (value_at 999 h)) (put (micro +:+ "s,p999=") o) in
  put (micro +:+ "s}") o.

(** HdrHistogram counts percentiles from 0 to 100, so the three numbers are the
    percentiles 0.5, 0.99 and 0.999: for up to a hundred values each of them is
    the smallest recorded value, whatever the median is. *)
Theorem printed_percentiles h o :
  0 < total_count (hist h) <= 100 ->
  let smallest := show_signed (value_of_rank (hist h) 1) in
  written (put_histogram h o) =
    written o +:+ "smf::histogram={p50=" +:+ smallest +:+ (micro +:+ "s,p99=") +:+ smallest +:+
    (micro +:+ "s,p999=") +:+ smallest +:+ (micro +:+ "s}").
Proof.
  intros T smallest. unfold put_histogram. rewrite !value_at_smallest by lia. unfold put. simpl written.
  by rewrite !str_app_assoc.
Qed.

(** ** Aggregation *)

(** [unique_histogram_adder] over the histograms of all cores, and [get]. *)
Definition adder_run `{Build} (values : list (option histogram)) : outcome histogram :=
  h ← histogram_make kDefaultHistogramMaxValue;
  Ready (foldl (fun r v => adder_add v r) h values).

(** [load_generator::copy_histogram]: the histogram of each client, which is
    null when it is disabled. *)
Fixpoint add_clients (l : list (option histogram)) h : outcome histogram :=
  match l with
  | [] => Ready h
  | Some p :: l => add_clients l (histogram_add h p)
  | None :: l => Undefined
  end.
Definition load_generator_copy_histogram `{Build} (l : list (option histogram)) : outcome histogram :=
  h ← histogram_make kDefaultHistogramMaxValue; add_clients l h.

(** [rpc_server::copy_histogram]. *)
Definition rpc_server_copy_histogram `{Build} (hist_ : histogram) : outcome histogram :=
  h ← histogram_make kDefaultHistogramMaxValue; Ready (histogram_add h hist_).

(** Values that merging drops. *)
Fixpoint dropped h (l : list histogram) : Z :=
  match l with [] => 0 | o :: l => (hdr_add (hist h) (hist o)).1 + dropped (histogram_add h o) l end.
Definition total (l : list histogram) : Z := foldr (fun o n => total_count (hist o) + n) 0 l.

Lemma merge_total h l :
  let r := foldl histogram_add h l in
  total_count (hist r) = total_count (hist h) + total l - dropped h l /\
  sample_count r = sample_count h /\ sample_sum r = sample_sum h.
Proof.
  revert h. induction l as [|o l IH]; intros h; simpl; [split; [lia|done]|].
  destruct (hdr_add (hist h) (hist o)) as [d x] eqn:E.
  destruct (merged_counters_lost h o d x E) as (T & _). destruct (IH (histogram_add h o)) as (T' & C & S).
  split; [|by rewrite C, S]. rewrite T', T. simpl. lia.
Qed.

Lemma adder_is_merge h values : foldl (fun r v => adder_add v r) h values = foldl histogram_add h (omap id values).
Proof. revert h. by induction values as [|[v|] values IH]; intros h; simpl. Qed.

Lemma add_clients_is_merge h l : add_clients (Some <$> l) h = Ready (foldl histogram_add h l).
Proof. revert h. by induction l as [|p l IH]; intros h; simpl. Qed.

(** Aggregating keeps every value that fits: what the adder returns has the
    values of all the histograms it was given (a null one is skipped) less the
    dropped ones, as have the copies of the load generator and of the server.
    But the counters that are exported stay at zero. *)
Theorem aggregation `{Build} values r :
  adder_run values = Ready r ->
  exists h0,
    total_count (hist r) = total (omap id values) - dropped h0 (omap id values) /\
    m_sample_count (seastar_histogram_logform r) = 0 /\ m_sample_sum (seastar_histogram_logform r) = 0 /\
    load_generator_copy_histogram (Some <$> omap id values) = Ready r /\
    (forall s, values = [Some s] -> rpc_server_copy_histogram s = Ready r).
Proof.
  unfold adder_run, load_generator_copy_histogram, rpc_server_copy_histogram, histogram_make.
  intros E. destruct (hdr_init 1 kDefaultHistogramMaxValue 3) as [x|] eqn:I.
  - simpl in *. injection E as <-. rewrite adder_is_merge. exists (mk_histogram _ x 0 0).
    destruct (merge_total (mk_histogram _ x 0 0) (omap id values)) as (T & C & S).
    simpl in T. rewrite (hdr_init_total _ _ _ _ I) in T. split_and!.
    + lia.
    + unfold seastar_histogram_logform. by case_goal.
    + unfold seastar_histogram_logform. by case_goal.
    + apply add_clients_is_merge.
    + by intros s ->.
  - simpl in E. by destruct NDEBUG.
Qed.
End percentiles.

(** ** Durations *)

(** [load_generator_duration]; clock readings are in nanoseconds. *)
Record load_generator_duration := mk_duration {
  d_num_of_req : Z;
  test_begin : Z;
  test_end : Z;
  d_total_bytes : Z
}.
Definition load_generator_duration_make (reqs : Z) : load_generator_duration := mk_duration reqs 0 0 0.
Definition duration_begin (now : Z) (d : load_generator_duration) : load_generator_duration :=
  mk_duration (d_num_of_req d) now (test_end d) (d_total_bytes d).
Definition duration_end (now : Z) (d : load_generator_duration) : load_generator_duration :=
  mk_duration (d_num_of_req d) (test_begin d) now (d_total_bytes d).

Definition duration_in_millis (d : load_generator_duration) : Z := u64 (Z.quot (test_end d - test_begin d) 1000000).

Definition qps (d : load_generator_duration) : Z :=
  let milli := duration_in_millis d in
  let reqs := double_of (d_num_of_req d) in
  let safe_denom := Z.max milli 1 in
  let denom := double_of safe_denom in
  let queries_per_milli := double_div reqs denom in
  double_trunc (double_mul queries_per_milli (double_of 1000)).

Definition put_duration general (d : load_generator_duration) (o : std_ostream) : std_ostream :=
  let o := put (to_string (duration_in_millis d)) (put "generator_duration={ test_duration= " o) in
  let o := put (to_string (qps d)) (put "ms, qps=" o) in
  let o := human_bytes general (double_of (d_total_bytes d)) (put ", total_bytes=" o) in
  put ") }" (put (to_string (d_total_bytes d)) (put "(" o)).

(** [operator<<(std::ostream &, const load_generator_args &)]; the integer
    division by [concurrency] is undefined for zero. *)
Definition put_args (EnumName : compression_flags -> string) (ip : string) (port cfg_size : Z)
    (args : load_generator_args) (o : std_ostream) : outcome std_ostream :=
  if concurrency args =? 0 then Undefined
  else
    let o := put ip (put "generator_args{ip=" o) in
    let o := put (to_string port) (put ", port=" o) in
    let o := put (to_string (num_of_req args)) (put ", num_of_req=" o) in
    let o := put (to_string (concurrency args)) (put ", concurrency=" o) in
    let o := put (to_string (memory_per_core args / concurrency args)) (put ", memory_per_client=" o) in
    let o := put (EnumName (args_compression args)) (put ", compression=" o) in
    Ready (put "}" (put (to_string cfg_size) (put ", cfg_size=" o))).

(** The rate is the number of requests per second, to within one, although it is
    computed in floating point; a run of less than a millisecond counts as one
    millisecond. *)
Theorem qps_close d :
  fits_u 32 (d_num_of_req d) -> duration_in_millis d < 2 ^ 53 ->
  Z.abs (qps d - 1000 * d_num_of_req d / Z.max (duration_in_millis d) 1) <= 1.
Proof.
  intros [R0 R] D. unfold qps. set (m := Z.max (duration_in_millis d) 1).
  assert (small : forall n, n < 2 ^ 53 -> double_of n = mk_double n 0).
  { intros n L. unfold double_of. by rewrite (proj2 (Z.ltb_lt _ _) L). }
  rewrite !small by lia. unfold double_div.
  change (above (mk_double (d_num_of_req d) 0)) with (d_num_of_req d * 1).
  change (below (mk_double m 0)) with 1. change (below (mk_double (d_num_of_req d) 0)) with 1.
  change (above (mk_double m 0)) with (m * 1). rewrite !Z.mul_1_r, Z.mul_1_l. unfold double_mul.
  change (above (mk_double 1000 0)) with 1000. change (below (mk_double 1000 0)) with 1. rewrite Z.mul_1_r.
  pose proof (div_mul_close (d_num_of_req d) m 1000 R0 ltac:(lia) ltac:(lia) ltac:(lia)) as C. simpl in C.
  unfold double_trunc. set (q := above _ / below _) in *.
  assert (0 <= 1000 * d_num_of_req d / m <= 1000 * d_num_of_req d).
  { split; [apply Z.div_pos; lia|]. apply Z.div_le_upper_bound; nia. }
  assert (0 <= q).
  { apply Z.div_pos; [|apply below_pos]. apply above_nonneg, rnd_mant; [|apply below_pos].
    pose proof (above_nonneg (rnd (d_num_of_req d) m) (rnd_mant _ m R0 ltac:(lia))). lia. }
  rewrite wrap_u_small; [done|]. unfold fits_u. lia.
Qed.

(** ** Writing a histogram to a file *)

Class SeastarFile := {
  sfs : Type;
  sfile : Type;
  sout : Type;
  (** [open_file_dma(name, rw | create | truncate)]. *)
  open_file_dma : string -> sfs -> outcome sfile * sfs;
  file_close : sfile -> sfs -> sfs;
  make_file_output_stream : sfile -> sfs -> outcome sout * sfs;
  out_write : sout -> string -> sfs -> outcome unit * sfs;
  out_flush : sout -> sfs -> outcome unit * sfs;
  out_close : sout -> sfs -> outcome unit * sfs;
  contents : sfs -> string -> option string;
  closed : sfs -> sfile -> Prop;
  (** [opened fs f name]: [f] is the open, empty file [name]; [writing fs out name t]:
      the stream has been given the text [t] for it. *)
  opened : sfs -> sfile -> string -> Prop;
  writing : sfs -> sout -> string -> string -> Prop;
  open_opened name fs f fs' : open_file_dma name fs = (Ready f, fs') -> opened fs' f name;
  stream_writing fs f name out fs' : opened fs f name ->
    make_file_output_stream f fs = (Ready out, fs') -> writing fs' out name EmptyString;
  write_appends fs out name t s fs' : writing fs out name t -> out_write out s fs = (Ready tt, fs') ->
    writing fs' out name (t +:+ s);
  flush_writing fs out name t fs' : writing fs out name t -> out_flush out fs = (Ready tt, fs') -> writing fs' out name t;
  close_contents fs out name t fs' : writing fs out name t -> out_close out fs = (Ready tt, fs') ->
    contents fs' name = Some t;
  file_close_closed f fs : closed (file_close f fs) f
}.

Section files.
Context `{Hdr, SeastarFile}.

(** [print_histogram]; [memstream] is whether [open_memstream] succeeds. *)
Definition print_histogram (memstream : bool) (h : histogram) : outcome string :=
  LOG_THROW_IF (negb memstream) "Failed to allocate filestream" ;; Ready (histogram_print h).1.

(** Futures over the file system. *)
Definition F (A : Type) : Type := sfs -> outcome A * sfs.
#[local] Instance F_ret : MRet F := fun A a fs => (Ready a, fs).
#[local] Instance F_bind : MBind F := fun A B k m fs =>
  match m fs with
  | (Ready a, fs) => k a fs
  | (Failed e, fs) => (Failed e, fs)
  | (Undefined, fs) => (Undefined, fs)
  end.

(** [with_file_close_on_failure]: when what is done with the file fails, it is
    closed. *)
Definition with_file_close_on_failure (op : F sfile) (k : sfile -> F unit) : F unit := fun fs =>
  match op fs with
  | (Ready f, fs) =>
      match k f fs with
      | (Failed e, fs) => (Failed e, file_close f fs)
      | r => r
      end
  | (Failed e, fs) => (Failed e, fs)
  | (Undefined, fs) => (Undefined, fs)
  end.

Definition write_histogram (memstream : bool) (filename : string) (h : histogram) : F unit :=
  with_file_close_on_failure (open_file_dma filename) (fun file =>
    out ← make_file_output_stream file;
    buf ← (fun fs => (print_histogram memstream h, fs)) : F string;
    out_write out buf ;; out_flush out ;; out_close out).

(** [write], for a histogram that is owned or shared: it outlives the write. *)
Definition histogram_write (memstream : bool) (filename : string) (h : histogram) : F unit :=
  write_histogram memstream filename h.

(** A histogram that was written is in its file, as the library prints it; after
    a failure the file is closed, or was never opened. *)
Theorem written_histogram memstream filename h fs r fs' :
  histogram_write memstream filename h fs = (r, fs') ->
  match r with
  | Ready _ => memstream = true /\ contents fs' filename = Some (histogram_print h).1
  | Failed _ => (exists f fs1, open_file_dma filename fs = (Ready f, fs1) /\ closed fs' f) \/
                exists e, open_file_dma filename fs = (Failed e, fs')
  | Undefined => True
  end.
Proof.
  unfold histogram_write, write_histogram, with_file_close_on_failure, mbind, F_bind. intros E.
  destruct (open_file_dma filename fs) as [[f|e|] fs1] eqn:O; [|by simplify_eq; eauto|by simplify_eq].
  pose proof (open_opened _ _ _ _ O) as Op.
  destruct (make_file_output_stream f fs1) as [[out|e|] fs2] eqn:Mk; simplify_eq; [|by left; eauto using file_close_closed|done].
  pose proof (stream_writing _ _ _ _ _ Op Mk) as W0.
  destruct memstream; simpl in E; [|by simplify_eq; left; eauto using file_close_closed].
  destruct (out_write out _ fs2) as [[[]|e|] fs3] eqn:Wr; simplify_eq; [|by left; eauto using file_close_closed|done].
  pose proof (write_appends _ _ _ _ _ _ W0 Wr) as W1.
  destruct (out_flush out fs3) as [[[]|e|] fs4] eqn:Fl; simplify_eq; [|by left; eauto using file_close_closed|done].
  pose proof (flush_writing _ _ _ _ _ W1 Fl) as W2.
  destruct (out_close out fs4) as [[[]|e|] fs5] eqn:Cl; simplify_eq; [|by left; eauto using file_close_closed|done].
  split; [done|]. by apply (close_contents _ _ _ _ _ W2).
Qed.
End files.

(** ** Files in memory, and examples *)
Module ReportDemo.
Import HistogramDemo.
#[local] Existing Instance demo_hdr.

Definition mem_fs : Type := gmap string string * gset string.

#[local, refine] Instance mem_files : SeastarFile := {|
  sfs := mem_fs; sfile := string; sout := string * string;
  open_file_dma name fs := (Ready name, (<[name := EmptyString]> fs.1, fs.2 ∖ {[name]}));
  file_close f fs := (fs.1, {[f]} ∪ fs.2);
  make_file_output_stream f fs := (Ready (f, f), fs);
  out_write o s fs := (Ready tt, (<[o.1 := default EmptyString (fs.1 !! o.1) +:+ s]> fs.1, fs.2));
  out_flush _ fs := (Ready tt, fs);
  out_close o fs := (Ready tt, (fs.1, {[o.1]} ∪ fs.2));
  contents fs name := fs.1 !! name;
  closed fs f := f ∈ fs.2;
  opened fs f name := f = name /\ fs.1 !! name = Some EmptyString;
  writing fs out name t := out.1 = name /\ fs.1 !! name = Some t
|}.
Proof.
  - intros name fs f fs' E. simplify_eq. simpl. by rewrite lookup_insert_eq.
  - intros fs f name out fs' [-> L] E. by simplify_eq.
  - intros fs [o o'] name t s fs' [<- L] E. simplify_eq. simpl in *. by rewrite L, lookup_insert_eq.
  - intros fs out name t fs' W E. by simplify_eq.
  - intros fs out name t fs' [<- L] E. by simplify_eq.
  - intros f fs. simpl. by apply elem_of_union_l, elem_of_singleton.
Defined.

Example write_demo :
  contents (histogram_write true "hist.hgrm" demo_histogram ((∅, ∅) : sfs)).2 "hist.hgrm" = Some "Value Percentile".
Proof. vm_refl. Qed.

(** Two values, 20 and 50 microseconds: the printed median is the rank of the first. *)
Lemma printed_percentiles_witness :
  written (put_histogram demo_histogram (mk_std_ostream EmptyString 6 false)) =
    "smf::histogram={p50=1" +:+ (micro +:+ "s,p99=1") +:+ (micro +:+ "s,p999=1") +:+ (micro +:+ "s}").
Proof.
  rewrite (printed_percentiles demo_histogram (mk_std_ostream EmptyString 6 false)) by vm_decide. vm_refl.
Defined.

(** A thousand requests in three milliseconds. *)
Example qps_demo : qps (mk_duration 1000 0 3500000 0) = 333333.
Proof. vm_refl. Qed.

(** Rounding can lose one: 201 requests in 25 milliseconds are 8040 per second. *)
Example qps_demo_low : qps (mk_duration 201 0 25000000 0) = 8039.
Proof. vm_refl. Qed.
End ReportDemo.
