(* ===== verification/Benches.v ===== *)
(** * Unit tests and micro-benchmarks

    src/src/tests, src/src/benchmarks and src/src/integration_tests/histograms:
    what they compute, and that what they assert holds for every seed.  The
    benchmark fbs_alloc compares ways to serialize a table; [hybrid], which keeps
    one builder per thread, gives the same bytes as [native_table_as_buffer]. *)

From Stdlib Require Import ZArith Lia Ascii String.
From stdpp Require Import base gmap list numbers strings.
From coqutil Require Import Byte.
From S2P Require Import Prelude Header Seastar Letter Connection RecvContext Wire Printer Schema Random Histogram.

(** ** Reusing a builder *)

(** The operations of a builder that is used again.  [same] relates builders
    that cannot be told apart; [Clear] resets a builder. *)
Class FlatReuse `{FlatTable} := {
  Clear : FlatBufferBuilder -> FlatBufferBuilder;
  GetSize : FlatBufferBuilder -> Z;
  GetBufferPointer : FlatBufferBuilder -> list byte;
  same : relation FlatBufferBuilder;
  same_equivalence : Equivalence same;
  Clear_same b : same (Clear b) FlatBufferBuilder0;
  Pack_same b b' t : same b b' -> (Pack b t).1 = (Pack b' t).1 /\ same (Pack b t).2 (Pack b' t).2;
  Finish_same b b' root : same b b' -> same (Finish b root) (Finish b' root);
  Release_same b b' : same b b' -> Release b = Release b';
  (** The pointer and the size are those of the finished buffer. *)
  GetBufferPointer_bytes b root : GetBufferPointer (Finish b root) = Release (Finish b root);
  GetSize_bytes b root : GetSize (Finish b root) = blen (Release (Finish b root))
}.
#[export] Existing Instance same_equivalence.

Definition ENOMEM : Z := 12.
Definition EINVAL : Z := 22.

Section builders.
Context `{Build, FlatReuse}.

#[local] Instance Finish_proper : Proper (same ==> eq ==> same) Finish.
Proof. intros b b' E r ? <-. by apply Finish_same. Qed.
#[local] Instance Release_proper : Proper (same ==> eq) Release.
Proof. intros b b' E. by apply Release_same. Qed.

(** [bdr.Finish(RootType::Pack(bdr, &t, nullptr))]. *)
Definition packed (bdr : FlatBufferBuilder) (t : native_type) : FlatBufferBuilder :=
  let '(root, bdr) := Pack bdr t in Finish bdr root.

(** [posix_memalign] returned [r]; the bytes of the builder are copied. *)
Definition aligned_copy (r : Z) (bdr : FlatBufferBuilder) : outcome (list byte) :=
  if r =? ENOMEM then Failed (user_exception "std::bad_alloc")
  else if r =? EINVAL then Failed (runtime_error "Invalid alignment of %d; allocating %d bytes")
  else
    DLOG_THROW_IF (negb (r =? 0)) "ERRNO: {}, Bad aligned allocation of {} with alignment: {}" ;;
    if r =? 0 then Ready (GetBufferPointer bdr) else Undefined.

(** The loops of [BM_alloc_simple] and [BM_alloc_thread_local]: the buffer. *)
Definition BM_alloc_simple (t : native_type) : list byte := Release (packed FlatBufferBuilder0 t).
Definition BM_alloc_thread_local (r : Z) (t : native_type) (bdr : FlatBufferBuilder) :
    outcome (list byte * FlatBufferBuilder) :=
  let bdr := packed (Clear bdr) t in
  b ← aligned_copy r bdr; Ready (b, bdr).

(** [hybrid]: a large buffer is released and the builder replaced, a small one is
    copied.  The state is the builder of the thread. *)
Definition hybrid (r : Z) (t : native_type) (bdr : FlatBufferBuilder) : outcome (list byte * FlatBufferBuilder) :=
  let bdr := packed (Clear bdr) t in
  if 2048 <? GetSize bdr then Ready (Release bdr, FlatBufferBuilder0)
  else b ← aligned_copy r bdr; Ready (b, bdr).

(** A sequence of calls, each with the result of its allocation. *)
Fixpoint hybrids (ts : list (Z * native_type)) (bdr : FlatBufferBuilder) : outcome (list (list byte)) :=
  match ts with
  | [] => Ready []
  | (r, t) :: ts => '(b, bdr) ← hybrid r t bdr; bs ← hybrids ts bdr; Ready (b :: bs)
  end.

Lemma packed_cleared bdr t : Release (packed (Clear bdr) t) = native_table_as_buffer t.
Proof.
  unfold packed, native_table_as_buffer. destruct (Pack_same _ _ t (Clear_same bdr)) as [E S].
  destruct (Pack (Clear bdr) t) as [root b], (Pack FlatBufferBuilder0 t) as [root' b']. simpl in E, S. subst root'.
  by rewrite S.
Qed.

Lemma packed_finished bdr t : exists b root, packed bdr t = Finish b root.
Proof. unfold packed. destruct (Pack bdr t) as [root b]. eauto. Qed.

Lemma hybrid_bytes r t bdr :
  (r = 0 \/ 2048 < blen (native_table_as_buffer t)) ->
  exists bdr', hybrid r t bdr = Ready (native_table_as_buffer t, bdr').
Proof.
  intros R. unfold hybrid. pose proof (packed_cleared bdr t) as P.
  destruct (packed_finished (Clear bdr) t) as (b & root & E). rewrite E in *.
  rewrite GetSize_bytes, P. case_goal; bool_to_prop; [by eexists|].
  destruct R as [->|R]; [|lia]. unfold aligned_copy, DLOG_THROW_IF. simpl. rewrite GetBufferPointer_bytes, P.
  destruct NDEBUG; simpl; by eexists.
Qed.

(** The builder that is kept and reused, and replaced after a large table, gives
    for every sequence of tables the bytes of a fresh builder; an allocation that
    fails is reported only for a table that is small. *)
Theorem hybrids_same ts bdr :
  Forall (fun '(r, t) => r = 0 \/ 2048 < blen (native_table_as_buffer t)) ts ->
  hybrids ts bdr = Ready (map (fun '(_, t) => native_table_as_buffer t) ts).
Proof.
  intros F. revert bdr. induction F as [|[r t] ts R _ IH]; intros bdr; [done|]. cbn [hybrids map].
  destruct (hybrid_bytes r t bdr R) as [bdr' ->]. simpl. by rewrite IH.
Qed.
End builders.

(** ** Hashing *)

(** The value that [BM_hash64] computes is the checksum of a payload of [n] bytes x. *)
Definition BM_hash64 `{Xxhash} (n : Z) : Z :=
  Z.land (2 ^ 32 - 1) (XXH64 (replicate (Z.to_nat n) Byte.x78) 0).

Lemma BM_hash64_is_checksum `{Xxhash} n :
  0 <= n -> BM_hash64 n = rpc_checksum_payload (replicate (Z.to_nat n) Byte.x78) n.
Proof. intros N. unfold BM_hash64, rpc_checksum_payload. rewrite take_replicate. by rewrite Nat.min_id. Qed.

(** ** Random strings *)

Section random_tests.
Context `{Rng}.

(** [random_alphanum]: strings of every length below [n], all of whose characters
    must be alphanumeric. *)
Fixpoint random_alphanum (n : nat) (i : Z) (r : rng) : outcome bool :=
  match n with
  | O => Ready true
  | S n => '(x, r) ← next_alphanum i r; rest ← random_alphanum n (i + 1) r; Ready (str_all isalnum x && rest)
  end.
Definition random_alphanum_test (r : rng) : outcome bool := random_alphanum 1000 0 r.

(** The test passes for every seed. *)
Theorem random_alphanum_passes r : random_alphanum_test r = Ready true.
Proof.
  unfold random_alphanum_test. generalize 0 as i. generalize 1000%nat as n. intros n. revert r.
  induction n as [|n IH]; intros r i; [done|]. cbn [random_alphanum]. unfold next_alphanum.
  destruct (randstr_total isalnum kDictAlphanum (Z.of_nat (String.length kDictAlphanum)) (Z.to_nat i) r)
    as (s & r' & -> & _ & A); [done|done|done|done|]. simpl. rewrite IH. simpl. by rewrite A.
Qed.
End random_tests.

(** ** Histograms *)

Section histogram_tests.
Context `{Build, Hdr, Rng}.

(** [histogram_tests.cc]: [n] corrected values below the maximum. *)
Definition kMaxValue : Z := 10240.
Fixpoint record_random (n : nat) (r : rng) (h : histogram) : histogram :=
  match n with
  | O => h
  | S n => let '(x, r) := next r in record_random n r (record_corrected (x mod kMaxValue) kMaxValue h)
  end.
Definition histogram_simple (r : rng) : outcome histogram :=
  h ← histogram_make kMaxValue; Ready (record_random 1000 r h).

(** histograms/main.cc: the squares of an [unsigned] that counts to a thousand. *)
Definition record_squares (h : histogram) : histogram :=
  fold_left (fun h i => record (u32 (i * i)) h) (Z.of_nat <$> seq 0 1000) h.

(** [record] of values one after the other: the counters of the samples. *)
Lemma record_list_counters (l : list Z) h :
  fits_u 64 (sample_count h) -> fits_u 64 (sample_sum h) ->
  let h' := fold_left (fun h v => record v h) l h in
  sample_count h' = u64 (sample_count h + blen l) /\ sample_sum h' = u64 (sample_sum h + foldr Z.add 0 l).
Proof.
  revert h. induction l as [|v l IH]; intros h Fc Fs; simpl.
  - unfold blen. simpl. rewrite !Z.add_0_r, !wrap_u_small by done. done.
  - destruct (IH (record v h)) as [C S]; [apply wrap_u_fits; lia|apply wrap_u_fits; lia|]. simpl in C, S.
    rewrite C, S, !wrap_u_add_l. unfold blen. simpl. split; f_equal; lia.
Qed.

Lemma squares_counters k h :
  histogram_make k = Ready h ->
  sample_count (record_squares h) = 1000 /\ sample_sum (record_squares h) = 332833500.
Proof.
  unfold histogram_make. intros E. destruct (hdr_init 1 k 3) as [x|]; [injection E as <-|by destruct NDEBUG].
  assert (forall l h, fold_left (fun h i => record (u32 (i * i)) h) l h =
    fold_left (fun h v => record v h) ((fun i => u32 (i * i)) <$> l) h) as Sq.
  { clear. induction l as [|i l IH]; intros h; simpl; [done|]. apply IH. }
  unfold record_squares. rewrite Sq.
  destruct (record_list_counters ((fun i => u32 (i * i)) <$> (Z.of_nat <$> seq 0 1000)) (mk_histogram _ x 0 0)) as [-> ->];
    [split; done..|]. split; vm_refl.
Qed.

(** ** The generator of synthetic histograms *)

Record histgen_server_args := mk_histgen_args {
  hg_ip : string; hg_port : Z; hg_min_val : Z; hg_max_val : Z; hg_num_samples : Z
}.
(** [cli_opts]: the defaults. *)
Definition histgen_args0 : histgen_server_args :=
  mk_histgen_args "127.0.0.1" 20777 0 kDefaultHistogramMaxValue 10000.

(** [args.ip.empty() ? ipv4_addr{port} : ipv4_addr{ip, port}]; [None]: all addresses. *)
Definition histgen_address (a : histgen_server_args) : option string * Z :=
  (if String.eqb (hg_ip a) EmptyString then None else Some (hg_ip a), hg_port a).

(** [boost::counting_iterator<int> to(args.num_samples)]: a count that does not
    fit an [int] is never reached without overflow. *)
Definition histgen_iterations (a : histgen_server_args) : outcome Z :=
  if s32 (hg_num_samples a) <? 0 then Undefined else Ready (s32 (hg_num_samples a)).

(** The body of [do_for_each]: the samples are drawn from [min_val .. max_val]. *)
Fixpoint record_samples (n : nat) (lo hi : Z) (r : rng) (h : histogram) : histogram :=
  match n with
  | O => h
  | S n => let '(x, r) := draw lo hi r in record_samples n lo hi r (record x h)
  end.

(** [serve], up to listening; what is listened on is in the result.  The lambdas
    refer to the generator and the distribution of the frame of [serve]: when the
    loop is preempted, it goes on after [serve] has returned.  A distribution
    whose bounds are in the wrong order is undefined too. *)
Definition histgen_serve (preempted : bool) (a : histgen_server_args) (r : rng) (h : histogram) :
    outcome (histogram * (option string * Z)) :=
  if hg_max_val a <? hg_min_val a then Undefined
  else
    n ← histgen_iterations a;
    if preempted && (1 <? n) then Undefined
    else Ready (record_samples (Z.to_nat n) (hg_min_val a) (hg_max_val a) r h, histgen_address a).

Definition histgen_run (preempted : bool) (a : histgen_server_args) (r : rng) :
    outcome (metrics_histogram * (option string * Z)) :=
  h ← histogram_make kDefaultHistogramMaxValue;
  '(h, addr) ← histgen_serve preempted a r h;
  Ready (seastar_histogram_logform h, addr).

Lemma record_samples_count n lo hi r h :
  fits_u 64 (sample_count h) -> sample_count (record_samples n lo hi r h) = u64 (sample_count h + Z.of_nat n).
Proof.
  revert r h. induction n as [|n IH]; intros r h F; cbn [record_samples].
  - rewrite Z.add_0_r, wrap_u_small; done.
  - destruct (draw lo hi r) as [x r1]. rewrite IH by (apply wrap_u_fits; lia). simpl.
    rewrite wrap_u_add_l. f_equal. lia.
Qed.

(** A generator that was not interrupted exports as many samples as it was asked
    for, whatever the seed. *)
Lemma histgen_exports a r m addr :
  0 <= hg_num_samples a < 2 ^ 31 -> histgen_run false a r = Ready (m, addr) ->
  m_sample_count m = hg_num_samples a /\ addr = histgen_address a.
Proof.
  intros N E. unfold histgen_run, histogram_make in E. destruct (hdr_init 1 _ 3) as [x|]; [|by destruct NDEBUG].
  simpl in E. unfold histgen_serve, histgen_iterations in E. case_hyp E; [done|].
  rewrite wrap_s_small in E by (unfold fits_s; lia). case_hyp E; [done|]. simpl in E.
  unfold seastar_histogram_logform in E. destruct (fill_buckets _ _) as [l it]. injection E as <- <-. simpl.
  split; [|done]. rewrite record_samples_count by (simpl; unfold fits_u; lia). simpl.
  rewrite wrap_u_small; unfold fits_u; lia.
Qed.
End histogram_tests.

(** ** An example *)
Module BenchDemo.
Import Demo.

#[local, refine] Instance demo_reuse : FlatReuse := {|
  Clear := fun _ => ([] : @FlatBufferBuilder demo_table); GetSize := blen; GetBufferPointer := fun b => b; same := eq
|}.
Proof. all: try done; by intros b b' t <-. Defined.

(** A small table and one of 2049 bytes, through the same builder. *)
Example hybrid_small_large :
  hybrids [(0, [Byte.x2a]); (ENOMEM, replicate (Z.to_nat 2049) Byte.x2b); (0, [Byte.x2c])] [Byte.x00] =
    Ready [[Byte.x2a]; replicate (Z.to_nat 2049) Byte.x2b; [Byte.x2c]].
Proof.
  rewrite hybrids_same; [done|]. rewrite !Forall_cons, Forall_nil. split_and!; [by left| |by left|done].
  right. apply Z.ltb_lt. vm_refl.
Qed.

(** A generator that counts. *)
#[local, refine] Instance counting_rng : Rng := {|
  rng := Z; draw := fun lo hi r => (lo + r mod (hi - lo + 1), r + 1)
|}.
Proof. intros lo hi r L. simpl. pose proof (Z.mod_pos_bound r (hi - lo + 1) ltac:(lia)). lia. Defined.

Example next_alphanum_counts : next_alphanum 5 0 = Ready ("abcde"%string, 5).
Proof. vm_refl. Qed.
End BenchDemo.
