(* ===== verification/ServerAdmin.v ===== *)
(** * The server as it is administered

    The parts of src/src/core/rpc_server.cc that surround the state machine of
    Server.v: the arguments and the listener, the HTTP server for metrics, the
    order of [stop], the metrics group, the filters as stages and the
    [operator<<]; and the socket options of rpc_server_connection.h. *)

From Stdlib Require Import ZArith Lia String.
From stdpp Require Import base gmap list numbers strings relations.
From S2P Require Import Prelude Header Seastar Letter Connection RecvContext Wire Filters Router Server ServerInv Printer Schema Doubles Text.

(** ** Arguments *)

Definition rpc_server_flags_disable_http_server : Z := 1.

(** [struct rpc_server_args], all of it; [core_args] are the fields that the
    state machine uses. *)
Record server_args := mk_server_args {
  ip : string;
  rpc_port : Z;
  http_port : Z;
  flags : Z;
  has_credentials : bool;
  core_args : rpc_server_args
}.
Definition server_args0 : server_args := mk_server_args EmptyString 11225 33140 0 false rpc_server_args0.

(** [seastar::ipv4_addr]. *)
Inductive ipv4_addr := any_addr (port : Z) | ip_addr (ip : string) (port : Z).

#[global] Instance ipv4_addr_eq_dec : EqDecision ipv4_addr.
Proof. solve_decision. Defined.

Definition listen_address (ip : string) (port : Z) : ipv4_addr :=
  if String.eqb ip EmptyString then any_addr port else ip_addr ip port.

(** [struct rpc_server_connection_options]; keepalive is idle seconds, interval
    and probes. *)
Record connection_options := mk_conn_options { nodelay : bool; enable_keepalive : bool; keepalive : Z * Z * Z }.
Definition connection_options_make (nodelay keepalive : bool) : connection_options :=
  mk_conn_options nodelay keepalive (5, 75, 9).
(** The socket options that the constructor of a connection sets. *)
Record socket_options := mk_socket_options { so_nodelay : bool; so_keepalive : option (Z * Z * Z) }.
Definition set_socket_options (opts : connection_options) : socket_options :=
  mk_socket_options (nodelay opts) (if enable_keepalive opts then Some (keepalive opts) else None).

(** ** Metrics *)

(** The counters of the group "smf::rpc_server". *)
Definition metrics_group : list (string * (rpc_server_stats -> Z)) :=
  [("active_connections", active_connections);
   ("total_connections", total_connections);
   ("incoming_bytes", in_bytes);
   ("outgoing_bytes", out_bytes);
   ("bad_requests", bad_requests);
   ("no_route_requests", no_route_requests);
   ("completed_requests", completed_requests);
   ("too_large_requests", too_large_requests)].

Section admin.
Context `{Build, GeneratedHeader, Xxhash, Seastar}.

Variable cfg : server_config.
Variable args : server_args.

(** ** Filters as stages *)

Definition apply_incoming_filters (ctx : rpc_recv_context) : outcome rpc_recv_context :=
  rpc_filter_apply (in_filters cfg) ctx.
Definition apply_outgoing_filters (e : rpc_envelope) : outcome rpc_envelope := rpc_filter_apply (out_filters cfg) e.
(** An execution stage runs its function. *)
Definition stage_apply_incoming_filters (ctx : rpc_recv_context) : outcome rpc_recv_context := apply_incoming_filters ctx.
Definition stage_apply_outgoing_filters (e : rpc_envelope) : outcome rpc_envelope := apply_outgoing_filters e.

(** ** Starting and stopping *)

Record listener := mk_listener { l_addr : ipv4_addr; l_tls : bool; reuse_address : bool }.

(** The HTTP server: adding its routes, listening, failed, stopped. *)
Inductive http_state := http_routes | http_listening (a : ipv4_addr) | http_failed | http_stopped.

(** Where [stop] is: not called, waiting for [stopped_], for the gate, done. *)
Inductive stop_stage := st_none | st_accept | st_gate | st_done.

#[global] Instance stop_stage_eq_dec : EqDecision stop_stage.
Proof. solve_decision. Defined.

(** [loops] are the accept loops that run, [stopped_] whether its promise has a value. *)
Record managed := mk_managed {
  core : server;
  listener_ : option listener;
  admin_ : option http_state;
  loops : Z;
  stopped_ : bool;
  stop_at : stop_stage;
  m_undefined : bool
}.
Implicit Types m : managed.

Definition managed_make : managed :=
  mk_managed (rpc_server_make (core_args args)) None None 0 false st_none false.

Definition undefined m : managed := mk_managed (core m) (listener_ m) (admin_ m) (loops m) (stopped_ m) (stop_at m) true.

(** [start]. *)
Definition managed_start m : managed :=
  let admin := if Z.land (flags args) rpc_server_flags_disable_http_server =? 0 then Some http_routes else admin_ m in
  let l := mk_listener (listen_address (ip args) (rpc_port args)) (has_credentials args) true in
  mk_managed (server_start (core m)) (Some l) admin (loops m + 1) (stopped_ m) (stop_at m) (m_undefined m).

(** The background future of the HTTP server: the routes are there and it
    listens, or one of the two failed. *)
Definition http_started (ok : bool) m : option managed :=
  match admin_ m with
  | Some http_routes =>
      Some (mk_managed (core m) (listener_ m)
        (Some (if ok then http_listening (listen_address (ip args) (http_port args)) else http_failed))
        (loops m) (stopped_ m) (stop_at m) (m_undefined m))
  | _ => None
  end.

(** [accept] throws and the loop ends: the promise gets its value, a second time
    only if there was a second loop. *)
Definition accept_ended m : option managed :=
  if 0 <? loops m then
    if stopped_ m then Some (undefined m)
    else Some (mk_managed (core m) (listener_ m) (admin_ m) (loops m - 1) true (stop_at m) (m_undefined m))
  else None.

(** [stop] up to the future of [stopped_]: the listener is null before [start], and
    a future is taken from the promise once. *)
Definition managed_stop m : managed :=
  match listener_ m, stop_at m with
  | Some _, st_none => mk_managed (core m) (listener_ m) (admin_ m) (loops m) (stopped_ m) st_accept (m_undefined m)
  | _, _ => undefined m
  end.

(** The connections are shut down and the gate is closed. *)
Definition stop_connections m : option managed :=
  if stopped_ m && bool_decide (stop_at m = st_accept) then
    Some (mk_managed (server_stop (core m)) (listener_ m) (admin_ m) (loops m) (stopped_ m) st_gate (m_undefined m))
  else None.

(** Nothing is left in the gate: the HTTP server is stopped, whatever it answers. *)
Definition stop_admin m : option managed :=
  if bool_decide (stop_at m = st_gate) && (gate_count (reply_gate_ (core m)) =? 0) then
    Some (mk_managed (core m) (listener_ m) (match admin_ m with Some _ => Some http_stopped | None => None end)
      (loops m) (stopped_ m) st_done (m_undefined m))
  else None.

Inductive managed_event :=
| me_start
| me_core (ev : event)
| me_http (ok : bool)
| me_accept_ended
| me_stop
| me_stop_connections
| me_stop_admin.

(** The events of the state machine other than [start] and [stop]. *)
Definition internal (ev : event) : bool := match ev with ev_start | ev_stop => false | _ => true end.

Definition managed_exec (ev : managed_event) m : option managed :=
  match ev with
  | me_start => Some (managed_start m)
  | me_core ev =>
      if internal ev then
        match exec cfg ev (core m) with
        | Some sv => Some (mk_managed sv (listener_ m) (admin_ m) (loops m) (stopped_ m) (stop_at m) (m_undefined m))
        | None => None
        end
      else None
  | me_http ok => http_started ok m
  | me_accept_ended => accept_ended m
  | me_stop => Some (managed_stop m)
  | me_stop_connections => stop_connections m
  | me_stop_admin => stop_admin m
  end.

Definition managed_step m m' : Prop := exists ev, managed_exec ev m = Some m'.
Definition managed_reachable m : Prop := rtc managed_step managed_make m.

(** A server that is started once: [start] sets [listener_], and is called only
    while it is null. *)
Definition once_step m m' : Prop :=
  exists ev, (ev = me_start -> listener_ m = None) /\ managed_exec ev m = Some m'.
Definition once_reachable m : Prop := rtc once_step managed_make m.

(** ** What is printed *)

Definition put_server general (print : rpc_service -> std_ostream -> std_ostream) m (o : std_ostream) : std_ostream :=
  let o := put (ip args) (put "rpc_server{args.ip=" o) in
  let o := put (to_string (flags args)) (put ", args.flags=" o) in
  let o := put (to_string (rpc_port args)) (put ", args.rpc_port=" o) in
  let o := put (to_string (http_port args)) (put ", args.http_port=" o) in
  let o := put_router print (routes cfg) (put ", rpc_routes=" o) in
  let o := put (if has_credentials args then "yes" else "no") (put ", has_tls_credentials: " o) in
  let o := put_limits general (limits_ (core m)) (put ", limits=" o) in
  let o := put_limits general (limits_ (core m)) (put ", limits=" o) in
  let o := put (to_string (blen (in_filters cfg))) (put ", incoming_filters=" o) in
  put "}" (put (to_string (blen (out_filters cfg))) (put ", outgoing_filters=" o)).

(** ** The state machine inside *)

(** Every state that administration leads to has a server of Server.v inside, so
    that what is proved there holds. *)
Lemma managed_core m : managed_reachable m -> reachable cfg (core_args args) (core m).
Proof.
  revert m. apply (rtc_ind_r (fun m => reachable cfg (core_args args) (core m))); [apply rtc_refl|].
  intros m m' _ [ev E] IH. destruct ev as [|ev|ok| | | |]; simpl in E.
  - injection E as <-. eapply rtc_r; [exact IH|]. by exists ev_start.
  - destruct (internal ev); [|done]. destruct (exec cfg ev (core m)) as [sv|] eqn:X; [|done].
    injection E as <-. eapply rtc_r; [exact IH|]. by exists ev.
  - unfold http_started in E. by repeat case_hyp E; simplify_eq.
  - unfold accept_ended in E. by repeat case_hyp E; simplify_eq.
  - injection E as <-. unfold managed_stop. by repeat case_goal.
  - unfold stop_connections in E. case_hyp E; [|done]. injection E as <-.
    eapply rtc_r; [exact IH|]. by exists ev_stop.
  - unfold stop_admin in E. by repeat case_hyp E; simplify_eq.
Qed.

Lemma reachable_step sv ev sv' :
  reachable cfg (core_args args) sv -> exec cfg ev sv = Some sv' -> reachable cfg (core_args args) sv'.
Proof. intros R E. eapply rtc_r; [exact R|]. by exists ev. Qed.

(** A closed gate stays closed and no request is added, nor by [start]. *)
Lemma closed_gate_step sv ev sv' :
  reachable cfg (core_args args) sv -> gate_is_closed (reply_gate_ sv) = true -> exec cfg ev sv = Some sv' ->
  gate_is_closed (reply_gate_ sv') = true /\ dom (dispatches sv') ⊆ dom (dispatches sv).
Proof. intros R C E. by apply (proj2 (reply_gate_counts_requests cfg (core_args args) sv R) C ev). Qed.

(** What [stop] has achieved so far. *)
Record stop_inv m : Prop := {
  si_gate : stop_at m = st_gate \/ stop_at m = st_done -> stopped_ m = true /\ gate_is_closed (reply_gate_ (core m)) = true;
  si_done : stop_at m = st_done -> dispatches (core m) = ∅;
  si_admin : stop_at m = st_done -> loops m = 0 -> admin_ m = None \/ admin_ m = Some http_stopped;
  si_loops : 0 <= loops m
}.

Lemma stop_inv_frame m m' :
  stop_inv m -> core m' = core m -> stop_at m' = stop_at m -> stopped_ m' = stopped_ m \/ stopped_ m' = true ->
  (stop_at m = st_done -> loops m' = 0 -> loops m = 0 /\ admin_ m' = admin_ m) -> 0 <= loops m' -> stop_inv m'.
Proof.
  intros [G D A L] C S St Ad Lp. split; rewrite ?C, ?S; [|done| |done].
  - intros X. destruct (G X) as [Gs Gc]. split; [destruct St as [->| ->]; done|done].
  - intros X Z. destruct (Ad X Z) as [Lz ->]. by apply A.
Qed.

Lemma stop_inv_core m sv ev :
  reachable cfg (core_args args) (core m) -> exec cfg ev (core m) = Some sv -> stop_inv m ->
  stop_inv (mk_managed sv (listener_ m) (admin_ m) (loops m) (stopped_ m) (stop_at m) (m_undefined m)).
Proof.
  intros R E [G D A L]. split; simpl; [| |done|done].
  - intros X. destruct (G X) as [Gs Gc]. split; [done|]. by apply (closed_gate_step _ _ _ R Gc E).
  - intros X. pose proof (proj2 (G (or_intror X))) as Gc. pose proof (proj2 (closed_gate_step _ _ _ R Gc E)) as S.
    rewrite (D X), dom_empty_L in S. apply dom_empty_inv_L. set_solver.
Qed.

Lemma stop_inv_step ev m m' :
  managed_reachable m -> managed_exec ev m = Some m' -> stop_inv m -> stop_inv m'.
Proof.
  intros R E I. pose proof (managed_core m R) as Rc. destruct ev as [|ev|ok| | | |]; simpl in E.
  - injection E as <-. apply (stop_inv_core _ _ ev_start Rc eq_refl) in I.
    apply (stop_inv_frame _ _ I); simpl; auto; pose proof (si_loops _ I); simpl in *; lia.
  - destruct (internal ev); [|done]. destruct (exec cfg ev (core m)) as [sv|] eqn:X; [|done].
    injection E as <-. by apply (stop_inv_core _ _ ev).
  - unfold http_started in E. destruct (admin_ m) as [[]|] eqn:Ad; try done. injection E as <-.
    apply (stop_inv_frame _ _ I); simpl; auto; [|apply I]. intros X Z. destruct (si_admin _ I X Z); congruence.
  - unfold accept_ended in E. case_hyp E; [|done]. bool_to_prop. destruct (stopped_ m) eqn:St; injection E as <-.
    + apply (stop_inv_frame _ _ I); simpl; auto. apply I.
    + apply (stop_inv_frame _ _ I); simpl; auto; [|lia]. intros X _.
      destruct (si_gate _ I (or_intror X)). congruence.
  - injection E as <-. unfold managed_stop. destruct (listener_ m), (stop_at m) eqn:S;
      try (apply (stop_inv_frame _ _ I); simpl; rewrite ?S; auto; apply I).
    split; simpl; [by intros [|]|done|done|apply I].
  - unfold stop_connections in E. case_hyp E; [|done]. bool_to_prop. injection E as <-.
    split; simpl; [|done|done|apply I]. intros _. split; [done|]. apply gate_close_spec.
  - unfold stop_admin in E. case_hyp E; [|done]. bool_to_prop.
    assert (stop_at m = st_gate) as S by (by eapply bool_decide_eq_true_1). injection E as <-.
    split; simpl; [intros _; by apply (si_gate _ I); left| |intros _ _; destruct (admin_ m); auto|apply I].
    intros _. pose proof (proj1 (reply_gate_counts_requests _ _ _ Rc)). apply map_size_empty_inv. lia.
Qed.

(** The accept loop of a server that is started once: it runs until it gives
    [stopped_] its value. *)
Definition one_loop m : Prop :=
  match listener_ m with
  | Some _ => loops m = if stopped_ m then 0 else 1
  | None => loops m = 0 /\ stopped_ m = false
  end.

Lemma one_loop_step m m' : once_step m m' -> one_loop m -> one_loop m'.
Proof.
  unfold one_loop. intros (ev & Os & E) I. destruct ev as [|ev|ok| | | |]; simpl in E;
    unfold http_started, accept_ended, managed_stop, stop_connections, stop_admin in E;
    try (by repeat case_hyp E; simplify_eq; simpl in *; simplify_option_eq).
  - injection E as <-. simpl. rewrite (Os eq_refl) in I. destruct I as [-> ->]. done.
  - case_hyp E; [|done]. bool_to_prop. destruct (stopped_ m) eqn:St, (listener_ m); simplify_eq; simpl in *; lia.
Qed.

Lemma once_one_loop m : once_reachable m -> one_loop m.
Proof. apply (rtc_ind_r one_loop); [done|]. intros n n' _ S I. by eapply one_loop_step. Qed.

(** C19: the reply gate counts exactly the requests in flight.  When the future of
    [stop] has resolved, an accept loop has ended, no request is in flight, the
    gate is closed, and nothing that happens afterwards starts a request; and if
    the server was started only once, no accept loop is running, and the HTTP
    server is stopped or was never started. *)
Theorem stop_is_complete m :
  managed_reachable m ->
  gate_count (reply_gate_ (core m)) = Z.of_nat (size (dispatches (core m))) /\
  (stop_at m = st_done ->
   stopped_ m = true /\ dispatches (core m) = ∅ /\ gate_is_closed (reply_gate_ (core m)) = true /\
   (once_reachable m -> loops m = 0 /\ (admin_ m = None \/ admin_ m = Some http_stopped)) /\
   forall m', rtc managed_step m m' -> dispatches (core m') = ∅ /\ gate_is_closed (reply_gate_ (core m')) = true).
Proof.
  assert (I : forall n, managed_reachable n -> stop_inv n).
  { apply (rtc_ind_r stop_inv); [split; simpl; (done || by intros [|])|].
    intros n n' R [ev E] IH. by eapply stop_inv_step. }
  intros R. split; [apply (reply_gate_counts_requests _ _ _ (managed_core m R))|]. intros S.
  pose proof (I m R) as Im. destruct (si_gate _ Im (or_intror S)) as [St Gc].
  split_and!; [done|by apply (si_done _ Im)|done| |].
  { intros Ro. pose proof (once_one_loop m Ro) as Lo. unfold one_loop in Lo. rewrite St in Lo.
    assert (loops m = 0) as L by (by destruct (listener_ m) as [|]; [|destruct Lo]).
    split; [done|by apply (si_admin _ Im)]. }
  intros m' Rm'.
  assert (stop_at m' = st_done) as S'.
  { clear -Rm' S. induction Rm' as [|n n' n'' [ev E] _ IH]; [done|]. apply IH. clear IH.
    destruct ev; simpl in E; unfold http_started, accept_ended, stop_connections, stop_admin, managed_stop in E;
      repeat case_hyp E; simplify_eq; simpl; try done; bool_to_prop;
      match goal with X : bool_decide _ = true |- _ => apply bool_decide_eq_true_1 in X; congruence end. }
  assert (Im' : stop_inv m') by (apply I; unfold managed_reachable in *; by etrans). split; [by apply (si_done _ Im')|].
  by apply (si_gate _ Im' (or_intror S')).
Qed.
End admin.

(** ** A metric that is never counted *)

Section counters.
Context `{Build, GeneratedHeader, Xxhash, Seastar}.
Variable cfg : server_config.
Implicit Types sv : server.

Definition too_large sv : Z := too_large_requests (stats_ sv).

Lemma too_large_cleanup id sv : too_large (cleanup_dispatch_rpc id sv) = too_large sv.
Proof. unfold cleanup_dispatch_rpc, too_large. by repeat case_goal. Qed.

Lemma too_large_exception id sv sv1 : too_large sv1 = too_large sv -> too_large (session_exception id sv1) = too_large sv.
Proof.
  intros <-. unfold session_exception.
  change (too_large (set_session id s_done ?x)) with (too_large x). rewrite too_large_cleanup.
  exact (too_large_cleanup id sv1).
Qed.

Lemma too_large_payload id hdr c sv sv' : session_payload cfg id hdr c sv = Some sv' -> too_large sv' = too_large sv.
Proof.
  intros P. unfold session_payload in P.
  destruct (read_exactly _ _) as [[b i]|]; [|done].
  destruct (parse_payload_resume hdr b i (conn c)) as [[r c']|e|]; [| |done].
  - destruct r as [ctx|]; simpl in P; [|by injection P as <-].
    destruct (gate_enter (reply_gate_ sv)) as [g|e|] eqn:G; simpl in P; [| |done].
    + unfold do_dispatch_rpc in P. by repeat case_hyp P; simplify_eq.
    + injection P as <-. by apply too_large_exception.
  - injection P as <-. by apply too_large_exception.
Qed.

Lemma too_large_step ev sv sv' : exec cfg ev sv = Some sv' -> too_large sv' = too_large sv.
Proof.
  intros E. destruct ev; simpl in E; try (by repeat case_hyp E; simplify_eq).
  - unfold server_accept in E. by repeat case_hyp E; simplify_eq.
  - destruct (conns sv !! id) as [c|] eqn:C; [|done].
    destruct (sessions sv !! id) as [[| |hdr|hdr|]|] eqn:S; try done.
    + unfold session_loop in E. repeat case_hyp E; simplify_eq;
        first [by apply too_large_exception | by apply (too_large_cleanup id) | done].
    + unfold session_header in E. by repeat case_hyp E; simplify_eq.
    + unfold session_grant in E. by repeat case_hyp E; simplify_eq.
    + by eapply too_large_payload.
  - repeat case_hyp E; simplify_eq; by apply too_large_exception.
  - repeat case_hyp E; simplify_eq. unfold dispatch_step in E. pose proof (too_large_cleanup (d_conn d) sv) as Cl.
    repeat case_hyp E; simplify_eq; simpl; first [done | exact Cl].
  - unfold server_destroy in E. by repeat case_hyp E; simplify_eq.
Qed.

(** The metric "too_large_requests" is zero in every state of every server:
    nothing increments it. *)
Theorem too_large_never_counted args sv : reachable cfg args sv -> too_large sv = 0.
Proof.
  apply (reachable_inv cfg args (fun sv => too_large sv = 0)); [done|].
  intros ev s s' _ I E. by rewrite (too_large_step _ _ _ E).
Qed.
End counters.

(** ** An administered server *)
Module AdminWitness.
Import ServerDemo Demo.

Definition w_args : server_args := mk_server_args "10.0.0.1" 11225 33140 0 false (mk_args 60000 1000).

Fixpoint managed_run (evs : list managed_event) (m : managed) : option managed :=
  match evs with
  | [] => Some m
  | ev :: evs => match managed_exec demo_config w_args ev m with Some m => managed_run evs m | None => None end
  end.

Fixpoint once_run (evs : list managed_event) (m : managed) : option managed :=
  match evs with
  | [] => Some m
  | ev :: evs =>
      match ev, listener_ m with
      | me_start, Some _ => None
      | _, _ => match managed_exec demo_config w_args ev m with Some m => once_run evs m | None => None end
      end
  end.

Lemma once_run_rtc evs m m' :
  once_run evs m = Some m' -> managed_run evs m = Some m' /\ rtc (once_step demo_config w_args) m m'.
Proof.
  revert m. induction evs as [|ev evs IH]; intros m R; [by injection R as <-|]. cbn [once_run managed_run] in R |- *.
  assert ((ev = me_start -> listener_ m = None) /\
    match managed_exec demo_config w_args ev m with Some m => once_run evs m | None => None end = Some m') as [Os R'].
  { destruct ev; try (by split). by destruct (listener_ m). }
  destruct (managed_exec demo_config w_args ev m) as [m1|] eqn:E; [|done].
  destruct (IH m1 R') as [Rm Ro]. split; [exact Rm|]. eapply rtc_l; [by exists ev|exact Ro].
Qed.

Lemma managed_run_rtc evs m m' : managed_run evs m = Some m' -> rtc (managed_step demo_config w_args) m m'.
Proof.
  revert m. induction evs as [|ev evs IH]; simpl; intros m R; [by injection R as <-|].
  destruct (managed_exec demo_config w_args ev m) as [m1|] eqn:E; [|done]. eapply rtc_l; [by exists ev|by apply IH].
Qed.

(** Started, with the HTTP server listening; a connection; stopped. *)
Definition w_events : list managed_event :=
  [me_start; me_http true; me_core (demo_accept [] false); me_stop; me_accept_ended; me_stop_connections; me_stop_admin].
Definition w_state : managed := default (managed_make w_args) (managed_run w_events (managed_make w_args)).

Lemma w_once : match once_run w_events (managed_make w_args) with Some _ => true | None => false end = true ->
  once_reachable demo_config w_args w_state.
Proof.
  unfold w_state. intros R. destruct (once_run w_events (managed_make w_args)) as [m|] eqn:E; [|done].
  destruct (once_run_rtc _ _ _ E) as [-> Ro]. exact Ro.
Qed.

Lemma stop_is_complete_witness : stopped_ w_state = true /\ loops w_state = 0 /\ admin_ w_state = Some http_stopped.
Proof.
  assert (R : managed_reachable demo_config w_args w_state).
  { apply (managed_run_rtc w_events). apply ran_default. vm_refl. }
  destruct (proj2 (stop_is_complete demo_config w_args w_state R) ltac:(vm_refl)) as (S & _ & _ & On & _).
  split; [exact S|]. split; [|vm_refl]. apply On. apply w_once. vm_refl.
Defined.

(** [stop] before [start] uses a null listener. *)
Example stop_before_start : m_undefined (managed_stop (managed_make w_args)) = true.
Proof. vm_refl. Qed.

Example listen_demo :
  listener_ w_state = Some (mk_listener (ip_addr "10.0.0.1" 11225) false true) /\
  set_socket_options (connection_options_make true true) = mk_socket_options true (Some (5, 75, 9)).
Proof. split; vm_refl. Qed.
End AdminWitness.
