(* ===== verification/ServerMeasure.v ===== *)
(** * Latency of the requests

    The histogram [hist_] of src/src/core/rpc_server.cc on top of the state
    machine of Server.v: [dispatch_rpc] takes a measure for every request that
    enters the reply gate, and the measure is recorded when the continuations of
    the request are gone. *)

From Stdlib Require Import ZArith Lia.
From stdpp Require Import base gmap list numbers strings relations.
From S2P Require Import Prelude Header Seastar Letter Connection RecvContext Wire Filters Router Server ServerInv Histogram Report.

(** [requests_started] is history: the requests that were ever dispatched. *)
Record timed `{Seastar, Hdr} := mk_timed {
  tserver : server;
  thist : histogram;
  tmeasures : gmap Z histogram_measure;
  requests_started : Z
}.

Section timed.
Context `{Build, GeneratedHeader, Xxhash, Seastar, Hdr}.
Variable cfg : server_config.
Implicit Types t : timed.

(** The measures of the dispatch fibers that an event adds begin [now], the
    measures of those that it ends are destroyed. *)
Definition begin_measures (now : Z) (sv : server) (ms : gmap Z histogram_measure) : gmap Z histogram_measure :=
  map_imap (fun k _ => Some (default (auto_measure now) (ms !! k))) (dispatches sv).
Definition ended_measures (sv : server) (ms : gmap Z histogram_measure) : list (Z * histogram_measure) :=
  map_to_list (filter (fun kv => dispatches sv !! kv.1 = None) ms).
Definition record_measures (now : Z) (l : list (Z * histogram_measure)) (h : histogram) : histogram :=
  foldr (fun kv h => histogram_measure_destroy kv.2 now h) h l.

Definition timed_exec (ev : event) (now : Z) t : option timed :=
  sv ← exec cfg ev (tserver t);
  Some (mk_timed _ _ sv (record_measures now (ended_measures sv (tmeasures t)) (thist t))
    (begin_measures now sv (tmeasures t))
    (requests_started t + Z.of_nat (size (dom (dispatches sv) ∖ dom (dispatches (tserver t)))))).

Definition timed_make (args : rpc_server_args) (h : histogram) : timed := mk_timed _ _ (rpc_server_make args) h ∅ 0.
Definition timed_step t t' : Prop := exists ev now, timed_exec ev now t = Some t'.
Definition timed_reachable (args : rpc_server_args) (h : histogram) t : Prop := rtc timed_step (timed_make args h) t.

Definition recording (m : histogram_measure) : Prop := trace_ m = true /\ measured m = true.

Record timed_inv t : Prop := mk_timed_inv {
  ti_dom : dom (tmeasures t) = dom (dispatches (tserver t));
  ti_recording : map_Forall (fun _ => recording) (tmeasures t);
  ti_count : sample_count (thist t) = u64 (requests_started t - Z.of_nat (size (tmeasures t)))
}.

Lemma record_measures_count now l h :
  Forall (fun kv => recording kv.2) l -> fits_u 64 (sample_count h) ->
  sample_count (record_measures now l h) = u64 (sample_count h + Z.of_nat (length l)).
Proof.
  intros F B. induction F as [|[k m] l [T M] F IH]; simpl; [by rewrite Z.add_0_r, wrap_u_small|].
  unfold histogram_measure_destroy, histogram_measure_end. simpl in *. rewrite M, T. simpl. rewrite IH, wrap_u_add_l.
  f_equal. lia.
Qed.

Lemma begin_measures_dom now sv ms : dom (begin_measures now sv ms) = dom (dispatches sv).
Proof.
  apply set_eq. intros k. rewrite !elem_of_dom. unfold begin_measures. rewrite map_lookup_imap.
  destruct (dispatches sv !! k); simpl; split; intros [? E]; done || eauto.
Qed.

Lemma ended_measures_length sv ms : length (ended_measures sv ms) = size (dom ms ∖ dom (dispatches sv)).
Proof.
  unfold ended_measures. rewrite length_map_to_list, <- size_dom. f_equal. apply set_eq. intros k.
  rewrite elem_of_difference, !elem_of_dom. split.
  - intros [m [E N]%map_lookup_filter_Some]. simpl in N. rewrite N. split; [eauto|by intros []].
  - intros [[m E] N]. exists m. apply map_lookup_filter_Some. split; [done|]. by apply eq_None_not_Some.
Qed.

Lemma begin_measures_recording now sv ms :
  map_Forall (fun _ => recording) ms -> map_Forall (fun _ => recording) (begin_measures now sv ms).
Proof.
  intros F k m E. unfold begin_measures in E. rewrite map_lookup_imap in E.
  destruct (dispatches sv !! k); [|done]. simpl in E. injection E as <-.
  destruct (ms !! k) as [m|] eqn:M; [by apply (F k)|done].
Qed.

Lemma timed_inv_step ev now t t' :
  fits_u 64 (sample_count (thist t)) -> timed_exec ev now t = Some t' -> timed_inv t -> timed_inv t'.
Proof.
  intros B E [D R C]. unfold timed_exec in E. destruct (exec cfg ev (tserver t)) as [sv|]; [|done]. injection E as <-.
  constructor; simpl; [apply begin_measures_dom|by apply begin_measures_recording|].
  rewrite record_measures_count; [|  |done].
  - rewrite C, wrap_u_add_l, ended_measures_length, D. f_equal.
    rewrite <- (size_dom (tmeasures t)), <- (size_dom (begin_measures _ _ _)), D, begin_measures_dom.
    pose proof (size_union_alt (dom (dispatches sv)) (dom (dispatches (tserver t)))) as U.
    pose proof (size_union_alt (dom (dispatches (tserver t))) (dom (dispatches sv))) as U'.
    rewrite (union_comm_L (dom (dispatches (tserver t)))) in U'. lia.
  - apply Forall_forall. intros [k m] I. apply elem_of_map_to_list, map_lookup_filter_Some in I as [I _]. by apply (R k).
Qed.

(** The server inside is a server of Server.v. *)
Lemma timed_server args h t : timed_reachable args h t -> reachable cfg args (tserver t).
Proof.
  revert t. apply (rtc_ind_r (fun t => reachable cfg args (tserver t))); [apply rtc_refl|].
  intros t t' _ (ev & now & E) IH. unfold timed_exec in E.
  destruct (exec cfg ev (tserver t)) as [sv|] eqn:X; [|done]. injection E as <-.
  eapply rtc_r; [exact IH|]. by exists ev.
Qed.

(** The latency of every request is recorded once, whether its handler answered,
    failed or found no route: the samples of the histogram are the requests that
    were dispatched less those in flight.  The copy of the histogram that is
    handed out has these values, but reports no sample. *)
Theorem request_latencies args h t :
  timed_reachable args h t -> sample_count h = 0 ->
  sample_count (thist t) = u64 (requests_started t - Z.of_nat (size (dispatches (tserver t)))) /\
  (forall c, rpc_server_copy_histogram (thist t) = Ready c -> m_sample_count (seastar_histogram_logform c) = 0).
Proof.
  intros R Z. assert (I : timed_inv t /\ fits_u 64 (sample_count (thist t))).
  { revert t R. apply (rtc_ind_r (fun t => timed_inv t /\ fits_u 64 (sample_count (thist t)))).
    - split; [constructor; simpl; [by rewrite !dom_empty_L|done|by rewrite Z]|]. simpl. by rewrite Z.
    - intros t t' _ (ev & now & E) [I B]. pose proof (timed_inv_step _ _ _ _ B E I) as I'. split; [done|].
      rewrite (ti_count _ I'). apply wrap_u_fits. lia. }
  destruct I as [[D _ C] _]. split; [by rewrite C, <- !size_dom, D|].
  intros c E. unfold rpc_server_copy_histogram, histogram_make in E.
  destruct (hdr_init 1 kDefaultHistogramMaxValue 3) as [x|]; simpl in E; [|by destruct NDEBUG].
  injection E as <-. unfold seastar_histogram_logform. by case_goal.
Qed.
End timed.
