(* ===== verification/ClientMeasure.v ===== *)
(** * Latency of the calls, and the other members of the client

    The parts of src/src/core/rpc_client.cc and rpc_client.h that surround the
    state machine of Client.v: the messages of the exceptions, the constructor
    from an address, the stages of the filters, moving a client, and the
    histogram: a call takes a [histogram_measure] when metrics are enabled, which
    records its latency when it is destroyed with the continuations of the call. *)

From Stdlib Require Import ZArith Lia.
From stdpp Require Import base gmap list numbers strings relations.
From S2P Require Import Prelude Header Seastar Letter Connection RecvContext Wire Filters Client ClientInv ClientLife ClientWrites ClientWire Histogram.

(** ** Members *)

(** [what()] of the exceptions of the client. *)
Definition what (e : exn) : option string :=
  match e with
  | invalid_connection_state => Some "tcp connection is invalid. please reconnect()"
  | remote_connection_error => Some "error with remote connection to server"
  | _ => None
  end.

Section members.
Context `{Build, GeneratedHeader, Xxhash, Seastar}.

(** [rpc_client(ipv4_addr)]: the default options. *)
Definition rpc_client_make_addr : client := rpc_client_make rpc_client_opts0.

(** The filters, applied in an execution stage. *)
Variable in_filters_ : list (rpc_recv_context -> outcome rpc_recv_context).
Variable out_filters_ : list (rpc_envelope -> outcome rpc_envelope).
Definition apply_incoming_filters (ctx : rpc_recv_context) : outcome rpc_recv_context := rpc_filter_apply in_filters_ ctx.
Definition apply_outgoing_filters (e : rpc_envelope) : outcome rpc_envelope := rpc_filter_apply out_filters_ e.
Definition stage_incoming_filters (ctx : rpc_recv_context) : outcome rpc_recv_context := apply_incoming_filters ctx.
Definition stage_outgoing_filters (e : rpc_envelope) : outcome rpc_envelope := apply_outgoing_filters e.

(** The move constructor: the client that is made.  The fibers of the old client
    hold a pointer to the old object, so they stay behind. *)
Definition rpc_client_move (cl : client) : client :=
  mk_client _ (limits_ cl) (creds_ cl) (read_counter_ cl) (conn_ cl) (connections cl) (next_conn cl)
    (rpc_slots_ cl) (works cl) ∅ (next_request cl) ∅ (next_write cl) ∅ (next_reader cl)
    (dispatch_gate_ cl) (serialize_writes_ cl) (session_idx_ cl) 0 0 (lost_ cl) (undefined_ cl).

(** ** What events leave alone *)

Implicit Types cl : client.

Definition no_new_value cl cl' : Prop :=
  forall k r s, works cl' !! k = Some (mk_work (set_value r) s) -> works cl !! k = Some (mk_work (set_value r) s).

Record calm cl cl' : Prop := mk_calm {
  ca_readers : readers cl' = readers cl;
  ca_requests : requests cl' = requests cl;
  ca_next : next_request cl' = next_request cl;
  ca_values : no_new_value cl cl'
}.

Lemma calm_same cl cl' :
  readers cl' = readers cl -> requests cl' = requests cl -> next_request cl' = next_request cl -> works cl' = works cl ->
  calm cl cl'.
Proof. intros A B C D. constructor; [done..|]. intros k r s. by rewrite D. Qed.

Lemma calm_trans cl1 cl2 cl3 : calm cl1 cl2 -> calm cl2 cl3 -> calm cl1 cl3.
Proof.
  intros [A B C D] [A' B' C' D']. constructor; [congruence..|]. intros k r s W. by apply D, D'.
Qed.

Lemma resolve_calm e k cl : calm cl (resolve (set_exception e) k cl).
Proof.
  unfold resolve. destruct (works cl !! k) as [[[|?|?] s]|] eqn:W; try by apply calm_same.
  constructor; try done. intros j r s' L. simpl in L. apply lookup_insert_Some in L as [[_ L]|[_ L]]; [|done]. done.
Qed.

Lemma fail_slots_calm l cl : calm cl (fail_slots l cl).
Proof.
  revert cl. induction l as [|[s k] l IH]; intros cl; simpl; [by apply calm_same|].
  eapply calm_trans; [apply (resolve_calm remote_connection_error k)|].
  eapply calm_trans; [|apply IH]. by apply calm_same.
Qed.

Lemma fail_calm cl : calm cl (fail_outstanding_futures cl).
Proof.
  unfold fail_outstanding_futures. eapply calm_trans; [|apply fail_slots_calm].
  unfold disable_conn. repeat case_goal; by apply calm_same.
Qed.

Lemma calm_after_fail cl0 cl cl' : calm cl0 cl -> calm (fail_outstanding_futures cl) cl' -> calm cl0 cl'.
Proof. intros A B. eapply calm_trans; [exact A|]. eapply calm_trans; [apply fail_calm|exact B]. Qed.

Lemma write_calm k st cl cl' : write_step k st cl = Some cl' -> calm cl cl'.
Proof.
  intros W. destruct st; simpl in W; repeat case_hyp W; simplify_eq; try (by apply calm_same);
    (apply (calm_after_fail _ cl); by apply calm_same).
Qed.

Lemma stop_calm cl cl' : client_stop cl = Some cl' -> calm cl cl'.
Proof. intros S. unfold client_stop in S. case_hyp S; simplify_eq. apply (calm_after_fail _ cl); by apply calm_same. Qed.

Lemma reconnected_calm cl cl' : client_reconnected cl = Some cl' -> calm cl cl'.
Proof.
  intros R. unfold client_reconnected, client_connect in R. repeat case_hyp R; simplify_eq; by apply calm_same.
Qed.

(** The events that neither start nor run a call or a reader. *)
Definition background (ev : client_event) : bool :=
  match ev with
  | ce_send _ | ce_request _ | ce_reader _ | ce_reader_failed _ | ce_reader_timeout _ | ce_connected _ _ _ => false
  | _ => true
  end.

Abbreviation exec := (client_exec in_filters_ out_filters_).

Lemma background_calm ev cl cl' : background ev = true -> exec ev cl = Some cl' -> calm cl cl'.
Proof.
  intros B E. destruct ev; try done; simpl in E.
  - destruct (writes cl !! k) as [st|]; [|done]. by eapply write_calm.
  - repeat case_hyp E; simplify_eq. by apply calm_same.
  - unfold client_connect in E. case_hyp E; simplify_eq. by apply calm_same.
  - unfold client_connect_failed in E. repeat case_hyp E; simplify_eq; by apply calm_same.
  - by apply stop_calm.
  - unfold client_reconnect in E. destruct (client_stop _) as [cl1|] eqn:S; [|done]. injection E as <-.
    eapply calm_trans; [apply fail_calm|]. eapply calm_trans; [by apply stop_calm|by apply calm_same].
  - by apply reconnected_calm.
Qed.

(** One run of a call touches that call only. *)
Lemma request_step_calm k st cl cl' :
  request_step in_filters_ out_filters_ k st cl = Some cl' ->
  readers cl' = readers cl /\ no_new_value cl cl' /\ next_request cl' = next_request cl /\
  exists st', requests cl' = <[k := st']> (requests cl).
Proof.
  intros R. destruct st; simpl in R; unfold dispatch_write, mbind, outcome_bind in R;
    repeat case_hyp R; simplify_eq; simpl; unfold no_new_value; simpl; eauto 10.
Qed.

Lemma send_calm e cl : readers (client_send e cl) = readers cl /\ no_new_value cl (client_send e cl).
Proof.
  destruct (send_cases e cl) as [_ _ R _ _ C]. split; [done|]. intros k r s.
  destruct C as [(st & _ & _ & -> & _)|(_ & _ & ->)]; [done|]. rewrite lookup_insert_Some. by intros [[_ ?]|[_ ?]].
Qed.

(** Nobody reads for a client that was moved: until it is connected again, no
    event resolves a promise with a response, although its slots are there. *)
Theorem moved_client_is_deaf evs cl cl' :
  Forall (fun ev => forall addr i o, ev <> ce_connected addr i o) evs ->
  client_run in_filters_ out_filters_ evs (rpc_client_move cl) = Some cl' -> no_new_value cl cl'.
Proof.
  intros F R. cut (readers cl' = ∅ /\ no_new_value (rpc_client_move cl) cl'); [by intros [_ ?]|].
  assert (Rd : readers (rpc_client_move cl) = ∅) by done. revert Rd R. generalize (rpc_client_move cl) as c.
  induction F as [|ev evs N F IH]; simpl; intros c Rd R; [injection R as <-; split; [done|by intros ?]|].
  destruct (exec ev c) as [c1|] eqn:E; [|done].
  assert (S : readers c1 = ∅ /\ no_new_value c c1).
  { destruct (background ev) eqn:B.
    - destruct (background_calm _ _ _ B E). by rewrite ca_readers0.
    - destruct ev; try done; simpl in E; try (by rewrite Rd in E).
      + injection E as <-. destruct (send_calm e c) as [-> V]. done.
      + destruct (requests c !! k); [|done]. apply request_step_calm in E as (-> & V & _). done.
      + by destruct (N addr i o). }
  destruct S as [S1 V1]. destruct (IH c1 S1 R) as [S2 V2]. split; [done|]. intros k r s W. by apply V1, V2.
Qed.

(** Events that do not run or start a call leave the calls alone. *)
Definition same_requests cl cl' : Prop := requests cl' = requests cl /\ next_request cl' = next_request cl.

Lemma calm_requests cl cl' : calm cl cl' -> same_requests cl cl'.
Proof. by intros []. Qed.

Lemma same_requests_after cl0 cl cl' : same_requests cl0 cl -> calm cl cl' -> same_requests cl0 cl'.
Proof. intros [A B] []. split; congruence. Qed.

Lemma exception_requests k r cl0 cl : same_requests cl0 cl -> same_requests cl0 (reader_exception k r cl).
Proof.
  intros S. unfold reader_exception. destruct (live r); [|done]. exact (same_requests_after _ _ _ S (fail_calm cl)).
Qed.

Lemma next_requests k r cl0 cl : same_requests cl0 cl -> same_requests cl0 (reader_next k r cl).
Proof. intros S. unfold reader_next. by destruct (live r). Qed.

Lemma refuse_requests id msg cl0 cl : same_requests cl0 cl -> same_requests cl0 (refuse id msg cl).
Proof. intros S. unfold refuse. exact (same_requests_after cl0 (upd_cconn id (set_error msg) cl) _ S (fail_calm _)). Qed.

Lemma process_requests id opt cl0 cl cl' :
  same_requests cl0 cl -> process_payload id opt cl = Ready cl' -> same_requests cl0 cl'.
Proof.
  intros S P. unfold process_payload in P. apply outcome_bind_Ready in P as ([] & _ & P).
  destruct opt as [ctx|]; [|injection P as <-; by apply refuse_requests].
  destruct (rpc_slots_ cl !! _) as [j|]; injection P as <-; [|by apply refuse_requests].
  unfold resolve. simpl. by repeat case_goal.
Qed.

Lemma reader_requests k r cl cl' : reader_step k r cl = Some cl' -> same_requests cl cl'.
Proof.
  intros R. unfold reader_step in R. destruct (r_stage r) as [|id|id hdr].
  - repeat case_hyp R; simplify_eq; first [done | by apply exception_requests].
  - repeat case_hyp R; simplify_eq; [|by apply next_requests, refuse_requests]. done.
  - destruct (connections cl !! id) as [c|]; [|done]. destruct (read_exactly _ _) as [[b i]|]; [|done].
    destruct (parse_payload_resume _ _ _ _) as [[opt c']|e|]; [| |done];
      [|injection R as <-; by apply exception_requests].
    destruct (process_payload id opt _) as [cl1|e|] eqn:P; [| |done]; injection R as <-.
    + apply next_requests. eapply (process_requests id opt cl); [|exact P]; done.
    + by apply exception_requests.
Qed.

Lemma other_requests ev cl cl' :
  (forall e, ev <> ce_send e) -> (forall k, ev <> ce_request k) -> exec ev cl = Some cl' -> same_requests cl cl'.
Proof.
  intros Ns Nr E. destruct (background ev) eqn:B; [by eapply calm_requests, background_calm|].
  destruct ev; try done; simpl in E.
  - by destruct (Ns e).
  - by destruct (Nr k).
  - destruct (readers cl !! k) as [r|]; [|done]. by eapply reader_requests.
  - destruct (readers cl !! k) as [r|]; [|done]. unfold reader_failed in E.
    destruct (r_stage r); simplify_eq; by apply exception_requests.
  - destruct (readers cl !! k) as [r|]; [|done]. unfold reader_timeout in E.
    destruct (r_stage r); simplify_eq; destruct (live r) eqn:L; simplify_eq; by apply (exception_requests k r).
  - unfold client_connected in E. repeat case_hyp E; by simplify_eq.
Qed.
End members.

(** ** The histogram of a client *)

(** [hist_] and the histograms it has pointed to: a running measure keeps its
    histogram alive after [disable_histogram_metrics].  [measures] are the
    histogram and the begin of the calls in progress, [started] (history) the
    measures that were ever taken per histogram. *)
Record measured `{Seastar, Hdr} := mk_measured {
  mclient : client;
  hists : gmap Z histogram;
  hist_ : option Z;
  next_hist : Z;
  measures : gmap Z (Z * histogram_measure);
  started : gmap Z Z
}.

Section measured.
Context `{Build, GeneratedHeader, Xxhash, Seastar, Hdr}.
Variable in_filters_ : list (rpc_recv_context -> outcome rpc_recv_context).
Variable out_filters_ : list (rpc_envelope -> outcome rpc_envelope).
Implicit Types m : measured.

Definition is_histogram_enabled m : bool := bool_decide (is_Some (hist_ m)).
Definition get_histogram m : option histogram := h ← hist_ m; hists m !! h.

Definition disable_histogram_metrics m : measured :=
  mk_measured _ _ (mclient m) (hists m) None (next_hist m) (measures m) (started m).
Definition enable_histogram_metrics m : outcome measured :=
  if is_histogram_enabled m then Ready m
  else
    h ← histogram_make kDefaultHistogramMaxValue;
    Ready (mk_measured _ _ (mclient m) (<[next_hist m := h]> (hists m)) (Some (next_hist m)) (next_hist m + 1)
      (measures m) (<[next_hist m := 0]> (started m))).

(** A call of [raw_send] that reaches its filters takes a measure. *)
Definition takes_measure (k : Z) (cl : client) : bool :=
  match requests cl !! k with Some (q_outgoing _) => true | _ => false end.
(** The continuations of a call are gone when its future is resolved. *)
Definition call_ended (k : Z) (cl : client) : bool :=
  match requests cl !! k with Some (q_end _) | Some (q_done _) => true | _ => false end.

Definition start_measure (k now : Z) m : measured :=
  match hist_ m with
  | Some h =>
      mk_measured _ _ (mclient m) (hists m) (hist_ m) (next_hist m) (<[k := (h, auto_measure now)]> (measures m))
        (alter (Z.add 1) h (started m))
  | None => m
  end.
Definition end_measure (k now : Z) m : measured :=
  match measures m !! k with
  | Some (h, mm) =>
      mk_measured _ _ (mclient m) (alter (histogram_measure_destroy mm now) h (hists m)) (hist_ m) (next_hist m)
        (delete k (measures m)) (started m)
  | None => m
  end.

Definition with_client (cl : client) m : measured :=
  mk_measured _ _ cl (hists m) (hist_ m) (next_hist m) (measures m) (started m).

Inductive measured_event :=
| mx_client (ev : client_event) (now : Z)
| mx_enable
| mx_disable.

Definition measured_exec (ev : measured_event) m : option measured :=
  match ev with
  | mx_enable => ready (enable_histogram_metrics m)
  | mx_disable => Some (disable_histogram_metrics m)
  | mx_client ev now =>
      cl ← client_exec in_filters_ out_filters_ ev (mclient m);
      let m' := with_client cl m in
      match ev with
      | ce_send _ => let k := next_request (mclient m) in Some (if takes_measure k cl then start_measure k now m' else m')
      | ce_request k => Some (if call_ended k cl then end_measure k now m' else m')
      | _ => Some m'
      end
  end.

Definition measured_make (opts : rpc_client_opts) : measured := mk_measured _ _ (rpc_client_make opts) ∅ None 0 ∅ ∅.
Definition measured_step m m' : Prop := exists ev, measured_exec ev m = Some m'.
Definition measured_reachable (opts : rpc_client_opts) m : Prop := rtc measured_step (measured_make opts) m.

(** The calls that are measured into histogram [h]. *)
Definition measuring (h : Z) (x : Z * histogram_measure) : Z := if bool_decide (x.1 = h) then 1 else 0.
Definition outstanding (h : Z) m : Z := msum (measuring h) (measures m).

Record measure_inv m : Prop := mk_measure_inv {
  mi_calls : forall k, is_Some (measures m !! k) -> is_Some (requests (mclient m) !! k);
  mi_trace : map_Forall (fun _ x => is_Some (hists m !! x.1) /\ trace_ x.2 = true /\ Histogram.measured x.2 = true) (measures m);
  mi_hist : forall h, hist_ m = Some h -> is_Some (hists m !! h);
  mi_fresh : forall h, next_hist m <= h -> hists m !! h = None;
  mi_count : forall h x, hists m !! h = Some x ->
    exists n, started m !! h = Some n /\ sample_count x = u64 (n - outstanding h m)
}.


Lemma requests_grow ev cl cl' :
  client_exec in_filters_ out_filters_ ev cl = Some cl' ->
  forall k, is_Some (requests cl !! k) -> is_Some (requests cl' !! k).
Proof.
  assert (ins : forall j st k (r : gmap Z request_stage), is_Some (r !! k) -> is_Some (<[j := st]> r !! k)).
  { intros j st k r S. destruct (decide (j = k)) as [->|N]; [by rewrite lookup_insert_eq|by rewrite lookup_insert_ne]. }
  intros E k S. destruct ev; try (apply other_requests in E as [-> _]; done).
  - simpl in E. injection E as <-. destruct (send_cases e cl) as [_ _ _ _ _ [(st & _ & -> & _)|(_ & -> & _)]]; by apply ins.
  - simpl in E. destruct (requests cl !! k0) as [st|]; [|done].
    apply request_step_calm in E as (_ & _ & _ & st' & ->). by apply ins.
Qed.

Lemma measure_with_client cl m :
  (forall k, is_Some (requests (mclient m) !! k) -> is_Some (requests cl !! k)) ->
  measure_inv m -> measure_inv (with_client cl m).
Proof. intros G [A B C D E]. constructor; simpl; [|done..]. intros k S. by apply G, A. Qed.

Lemma outstanding_fresh h m : measure_inv m -> hists m !! h = None -> outstanding h m = 0.
Proof.
  intros I N. unfold outstanding. apply Z.le_antisymm.
  - etrans; [apply (msum_le _ (fun _ => 0))|by rewrite msum_zero]. intros k x K.
    destruct (mi_trace _ I k x K) as [S _]. unfold measuring. case_bool_decide as Eq; [|done].
    rewrite Eq, N in S. by destruct S.
  - apply msum_nonneg. intros k x _. unfold measuring. by case_bool_decide.
Qed.

Lemma measure_start k now m :
  measures m !! k = None -> is_Some (requests (mclient m) !! k) -> measure_inv m -> measure_inv (start_measure k now m).
Proof.
  intros N Rk I. pose proof I as [A B C D E]. unfold start_measure. destruct (hist_ m) as [h|] eqn:Hh; [|done].
  constructor; simpl; [| | |done|].
  - intros j S. destruct (decide (k = j)) as [<-|Ne]; [done|]. rewrite lookup_insert_ne in S by done. by apply A.
  - apply map_Forall_insert_2; [simpl; split_and!; [by apply C|done|done]|done].
  - intros h' X. apply C. congruence.
  - intros h' x X. destruct (E h' x X) as (n & St & Sc). unfold outstanding in *. simpl.
    rewrite msum_insert by done. unfold measuring at 1. simpl. case_bool_decide as Eq.
    + subst h'. exists (1 + n). rewrite lookup_alter_eq, St. split; [done|]. rewrite Sc. f_equal. lia.
    + exists n. rewrite lookup_alter_ne by done. split; [done|]. rewrite Sc. f_equal; lia.
Qed.

Lemma measure_end k now m : measure_inv m -> measure_inv (end_measure k now m).
Proof.
  intros I. pose proof I as [A B C D E]. unfold end_measure. destruct (measures m !! k) as [[h mm]|] eqn:M; [|done].
  destruct (B k _ M) as (Sh & Tr & Me). simpl in *. constructor; simpl.
  - intros j S. destruct (decide (k = j)) as [<-|Ne]; [by rewrite lookup_delete_eq in S; destruct S|].
    rewrite lookup_delete_ne in S by done. by apply A.
  - apply map_Forall_delete. intros j x X. destruct (B j x X) as (S & T & Mx). split_and!; [|done|done].
    by rewrite lookup_alter_is_Some.
  - intros h' X. rewrite lookup_alter_is_Some. by apply C.
  - intros h' X. rewrite lookup_alter_None. by apply D.
  - intros h' x X. unfold outstanding in *. simpl. rewrite (msum_delete _ _ _ _ M). unfold measuring at 2. simpl.
    apply lookup_alter_Some in X as [(<- & y & Y & ->)|(Ne & X)].
    + destruct (E h y Y) as (n & St & Sc). exists n. split; [done|]. rewrite bool_decide_true by done.
      unfold histogram_measure_destroy, histogram_measure_end. rewrite Me, Tr. simpl. rewrite Sc, wrap_u_add_l. f_equal. lia.
    + destruct (E h' x X) as (n & St & Sc). exists n. split; [done|]. rewrite bool_decide_false by done.
      rewrite Sc. f_equal. lia.
Qed.

Lemma measure_enable m m' : enable_histogram_metrics m = Ready m' -> measure_inv m -> measure_inv m'.
Proof.
  intros E I. pose proof I as [A B C D F]. unfold enable_histogram_metrics in E. case_hyp E; [by simplify_eq|].
  apply outcome_bind_Ready in E as (h & Mk & E). injection E as <-.
  pose proof (D (next_hist m) ltac:(lia)) as Nh. constructor; simpl; [done| | | |].
  - intros j x X. destruct (B j x X) as (S & T & Mx). split_and!; [|done|done].
    rewrite lookup_insert_is_Some. destruct (decide (next_hist m = x.1)); auto.
  - intros h' [= <-]. by rewrite lookup_insert_eq.
  - intros h' L. rewrite lookup_insert_ne by lia. apply D. lia.
  - intros h' x X. unfold outstanding in *. simpl. apply lookup_insert_Some in X as [[<- <-]|[Ne X]].
    + exists 0. rewrite lookup_insert_eq. split; [done|]. fold (outstanding (next_hist m) m).
      rewrite (outstanding_fresh _ _ I Nh). unfold histogram_make in Mk. by repeat case_hyp Mk; simplify_eq.
    + rewrite lookup_insert_ne by done. by apply F.
Qed.

Lemma takes_measure_open k cl : takes_measure k cl = true -> is_Some (requests cl !! k).
Proof. unfold takes_measure. destruct (requests cl !! k); [eauto|done]. Qed.

Lemma measure_step ev m m' :
  client_inv (mclient m) -> measured_exec ev m = Some m' -> measure_inv m -> measure_inv m'.
Proof.
  intros Ci E I. destruct ev as [ev now| |]; simpl in E.
  - destruct (client_exec in_filters_ out_filters_ ev (mclient m)) as [cl|] eqn:X; [|done]. simpl in E.
    pose proof (measure_with_client cl m (requests_grow _ _ _ X) I) as I'.
    destruct ev; try (injection E as <-; exact I').
    + injection E as <-. case_goal; [|done]. apply measure_start; [| |done].
      * simpl. destruct (measures m !! next_request (mclient m)) eqn:M; [|done].
        destruct (mi_calls _ I (next_request (mclient m)) ltac:(by rewrite M)) as [st S].
        rewrite (le_requests _ (proj2 Ci)) in S by lia. done.
      * by apply takes_measure_open.
    + injection E as <-. case_goal; [by apply measure_end|done].
  - destruct (enable_histogram_metrics m) as [m1| |] eqn:En; try done. injection E as <-. by apply (measure_enable m).
  - injection E as <-. destruct I as [A B C D F]. by constructor.
Qed.

(** The client inside is a client of Client.v. *)
Lemma measured_client opts m : measured_reachable opts m -> client_reachable in_filters_ out_filters_ opts (mclient m).
Proof.
  revert m. apply (rtc_ind_r (fun m => client_reachable in_filters_ out_filters_ opts (mclient m))); [apply rtc_refl|].
  intros m m' _ [ev E] IH. destruct ev as [ev now| |]; simpl in E.
  - destruct (client_exec in_filters_ out_filters_ ev (mclient m)) as [cl|] eqn:X; [|done]. simpl in E.
    assert (mclient m' = cl) as ->.
    { unfold start_measure, end_measure in E. by destruct ev; simplify_eq; repeat case_goal. }
    eapply rtc_r; [exact IH|]. by exists ev.
  - unfold enable_histogram_metrics in E. destruct (is_histogram_enabled m); [by injection E as <-|].
    destruct (histogram_make kDefaultHistogramMaxValue); try done. by injection E as <-.
  - by injection E as <-.
Qed.

(** The latency of every call is recorded once: whatever is enabled and disabled
    in between, the samples of a histogram are the measures that were taken with
    it less those of the calls in progress, failed calls included; when no call is
    in progress they are the measures taken. *)
Theorem latency_samples opts m h x :
  measured_reachable opts m -> hists m !! h = Some x ->
  exists n, started m !! h = Some n /\ sample_count x = u64 (n - outstanding h m) /\
    (measures m = ∅ -> sample_count x = u64 n).
Proof.
  intros R X. assert (I : measure_inv m).
  { clear X. revert m R. apply (rtc_ind_r measure_inv).
    - constructor; simpl; try done. intros k S. by rewrite lookup_empty in S; destruct S.
    - intros m m' Rm [ev E] IH. eapply measure_step; [|done|done].
      by eapply reachable_client_inv, measured_client. }
  destruct (mi_count _ I h x X) as (n & St & Sc). exists n. split_and!; [done|done|].
  intros Em. rewrite Sc. unfold outstanding. rewrite Em, msum_empty. f_equal. lia.
Qed.
End measured.

(** ** A measured call *)
Module MeasureDemo.
Import Demo HistogramDemo.
#[local] Existing Instance demo_hdr.

Definition m_opts : rpc_client_opts := mk_opts true 60000 1000.
Definition m_connected : client_event :=
  ce_connected demo_addr (mk_stream [] false false : @istream demo_seastar) ([] : @ostream demo_seastar).

Fixpoint measured_run (evs : list measured_event) (m : measured) : option measured :=
  match evs with
  | [] => Some m
  | ev :: evs => match measured_exec [] [] ev m with Some m => measured_run evs m | None => None end
  end.

(** A call that is sent and fails when the client stops. *)
Definition m_events : list measured_event :=
  [mx_enable; mx_client ce_connect 0; mx_client m_connected 1; mx_client (ce_send (demo_envelope [Byte.x2a] 9 0)) 2000;
   mx_client (ce_request 0) 3000; mx_client ce_stop 4000; mx_client (ce_request 0) 9000].
Definition m_samples (m : measured) : option Z := sample_count <$> get_histogram m.

Example measured_call : (measured_run m_events (measured_make m_opts) ≫= m_samples) = Some 1.
Proof. vm_refl. Qed.
End MeasureDemo.
