(* ===== verification/Apps.v ===== *)
(** * The demo applications and the integration tests

    src/demo_apps and src/src/integration_tests: the services that they
    register, the requests that they generate, the arguments that they make of
    their options, and what their tests check.  The programs are callers of what
    the other files model; the tables of demo_service.fbs are the class
    [DemoSchema] over the FlatBuffers classes. *)

From Stdlib Require Import ZArith Lia Ascii String.
From stdpp Require Import base gmap list numbers strings.
From coqutil Require Import Byte.
From S2P Require Import Prelude Header Seastar Letter Connection RecvContext Wire Codec Filters Router Server TypedContext Reconnect Printer Schema Doubles Text Random LoadGen ServerAdmin.

(** ** Ports *)

(** [non_root_port], on a [uint16_t]. *)
Definition non_root_port (port : Z) : Z := if port <? 1024 then u16 (port + 1024) else port.
(** [non_root_port(rand.next() % std::numeric_limits<uint16_t>::max())]. *)
Definition random_port (x : Z) : Z := non_root_port (u16 (x mod 65535)).

Lemma random_port_range x : 1024 <= random_port x < 65535.
Proof.
  unfold random_port, non_root_port. pose proof (Z.mod_pos_bound x 65535 ltac:(lia)) as B.
  rewrite (wrap_u_small 16 (x mod 65535)) by (unfold fits_u; lia). case_goal; bool_to_prop; [|lia].
  rewrite wrap_u_small by (unfold fits_u; lia). lia.
Qed.

(** ** The tables of the demo service *)

Class DemoSchema `{FlatTable, FlatRoot} := {
  (** [data->name = s], and the accessor [name()] of the table at a position of a
      buffer, which is null when the field is absent. *)
  set_name : string -> native_type -> native_type;
  name_at : Z -> list byte -> option string;
  name_packed s : s <> EmptyString ->
    exists p, GetMutableRoot (native_table_as_buffer (set_name s native_default)) = Ready p /\
      name_at p (native_table_as_buffer (set_name s native_default)) = Some s
}.

(** Assigning a C string: it ends at the first zero byte. *)
Fixpoint truncate (s : string) : string :=
  match s with
  | EmptyString => EmptyString
  | String a s => if Ascii.eqb a zero then EmptyString else String a (truncate s)
  end.

Lemma truncate_id s : lacks zero s -> truncate s = s.
Proof.
  induction s as [|a s IH]; intros L; [done|]. apply lacks_cons in L as [N L]. simpl.
  by rewrite (proj2 (Ascii.eqb_neq _ _) N), IH.
Qed.

Section apps.
Context `{Build, GeneratedHeader, Xxhash, Zstd, Lz4, Seastar, DemoSchema}.

(** [rec->name()], [None]: the pointer is null. *)
Definition rec_name (rec : rpc_recv_typed_context) : option string :=
  match ctx rec, cache_ rec with Some c, Some p => name_at p (payload c) | _, _ => None end.

(** The reply with its name and status 200. *)
Definition named (s : string) : rpc_typed_envelope :=
  mk_typed _ (set_status 200 rpc_envelope0) (Some (set_name s native_default)).
Definition unnamed : rpc_typed_envelope := mk_typed _ (set_status 200 rpc_envelope0) (Some native_default).

(** ** The demo server *)

(** [storage_service::Get]. *)
Definition demo_server_get (rec : rpc_recv_typed_context) : outcome rpc_typed_envelope :=
  if typed_bool rec then
    match rec_name rec with
    | None => Undefined
    | Some s => Ready (named (truncate s))
    end
  else Ready unnamed.

(** The method that the generated service makes of [Get]. *)
Definition typed_method (get : rpc_recv_typed_context -> outcome rpc_typed_envelope) (c : rpc_recv_context) :
    outcome rpc_typed_envelope :=
  rec ← rpc_recv_typed_context_make (Some c); get rec.

(** The options of the program. *)
Record demo_server_options := mk_server_options {
  so_ip : string; so_port : Z; so_httpport : Z; so_key : string; so_cert : string
}.
Definition demo_server_options0 : demo_server_options := mk_server_options "127.0.0.1" 20776 20777 EmptyString EmptyString.

(** [static_cast<uint64_t>(fraction * total_memory)]. *)
Definition memory_fraction (tenths total : Z) : Z := double_trunc (double_mul (rnd tenths 10) (double_of total)).

(** The arguments that [main] makes of the options: TLS needs both files. *)
Definition demo_server_args (o : demo_server_options) (total_memory : Z) : server_args :=
  let tls := negb (String.eqb (so_key o) EmptyString) && negb (String.eqb (so_cert o) EmptyString) in
  mk_server_args (so_ip o) (so_port o) (so_httpport o) 0 tls (mk_args 60000 (memory_fraction 9 total_memory)).

(** What is registered before the server starts, given the ids of the schema. *)
Definition demo_server_config (sid get_id : Z) : server_config :=
  register_incoming_filter zstd_decompression_filter
    (server_register_service
      (generated_service "SmfStorage" sid [mk_method get_id (generated_raw (typed_method demo_server_get))])
      (mk_config [] [] [])).

Definition demo_server_main (o : demo_server_options) (total_memory sid get_id : Z) : server_config * managed :=
  let args := demo_server_args o total_memory in
  (demo_server_config sid get_id, managed_start args (managed_make args)).

(** ** The demo client *)

Fixpoint repeat_char (c : ascii) (n : nat) : string :=
  match n with O => EmptyString | S n => String c (repeat_char c n) end.

(** Twenty lines of fifty. *)
Definition kPayload1Kbytes : string := repeat_char "x" 1000.

(** [generator]. *)
Definition demo_generator (name : string) : outcome rpc_envelope :=
  '(e, _) ← serialize_data (mk_typed _ rpc_envelope0 (Some (set_name name native_default))); Ready e.

Record demo_client_options := mk_client_options {
  co_ip : string; co_port : Z; co_req_num : Z; co_concurrency : Z; co_ca_cert : string
}.
Definition demo_client_options0 : demo_client_options := mk_client_options "127.0.0.1" 20776 1000 10 EmptyString.

(** The arguments of the load generator, and whether it has credentials. *)
Definition demo_client_args (o : demo_client_options) (total_memory : Z) : outcome (load_generator_args * bool) :=
  args ← load_generator_args_make (co_req_num o) (co_concurrency o) (memory_fraction 9 total_memory) compression_flags_none;
  Ready (args, negb (String.eqb (co_ca_cert o) EmptyString)).

(** ** The service returns what the client sent *)

Lemma typed_bool_made c rec : rpc_recv_typed_context_make (Some c) = Ready rec -> typed_bool rec = true /\ ctx rec = Some c.
Proof. intros M. apply typed_make_wf in M as [_ E]. unfold typed_bool. by rewrite E. Qed.

(** A request of the demo client is answered with the name it sent, up to its
    first zero byte, under status 200; so the payload of the demo, which has none,
    comes back whole.  A request without a name makes the service follow a null
    pointer. *)
Theorem demo_echo s c :
  s <> EmptyString -> (exists e, demo_generator s = Ready e /\ payload c = body (letter e)) ->
  typed_method demo_server_get c = Ready (named (truncate s)) /\
  (lacks zero s -> truncate s = s) /\
  (forall c' p, GetMutableRoot (payload c') = Ready p -> name_at p (payload c') = None ->
     typed_method demo_server_get c' = Undefined).
Proof.
  intros N (e & G & P). split_and!; [|apply truncate_id|].
  - unfold demo_generator, serialize_data in G. simpl in G. injection G as <-. simpl in P.
    destruct (name_packed s N) as (p & R & A). unfold typed_method. simpl. rewrite P, R. simpl.
    unfold demo_server_get, rec_name. simpl. by rewrite P, A.
  - intros c' p R A. unfold typed_method. simpl. rewrite R. simpl.
    unfold demo_server_get, rec_name. simpl. by rewrite A.
Qed.
End apps.

(** ** The interfaces of the host *)

(** An entry of [getifaddrs]: the address may be null; [Some (inet, ip)] otherwise. *)
Record ifaddr := mk_ifaddr { ifa_name : string; ifa_addr : option (bool * Z); ifa_running : bool }.

(** A [struct ifaddrs *] is the rest of the list, [nil] is null.
    [next_valid_interface]: the address of every entry is read, and the name of
    the entry that is found is logged. *)
Fixpoint next_valid_interface (ifa : list ifaddr) : outcome (list ifaddr) :=
  match ifa with
  | [] => Undefined
  | i :: l =>
      match ifa_addr i with
      | None => Undefined
      | Some (inet, _) => if inet && ifa_running i then Ready ifa else next_valid_interface l
      end
  end.

Definition kMaxClients : nat := 2.

(** [ifa = THROW_IFNULL(...)], the client, and [ifa = ifa->ifa_next]. *)
Fixpoint dispatch_clients (n : nat) (ifa : list ifaddr) : outcome (list Z) :=
  match n with
  | O => Ready []
  | S n =>
      ifa ← next_valid_interface ifa;
      match ifa with
      | [] => Failed (runtime_error "{}:{}] check_not_null({})")
      | i :: l => rest ← dispatch_clients n l; Ready (default 0 (snd <$> ifa_addr i) :: rest)
      end
  end.
Definition client_dispatcher_make (addrs : list ifaddr) : outcome (list Z) :=
  ifa ← next_valid_interface addrs; dispatch_clients kMaxClients ifa.

(** The interfaces that are usable. *)
Definition usable (i : ifaddr) : bool := match ifa_addr i with Some (inet, _) => inet && ifa_running i | None => false end.

Lemma next_valid_found ifa :
  Forall (fun i => ifa_addr i <> None) ifa ->
  match filter (fun i => usable i = true) ifa with
  | [] => next_valid_interface ifa = Undefined
  | i :: u => exists l, next_valid_interface ifa = Ready (i :: l) /\ filter (fun i => usable i = true) l = u /\
                Forall (fun i => ifa_addr i <> None) l
  end.
Proof.
  induction ifa as [|i l IH]; intros F; [done|]. apply Forall_cons in F as [N F]. simpl.
  destruct (ifa_addr i) as [[inet ip]|] eqn:A; [|done]. assert (U : usable i = inet && ifa_running i) by (unfold usable; by rewrite A).
  destruct (inet && ifa_running i).
  - rewrite filter_cons_True by done. eauto.
  - rewrite filter_cons_False by (by rewrite U). by apply IH.
Qed.

(** The dispatcher makes a client for the first two usable interfaces.  With
    fewer, [next_valid_interface] follows the null pointer before THROW_IFNULL
    can see it: the construction never fails with an error. *)
Theorem client_dispatcher_clients addrs :
  Forall (fun i => ifa_addr i <> None) addrs ->
  client_dispatcher_make addrs =
    match filter (fun i => usable i = true) addrs with
    | a :: b :: _ => Ready [default 0 (snd <$> ifa_addr a); default 0 (snd <$> ifa_addr b)]
    | _ => Undefined
    end.
Proof.
  intros F. pose proof (next_valid_found addrs F) as N. unfold client_dispatcher_make.
  destruct (filter _ addrs) as [|a u] eqn:E; [by rewrite N|]. destruct N as (l & -> & U & Fl). simpl.
  assert (Va : next_valid_interface (a :: l) = Ready (a :: l)).
  { assert (usable a = true) as Ua.
    { assert (I : a ∈ filter (fun i => usable i = true) addrs) by (rewrite E; left). by apply list_elem_of_filter in I as [? _]. }
    simpl. unfold usable in Ua. destruct (ifa_addr a) as [[inet ip]|]; [|done]. by rewrite Ua. }
  simpl in Va. rewrite Va. simpl.
  pose proof (next_valid_found l Fl) as N2. rewrite U in N2. destruct u as [|b u]; [by rewrite N2|].
  destruct N2 as (l2 & -> & _). done.
Qed.

(** ** The address that a service sees *)

(** [operator<<] of an [ipv4_addr]: the four bytes and the port. *)
Definition show_ip (ip : Z) : string :=
  to_string (Z.land (Z.shiftr ip 24) 255) +:+ "." +:+ to_string (Z.land (Z.shiftr ip 16) 255) +:+ "." +:+
  to_string (Z.land (Z.shiftr ip 8) 255) +:+ "." +:+ to_string (Z.land ip 255).
Definition show_addr (a : socket_address) : string := show_ip (addr_ip a) +:+ ":" +:+ to_string (addr_port a).

(** [ipv4_addr_to_ip_str]: the text before the colon, or all of it. *)
Definition ipv4_addr_to_ip_str (a : socket_address) : string :=
  match find_char ":"%char (show_addr a) with Some (before, _) => before | None => show_addr a end.

Lemma ipv4_addr_to_ip_str_ip a : ipv4_addr_to_ip_str a = show_ip (addr_ip a).
Proof.
  unfold ipv4_addr_to_ip_str, show_addr. change (":" +:+ ?x) with (String ":" x).
  rewrite find_char_app; [done|]. unfold show_ip. rewrite !lacks_app. repeat split; by apply to_string_no.
Qed.

(** ** The test of the RPC stack *)

Definition kVerses : string :=
  "How do I love thee? Let me count the ways." +:+
  "I love thee to the depth and breadth and height" +:+
  "My soul can reach, when feeling out of sight" +:+
  "For the ends of being and ideal grace." +:+
  "I love thee to the level of every day's" +:+
  "Most quiet need, by sun and candle-light." +:+
  "I love thee freely, as men strive for right." +:+
  "I love thee purely, as they turn from praise." +:+
  "I love thee with the passion put to use" +:+
  "In my old griefs, and with my childhood's faith." +:+
  "I love thee with a love I seemed to lose" +:+
  "With my lost saints. I love thee with the breath," +:+
  "Smiles, tears, of all my life; and, if God choose," +:+
  "I shall but love thee better after death.".
Definition kPoem : string := kVerses +:+ kVerses.

Section tests.
Context `{Build, GeneratedHeader, Xxhash, Zstd, Lz4, Seastar, DemoSchema}.

(** [storage_service::Get] of rpc/main.cc: an empty reply. *)
Definition rpc_test_get (rec : rpc_recv_typed_context) : outcome rpc_typed_envelope := Ready unnamed.
Definition rpc_test_generator : outcome rpc_envelope := demo_generator kPoem.

(** Its options: the ports are drawn, the rest is fixed. *)
Record rpc_test_options := mk_rpc_test_options { to_ip : string; to_port : Z; to_httpport : Z; to_req_num : Z; to_concurrency : Z }.
Definition rpc_test_options0 `{Rng} (r : rng) : rpc_test_options * rng :=
  let '(x, r) := next r in
  let '(y, r) := next r in
  (mk_rpc_test_options "127.0.0.1" (random_port x) (random_port y) 100 10, r).

Definition rpc_test_server_args (o : rpc_test_options) (total_memory : Z) : server_args :=
  mk_server_args EmptyString (to_port o) (to_httpport o) (Z.lor 0 rpc_server_flags_disable_http_server) false
    (mk_args 60000 (memory_fraction 4 total_memory)).
Definition rpc_test_load_args (o : rpc_test_options) (total_memory : Z) : outcome load_generator_args :=
  load_generator_args_make (to_req_num o) (to_concurrency o) (memory_fraction 4 total_memory) compression_flags_none.

(** Registering a service with the one method that a test implements. *)
Definition test_config (sid get_id : Z) (get : rpc_recv_typed_context -> outcome rpc_typed_envelope) : server_config :=
  server_register_service (generated_service "SmfStorage" sid [mk_method get_id (generated_raw (typed_method get))])
    (mk_config [] [] []).

(** The server of the test: service, decompression filter, then start. *)
Definition rpc_test_server (o : rpc_test_options) (total_memory sid get_id : Z) : server_config * managed :=
  let args := rpc_test_server_args o total_memory in
  (register_incoming_filter zstd_decompression_filter (test_config sid get_id rpc_test_get),
   managed_start args (managed_make args)).

(** The HTTP server is disabled: none is started. *)
Lemma rpc_test_no_http o total : admin_ (managed_start (rpc_test_server_args o total) (managed_make (rpc_test_server_args o total))) = None.
Proof. done. Qed.

(** ** The test with two addresses *)

(** [storage_service::Get] of rpc_multiple_remote_addrs: the address of the peer;
    in a debug build the name is read for the log. *)
Definition remote_addr_get (rec : rpc_recv_typed_context) : outcome rpc_typed_envelope :=
  match ctx rec with
  | Some c =>
      if negb NDEBUG && bool_decide (rec_name rec = None) then Undefined
      else Ready (named (ipv4_addr_to_ip_str (ctx_address c)))
  | None => Ready unnamed
  end.

(** The server of that test: all addresses, no filter. *)
Definition remote_addr_server (x sid get_id : Z) : server_config * managed :=
  let args := mk_server_args "0.0.0.0" (random_port x) 33140 (Z.lor 0 rpc_server_flags_disable_http_server) false rpc_server_args0 in
  (test_config sid get_id remote_addr_get, managed_start args (managed_make args)).

(** The check of the reply: a null name is followed. *)
Definition remote_addr_check (reply_name : option string) (server_addr : socket_address) : outcome unit :=
  match reply_name with
  | None => Undefined
  | Some name =>
      LOG_THROW_IF (negb (String.eqb name (ipv4_addr_to_ip_str server_addr))) "Server did not see our IP {} != {}"
  end.

(** The check passes when the server sees the address that it was called at,
    whatever the ports are. *)
Lemma remote_addr_checked rec c p server_addr :
  ctx rec = Some c -> cache_ rec = Some p -> name_at p (payload c) <> None ->
  addr_ip (ctx_address c) = addr_ip server_addr ->
  remote_addr_get rec = Ready (named (ipv4_addr_to_ip_str (ctx_address c))) /\
  remote_addr_check (Some (ipv4_addr_to_ip_str (ctx_address c))) server_addr = Ready tt.
Proof.
  intros C P N E. unfold remote_addr_get, rec_name, remote_addr_check. rewrite C, P.
  rewrite bool_decide_false by done. rewrite andb_false_r. split; [done|].
  rewrite !ipv4_addr_to_ip_str_ip, E, String.eqb_refl. done.
Qed.

(** ** The test of the receive timeout *)

(** The header that the test sends: a size and a checksum, and nothing else. *)
Definition recv_timeout_header : header := mutate_checksum 1234234 (mutate_size 300 header0).
Definition recv_timeout_args (rpc_port http_port : Z) : server_args :=
  mk_server_args EmptyString rpc_port http_port (Z.lor 0 rpc_server_flags_disable_http_server) false (mk_args 1 (2 ^ 31)).

(** Its service throws, since it should not be reached. *)
Definition recv_timeout_get (rec : rpc_recv_typed_context) : outcome rpc_typed_envelope :=
  Failed (runtime_error "SHOULD NOT REACH THIS W/ A TIMEOUT").
Definition recv_timeout_server (rpc_port http_port sid get_id : Z) : server_config * managed :=
  let args := recv_timeout_args rpc_port http_port in
  (test_config sid get_id recv_timeout_get, managed_start args (managed_make args)).

(** The test means to exercise the timeout of the body; but its header has no
    request id, so the server refuses the header itself and never waits for the
    body. *)
Theorem recv_timeout_not_reached i conn :
  (parse_header_resume (header_to_bytes recv_timeout_header) i conn).1 = None.
Proof.
  unfold parse_header_resume. cbn [fst]. rewrite <- (app_nil_r (header_to_bytes _)) at 2.
  rewrite header_of_to_bytes by vm_decide. case_goal; [done|].
  unfold check_header. simpl. by repeat case_goal.
Qed.
End tests.

(** ** The test of reconnecting after a timeout *)

(** The service of rpc_reconnect_with_timeout: [Get] counts, sleeps the first time,
    and replies with the counter as it is then. *)
Record counter_service := mk_counter { internal_counter : Z; asleep : list Z; replies : list (Z * string) }.

(** Request [k] arrives: [simple_state]; a request that does not sleep replies. *)
Definition counter_get (k : Z) (s : counter_service) : counter_service :=
  let c := s32 (internal_counter s + 1) in
  if internal_counter s =? 0 then mk_counter c (asleep s ++ [k]) (replies s)
  else mk_counter c (asleep s) (replies s ++ [(k, show_signed c)]).
(** Its sleep is over. *)
Definition counter_wake (k : Z) (s : counter_service) : option counter_service :=
  if decide (k ∈ asleep s) then
    Some (mk_counter (internal_counter s) (filter (fun j => j <> k) (asleep s))
      (replies s ++ [(k, show_signed (internal_counter s))]))
  else None.
Definition counter0 : counter_service := mk_counter 0 [] [].

(** The check of the client, on the text of a reply. *)
Definition counter_check (text : string) : outcome unit :=
  match decimal text with
  | Some n => LOG_THROW_IF (n =? 1) "The first try we are supposed to timeout"
  | None => Failed (user_exception "stoi")
  end.

(** The first call is the only one that sleeps; when it wakes after others came,
    its reply has their count too, and only a reply of [1] is refused. *)
Lemma counter_first_call k l s :
  s = foldl (fun s k => counter_get k s) (counter_get k counter0) l -> Z.of_nat (length l) + 1 < 2 ^ 31 ->
  asleep s = [k] /\ internal_counter s = 1 + Z.of_nat (length l) /\
  (counter_check (show_signed (internal_counter s)) = Ready tt <-> l <> []).
Proof.
  intros -> B.
  assert (G : forall l s, 0 < internal_counter s -> internal_counter s + Z.of_nat (length l) < 2 ^ 31 ->
    asleep (foldl (fun s k => counter_get k s) s l) = asleep s /\
    internal_counter (foldl (fun s k => counter_get k s) s l) = internal_counter s + Z.of_nat (length l)).
  { clear. induction l as [|j l IH]; intros s P B; cbn [foldl length] in *; [split; [done|lia]|]. rewrite Nat2Z.inj_succ in *.
    assert (E : internal_counter (counter_get j s) = internal_counter s + 1).
    { unfold counter_get. case_goal; simpl; apply wrap_s_small; unfold fits_s; lia. }
    destruct (IH (counter_get j s)) as [A C]; [lia|lia|]. rewrite A, C, E. split; [|lia].
    unfold counter_get. case_goal; [bool_to_prop; lia|done]. }
  destruct (G l (counter_get k counter0)) as [A C]; [done|change (internal_counter (counter_get k counter0)) with 1; lia|]. rewrite A, C. split_and!; [done|done|].
  change (internal_counter (counter_get k counter0)) with 1. unfold counter_check, show_signed.
  rewrite (proj2 (Z.ltb_ge _ _)) by lia. rewrite decimal_to_string by lia. unfold LOG_THROW_IF.
  destruct l as [|j l]; [by split|]. split; [done|]. intros _. cbn [length]. by rewrite (proj2 (Z.eqb_neq _ _)) by lia.
Qed.

(** ** The test of the backoff *)

(** [operator<<] of a backoff. *)
Definition put_backoff (b : reconnect_backoff) (o : std_ostream) : std_ostream :=
  put "secs }" (put (to_string (backoff_value b)) (put "smf::reconnect_backoff{ " o)).

(** [test] of hystrix/main.cc, once the first attempt has ended. *)
Definition hystrix_check `{Seastar} (rc : reconnect_client) : outcome unit :=
  LOG_THROW_IF (negb (backoff_value (bo_ rc) =? 1)) "Must be 1 second backoff".

(** The first failed attempt leaves the backoff at one second, as the test
    demands, whatever the jitter is. *)
Lemma hystrix_passes `{Seastar} rand rc rc' :
  connect 0 reconnect_client_make = Some rc -> reconnect_failed 0 rand rc = Some rc' -> hystrix_check rc' = Ready tt.
Proof.
  unfold connect. simpl. rewrite (proj2 gate_new_spec). intros C F.
  destruct (gate_enter_open gate_new) as (g & G & _ & Cl); [apply gate_new_spec|]. rewrite G in C. injection C as <-.
  unfold reconnect_failed in F. simpl in F. rewrite lookup_insert_eq in F.
  destruct (gate_enter_open g Cl) as (g' & G' & _). rewrite G' in F. by injection F as <-.
Qed.

(** ** The tests of timeouts and backpressure *)

Definition kCoreMemory : Z := 2 ^ 20.
(** [100ms], in nanoseconds. *)
Definition kMinRequestDurationOnServer : Z := 100 * 1000000.

Section timing.
Context `{Build, GeneratedHeader, Xxhash, Seastar, DemoSchema}.

(** [Get] of the two services, after its sleep: the clock as text. *)
Definition backpressure_get (lowres_now : Z) (rec : rpc_recv_typed_context) : outcome rpc_typed_envelope :=
  Ready (named (to_string (lowres_time_now_millis lowres_now))).
Definition send_timeout_get (lowres_now : Z) (rec : rpc_recv_typed_context) : outcome rpc_typed_envelope :=
  Ready (named (to_string (lowres_time_now_millis lowres_now))).

(** The filter that logs the limits. *)
Definition debug_print_incoming_filter (c : rpc_recv_context) : outcome rpc_recv_context := Ready c.

Definition backpressure_args (rpc_port http_port : Z) : server_args :=
  mk_server_args "127.0.0.1" rpc_port http_port (Z.lor 0 rpc_server_flags_disable_http_server) false
    (mk_args 60000 (kCoreMemory + 200)).
Definition send_timeout_args (rpc_port http_port : Z) : server_args :=
  mk_server_args "127.0.0.1" rpc_port http_port (Z.lor 0 rpc_server_flags_disable_http_server) false
    (mk_args 60000 (kCoreMemory + 200)).

Definition backpressure_server (now rpc_port http_port sid get_id : Z) : server_config * managed :=
  let args := backpressure_args rpc_port http_port in
  (register_incoming_filter debug_print_incoming_filter (test_config sid get_id (backpressure_get now)),
   managed_start args (managed_make args)).
Definition send_timeout_server (now rpc_port http_port sid get_id : Z) : server_config * managed :=
  let args := send_timeout_args rpc_port http_port in
  (test_config sid get_id (send_timeout_get now), managed_start args (managed_make args)).

(** [then_wrapped] of the first test: the future [f] is not looked at. *)
Definition backpressure_wrapped (f : outcome rpc_recv_typed_context) (begin_ end_ : Z) : outcome unit :=
  LOG_THROW_IF (end_ - begin_ <=? kMinRequestDurationOnServer) "Request lasted less than expected. {}us".

(** The end of the second test: a reply is turned into an exception, and every
    exception is taken for the one that is expected. *)
Definition send_timeout_wrapped (f : outcome rpc_recv_typed_context) : outcome unit :=
  match (f ≫= fun _ => Failed (runtime_error "SHOULD HAVE TIMED OUT")) with
  | Failed _ => Ready tt
  | o => o
  end.

(** Both tests accept what they mean to refuse: a call that failed passes the
    first one when it took long enough, and a call that was answered in time
    passes the second. *)
Theorem tests_accept_everything e r begin_ end_ :
  kMinRequestDurationOnServer < end_ - begin_ ->
  backpressure_wrapped (Failed e) begin_ end_ = Ready tt /\ backpressure_wrapped (Ready r) begin_ end_ = Ready tt /\
  send_timeout_wrapped (Ready r) = Ready tt /\ send_timeout_wrapped (Failed e) = Ready tt.
Proof.
  intros L. unfold backpressure_wrapped. rewrite (proj2 (Z.leb_gt _ _)) by lia. done.
Qed.
End timing.

(** ** Examples *)
Module AppsDemo.
Import Demo.

(** Tables of one string: four bytes, then the string. *)
Definition bytes_of (s : string) : list byte := byte.of_Z <$> (Z.of_nat ∘ nat_of_ascii <$> String.list_ascii_of_string s).
Definition of_bytes (l : list byte) : string := String.string_of_list_ascii (ascii_of_nat ∘ Z.to_nat ∘ byte.unsigned <$> l).

#[local] Instance string_table : FlatTable := {|
  native_type := string; native_default := EmptyString; FlatBufferBuilder := list byte; FlatBufferBuilder0 := [];
  Pack := fun _ s => (0, [Byte.x00; Byte.x00; Byte.x00; Byte.x00] ++ bytes_of s); Finish := fun b _ => b; Release := fun b => b
|}.

Lemma string_root_long (b : list byte) : 4 <= blen b -> exists p, (if blen b <? 4 then Undefined else Ready 0) = Ready p.
Proof. intros L. rewrite (proj2 (Z.ltb_ge _ _)) by lia. eauto. Qed.
Lemma string_root_short (b : list byte) : blen b < 4 -> (if blen b <? 4 then Undefined else Ready 0) = @Undefined Z.
Proof. intros L. by rewrite (proj2 (Z.ltb_lt _ _)) by lia. Qed.

#[local] Instance string_root : FlatRoot := {|
  GetMutableRoot := fun b => if blen b <? 4 then Undefined else Ready 0;
  VerifyTable := fun _ _ => true; GetMutableRoot_long := string_root_long; GetMutableRoot_short := string_root_short
|}.

Lemma of_bytes_of s : of_bytes (bytes_of s) = s.
Proof.
  unfold of_bytes, bytes_of. rewrite <- !list_fmap_compose. rewrite <- (string_of_list_ascii_of_string s) at 2. f_equal.
  rewrite <- (list_fmap_id (list_ascii_of_string s)) at 2. apply list_fmap_ext. intros i a _. simpl.
  rewrite byte.unsigned_of_Z. unfold byte.wrap. rewrite Z.mod_small by (pose proof (nat_ascii_bounded a); lia).
  by rewrite Nat2Z.id, ascii_nat_embedding.
Qed.

#[local, refine] Instance string_schema : DemoSchema := {|
  set_name s _ := s;
  name_at _ b := match drop 4 b with [] => None | l => Some (of_bytes l) end
|}.
Proof.
  intros s N. exists 0. unfold native_table_as_buffer. simpl. rewrite drop_0. split.
  - rewrite (proj2 (Z.ltb_ge _ _)); [done|]. unfold blen. simpl. lia.
  - destruct (bytes_of s) eqn:B; [|by rewrite <- B, of_bytes_of]. destruct s; [done|discriminate].
Defined.

(** The reply to the payload of the demo client is that payload. *)
Example demo_echo_payload :
  match demo_generator "hello" with
  | Ready e =>
      match typed_method demo_server_get (received demo_addr e) with
      | Ready t => data t = Some "hello"
      | _ => False
      end
  | _ => False
  end.
Proof. vm_compute. reflexivity. Qed.

(** A thousand requests over ten connections are a hundred for each, although
    the option is described as the number per connection. *)
Example req_num_is_a_total :
  (demo_client_args demo_client_options0 (2 ^ 30) ≫= fun '(args, _) => reqs_per_channel args) = Ready 100.
Proof. vm_refl. Qed.

(** A key without a certificate: the server listens in clear text. *)
Example key_without_cert :
  has_credentials (demo_server_args (mk_server_options "127.0.0.1" 20776 20777 "server.key" EmptyString) (2 ^ 30)) = false.
Proof. vm_refl. Qed.
End AppsDemo.
