(* ===== verification/TestClients.v ===== *)
(** * What the integration tests accept

    The clients of src/src/integration_tests, as programs over the answers that
    they get: the futures of connecting, of each call, of reconnecting and of
    stopping.  A program returns 0 when its last future is ready; the theorems say
    for which answers that is. *)

From Stdlib Require Import ZArith Lia Ascii String.
From stdpp Require Import base gmap list numbers strings.
From coqutil Require Import Byte.
From S2P Require Import Prelude Header Seastar Letter Connection RecvContext Wire Printer Schema Random TypedContext Reconnect Apps.

(** [do_for_each]: the first iteration that fails ends the loop. *)
Fixpoint for_each {A} (f : A -> outcome unit) (l : list A) : outcome unit :=
  match l with [] => Ready tt | a :: l => f a ;; for_each f l end.

(** [connect().then(body).then(stop)]. *)
Definition connected_client (connect body stop : outcome unit) : outcome unit := connect ;; body ;; stop.

Lemma for_each_all {A} (f : A -> outcome unit) l : for_each f l = Ready tt <-> Forall (fun a => f a = Ready tt) l.
Proof.
  induction l as [|a l IH]; simpl; [by split|]. rewrite Forall_cons, <- IH.
  destruct (f a) as [[]| |]; simpl; [|by split; [|intros []]..]. by split; [|intros []].
Qed.

Lemma connected_client_ready c b s : connected_client c b s = Ready tt <-> c = Ready tt /\ b = Ready tt /\ s = Ready tt.
Proof. destruct c as [[]| |], b as [[]| |], s as [[]| |]; simpl; split; try done; by intros (? & ? & ?). Qed.

(** ** rpc_reconnect_with_timeout *)

(** One iteration: the text of the reply is checked; any exception, of the call or
    of the check, makes the client reconnect. *)
Definition reconnect_iteration (get : outcome string) (reconnect : outcome unit) : outcome unit :=
  match (text ← get; counter_check text) with
  | Failed _ => reconnect
  | o => o
  end.
Definition reconnect_request (connect : outcome unit) (gets : list (outcome string * outcome unit)) (stop : outcome unit) :
    outcome unit :=
  connected_client connect (for_each (fun '(get, rec) => reconnect_iteration get rec) (take 3 gets)) stop.

(** ** rpc_backpressure, rpc_send_timeout *)

(** Two calls, each with its future and the clock before and after it. *)
Definition backpressure_request (connect : outcome unit) (calls : list (outcome rpc_recv_typed_context * Z * Z))
    (stop : outcome unit) : outcome unit :=
  connected_client connect (for_each (fun '(f, b, e) => backpressure_wrapped f b e) (take 2 calls)) stop.

Definition send_timeout_request (connect : outcome unit) (get : outcome rpc_recv_typed_context) (stop : outcome unit) :
    outcome unit :=
  connected_client connect (send_timeout_wrapped get) stop.

(** ** hystrix *)

(** [test], for the client that [connect] left. *)
Definition hystrix_test `{Seastar} (connect : outcome unit) (rc : reconnect_client) (stop : outcome unit) : outcome unit :=
  connected_client connect (hystrix_check rc) stop.

(** ** rpc_multiple_remote_addrs *)

(** What one client of the dispatcher is answered: its server, and the name in the
    reply, which may be null. *)
Record remote_visit := mk_visit {
  v_addr : socket_address; v_connect : outcome unit; v_reply : outcome (option string); v_stop : outcome unit
}.
Definition remote_addr_visit (v : remote_visit) : outcome unit :=
  connected_client (v_connect v) (name ← v_reply v; remote_addr_check name (v_addr v)) (v_stop v).
Definition remote_addr_test (vs : list remote_visit) : outcome unit := for_each remote_addr_visit vs.

(** [struct ifaddrs_t], the owner of the list of [getifaddrs]: its pointer, if it is
    not null.  Moving a raw pointer copies it.  The destructor frees it; freeing
    twice is undefined. *)
Definition ifaddrs_t_make (list_ : option Z) : outcome (option Z) :=
  LOG_THROW_IF (bool_decide (list_ = None)) "failed to getifaddrs()" ;; Ready list_.
Definition ifaddrs_t_move (o : option Z) : option Z * option Z := (o, o).
Definition ifaddrs_t_destroy (addr : option Z) (freed : list Z) : outcome (list Z) :=
  match addr with
  | None => Ready freed
  | Some a => if bool_decide (a ∈ freed) then Undefined else Ready (a :: freed)
  end.

(** ** What is accepted *)

(** The tests of timeouts pass for whatever the calls return: as long as
    connecting, reconnecting and stopping succeed, the first accepts every reply,
    also the one that it means to refuse; the second needs only that its calls
    took long; the third accepts a reply as well as a timeout. *)
Theorem timeout_tests_accept gets calls get :
  Forall (fun '(g, rec) => g <> Undefined /\ rec = Ready tt) gets ->
  Forall (fun '(_, b, e) => kMinRequestDurationOnServer < e - b) calls -> get <> Undefined ->
  reconnect_request (Ready tt) gets (Ready tt) = Ready tt /\
  backpressure_request (Ready tt) calls (Ready tt) = Ready tt /\
  send_timeout_request (Ready tt) get (Ready tt) = Ready tt.
Proof.
  intros Fg Fc G. split_and!; apply connected_client_ready; (split; [done|]); (split; [|done]).
  - apply for_each_all, Forall_take. eapply Forall_impl; [exact Fg|]. intros [g rec] [N ->].
    unfold reconnect_iteration. destruct g as [t|ex|]; simpl; [|done|done]. unfold counter_check, LOG_THROW_IF.
    by repeat case_goal.
  - apply for_each_all, Forall_take. eapply Forall_impl; [exact Fc|]. intros [[f b] e] L.
    unfold backpressure_wrapped. by rewrite (proj2 (Z.leb_gt _ _)).
  - unfold send_timeout_wrapped. by destruct get.
Qed.

(** The test of the addresses passes exactly when every client connected, was told
    the address of its own server, and stopped. *)
Theorem remote_addr_test_exact vs :
  remote_addr_test vs = Ready tt <->
  Forall (fun v => v_connect v = Ready tt /\ v_stop v = Ready tt /\
    v_reply v = Ready (Some (show_ip (addr_ip (v_addr v))))) vs.
Proof.
  unfold remote_addr_test. rewrite for_each_all. apply Forall_iff. intros v. unfold remote_addr_visit.
  rewrite connected_client_ready. unfold remote_addr_check.
  destruct (v_reply v) as [[name|]| |]; simpl; [|split; intros (? & ? & ?); done..].
  rewrite ipv4_addr_to_ip_str_ip. unfold LOG_THROW_IF. destruct (String.eqb_spec name (show_ip (addr_ip (v_addr v)))) as [->|N]; simpl.
  - split; intros (? & ? & ?); done.
  - split; intros (? & ? & ?); [done|congruence].
Qed.

(** An owner that was moved, and the one that it was moved to, free the same list. *)
Lemma ifaddrs_moved_twice_freed a freed :
  a ∉ freed ->
  (ifaddrs_t_destroy (ifaddrs_t_move (Some a)).1 freed ≫= ifaddrs_t_destroy (ifaddrs_t_move (Some a)).2) = Undefined.
Proof.
  intros N. simpl. rewrite bool_decide_false by done. simpl. by rewrite bool_decide_true by left.
Qed.
